(* ===== verification/_CoqProject ===== *)
-Q . S2P
Prelude.v
Promise.v
JsString.v
Matcher.v
JsObject.v
ImageData.v
Listing.v
CodeUnits.v
Page.v
Copy.v
Async.v
View.v
Dom.v
Observe.v
Query.v
Browser.v
