(* ===== verification/Prelude.v ===== *)
(** * Dashboard Icon Browser: a verification development

    The program (TypeScript, three files under [src/src]) is a one-page
    browser application.  On load it fetches two directory listings of an
    icon repository from a CDN, turns them into an object that maps each
    icon base name to its PNG and SVG URLs, and renders a grid of the
    icons whose name contains the debounced, lower-cased search string as
    a subsequence.  Two buttons per icon copy its file names.

    The parts interact as follows.  [App] ([pages/_app.tsx]) creates the
    query client and renders the page inside its provider.  [HomePage]
    ([pages/index.tsx]) calls [useImageData] ([hooks/useImageData.ts]),
    which hands [getImageData] to the query library; the library runs it
    on mount and on reconnection and reports a status and the data.  The
    page keeps what was typed and, debounced, the search string;
    [dataFilter] selects the keys of the data; the returned tree has one
    card per key, whose buttons call [copyHandler].

    ** The parts of the program and the files that model them

    - [Prelude] (this file): the notation scope [js_scope], the tactics
      ([case_guards], [len_simpl]) and hint databases ([js],
      [js_len]) of the development, the reference test [is_subseq] with
      its equivalence to stdpp's [sublist], [match_end] (where a greedy
      scan stops), [nub] (first occurrences), and the lemmas on
      [sublist], [filter] and accumulating folds that the components
      share.
    - [Promise]: promises, as the sources chain them: a promise is what
      it has done to the world when it settles and how it settles; [mret]
      and [≫=] ([await]), [reject], [then_], [catch] and [forEach], with
      the monad laws up to pointwise equality, a Hoare logic
      ([hoare], with the rule of invariants for [forEach]) and the
      promises that never reject.  Modelled from ECMA-262.
    - [JsString]: JavaScript strings as lists of UTF-16 code units and the
      builtins the sources call on them: [s[i]] (stdpp's [s !! i], [None]
      being [undefined]), [length], [slice], template concatenation,
      [trim], [toLowerCase], [toUpperCase], truthiness, and the regular
      expressions [/\.png$/i] and [/\.svg$/i] ([regex_suffix_ci]).  The
      builtins are not code of the repository: they are modelled from
      ECMA-262.  [toLowerCase] and [toUpperCase] are exact on code units
      below 128 and the identity above; what the page needs of
      [toLowerCase] is the class [LowerCase], against which the theorems
      of [Page] are proved and which the model discharges.  Equality up
      to the letter case of ASCII is the equivalence [ci_equiv], with
      [Proper] instances for [length], concatenation, [drop] and the test
      of a regular expression, so that it rewrites.
    - [Matcher]: the subsequence search in [dataFilter]
      ([pages/index.tsx] 33-49), loop by loop as written: [while_loop]
      advances the cursor [imgKeyIdx], [for_loop] runs over the characters
      of the search string, the labelled [continue outer] is the
      completion [ContinueOuter], [outer_body] and [outer_loop] push the
      keys that match.  [while_reads], [for_reads] and [inner_reads] are
      the same loops collecting the indices at which the key is read,
      and [outer_reads] collects them for every key of the outer loop.
      [subsequence_filter] is the contract of the specification.
    - [JsObject]: the object [data] with the property semantics that the
      sources exercise: own properties in creation order ([own]), the
      enumeration order of [Object.keys] and [for ... in] ([own_keys],
      [for_in_keys]: array indices first), [key in data] and [data[key]]
      along the prototype chain ([has_property], [resolve]), the
      assignments [data[key] = e] and [data[key].svg = url] ([assign],
      [assign_svg]) with the [__proto__] setter and the TypeError of
      strict mode, and the reads [data[key]?.png] ([optional_get]).  A
      [Store] is the part of the heap these reach; it is [clean] when
      nothing but own properties is involved.
    - [ImageData]: [hooks/useImageData.ts]: [parseSoup] (22-37) from the
      matched links on, and [getImageData] (39-78) with its two passes
      ([png_pass], [svg_pass], callbacks [png_item], [svg_item]), the
      [catch] of each pass and the log.  [image_map] is the abstract
      name-to-URLs mapping as a [gmap]; [refines] relates a store to it;
      [wf_store] is the invariant of the store.  Module [GitHubApi]
      holds the type [GitHubApiData] (6-17), which the file declares
      and never uses.
    - [Listing]: [parseSoup] from the parsed document on: the document as
      a tree ([HtmlNode], [Document] with its mode), the selector of line
      26 as syntax ([listing_selector]) with the meaning of selectors
      ([selects]) and their matcher ([matches]), [querySelectorAll] in
      tree order, and the reads [innerText] and [getAttribute('href')]
      ([anchor_of]); [links_of] gives the links that [ImageData] starts
      from.  Selectors and the DOM are modelled from their standards.
    - [CodeUnits]: what it means for a document, a response, a realm and
      the object [data] to hold strings of 16-bit code units only
      ([wf_document], [wf_response], [wf_realm], [wf_strings]).
    - [Page]: the component state of [pages/index.tsx] (12-22, 110-112):
      [inputValue], [searchString], the timer of [useDebounce] and the
      query result, as a state machine ([handle], [run], [reachable]) with
      one handler per event; and the function [dataFilter] (24-50) with
      its guards.
    - [Copy]: [copyHandler] (52-65): a button as a state machine with its
      text, its timers, the clipboard, the alerts and the error console.
    - [Async]: the two promise chains written as in the sources:
      [getImageData_async] ([hooks/useImageData.ts] 39-78: [axios_get],
      [png_then], [svg_then], [log_catch]) over the object [data] and the
      trace of requests sent and lines logged ([IOEvent], [console_of],
      [requests_of]), and [copyHandler_async] ([pages/index.tsx] 53-64:
      [writeText], [copied], [failed]) over the button; the URLs of
      lines 19-20, the [Network], and how [axios] settles on the answer of
      the server ([axios_settle]).  The query function of [Query] runs
      [getImageData_async]; [getImageData] of [ImageData] is the direct
      definition that the chain is proved equal to.  The handler of a
      button returns when its chain is built and the reactions run when
      the browser settles the promise: [Button] is a button with the
      promises that its clicks have started, [press] the click (lines
      52-54, a [TypeError] where the page has no clipboard), [settles]
      the reactions (lines 55-64) and [button_run] a sequence of clicks,
      settlements and milliseconds; [copyHandler] of [Copy] takes the
      click and the settlement in one step.
    - [View]: the result part of the render tree (123-167) as a function
      [render] of the state: loading, error, grid or nothing, and one
      [Card] per shown key with its two [disabled] flags and its image
      source; [click] connects a card to [copyHandler].
    - [Dom]: the tree that [HomePage] returns (67-170), element by
      element and prop by prop ([HomePage_tree], built from [head_node],
      [header_node], [search_node] with [input_node], and
      [results_node] with [loading_node], [error_node], [grid_node] and
      [card_node]); the handlers of the source are the prop values
      [VOnChange] and [VOnClick], which [fire_change] and [fire_click]
      dispatch to [onChange] of [Page] and [copyHandler] of [Copy].
      [check] is the discipline of HTML and React on such a tree;
      [view_of] reads the abstract view of [View] back from it.
    - [Observe]: what the page can tell of the object [data]: it reads
      [Object.keys(data)] (line 30), [for ... in] (line 35) and the two
      fields of the keys it shows (lines 139, 146, 155).  Stores that
      agree on these have the same view ([same_view], the equivalence
      [≡] on stores, lifted to the result of the query, to the state of
      the page and to its events); stores that differ only in what line
      66 of [hooks/useImageData.ts] wrote on a builtin method are equal
      [up_to_methods].  Both come with the [Proper] instances of the
      operations that respect them.
    - [Query]: [useImageData] ([hooks/useImageData.ts] 80-87) with the
      options of [pages/index.tsx] line 14;
      the query of the library as a state machine ([Session],
      [query_handle]: settling, focus, online, offline) modelled from the
      documentation of TanStack Query 5; the page together with its
      session ([app_handle], [app_reachable]); and [App]
      ([pages/_app.tsx]) with the cache of its client as a [gmap].
      What the session needs of its function is the class [Resolving]
      (the function never rejects), which [Async] discharges for
      [getImageData].
    - [Browser]: the components together: the page with its session, the
      tree it renders ([tree_of]) and a [CopyState] for every mounted
      button that was clicked, by key and extension.  Typing and clicks
      go through the input and the buttons of the tree as it is
      ([browser_handle], [clicks], guarded by [valid]); a re-render
      unmounts the buttons that are gone ([rerender]); a millisecond
      passes for the debounce and for every button ([passes]).
      [app_events] gives the events of a run that the page and its
      query see.

    ** What the theorems show

    - Matcher: termination of both inner loops within the fuel their
      callers pass; the behaviour of the [while] loop on both exits; the
      cursor walk decides [sublist] ([matcher_sound_complete]) and ends
      at the shortest prefix of the key that contains the search string
      ([inner_loops_cursor]); the outer loop is the contract
      ([outer_loop_refines_spec]), hence a sublist of the keys, antitone
      in the search string, idempotent; the key is read at consecutive
      indices and never beyond its length ([inner_reads_bound]), and at
      its length exactly when a proper prefix of the search string has
      used up the key ([inner_reads_past_end]); over the whole filter
      no position of a
      key is read twice ([outer_reads_NoDup]) and the reads are at most
      the code units of the keys plus one per key
      ([outer_reads_linear]).
    - JsObject: [Object.keys] is a permutation of the created keys, with
      array indices first and the others in creation order; an array
      index is below 2^32 - 1 and names one key only, so the indices of
      [Object.keys] are strictly ascending
      ([own_keys_indices_ascending], [array_index_bounds]); assignment
      and lookup agree; what the setter of [__proto__] does; the keys
      that [for ... in] visits beyond [Object.keys] are the fields of an
      entry ([for_in_keys_inherited]).
    - ImageData: [parseSoup] as a filter and map; the invariant
      [wf_store] for all inputs; on hazard-free listings (no key names a
      property of [Object.prototype]) refinement of [image_map], the
      entry under each key (the last listed file of a kind wins), soundness
      and completeness with respect to the listings, and the keys in
      listing order at their first occurrence; for all listings, stored
      URLs are truthy; the tests of lines 47 and 62 do not depend on
      the letter case of a name, and lower-casing a name lower-cases its
      key ([rgx_ci_equiv], [key_of_toLowerCase]); the error paths
      (rejected requests; the [TypeError] of a file named [png.svg]
      after [__proto__.png], which cuts the second pass short and
      loses the rest of the listing, [getImageData_svg_abort]); what
      happens on the hazardous names
      ([svg_item_method_dropped], [svg_item_proto_pollutes],
      [png_item_proto_replaces]).
    - Listing: the matcher decides the meaning of selectors
      ([matches_sound_complete]); [querySelectorAll] returns, in tree
      order, exactly the elements that the selector represents; for the
      selector of line 26 these are the [a] elements whose parent is a
      [td] of the class [name] below an element of the class [listing]
      ([links_of_listing_selector]); a listing page is read back row by
      row, whatever its heading holds outside a listing
      ([links_of_listing_page]); the mode of the document decides whether
      the case of a class name matters.
    - CodeUnits: from a document of 16-bit strings [parseSoup] returns
      16-bit names and URLs; every key and URL that [getImageData]
      stores, everything it leaves on [Object.prototype] and every key
      that [for ... in] enumerates is a 16-bit string
      ([getImageData_code_units], [for_in_keys_code_units]); the case
      mappings do not wrap around ([case_mapping_bounds]).
    - Page: [dataFilter] refines the contract on clean data, returns the
      keys in listing order when no base name is a number
      ([dataFilter_listing_order]) and the numbers first otherwise
      ([dataFilter_indices_first]), and is the empty list without data;
      it is monotone exactly when [data] inherits no enumerable key
      ([dataFilter_monotone_iff]), which a file named [__proto__.png]
      makes it do ([dataFilter_proto_png_shown]); the invariant of the
      state machine; the
      debounce delivers after 750 ms of silence and not earlier; upper-case
      letters of keys never match; the empty key is hidden by every
      search.
    - Copy: the invariant of a button, the text restored one second after
      a click, the clipboard written only by successful clicks, and the
      interference of the timers of two clicks.
    - Async: the chain of [getImageData] is the direct definition
      ([getImageData_async_run]); the promise of
      [getImageData] is never rejected, in any world, which is why the
      query never fails; the trace of a call is the first request, the
      log of the first chain, the second request, the log of the second
      chain ([getImageData_async_trace]), so the two requests are always
      sent, and one after the other has been answered and processed; a
      call writes at most two lines to the console (by the Hoare logic);
      what both callbacks keep of the object holds at every step of the
      chains, whether a request fails or a callback throws
      ([hoare_getImageData_async_data]), so the object stays well formed
      from any world ([getImageData_async_wf]);
      an answer with a status outside 200-299 is
      a logged line and not an error of the page; the button with the
      click and the reaction apart in time is the button of [Copy] on
      the settlements, each taken as a click when it happens
      ([button_run_refines]), hence on the clicks themselves when every
      promise is settled at once ([button_run_at_once_run]), and the
      invariant of [Copy] holds of it ([button_run_inv]); without a
      clipboard the exception leaves [copyHandler], once per click, and
      nothing tells the user.
    - View: the grid end to end from the listings to the cards; every
      card has an image and an enabled button; a click copies a listed
      name up to letter case; in every state the page reaches the React
      keys are distinct and the error box is not rendered; the blank
      page; the card of a polluted prototype.
    - Dom: the tree is well formed in every state the page reaches
      ([HomePage_tree_wf]), and a checked tree has no interactive element
      below a link or a button; the container of the results reads
      back as the view of [View] ([view_of_results], which [Browser]
      uses); the input shows [inputValue] and its
      change is [onChange]; the buttons of a card are the two of [View]
      and a click on them is [click]; the handlers in the tree are these
      and no others.
    - Observe: every operation of the data builder, and [getImageData]
      as a whole, respects [up_to_methods], which is finer than having
      the same view; [dataFilter], [render], the tree and the state
      machine of the page respect the view, so pages that hold data
      with the same view show the same tree through the same events
      ([run_same_view]); a file named after a builtin method writes its
      URL on the method and leaves the store as it was up to the methods
      ([svg_item_method_unseen]); hence the page is blind to what
      earlier calls left on the methods ([page_blind_to_methods]),
      unlike what they left on [Object.prototype] itself.
    - Query: the invariant of a session for any options; the page with
      its session refines [page_reachable] of [View], so that the
      theorems of [View] and [Dom] hold of every state of the running
      page ([app_refines_page]); a query whose function is [Resolving]
      never fails nor retries, under any options
      ([resolving_never_fails]), so the query of the page never does
      ([app_never_fails]), while a function that rejects exhausts the
      retries ([rejecting_fails]); the
      focus never refetches under the options of the page; loading online
      and offline; the pollution of [Object.prototype] persists across
      refetches; [App] keeps its client and the page starts from an empty
      cache; the page with its query is the page and the session side by
      side, each on its own events ([app_run_interleaving]), so there is
      no race between the user and the network ([app_race_free]);
      sessions that differ at most in results with the same view and in
      what their realm has on the builtin methods stay so under every
      event ([query_handle_proper], [app_run_proper]), so the running
      page renders the same tree, refetches included
      ([app_blind_to_methods]).
    - Browser: the invariant of the whole ([browser_reachable_browser_inv]);
      from the two pages of the CDN to the grid: loaded online and
      answered with listing pages, after a keystroke and 750 ms the tree
      shows the cards that the mapping of the listings prescribes for
      the keys that the input selects ([listing_to_grid]);
      from the listings to the clipboard: a click on an enabled button of
      the tree copies the name of a listed file whose key the search
      string selects ([click_copies_listed_file]); from the keystroke to
      the grid: 750 ms after the input is set the tree shows the cards of
      exactly the keys that the lower-cased input selects
      ([search_shows_matches]); one second after a click the button is
      restored and the page unchanged ([click_feedback_restores]); the
      page and its query in the browser are those of [Query]
      ([browser_run_app]), so the tree does not depend on the order of
      keystrokes and answers of the network, nor on the clicks
      ([browser_order_irrelevant]); browsers whose pages and sessions
      cannot be told apart show the same tree, buttons and clipboard
      through the same events ([browser_blind_to_methods]).

    ** Bounds and fuel

    [while_loop] and [for_loop] are not structurally recursive, take a
    [fuel : nat] and return [None] when it runs out.  [for_loop] passes
    [S (length imgKey)] to [while_loop] and [inner_loops] passes
    [S (length searchString)] to [for_loop]; [while_loop_terminates] and
    [for_loop_terminates] prove that these suffice and that more fuel
    never changes a result, so [None] is never observed by [outer_body].
    [while_reads] and [for_reads] take the same fuel.
    Time is counted in milliseconds: [DEBOUNCE_MS] is 750 and [COPIED_MS]
    is 1000, as in the source.  Code units are [N], unbounded; [wf_string]
    states the 16-bit bound, and [CodeUnits] proves that the data builder
    keeps it.  The cursor and the
    read indices are [nat]; [inner_reads_bound] bounds them by the length
    of the key plus one, far inside the integers that a JavaScript number
    represents exactly.  The failure count of a session is bounded by the
    retries of the options plus one ([session_inv]).

    ** What is not modelled

    Every line of the three source files is modelled, the imports and
    the blank lines apart.  What follows is code of the libraries and of
    the browser that the sources call, modelled from their specifications
    as far as the sources exercise them, and left out beyond that because
    no code of the repository could be checked against a model of it.

    The network is an input ([Network]: the response to each URL, or the
    answer of the server that [axios] settles on); the transform of
    [axios] that parses a body which is JSON is not modelled.  Promises
    are modelled for chains that are awaited or left alone before
    anything else happens, and for [copyHandler] with the settlement
    of [writeText] as an event of its own ([Button] in [Async]); the
    interleaving of the reactions of [getImageData] with other events is
    the business of the query library and is an event of the session.  Of
    [DOMParser]: the tokenizer and the tree builder, from the body of a
    response to the tree ([Listing] starts from the tree); of selectors:
    everything but type and class selectors and the two combinators that
    line 26 uses.  Of the query library: the
    delays between retries, [staleTime] and [gcTime] other than their
    defaults, [refetchInterval], and several observers of one query.
    React's reconciliation and the DOM that it maintains (the tree is the
    one that [HomePage] returns; the text that [copyHandler] writes into a
    button is state of [Copy]); the clipboard of the browser (the outcome
    of [writeText] is an input); the CSS that the class names select; the
    font of [next/font] (its class name is a variable).  The heap is
    modelled as far as [data] reaches: properties other than [png] and
    [svg] that a page script could add to [Object.prototype] are outside
    the model.  Of the case mappings of strings: everything above code
    unit 127, where the builtins follow the tables of Unicode and, for
    the final sigma of Greek, the context of a letter; the sources apply
    [toUpperCase] to the literals ['png'] and ['svg'] only, and the
    theorems on [toLowerCase] are proved of any function of the class
    [LowerCase]. *)

From stdpp Require Export base tactics option list.
From Stdlib Require Export NArith ZArith Lia.

(** The notations of the development live in [js_scope]; [JsString]
    opens it. *)
Declare Scope js_scope.
Delimit Scope js_scope with js.

(** ** Hint databases

    [js] collects the resolution hints on [sublist] and list lookup that
    close the routine side goals; [js_len] rewrites lengths. *)

Create HintDb js discriminated.
#[export] Hint Resolve sublist_nil_l sublist_skip sublist_cons : js.
#[export] Hint Resolve lookup_ge_None_2 lookup_lt_is_Some_2 : js.
#[export] Hint Constructors NoDup : js.
Create Rewrite HintDb js_len.
#[export] Hint Rewrite @length_app @length_drop @length_take @length_fmap
  @length_nil @length_cons : js_len.

(** ** Tactics *)

(** [case_guards] splits on every [decide] and [match] guard of the goal,
    the way the modelled code branches, and discards impossible cases. *)
Ltac case_guards :=
  repeat (first [case_decide | case_match]; simplify_eq/=; try done; try lia).

(** [len_simpl] normalises list lengths and closes linear goals. *)
Ltac len_simpl := autorewrite with js_len in *; simpl in *; try lia.

(** ** Accumulating loops

    A JavaScript loop that conditionally [push]es onto an array is a left
    fold whose accumulator grows at the end.  [push_if] is one iteration. *)

Definition push_if {A} (P : A → Prop) `{!∀ x, Decision (P x)}
    (acc : list A) (x : A) : list A :=
  if decide (P x) then acc ++ [x] else acc.

(** ** The reference subsequence test

    [is_subseq q k] scans [k] once from the left and consumes the head of
    [q] at its first occurrence: the two-pointer test of the specification,
    by structural recursion on [k]. *)

Fixpoint is_subseq {A} `{EqDecision A} (q k : list A) : bool :=
  match q, k with
  | [], _ => true
  | _ :: _, [] => false
  | c :: q', x :: k' =>
      if decide (x = c) then is_subseq q' k' else is_subseq q k'
  end.

(** [match_end q k]: the length of the shortest prefix of [k] of which [q]
    is a subsequence, if there is one: where the cursor of a greedy
    left-to-right scan stops. *)
Fixpoint match_end {A} `{EqDecision A} (q k : list A) : option nat :=
  match q, k with
  | [], _ => Some 0
  | _ :: _, [] => None
  | c :: q', x :: k' =>
      S <$> (if decide (x = c) then match_end q' k' else match_end q k')
  end.

(** ** First occurrences

    The keys of an object that is filled by assignments are the assigned
    keys in the order of their first occurrence. *)

(** A key that is new goes last; one that exists keeps its place. *)
Definition push_new {A} `{EqDecision A} (acc : list A) (x : A) : list A :=
  if decide (x ∈ acc) then acc else acc ++ [x].

(** The elements of a list in the order of their first occurrence. *)
Fixpoint nub {A} `{EqDecision A} (l : list A) : list A :=
  match l with
  | [] => []
  | x :: l => x :: filter (λ y, y ≠ x) (nub l)
  end.

(** ** Lemmas on [sublist] *)

Section sublist.
Context {A : Type}.
Implicit Types (x y : A) (l k q : list A).

Lemma sublist_cons_eq x l k :
  x :: l `sublist_of` x :: k ↔ l `sublist_of` k.
Proof.
  split; [|by apply sublist_skip].
  rewrite sublist_cons_r. intros [H|(l' & ? & ?)]; simplify_eq; [|done].
  etrans; [|done]. by apply sublist_cons.
Qed.

Lemma sublist_cons_ne x y l k :
  x ≠ y → x :: l `sublist_of` y :: k ↔ x :: l `sublist_of` k.
Proof.
  intros Hne. split; [|by apply sublist_cons].
  rewrite sublist_cons_r. by intros [H|(l' & ? & ?)]; simplify_eq.
Qed.

Lemma sublist_cons_nil x l : ¬ (x :: l `sublist_of` []).
Proof. by intros ?%sublist_nil_r. Qed.

Lemma sublist_app_l_weaken l q k : l ++ q `sublist_of` k → l `sublist_of` k.
Proof. intros H. etrans; [|done]. by apply sublist_inserts_r. Qed.

Lemma sublist_drop_weaken q k n : q `sublist_of` drop n k → q `sublist_of` k.
Proof. intros H. etrans; [done|]. apply sublist_drop. Qed.

Lemma is_subseq_nil_l `{EqDecision A} k : is_subseq [] k = true.
Proof. by destruct k. Qed.

Lemma is_subseq_cons_eq `{EqDecision A} x q k :
  is_subseq (x :: q) (x :: k) = is_subseq q k.
Proof. simpl. by rewrite decide_True. Qed.

Lemma is_subseq_cons_ne `{EqDecision A} x y q k :
  y ≠ x → is_subseq (x :: q) (y :: k) = is_subseq (x :: q) k.
Proof. intros. simpl. by rewrite decide_False. Qed.

Lemma is_subseq_sublist `{EqDecision A} q k :
  is_subseq q k = true ↔ q `sublist_of` k.
Proof.
  revert q. induction k as [|y k IH]; intros [|x q]; simpl.
  - done.
  - split; [done|]. by intros ?%sublist_cons_nil.
  - split; [|done]. intros _. apply sublist_nil_l.
  - case_decide as Hxy; subst; rewrite IH.
    + by rewrite sublist_cons_eq.
    + rewrite sublist_cons_ne; [done|congruence].
Qed.

End sublist.

Lemma bind_nil {A B} (f : A → list B) (l : list A) :
  Forall (λ x, f x = []) l → l ≫= f = [].
Proof. induction 1 as [|x l Hx _ IH]; [done|]. by rewrite bind_cons, Hx. Qed.

Lemma Forall_filter {A} (P Q : A → Prop) `{!∀ x, Decision (Q x)} l :
  Forall P l → Forall P (filter Q l).
Proof.
  rewrite !Forall_forall. intros Hl x [_ ?]%list_elem_of_filter. auto.
Qed.

Lemma sublist_bind {A B} (f g : A → list B) (l : list A) :
  Forall (λ x, f x `sublist_of` g x) l → l ≫= f `sublist_of` l ≫= g.
Proof.
  induction 1 as [|x l ? _ IH]; [done|]. rewrite !bind_cons.
  by apply sublist_app.
Qed.

#[export] Instance sublist_dec {A} `{EqDecision A} : RelDecision (@sublist A).
Proof.
  refine (λ q k, cast_if (decide (is_subseq q k = true)));
    by rewrite <-is_subseq_sublist.
Defined.

(** ** Lemmas on accumulating folds and [filter] *)

(** In an append, what is in the first list comes before what is in the
    second. *)
Lemma elem_of_app_lookup_lt {A} (l1 l2 : list A) (a b : A) :
  a ∈ l1 → b ∈ l2 →
  ∃ i j, (l1 ++ l2) !! i = Some a ∧ (l1 ++ l2) !! j = Some b ∧ i < j.
Proof.
  intros [i Hi]%list_elem_of_lookup_1 [j Hj]%list_elem_of_lookup_1.
  exists i, (length l1 + j). split_and!.
  - by apply lookup_app_l_Some.
  - by rewrite lookup_app_r, Nat.add_comm, Nat.add_sub by lia.
  - apply lookup_lt_Some in Hi. lia.
Qed.

Lemma foldl_preserves {A B} (P : B → Prop) (f : B → A → B) l b :
  (∀ b x, P b → P (f b x)) → P b → P (foldl f b l).
Proof. intros Hf. revert b. induction l; simpl; auto. Qed.

Lemma foldl_preserves_Forall {A B} (P : B → Prop) (Q : A → Prop)
    (f : B → A → B) l b :
  Forall Q l → (∀ b x, Q x → P b → P (f b x)) → P b → P (foldl f b l).
Proof. intros Hl Hf. revert b. induction Hl; simpl; auto. Qed.

Lemma foldl_fun_ext {A B} (f g : A → B → A) (l : list B) (a : A) :
  (∀ a x, f a x = g a x) → foldl f a l = foldl g a l.
Proof.
  intros Hfg. revert a. induction l as [|x l IH]; intros a; simpl; [done|].
  by rewrite Hfg, IH.
Qed.

Section push.
Context {A : Type} (P : A → Prop) `{!∀ x, Decision (P x)}.
Implicit Types (x : A) (l acc : list A).

Lemma foldl_push_if l acc : foldl (push_if P) acc l = acc ++ filter P l.
Proof.
  revert acc. induction l as [|x l IH]; intros acc; simpl.
  - by rewrite app_nil_r.
  - rewrite IH, filter_cons. unfold push_if.
    case_decide; [by rewrite <-app_assoc|done].
Qed.

Lemma filter_all l : Forall P l → filter P l = l.
Proof.
  induction 1 as [|x l ? ? IH]; [done|].
  by rewrite filter_cons_True, IH.
Qed.

Lemma filter_none l : Forall (λ x, ¬ P x) l → filter P l = [].
Proof.
  induction 1 as [|x l ? ? IH]; [done|]. by rewrite filter_cons_False.
Qed.

Lemma filter_idemp l : filter P (filter P l) = filter P l.
Proof. by apply list_filter_filter_l. Qed.

End push.

Lemma filter_antitone {A} (P Q : A → Prop)
    `{!∀ x, Decision (P x), !∀ x, Decision (Q x)} (l : list A) :
  (∀ x, P x → Q x) → filter P l `sublist_of` filter Q l.
Proof.
  intros HPQ. rewrite <-(list_filter_filter_l P Q l HPQ).
  apply sublist_filter.
Qed.

(** A list whose elements all satisfy [P] is a subsequence of [k] exactly
    when it is one of the elements of [k] that satisfy [P]. *)
Lemma sublist_filter_r {A} (P : A → Prop) `{!∀ x, Decision (P x)}
    (s k : list A) :
  Forall P s → s `sublist_of` k ↔ s `sublist_of` filter P k.
Proof.
  intros Hs. split; [|intros; etrans; [done|apply sublist_filter]].
  intros Hsub. induction Hsub as [|x s k _ IH|x s k _ IH];
    [done|apply Forall_cons in Hs as [? ?]|];
    rewrite filter_cons; [rewrite decide_True by done|case_decide];
    auto with js.
Qed.

Lemma filter_comm {A} (P Q : A → Prop)
    `{!∀ x, Decision (P x), !∀ x, Decision (Q x)} (l : list A) :
  filter P (filter Q l) = filter Q (filter P l).
Proof.
  rewrite !list_filter_filter. apply list_filter_iff. intros x; tauto.
Qed.

#[export] Hint Resolve sublist_filter NoDup_filter : js.

(** ** Lemmas on first occurrences *)

Section first_occurrences.
Context {A : Type} `{EqDecision A}.
Implicit Types (x y : A) (l acc : list A).

Lemma elem_of_nub l x : x ∈ nub l ↔ x ∈ l.
Proof.
  induction l as [|y l IH]; simpl; [done|].
  rewrite !elem_of_cons, list_elem_of_filter, IH.
  destruct (decide (x = y)); tauto.
Qed.

Lemma NoDup_nub l : NoDup (nub l).
Proof.
  induction l as [|y l IH]; simpl; [constructor|].
  apply NoDup_cons. split; [|by apply NoDup_filter].
  rewrite list_elem_of_filter. tauto.
Qed.

Lemma nub_sublist l : nub l `sublist_of` l.
Proof.
  induction l as [|y l IH]; simpl; [done|].
  apply sublist_skip. etrans; [apply sublist_filter|done].
Qed.

Lemma nub_NoDup_id l : NoDup l → nub l = l.
Proof.
  induction 1 as [|x l Hx _ IH]; simpl; [done|].
  rewrite IH. f_equal. apply filter_all, Forall_forall. by intros y ? ->.
Qed.

Lemma foldl_push_new acc l :
  foldl push_new acc l = acc ++ filter (λ x, x ∉ acc) (nub l).
Proof.
  revert acc. induction l as [|x l IH]; intros acc; simpl.
  { by rewrite app_nil_r. }
  rewrite IH, filter_cons, list_filter_filter. unfold push_new.
  destruct (decide (x ∈ acc)) as [Hx|Hx].
  - rewrite decide_False by tauto. f_equal. apply list_filter_iff.
    intros y. split; [|tauto]. intros Hy. split; [done|]. by intros ->.
  - rewrite decide_True by done. rewrite <-app_assoc. simpl. do 2 f_equal.
    apply list_filter_iff. intros y.
    rewrite not_elem_of_app, list_elem_of_singleton. tauto.
Qed.

Lemma foldl_push_new_nil l : foldl push_new [] l = nub l.
Proof.
  rewrite foldl_push_new. simpl. apply filter_all, Forall_forall.
  intros x _. apply not_elem_of_nil.
Qed.

End first_occurrences.

(** ** Where a greedy scan stops *)

Section match_end.
Context {A : Type} `{EqDecision A}.
Implicit Types (x c : A) (q k : list A) (n m : nat).

Lemma match_end_nil_l k : match_end [] k = Some 0.
Proof. by destruct k. Qed.

Lemma match_end_cons_eq x q k :
  match_end (x :: q) (x :: k) = S <$> match_end q k.
Proof. simpl. by rewrite decide_True. Qed.

Lemma match_end_cons_ne x c q k :
  x ≠ c → match_end (c :: q) (x :: k) = S <$> match_end (c :: q) k.
Proof. intros. simpl. by rewrite decide_False. Qed.

Lemma match_end_is_subseq q k :
  is_Some (match_end q k) ↔ is_subseq q k = true.
Proof.
  revert q. induction k as [|x k IH]; intros [|c q]; simpl;
    rewrite ?fmap_is_Some; [by eauto|by split; [intros [? ?]|]|by eauto|].
  case_decide; apply IH.
Qed.

(** The prefix of length [match_end q k] contains [q]. *)
Lemma match_end_sublist q k n :
  match_end q k = Some n → q `sublist_of` take n k.
Proof.
  revert q n. induction k as [|x k IH]; intros [|c q] n; simpl;
    try done; auto with js.
  intros (n' & Hn' & ->)%fmap_Some. simpl. case_decide; subst; auto with js.
Qed.

(** No shorter prefix does. *)
Lemma match_end_least q k n m :
  match_end q k = Some n → q `sublist_of` take m k → n ≤ m.
Proof.
  revert q n m. induction k as [|x k IH]; intros [|c q] n m; simpl;
    try done; try (intros [= <-]; lia).
  intros (n' & Hn' & ->)%fmap_Some.
  destruct m as [|m]; simpl; [by intros ?%sublist_cons_nil|].
  intros Hsub. apply le_n_S. case_decide; subst.
  - apply (IH q); [done|]. by apply sublist_cons_eq in Hsub.
  - apply (IH (c :: q)); [done|].
    by apply sublist_cons_ne in Hsub.
Qed.

(** [match_end] is the least length of a prefix that contains [q]. *)
Lemma match_end_Some q k n :
  match_end q k = Some n
  ↔ q `sublist_of` take n k ∧ ∀ m, q `sublist_of` take m k → n ≤ m.
Proof.
  split; [eauto using match_end_sublist, match_end_least|].
  intros [Hsub Hleast].
  assert (is_Some (match_end q k)) as [n' Hn'].
  { apply match_end_is_subseq, is_subseq_sublist.
    etrans; [done|apply sublist_take]. }
  rewrite Hn'. f_equal. apply Nat.le_antisymm.
  - by eapply match_end_least.
  - by eapply Hleast, match_end_sublist.
Qed.

End match_end.
