(* ===== verification/Promise.v ===== *)
(** * Promises

    Both sources chain promises: [getImageData]
    ([src/src/hooks/useImageData.ts] 41-75) awaits
    [axios.get(url).then(...).catch(...)] twice, and [copyHandler]
    ([src/src/pages/index.tsx] 53-64) chains [then] and [catch] on
    [navigator.clipboard.writeText(...)].  In both, nothing else runs
    between the settling of a promise and the reaction chained to it, so
    a promise is modelled by what it has done to the world when it
    settles and by how it settles: a function from the world [W] to a
    value or a reason [R] of rejection, and the world after.

    [mret] is [Promise.resolve] (and the [return] of an [async]
    function), [reject] is [Promise.reject] (and a [throw] inside a
    reaction), [then_] is [then] with one argument, which is also what
    [await] does to the rest of an [async] function, and [catch] is
    [catch].  A reaction is a function to promises: one that returns
    nothing is [mret tt] after its effects, one that throws is [reject].

    The file gives the monad with its laws up to pointwise equality, the
    laws of [catch], a Hoare logic for promises with the rule of loop
    invariants for [forEach], and the promises that never reject.
    The semantics is that of ECMA-262 (Promise objects), for chains that
    are awaited or left alone. *)

From S2P Require Import Prelude.

(** ** Definitions *)

Definition Promise (W R A : Type) : Type := W → (A + R) * W.

(** How a promise has settled. *)
Definition is_fulfilled {A R} (o : A + R) : Prop :=
  match o with inl _ => True | inr _ => False end.

#[export] Instance is_fulfilled_dec {A R} (o : A + R) :
  Decision (is_fulfilled o).
Proof. destruct o; apply _. Defined.

Section operations.
Context {W R : Type}.

#[export] Instance promise_ret : MRet (Promise W R) := λ A v w, (inl v, w).

#[export] Instance promise_bind : MBind (Promise W R) := λ A B f p w,
  match p w with
  | (inl v, w) => f v w
  | (inr r, w) => (inr r, w)
  end.

(** [Promise.reject(r)]; [throw r] inside a reaction. *)
Definition reject {A} (r : R) : Promise W R A := λ w, (inr r, w).

(** [p.then(f)]. *)
Definition then_ {A B} (p : Promise W R A) (f : A → Promise W R B)
    : Promise W R B :=
  p ≫= f.

(** [p.catch(h)]. *)
Definition catch {A} (p : Promise W R A) (h : R → Promise W R A)
    : Promise W R A := λ w,
  match p w with
  | (inl v, w) => (inl v, w)
  | (inr r, w) => h r w
  end.

(** A statement that changes the world and completes normally. *)
Definition effect (f : W → W) : Promise W R unit := λ w, (inl tt, f w).

(** Reading the world. *)
Definition inspect {A} (f : W → A) : Promise W R A := λ w, (inl (f w), w).

(** [l.forEach(f)]: the callback is called for each element in order;
    when a call throws, the rest is not visited. *)
Fixpoint forEach {A} (l : list A) (f : A → Promise W R unit)
    : Promise W R unit :=
  match l with
  | [] => mret tt
  | x :: l => f x ≫= λ _, forEach l f
  end.

(** Promises are compared by what they do: in every world. *)
#[export] Instance promise_equiv {A} : Equiv (Promise W R A) :=
  pointwise_relation W eq.

(** The promise is fulfilled, whatever the world. *)
Definition never_rejects {A} (p : Promise W R A) : Prop :=
  ∀ w, is_fulfilled (p w).1.

(** [hoare P p Q]: from a world that satisfies [P], the promise settles
    in a way and a world that satisfy [Q]. *)
Definition hoare {A} (P : W → Prop) (p : Promise W R A)
    (Q : A + R → W → Prop) : Prop :=
  ∀ w, P w → Q (p w).1 (p w).2.

End operations.

Arguments reject {W R A} r w /.
Arguments effect {W R} f w /.
Arguments inspect {W R A} f w /.

(** ** The laws *)

Section laws.
Context {W R : Type}.
Implicit Types (w : W) (r : R).

#[export] Instance promise_equivalence {A} :
  Equivalence (≡@{Promise W R A}).
Proof. unfold equiv, promise_equiv. apply _. Qed.

#[export] Instance promise_bind_proper {A B} :
  Proper (pointwise_relation A (≡) ==> (≡) ==> (≡@{Promise W R B})) mbind.
Proof.
  intros f g Hfg p q Hpq w. unfold mbind, promise_bind. rewrite (Hpq w).
  destruct (q w) as [[v|r] w']; [apply Hfg|done].
Qed.

#[export] Instance catch_proper {A} :
  Proper ((≡) ==> pointwise_relation R (≡) ==> (≡@{Promise W R A})) catch.
Proof.
  intros p q Hpq h k Hhk w. unfold catch. rewrite (Hpq w).
  destruct (q w) as [[v|r] w']; [done|apply Hhk].
Qed.

Lemma promise_left_id {A B} (v : A) (f : A → Promise W R B) :
  mret v ≫= f ≡ f v.
Proof. done. Qed.

Lemma promise_right_id {A} (p : Promise W R A) : p ≫= mret ≡ p.
Proof.
  intros w. unfold mbind, promise_bind. by destruct (p w) as [[v|r] w'].
Qed.

Lemma promise_assoc {A B C} (p : Promise W R A) (f : A → Promise W R B)
    (g : B → Promise W R C) :
  (p ≫= f) ≫= g ≡ p ≫= (λ v, f v ≫= g).
Proof.
  intros w. unfold mbind, promise_bind. by destruct (p w) as [[v|r] w'].
Qed.

(** A rejection skips the reactions of [then]. *)
Lemma then_reject {A B} r (f : A → Promise W R B) :
  then_ (reject r) f ≡ reject r.
Proof. done. Qed.

(** A fulfilment skips the reaction of [catch]. *)
Lemma catch_ret {A} (v : A) (h : R → Promise W R A) : catch (mret v) h ≡ mret v.
Proof. done. Qed.

Lemma catch_reject {A} r (h : R → Promise W R A) : catch (reject r) h ≡ h r.
Proof. done. Qed.

Lemma catch_rethrow {A} (p : Promise W R A) : catch p reject ≡ p.
Proof. intros w. unfold catch. by destruct (p w) as [[v|r] w']. Qed.

Lemma catch_assoc {A} (p : Promise W R A) (h k : R → Promise W R A) :
  catch (catch p h) k ≡ catch p (λ r, catch (h r) k).
Proof. intros w. unfold catch. by destruct (p w) as [[v|r] w']. Qed.

Lemma forEach_app {A} (l k : list A) (f : A → Promise W R unit) :
  forEach (l ++ k) f ≡ forEach l f ≫= λ _, forEach k f.
Proof.
  induction l as [|x l IH]; simpl; [done|].
  rewrite promise_assoc. by setoid_rewrite IH.
Qed.

End laws.

(** ** Promises that never reject *)

Section never_rejects.
Context {W R : Type}.
Implicit Types (w : W) (r : R).

Lemma never_rejects_ret {A} (v : A) : never_rejects (mret v : Promise W R A).
Proof. by intros w. Qed.

Lemma never_rejects_effect (f : W → W) :
  never_rejects (effect f : Promise W R unit).
Proof. by intros w. Qed.

Lemma never_rejects_inspect {A} (f : W → A) :
  never_rejects (inspect f : Promise W R A).
Proof. by intros w. Qed.

Lemma never_rejects_bind {A B} (p : Promise W R A) (f : A → Promise W R B) :
  never_rejects p → (∀ v, never_rejects (f v)) → never_rejects (p ≫= f).
Proof.
  intros Hp Hf w. specialize (Hp w). unfold mbind, promise_bind.
  destruct (p w) as [[v|r] w']; [apply Hf|by destruct Hp].
Qed.

(** A chain that ends in a [catch] whose reaction never rejects never
    rejects, whatever comes before. *)
Lemma never_rejects_catch {A} (p : Promise W R A) (h : R → Promise W R A) :
  (∀ r, never_rejects (h r)) → never_rejects (catch p h).
Proof.
  intros Hh w. unfold catch. destruct (p w) as [[v|r] w']; [done|apply Hh].
Qed.

End never_rejects.

#[export] Hint Resolve never_rejects_ret never_rejects_effect
  never_rejects_inspect never_rejects_bind never_rejects_catch : js.

(** ** The rules of the logic *)

Section hoare.
Context {W R : Type}.
Implicit Types (w : W) (r : R) (P I : W → Prop).

Lemma hoare_consequence {A} P P' (Q Q' : A + R → W → Prop)
    (p : Promise W R A) :
  (∀ w, P' w → P w) → (∀ o w, Q o w → Q' o w) →
  hoare P p Q → hoare P' p Q'.
Proof. unfold hoare. auto. Qed.

Lemma hoare_ret {A} (Q : A + R → W → Prop) (v : A) :
  hoare (Q (inl v)) (mret v) Q.
Proof. by intros w. Qed.

Lemma hoare_reject {A} (Q : A + R → W → Prop) r :
  hoare (Q (inr r)) (reject r) Q.
Proof. by intros w. Qed.

Lemma hoare_effect (Q : unit + R → W → Prop) (f : W → W) :
  hoare (λ w, Q (inl tt) (f w)) (effect f) Q.
Proof. by intros w. Qed.

Lemma hoare_inspect {A} (Q : A + R → W → Prop) (f : W → A) :
  hoare (λ w, Q (inl (f w)) w) (inspect f) Q.
Proof. by intros w. Qed.

(** The rule of sequence, for [then] and [await]: the reaction runs from
    the worlds in which the promise is fulfilled; a rejection passes. *)
Lemma hoare_bind {A B} P (Q : A + R → W → Prop) (Q' : B + R → W → Prop)
    (p : Promise W R A) (f : A → Promise W R B) :
  hoare P p Q → (∀ v, hoare (Q (inl v)) (f v) Q') →
  (∀ r w, Q (inr r) w → Q' (inr r) w) →
  hoare P (p ≫= f) Q'.
Proof.
  intros Hp Hf Hr w Hw. specialize (Hp w Hw). unfold mbind, promise_bind.
  destruct (p w) as [[v|r] w']; simpl in *; [by apply Hf|by apply Hr].
Qed.

(** The rule of [catch]: the reaction runs from the worlds in which the
    promise is rejected; a fulfilment passes. *)
Lemma hoare_catch {A} P (Q Q' : A + R → W → Prop)
    (p : Promise W R A) (h : R → Promise W R A) :
  hoare P p Q → (∀ r, hoare (Q (inr r)) (h r) Q') →
  (∀ v w, Q (inl v) w → Q' (inl v) w) →
  hoare P (catch p h) Q'.
Proof.
  intros Hp Hh Hv w Hw. specialize (Hp w Hw). unfold catch.
  destruct (p w) as [[v|r] w']; simpl in *; [by apply Hv|by apply Hh].
Qed.

(** The rule of invariants for [forEach]: what every call of the callback
    keeps, whether it returns or throws, the loop keeps. *)
Lemma hoare_forEach {A} I (l : list A) (f : A → Promise W R unit) :
  (∀ x, x ∈ l → hoare I (f x) (λ _, I)) →
  hoare I (forEach l f) (λ _, I).
Proof.
  induction l as [|x l IH]; intros Hf; simpl; [by intros w|].
  eapply hoare_bind; [apply Hf, list_elem_of_here| |done].
  intros []. apply IH. intros y Hy. by apply Hf, list_elem_of_further.
Qed.

(** An invariant of the world is kept by a promise that never rejects
    and then holds with a value. *)
Lemma hoare_never_rejects {A} I (p : Promise W R A) :
  never_rejects p → hoare I p (λ _, I) →
  hoare I p (λ o w, is_fulfilled o ∧ I w).
Proof. intros Hp Hi w Hw. split; [apply Hp|by apply Hi]. Qed.

End hoare.
