(* ===== verification/JsString.v ===== *)
(** * JavaScript strings and the builtins the sources call on them

    A JavaScript string is a finite sequence of UTF-16 code units.  The
    sources index strings ([imgKey[imgKeyIdx]]), take their [length],
    compare one-unit strings with [!==], cut a suffix with [slice(0, -4)],
    build URLs and file names with template literals, [trim] the text of
    a link, lower-case the search string, upper-case an extension and test
    names against [/\.png$/i] and [/\.svg$/i].

    Indexing is stdpp's list lookup: [s !! i = None] is JavaScript's
    [undefined] for an index out of range.  The builtins are modelled from
    ECMA-262; [toLowerCase] and [toUpperCase] are exact on code units below
    128 and leave the others unchanged (the builtins follow the Unicode
    case mappings there). *)

From S2P Require Import Prelude.
From stdpp Require Export strings.

(** ** Data *)

(** A UTF-16 code unit; well-formed ones are below [2^16].  The two types
    are notations, so that the lemmas on lists and on [N] apply as they
    are. *)
Abbreviation code_unit := N (only parsing).

Abbreviation JsString := (list N) (only parsing).

Definition wf_unit (c : code_unit) : Prop := (c < 65536)%N.

Definition wf_string (s : JsString) : Prop := Forall wf_unit s.

(** String literals of the sources: [js "png"] is the string of the code
    units of an ASCII literal. *)
Definition js (s : string) : JsString :=
  Ascii.N_of_ascii <$> String.list_ascii_of_string s.

(** ** [String.prototype.slice] *)

(** A relative index of [slice]: negative counts from the end, and the
    result is clamped to [0 .. len]. *)
Definition slice_index (len : nat) (rel : Z) : nat :=
  if decide (rel < 0)%Z
  then Z.to_nat (Z.max (Z.of_nat len + rel) 0)
  else Z.to_nat (Z.min rel (Z.of_nat len)).

Definition slice (s : JsString) (start finish : Z) : JsString :=
  let from := slice_index (length s) start in
  let to := slice_index (length s) finish in
  take (to - from) (drop from s).

(** ** Case mapping on the ASCII range *)

Definition lower_unit (c : code_unit) : code_unit :=
  if decide (65 ≤ c ∧ c ≤ 90)%N then (c + 32)%N else c.

Definition upper_unit (c : code_unit) : code_unit :=
  if decide (97 ≤ c ∧ c ≤ 122)%N then (c - 32)%N else c.

Definition toLowerCase (s : JsString) : JsString := lower_unit <$> s.

Definition toUpperCase (s : JsString) : JsString := upper_unit <$> s.

(** ** [String.prototype.trim] *)

(** The code units of ECMA-262's WhiteSpace and LineTerminator. *)
Definition is_whitespace (c : code_unit) : bool :=
  bool_decide (c ∈ [9; 10; 11; 12; 13; 32; 160; 5760; 8232; 8233; 8239;
                    8287; 12288; 65279]%N
               ∨ (8192 ≤ c ∧ c ≤ 8202)%N).

Fixpoint trimStart (s : JsString) : JsString :=
  match s with
  | c :: s' => if is_whitespace c then trimStart s' else s
  | [] => []
  end.

Definition trimEnd (s : JsString) : JsString :=
  reverse (trimStart (reverse s)).

Definition trim (s : JsString) : JsString := trimEnd (trimStart s).

(** ** Truthiness: the empty string is the only falsy string. *)

Definition truthy (s : JsString) : bool := bool_decide (s ≠ []).

(** ** Regular expressions of the form [/<literal>$/i]

    Without the [u] flag, [i] compares code units after Canonicalize: a
    code unit below 128 is upper-cased, and one at or above 128 is never
    mapped below 128.  Against an ASCII pattern the outcome is therefore
    decided by [canonicalize]. *)
Definition canonicalize (c : code_unit) : code_unit :=
  if decide (c < 128)%N then upper_unit c else c.

(** [s =ᵢ t]: equal code unit by code unit after Canonicalize. *)
Notation "s =ᵢ t" := (canonicalize <$> s = canonicalize <$> t)
  (at level 70, no associativity) : js_scope.
#[global] Open Scope js_scope.

(** [regex_suffix_ci pat].test(s): [s] ends with [pat], ignoring case. *)
Definition regex_suffix_ci (pat s : JsString) : bool :=
  bool_decide (length pat ≤ length s
    ∧ drop (length s - length pat) s =ᵢ pat).

(** Equality up to the letter case of ASCII, as a relation to rewrite
    with. *)
Definition ci_equiv (s t : JsString) : Prop := s =ᵢ t.

Infix "≡ᵢ" := ci_equiv (at level 70, no associativity) : js_scope.

(** ** The interface of [toLowerCase] that the page relies on *)

(** The upper-case letters of ASCII. *)
Definition is_upper (c : code_unit) : Prop := (65 ≤ c ∧ c ≤ 90)%N.

#[export] Instance is_upper_dec c : Decision (is_upper c).
Proof. unfold is_upper. apply _. Defined.

Class LowerCase (lower : JsString → JsString) : Prop := {
  lower_nil : lower [] = [];
  lower_idemp s : lower (lower s) = lower s;
  lower_no_upper s : Forall (λ c, ¬ is_upper c) (lower s);
}.

#[export] Instance toLowerCase_LowerCase : LowerCase toLowerCase.
Proof.
  split; [done| |]; intros s; unfold toLowerCase.
  - rewrite <-list_fmap_compose. apply list_fmap_ext. intros _ c _.
    unfold compose, lower_unit. repeat case_decide; lia.
  - apply Forall_fmap, Forall_forall. intros c _. simpl.
    unfold is_upper, lower_unit. case_decide; lia.
Qed.

(** ** Lemmas *)

Section js_string.
Implicit Types (s t pat : JsString) (c : code_unit) (n : nat).

Lemma wf_string_app s t : wf_string (s ++ t) ↔ wf_string s ∧ wf_string t.
Proof. apply Forall_app. Qed.

Lemma js_app (a b : string) : js (a +:+ b) = js a ++ js b.
Proof.
  unfold js. rewrite <-fmap_app. f_equal.
  induction a as [|x a IH]; simpl; [done|]. by rewrite IH.
Qed.

Lemma js_wf (a : string) : wf_string (js a).
Proof.
  unfold js, wf_string. apply Forall_fmap, Forall_forall. intros x _.
  unfold wf_unit; simpl. pose proof (Ascii.N_ascii_bounded x). lia.
Qed.

(** *** slice *)

Lemma slice_index_nonneg len (z : Z) :
  (0 ≤ z)%Z → slice_index len z = Z.to_nat z `min` len.
Proof. intros. unfold slice_index. case_decide; lia. Qed.

Lemma slice_index_neg len (k : nat) :
  0 < k → slice_index len (- Z.of_nat k) = len - k.
Proof. intros. unfold slice_index. case_decide; lia. Qed.

Lemma slice_0_neg s (k : nat) :
  0 < k → slice s 0 (- Z.of_nat k) = take (length s - k) s.
Proof.
  intros. unfold slice.
  rewrite slice_index_neg, slice_index_nonneg by lia.
  simpl. by rewrite Nat.sub_0_r.
Qed.

Lemma slice_0_neg_length s (k : nat) :
  0 < k → length (slice s 0 (- Z.of_nat k)) = length s - k.
Proof. intros. rewrite slice_0_neg by done. len_simpl. Qed.

Lemma slice_app_suffix s t :
  t ≠ [] → slice (s ++ t) 0 (- Z.of_nat (length t)) = s.
Proof.
  intros Ht. rewrite slice_0_neg by (destruct t; simpl; [done|lia]).
  rewrite length_app, Nat.add_sub. by rewrite take_app_length.
Qed.

Lemma slice_prefix_of s (k : nat) :
  0 < k → slice s 0 (- Z.of_nat k) `prefix_of` s.
Proof. intros. rewrite slice_0_neg by done. apply prefix_take. Qed.

Lemma slice_wf s a b : wf_string s → wf_string (slice s a b).
Proof.
  unfold slice, wf_string. intros.
  by apply Forall_take, Forall_drop.
Qed.

(** *** Case mapping *)

Lemma lower_unit_idemp c : lower_unit (lower_unit c) = lower_unit c.
Proof. unfold lower_unit. repeat case_decide; lia. Qed.

Lemma upper_unit_idemp c : upper_unit (upper_unit c) = upper_unit c.
Proof. unfold upper_unit. repeat case_decide; lia. Qed.

Lemma upper_lower_unit c : upper_unit (lower_unit c) = upper_unit c.
Proof. unfold upper_unit, lower_unit. repeat case_decide; lia. Qed.

Lemma lower_unit_wf c : wf_unit c → wf_unit (lower_unit c).
Proof. unfold wf_unit, lower_unit. case_decide; lia. Qed.

Lemma toLowerCase_idemp s : toLowerCase (toLowerCase s) = toLowerCase s.
Proof. apply lower_idemp. Qed.

Lemma toLowerCase_length s : length (toLowerCase s) = length s.
Proof. apply length_fmap. Qed.

Lemma toLowerCase_app s t :
  toLowerCase (s ++ t) = toLowerCase s ++ toLowerCase t.
Proof. apply fmap_app. Qed.

Lemma toLowerCase_lookup s n :
  toLowerCase s !! n = lower_unit <$> s !! n.
Proof. apply list_lookup_fmap. Qed.

Lemma toLowerCase_wf s : wf_string s → wf_string (toLowerCase s).
Proof.
  unfold wf_string, toLowerCase. rewrite Forall_fmap. intros H.
  eapply Forall_impl; [done|]. intros c. apply lower_unit_wf.
Qed.

(** *** trim *)

Lemma trimStart_suffix s : trimStart s `suffix_of` s.
Proof.
  induction s as [|c s IH]; simpl; [done|].
  case_match; [by apply suffix_cons_r|done].
Qed.

Lemma trimStart_head s c :
  head (trimStart s) = Some c → is_whitespace c = false.
Proof.
  induction s as [|d s IH]; simpl; [done|].
  destruct (is_whitespace d) eqn:?; [done|]. simpl. by intros [= <-].
Qed.

Lemma trimStart_idemp s : trimStart (trimStart s) = trimStart s.
Proof.
  destruct (trimStart s) as [|c t] eqn:E; [done|].
  simpl. by rewrite (trimStart_head s c) by (by rewrite E).
Qed.

Lemma trimStart_id s c :
  head s = Some c → is_whitespace c = false → trimStart s = s.
Proof. destruct s; simpl; [done|]. by intros [= ->] ->. Qed.

Lemma trimEnd_prefix s : trimEnd s `prefix_of` s.
Proof.
  unfold trimEnd. destruct (trimStart_suffix (reverse s)) as [k Hk].
  exists (reverse k).
  by rewrite <-reverse_app, <-Hk, reverse_involutive.
Qed.

Lemma trimEnd_idemp s : trimEnd (trimEnd s) = trimEnd s.
Proof.
  unfold trimEnd. by rewrite reverse_involutive, trimStart_idemp.
Qed.

Lemma trim_length s : length (trim s) ≤ length s.
Proof.
  unfold trim. etrans; [apply prefix_length, trimEnd_prefix|].
  apply suffix_length, trimStart_suffix.
Qed.

(** *** Regular expressions *)

Lemma canonicalize_idemp c : canonicalize (canonicalize c) = canonicalize c.
Proof.
  unfold canonicalize, upper_unit. repeat case_decide; lia.
Qed.

Lemma canonicalize_lower c : canonicalize (lower_unit c) = canonicalize c.
Proof.
  unfold canonicalize, upper_unit, lower_unit. repeat case_decide; lia.
Qed.

Lemma regex_suffix_ci_spec pat s :
  regex_suffix_ci pat s = true ↔
  ∃ pre suf, s = pre ++ suf ∧ suf =ᵢ pat.
Proof.
  unfold regex_suffix_ci. rewrite bool_decide_eq_true. split.
  - intros [Hlen Heq].
    exists (take (length s - length pat) s), (drop (length s - length pat) s).
    by rewrite take_drop.
  - intros (pre & suf & -> & Heq).
    assert (length suf = length pat) as Hl.
    { by rewrite <-(length_fmap canonicalize suf), Heq, length_fmap. }
    rewrite length_app, Hl. split; [lia|].
    by rewrite Nat.add_sub, drop_app_length.
Qed.

Lemma regex_suffix_ci_length pat s :
  regex_suffix_ci pat s = true → length pat ≤ length s.
Proof. unfold regex_suffix_ci. rewrite bool_decide_eq_true. tauto. Qed.

Lemma regex_suffix_ci_app pat s : regex_suffix_ci pat (s ++ pat) = true.
Proof. apply regex_suffix_ci_spec. by exists s, pat. Qed.

Lemma regex_suffix_ci_split pat s :
  pat ≠ [] → regex_suffix_ci pat s = true →
  s = slice s 0 (- Z.of_nat (length pat))
        ++ drop (length s - length pat) s.
Proof.
  intros Hp _. rewrite slice_0_neg by (destruct pat; simpl; [done|lia]).
  by rewrite take_drop.
Qed.

Lemma truthy_app_l s t : truthy s = true → truthy (s ++ t) = true.
Proof.
  unfold truthy. rewrite !bool_decide_eq_true. by destruct s.
Qed.

End js_string.

(** ** Rewriting up to letter case *)

#[export] Instance ci_equiv_equivalence : Equivalence ci_equiv.
Proof.
  unfold ci_equiv. split; [by intros s|by intros s t|].
  intros s t u. apply eq_trans.
Qed.

#[export] Instance ci_equiv_length : Proper (ci_equiv ==> eq) (@length N).
Proof.
  unfold ci_equiv. intros s t Hst%(f_equal length).
  by rewrite !length_fmap in Hst.
Qed.

#[export] Instance ci_equiv_app :
  Proper (ci_equiv ==> ci_equiv ==> ci_equiv) (@app N).
Proof.
  unfold ci_equiv. intros s s' Hs t t' Ht. by rewrite !fmap_app, Hs, Ht.
Qed.

#[export] Instance ci_equiv_drop :
  Proper (eq ==> ci_equiv ==> ci_equiv) (@drop N).
Proof. unfold ci_equiv. intros n ? <- s t Hst. by rewrite !fmap_drop, Hst. Qed.

#[export] Instance ci_equiv_regex_suffix_ci pat :
  Proper (ci_equiv ==> eq) (regex_suffix_ci pat).
Proof.
  intros s t Hst. unfold regex_suffix_ci. apply bool_decide_ext.
  fold (ci_equiv (drop (length s - length pat) s) pat).
  fold (ci_equiv (drop (length t - length pat) t) pat).
  by setoid_rewrite Hst.
Qed.

Lemma toLowerCase_ci_equiv s : toLowerCase s ≡ᵢ s.
Proof.
  unfold ci_equiv, toLowerCase. rewrite <-list_fmap_compose.
  apply list_fmap_ext. intros _ c _. apply canonicalize_lower.
Qed.

(** A test [/<literal>$/i] does not see the letter case of the string. *)
Lemma regex_suffix_ci_toLowerCase pat s :
  regex_suffix_ci pat (toLowerCase s) = regex_suffix_ci pat s.
Proof. by setoid_rewrite toLowerCase_ci_equiv. Qed.

#[export] Hint Rewrite toLowerCase_length : js_len.
#[export] Hint Resolve js_wf toLowerCase_wf slice_wf : js.
