(* ===== verification/Matcher.v ===== *)
(** * The subsequence matcher of [dataFilter] ([src/src/pages/index.tsx])

    [[
    outer: for (const imgKey in data) {
      let imgKeyIdx = 0;
      for (let i = 0; i < searchString.length; i++) {
        while (imgKey[imgKeyIdx] !== searchString[i]) {
          imgKeyIdx++;
          if (imgKeyIdx >= imgKey.length) {
            continue outer;
          }
        }
        imgKeyIdx++;
      }
      filteredData.push(imgKey);
    }
    ]]

    Each loop is one definition, written with the variables of the source.
    The [while] and the [for] are not structurally recursive on an index, so
    they take fuel; the outer loop runs over the list of keys that
    [for ... in] enumerates.  The labelled [continue outer] is the
    completion [ContinueOuter], which the [for] propagates and the body of
    the outer loop turns into "do not push". *)

From S2P Require Import Prelude JsString.

(** ** Definitions *)

(** How the inner loops complete: normally, with the value of the cursor
    [imgKeyIdx], or by [continue outer]. *)
Inductive Completion : Type :=
  | Normal (imgKeyIdx : nat)
  | ContinueOuter.

#[export] Instance Completion_eq_dec : EqDecision Completion.
Proof. solve_decision. Defined.

Definition is_normal (r : Completion) : bool :=
  match r with Normal _ => true | ContinueOuter => false end.

(** The value of [imgKeyIdx] after the inner loops, when line 46 is
    reached. *)
Definition final_cursor (r : Completion) : option nat :=
  match r with Normal j => Some j | ContinueOuter => None end.

(** Lines 38-43.  [c] is [searchString[i]]; [imgKey !! imgKeyIdx] is
    [imgKey[imgKeyIdx]], which is [undefined] ([None]) past the end and then
    differs from every code unit. *)
Fixpoint while_loop (fuel : nat) (imgKey : JsString) (c : option code_unit)
    (imgKeyIdx : nat) : option Completion :=
  match fuel with
  | 0 => None
  | S fuel =>
      if decide (imgKey !! imgKeyIdx ≠ c) then
        let imgKeyIdx := S imgKeyIdx in
        if decide (length imgKey ≤ imgKeyIdx) then Some ContinueOuter
        else while_loop fuel imgKey c imgKeyIdx
      else Some (Normal imgKeyIdx)
  end.

(** Lines 37-45: the [for] statement from the state [(i, imgKeyIdx)].  The
    [while] gets fuel [S (length imgKey)], enough for any cursor. *)
Fixpoint for_loop (fuel : nat) (imgKey searchString : JsString)
    (i imgKeyIdx : nat) : option Completion :=
  match fuel with
  | 0 => None
  | S fuel =>
      if decide (i < length searchString) then
        match while_loop (S (length imgKey)) imgKey (searchString !! i)
                imgKeyIdx with
        | Some (Normal imgKeyIdx) =>
            for_loop fuel imgKey searchString (S i) (S imgKeyIdx)
        | Some ContinueOuter => Some ContinueOuter
        | None => None
        end
      else Some (Normal imgKeyIdx)
  end.

(** Lines 36-45: [let imgKeyIdx = 0] and the [for] from [i = 0], with fuel
    [S (length searchString)]. *)
Definition inner_loops (imgKey searchString : JsString)
    : option Completion :=
  for_loop (S (length searchString)) imgKey searchString 0 0.

(** ** The reads of the key

    The indices at which the test of line 38 reads [imgKey], in the order
    of the reads: the same loops, collecting the value of [imgKeyIdx] at
    every evaluation of [imgKey[imgKeyIdx]]. *)

(** Lines 38-43. *)
Fixpoint while_reads (fuel : nat) (imgKey : JsString) (c : option code_unit)
    (imgKeyIdx : nat) : list nat :=
  match fuel with
  | 0 => []
  | S fuel =>
      imgKeyIdx ::
      if decide (imgKey !! imgKeyIdx ≠ c) then
        let imgKeyIdx := S imgKeyIdx in
        if decide (length imgKey ≤ imgKeyIdx) then []
        else while_reads fuel imgKey c imgKeyIdx
      else []
  end.

(** Lines 37-45. *)
Fixpoint for_reads (fuel : nat) (imgKey searchString : JsString)
    (i imgKeyIdx : nat) : list nat :=
  match fuel with
  | 0 => []
  | S fuel =>
      if decide (i < length searchString) then
        while_reads (S (length imgKey)) imgKey (searchString !! i) imgKeyIdx
        ++ match while_loop (S (length imgKey)) imgKey (searchString !! i)
                   imgKeyIdx with
           | Some (Normal imgKeyIdx) =>
               for_reads fuel imgKey searchString (S i) (S imgKeyIdx)
           | _ => []
           end
      else []
  end.

(** Lines 36-45. *)
Definition inner_reads (imgKey searchString : JsString) : list nat :=
  for_reads (S (length searchString)) imgKey searchString 0 0.

(** Lines 35-48: the reads of the whole loop, key by key. *)
Definition outer_reads (keys : list JsString) (searchString : JsString)
    : list (JsString * nat) :=
  imgKey ← keys; pair imgKey <$> inner_reads imgKey searchString.

(** Lines 35-47, one iteration of the outer loop: the key is pushed when the
    inner loops complete normally. *)
Definition outer_body (searchString : JsString)
    (filteredData : list JsString) (imgKey : JsString) : list JsString :=
  match inner_loops imgKey searchString with
  | Some (Normal _) => filteredData ++ [imgKey]
  | Some ContinueOuter => filteredData
  | None => filteredData
  end.

(** Lines 33-49: [filteredData] starts empty and the outer loop visits the
    keys in the order of the enumeration. *)
Definition outer_loop (keys : list JsString) (searchString : JsString)
    : list JsString :=
  foldl (outer_body searchString) [] keys.

(** The contract of the matcher (specification, sections 4.1 and 6):
    [filter(candidates, query)] keeps, in order, the candidates of which
    the query is a subsequence. *)
Definition subsequence_filter (candidates : list JsString)
    (query : JsString) : list JsString :=
  filter (λ key, query `sublist_of` key) candidates.

(** ** The [while] loop *)

Section while_loop.
Implicit Types (imgKey : JsString) (c : option code_unit) (u : code_unit).
Implicit Types (fuel i j imgKeyIdx : nat) (r : Completion).

Lemma while_loop_fuel_mono fuel fuel' imgKey c imgKeyIdx r :
  while_loop fuel imgKey c imgKeyIdx = Some r → fuel ≤ fuel' →
  while_loop fuel' imgKey c imgKeyIdx = Some r.
Proof.
  revert fuel' imgKeyIdx. induction fuel as [|fuel IH];
    intros [|fuel'] imgKeyIdx; simpl; try done; [lia|].
  intros Hw ?. case_guards. apply IH; [done|lia].
Qed.

Lemma while_loop_is_Some fuel imgKey c imgKeyIdx :
  length imgKey - imgKeyIdx < fuel →
  is_Some (while_loop fuel imgKey c imgKeyIdx).
Proof.
  revert imgKeyIdx. induction fuel as [|fuel IH]; intros imgKeyIdx ?;
    simpl; [lia|].
  case_guards; try done. apply IH. lia.
Qed.

Lemma while_loop_Normal_inv fuel imgKey c imgKeyIdx j :
  while_loop fuel imgKey c imgKeyIdx = Some (Normal j) →
  imgKeyIdx ≤ j ∧ imgKey !! j = c ∧
  ∀ i, imgKeyIdx ≤ i < j → imgKey !! i ≠ c.
Proof.
  revert imgKeyIdx. induction fuel as [|fuel IH]; intros imgKeyIdx; simpl;
    [done|].
  case_decide as Hne.
  - case_decide; [done|]. intros (? & ? & Hlt)%IH.
    split_and!; [lia|done|]. intros i ?.
    destruct (decide (i = imgKeyIdx)) as [->|]; [done|]. apply Hlt. lia.
  - intros [= <-]. split_and!; [done..|lia].
Qed.

Lemma while_loop_Continue_inv fuel imgKey c imgKeyIdx j :
  while_loop fuel imgKey c imgKeyIdx = Some ContinueOuter →
  imgKeyIdx ≤ j < length imgKey → imgKey !! j ≠ c.
Proof.
  revert imgKeyIdx. induction fuel as [|fuel IH]; intros imgKeyIdx; simpl;
    [done|].
  case_decide as Hne; [|done].
  destruct (decide (j = imgKeyIdx)) as [->|]; [done|].
  case_decide; [lia|]. intros Hw ?. eapply IH; [done|lia].
Qed.

(** The [while] loop against the reference test: looking for [u] from the
    cursor consumes the head of the query at its first occurrence. *)
Lemma while_loop_subseq fuel imgKey u imgKeyIdx r (q : JsString) :
  while_loop fuel imgKey (Some u) imgKeyIdx = Some r →
  is_subseq (u :: q) (drop imgKeyIdx imgKey) =
    match r with
    | Normal j => is_subseq q (drop (S j) imgKey)
    | ContinueOuter => false
    end.
Proof.
  revert imgKeyIdx. induction fuel as [|fuel IH]; intros imgKeyIdx; simpl;
    [done|].
  destruct (imgKey !! imgKeyIdx) as [x|] eqn:Hx.
  - rewrite (drop_S _ _ _ Hx). case_decide as Hne.
    + rewrite is_subseq_cons_ne by congruence.
      case_decide; [|by apply IH].
      intros [= <-]. by rewrite drop_ge by lia.
    + simplify_eq. intros [= <-].
      by rewrite is_subseq_cons_eq.
  - apply lookup_ge_None_1 in Hx. rewrite drop_ge by lia.
    rewrite decide_True by done. rewrite decide_True by lia.
    by intros [= <-].
Qed.

End while_loop.

(** ** The [for] loop *)

Section for_loop.
Implicit Types (imgKey searchString : JsString).
Implicit Types (fuel i imgKeyIdx : nat) (r : Completion).

Lemma for_loop_fuel_mono fuel fuel' imgKey searchString i imgKeyIdx r :
  for_loop fuel imgKey searchString i imgKeyIdx = Some r → fuel ≤ fuel' →
  for_loop fuel' imgKey searchString i imgKeyIdx = Some r.
Proof.
  revert fuel' i imgKeyIdx. induction fuel as [|fuel IH];
    intros [|fuel'] i imgKeyIdx; cbn [for_loop]; try done; [lia|].
  intros Hf ?. case_decide; [|done].
  destruct (while_loop _ _ _ _) as [[j|]|]; [|done..]. apply IH; [done|lia].
Qed.

Lemma for_loop_is_Some fuel imgKey searchString i imgKeyIdx :
  length searchString - i < fuel →
  is_Some (for_loop fuel imgKey searchString i imgKeyIdx).
Proof.
  revert i imgKeyIdx. induction fuel as [|fuel IH]; intros i imgKeyIdx ?;
    cbn [for_loop]; [lia|].
  case_decide; [|done].
  destruct (while_loop_is_Some (S (length imgKey)) imgKey
              (searchString !! i) imgKeyIdx) as [[j|] ->]; [lia| |done].
  apply IH. lia.
Qed.

(** The [for] loop against the reference test, from any state. *)
Lemma for_loop_subseq fuel imgKey searchString i imgKeyIdx r :
  for_loop fuel imgKey searchString i imgKeyIdx = Some r →
  is_normal r = is_subseq (drop i searchString) (drop imgKeyIdx imgKey).
Proof.
  revert i imgKeyIdx. induction fuel as [|fuel IH]; intros i imgKeyIdx;
    cbn [for_loop]; [done|].
  case_decide as Hi.
  - destruct (lookup_lt_is_Some_2 searchString i Hi) as [u Hu].
    rewrite Hu, (drop_S _ _ _ Hu).
    destruct (while_loop _ _ _ _) as [[j|]|] eqn:Hw; [| |done].
    + rewrite (while_loop_subseq _ _ _ _ _ _ Hw). apply IH.
    + rewrite (while_loop_subseq _ _ _ _ _ _ Hw). by intros [= <-].
  - intros [= <-]. rewrite drop_ge by lia. by rewrite is_subseq_nil_l.
Qed.

Lemma inner_loops_is_Some imgKey searchString :
  is_Some (inner_loops imgKey searchString).
Proof. apply for_loop_is_Some. lia. Qed.

Lemma inner_loops_subseq imgKey searchString :
  is_normal <$> inner_loops imgKey searchString
  = Some (is_subseq searchString imgKey).
Proof.
  destruct (inner_loops_is_Some imgKey searchString) as [r Hr].
  rewrite Hr. simpl. f_equal. by apply for_loop_subseq in Hr.
Qed.

End for_loop.

(** ** The cursor of the scan *)

Section cursor.
Implicit Types (imgKey searchString q : JsString) (u : code_unit).
Implicit Types (fuel i j imgKeyIdx : nat) (r : Completion).

Lemma shift_S (o : option nat) n :
  (λ m, n + m) <$> (S <$> o) = (λ m, S n + m) <$> o.
Proof. destruct o; simpl; f_equal; lia. Qed.

(** The [while] loop against [match_end]: it moves the cursor to the
    first occurrence of [u] and the scan goes on behind it. *)
Lemma while_loop_match_end fuel imgKey u imgKeyIdx r q :
  while_loop fuel imgKey (Some u) imgKeyIdx = Some r →
  (λ n, imgKeyIdx + n) <$> match_end (u :: q) (drop imgKeyIdx imgKey)
  = final_cursor r ≫= λ j,
      (λ n, S j + n) <$> match_end q (drop (S j) imgKey).
Proof.
  revert imgKeyIdx. induction fuel as [|fuel IH]; intros imgKeyIdx; simpl;
    [done|].
  destruct (imgKey !! imgKeyIdx) as [x|] eqn:Hx.
  - rewrite (drop_S _ _ _ Hx). case_decide as Hne.
    + rewrite match_end_cons_ne, shift_S by congruence.
      case_decide; [|by apply IH].
      intros [= <-]. by rewrite drop_ge by lia.
    + simplify_eq. intros [= <-]. by rewrite match_end_cons_eq, shift_S.
  - apply lookup_ge_None_1 in Hx. rewrite drop_ge by lia.
    rewrite decide_True by done. rewrite decide_True by lia.
    by intros [= <-].
Qed.

(** The [for] loop against [match_end], from any state. *)
Lemma for_loop_match_end fuel imgKey searchString i imgKeyIdx r :
  for_loop fuel imgKey searchString i imgKeyIdx = Some r →
  (λ n, imgKeyIdx + n)
    <$> match_end (drop i searchString) (drop imgKeyIdx imgKey)
  = final_cursor r.
Proof.
  revert i imgKeyIdx. induction fuel as [|fuel IH]; intros i imgKeyIdx;
    cbn [for_loop]; [done|].
  case_decide as Hi.
  - destruct (lookup_lt_is_Some_2 searchString i Hi) as [u Hu].
    rewrite Hu, (drop_S _ _ _ Hu).
    destruct (while_loop _ _ _ _) as [[j|]|] eqn:Hw; [| |done].
    + rewrite (while_loop_match_end _ _ _ _ _ _ Hw). apply IH.
    + rewrite (while_loop_match_end _ _ _ _ _ _ Hw). by intros [= <-].
  - intros [= <-]. rewrite drop_ge, match_end_nil_l by lia.
    simpl. f_equal. lia.
Qed.

Lemma inner_loops_match_end imgKey searchString :
  final_cursor <$> inner_loops imgKey searchString
  = Some (match_end searchString imgKey).
Proof.
  destruct (inner_loops_is_Some imgKey searchString) as [r Hr].
  rewrite Hr. simpl. f_equal. apply for_loop_match_end in Hr as <-.
  by destruct (match_end _ _).
Qed.

End cursor.

(** ** The reads of the key *)

Section reads.
Implicit Types (imgKey searchString : JsString) (c : option code_unit).
Implicit Types (fuel i j n imgKeyIdx : nat) (r : Completion).

(** The [while] loop reads the key at consecutive indices from the cursor:
    up to the index it stops at, or to the end of the key (and once in
    any case). *)
Lemma while_reads_seq fuel imgKey c imgKeyIdx r :
  while_loop fuel imgKey c imgKeyIdx = Some r →
  while_reads fuel imgKey c imgKeyIdx
  = seq imgKeyIdx match r with
                  | Normal j => S j - imgKeyIdx
                  | ContinueOuter => 1 `max` (length imgKey - imgKeyIdx)
                  end.
Proof.
  revert imgKeyIdx. induction fuel as [|fuel IH]; intros imgKeyIdx;
    cbn [while_loop while_reads]; [done|].
  case_decide; [case_decide|]; [intros [= <-]| |intros [= <-]].
  - by replace (1 `max` _) with 1 by lia.
  - intros Hw. rewrite (IH _ Hw). destruct r as [j|].
    + apply while_loop_Normal_inv in Hw as [? _].
      by replace (S j - imgKeyIdx) with (S (S j - S imgKeyIdx)) by lia.
    + by replace (1 `max` (length imgKey - imgKeyIdx))
        with (S (1 `max` (length imgKey - S imgKeyIdx))) by lia.
  - by replace (S imgKeyIdx - imgKeyIdx) with 1 by lia.
Qed.

(** The [for] loop, from a cursor within the key: the reads are
    consecutive; they end at the final cursor when the loop completes
    normally, and at the end of the key or one past it otherwise. *)
Lemma for_reads_seq fuel imgKey searchString i imgKeyIdx r :
  imgKeyIdx ≤ length imgKey →
  for_loop fuel imgKey searchString i imgKeyIdx = Some r →
  ∃ n, for_reads fuel imgKey searchString i imgKeyIdx = seq imgKeyIdx n
     ∧ match r with
       | Normal j => imgKeyIdx + n = j ∧ j ≤ length imgKey
       | ContinueOuter => length imgKey ≤ imgKeyIdx + n ≤ S (length imgKey)
       end.
Proof.
  revert i imgKeyIdx. induction fuel as [|fuel IH]; intros i imgKeyIdx Hle;
    cbn [for_loop for_reads]; [done|].
  case_decide as Hi; [|intros [= <-]; exists 0; auto with lia].
  destruct (lookup_lt_is_Some_2 searchString i Hi) as [u Hu]. rewrite Hu.
  destruct (while_loop _ _ _ _) as [[j|]|] eqn:Hw; [| |done];
    rewrite (while_reads_seq _ _ _ _ _ Hw).
  - apply while_loop_Normal_inv in Hw as (? & ?%lookup_lt_Some & _).
    intros (n & -> & Hn)%IH; [|lia]. exists (S j - imgKeyIdx + n).
    rewrite seq_app. replace (imgKeyIdx + (S j - imgKeyIdx)) with (S j) by lia.
    split; [done|]. destruct r; lia.
  - intros [= <-]. eexists. rewrite app_nil_r. split; [done|lia].
Qed.

Lemma inner_reads_seq imgKey searchString :
  ∃ n, inner_reads imgKey searchString = seq 0 n ∧ n ≤ S (length imgKey).
Proof.
  destruct (inner_loops_is_Some imgKey searchString) as [r Hr].
  destruct (for_reads_seq _ _ _ _ _ r (Nat.le_0_l _) Hr) as (n & Hn & Hb).
  exists n. split; [done|]. destruct r; simpl in *; lia.
Qed.

(** The index [imgKey.length] is read exactly when the cursor stands
    there with a character of the search string still to find. *)
Lemma for_reads_past_end fuel imgKey searchString i imgKeyIdx r :
  imgKeyIdx ≤ length imgKey →
  for_loop fuel imgKey searchString i imgKeyIdx = Some r →
  length imgKey ∈ for_reads fuel imgKey searchString i imgKeyIdx
  ↔ ∃ p u q, drop i searchString = p ++ u :: q
      ∧ (λ n, imgKeyIdx + n) <$> match_end p (drop imgKeyIdx imgKey)
        = Some (length imgKey).
Proof.
  revert i imgKeyIdx. induction fuel as [|fuel IH]; intros i imgKeyIdx Hle;
    cbn [for_loop for_reads]; [done|].
  case_decide as Hi.
  2:{ intros _. rewrite drop_ge by lia. split; [by intros ?%elem_of_nil|].
      by intros ([|??] & ? & ? & ? & _). }
  destruct (lookup_lt_is_Some_2 searchString i Hi) as [u Hu].
  rewrite Hu, (drop_S _ _ _ Hu), elem_of_app.
  destruct (while_loop _ _ _ _) as [[j|]|] eqn:Hw; [| |done];
    rewrite (while_reads_seq _ _ _ _ _ Hw), elem_of_seq;
    pose proof (λ q, while_loop_match_end _ _ _ _ _ q Hw) as Hm; intros Hr.
  - pose proof Hw as (? & ?%lookup_lt_Some & _)%while_loop_Normal_inv.
    assert (S j ≤ length imgKey) as Hj by lia.
    rewrite (IH _ _ Hj Hr). split.
    + intros [?|(p & u' & q & -> & Hp)]; [lia|].
      exists (u :: p), u', q. by rewrite Hm.
    + intros ([|u0 p] & u' & q & [= <- Hq] & Hp); simplify_eq/=.
      * rewrite match_end_nil_l in Hp. simplify_eq/=. lia.
      * right. exists p, u', q. by rewrite <-Hm.
  - split.
    + intros [?|[]%elem_of_nil]. exists [], u, (drop (S i) searchString).
      rewrite match_end_nil_l. split; [done|]. simpl. f_equal. lia.
    + intros ([|u0 p] & u' & q & [= <- Hq] & Hp); simplify_eq/=.
      * rewrite match_end_nil_l in Hp. simplify_eq/=. left. lia.
      * by rewrite Hm in Hp.
Qed.

End reads.

(** ** The outer loop *)

Section outer_loop.
Implicit Types (imgKey searchString : JsString).
Implicit Types (keys filteredData : list JsString).

Lemma outer_body_push_if searchString filteredData imgKey :
  outer_body searchString filteredData imgKey
  = push_if (λ k, searchString `sublist_of` k) filteredData imgKey.
Proof.
  unfold outer_body, push_if.
  pose proof (inner_loops_subseq imgKey searchString) as H.
  destruct (inner_loops _ _) as [[j|]|]; simplify_eq/=.
  - by rewrite decide_True by (by apply is_subseq_sublist).
  - rewrite decide_False; [done|]. rewrite <-is_subseq_sublist. congruence.
Qed.

Lemma outer_loop_filter keys searchString :
  outer_loop keys searchString
  = filter (λ k, searchString `sublist_of` k) keys.
Proof.
  unfold outer_loop.
  rewrite (foldl_fun_ext _ (push_if (λ k, searchString `sublist_of` k)))
    by (intros; apply outer_body_push_if).
  by rewrite foldl_push_if.
Qed.

End outer_loop.

(** ** Termination of the inner loops *)

Section termination.
Implicit Types (imgKey searchString : JsString) (c : option code_unit).
Implicit Types (fuel i imgKeyIdx : nat).

(** C9: the [while] loop of lines 38-43 terminates: from the cursor
    [imgKeyIdx] it returns within [length imgKey - imgKeyIdx + 1]
    iterations, and any larger fuel, the [S (length imgKey)] of [for_loop]
    included, gives the same completion. *)
Theorem while_loop_terminates fuel imgKey c imgKeyIdx :
  length imgKey - imgKeyIdx < fuel →
  ∃ r, while_loop (S (length imgKey - imgKeyIdx)) imgKey c imgKeyIdx = Some r
     ∧ while_loop fuel imgKey c imgKeyIdx = Some r
     ∧ while_loop (S (length imgKey)) imgKey c imgKeyIdx = Some r.
Proof.
  intros Hfuel.
  destruct (while_loop_is_Some (S (length imgKey - imgKeyIdx)) imgKey c
              imgKeyIdx) as [r Hr]; [lia|].
  exists r. split_and!; [done|..];
    (eapply while_loop_fuel_mono; [done|lia]).
Qed.

Lemma while_loop_terminates_witness :
  ∃ r, while_loop (S (length (js "plex") - 1)) (js "plex") (Some 120%N) 1
         = Some r
     ∧ while_loop 7 (js "plex") (Some 120%N) 1 = Some r
     ∧ while_loop (S (length (js "plex"))) (js "plex") (Some 120%N) 1
         = Some r.
Proof. apply (while_loop_terminates 7 (js "plex")). simpl. lia. Defined.

(** The [for] loop of lines 37-45 terminates: from [i] it returns
    within [length searchString - i + 1] iterations, and any larger fuel
    gives the same completion; [inner_loops] passes
    [S (length searchString)]. *)
Theorem for_loop_terminates fuel imgKey searchString i imgKeyIdx :
  length searchString - i < fuel →
  ∃ r, for_loop (S (length searchString - i)) imgKey searchString i
         imgKeyIdx = Some r
     ∧ for_loop fuel imgKey searchString i imgKeyIdx = Some r.
Proof.
  intros Hfuel.
  destruct (for_loop_is_Some (S (length searchString - i)) imgKey
              searchString i imgKeyIdx) as [r Hr]; [lia|].
  exists r. split; [done|]. eapply for_loop_fuel_mono; [done|lia].
Qed.

Lemma for_loop_terminates_witness :
  ∃ r, for_loop (S (length (js "rr") - 0)) (js "sonarr") (js "rr") 0 0
         = Some r
     ∧ for_loop 5 (js "sonarr") (js "rr") 0 0 = Some r.
Proof. apply (for_loop_terminates 5 (js "sonarr")). simpl. lia. Defined.

End termination.

(** ** Functional behaviour of the [while] loop *)

Section while_loop_spec.
Implicit Types (imgKey : JsString) (u : code_unit) (j imgKeyIdx : nat).

(** C6: the [while] loop stops at the first occurrence: it completes
    normally with cursor [j] exactly when [j] is the least index at or
    after [imgKeyIdx] where [imgKey] holds the wanted code unit. *)
Theorem while_loop_finds_first imgKey u imgKeyIdx j :
  while_loop (S (length imgKey)) imgKey (Some u) imgKeyIdx = Some (Normal j)
  ↔ imgKeyIdx ≤ j ∧ imgKey !! j = Some u
    ∧ ∀ i, imgKeyIdx ≤ i < j → imgKey !! i ≠ Some u.
Proof.
  split; [apply while_loop_Normal_inv|]. intros (Hle & Hj & Hleast).
  destruct (while_loop_is_Some (S (length imgKey)) imgKey (Some u)
              imgKeyIdx) as [[j'|] Hr]; [lia| |].
  - rewrite Hr. do 2 f_equal.
    apply while_loop_Normal_inv in Hr as (? & ? & Hleast').
    destruct (Nat.lt_trichotomy j j') as [?|[?|?]]; [|done|].
    + destruct (Hleast' j); [lia|done].
    + destruct (Hleast j'); [lia|done].
  - destruct (while_loop_Continue_inv _ _ _ _ j Hr); [|done].
    apply lookup_lt_Some in Hj. lia.
Qed.

(** The [while] loop leaves the outer iteration ([continue outer])
    exactly when the wanted code unit does not occur at or after the
    cursor. *)
Theorem while_loop_continue_iff imgKey u imgKeyIdx :
  while_loop (S (length imgKey)) imgKey (Some u) imgKeyIdx
    = Some ContinueOuter
  ↔ u ∉ drop imgKeyIdx imgKey.
Proof.
  split.
  - intros Hr [i Hi]%list_elem_of_lookup_1. rewrite lookup_drop in Hi.
    destruct (while_loop_Continue_inv _ _ _ _ (imgKeyIdx + i) Hr); [|done].
    apply lookup_lt_Some in Hi. lia.
  - intros Hnot.
    destruct (while_loop_is_Some (S (length imgKey)) imgKey (Some u)
                imgKeyIdx) as [[j|] Hr]; [lia| |done].
    apply while_loop_Normal_inv in Hr as (? & Hj & _). destruct Hnot.
    apply (list_elem_of_lookup_2 _ (j - imgKeyIdx)).
    rewrite lookup_drop. by replace (imgKeyIdx + (j - imgKeyIdx)) with j by lia.
Qed.

End while_loop_spec.

(** ** Correctness of the matcher *)

Section matcher.
Implicit Types (imgKey searchString q : JsString).
Implicit Types (keys : list JsString).

(** C1: soundness and completeness of the cursor walk: the inner loops of
    lines 36-45 complete normally, so that line 46 pushes the key, if and
    only if the search string is a subsequence of the key. *)
Theorem matcher_sound_complete imgKey searchString :
  (∃ j, inner_loops imgKey searchString = Some (Normal j))
  ↔ searchString `sublist_of` imgKey.
Proof.
  rewrite <-is_subseq_sublist.
  pose proof (inner_loops_subseq imgKey searchString) as H.
  destruct (inner_loops _ _) as [[j|]|]; simplify_eq/=.
  - split; [done|eauto].
  - split; [by intros [? ?]|]. by rewrite <-H.
Qed.

(** C7: the scan is greedy: the inner loops end normally with the cursor
    at [j] exactly when [j] is the length of the shortest prefix of the
    key of which the search string is a subsequence. *)
Theorem inner_loops_cursor imgKey searchString j :
  inner_loops imgKey searchString = Some (Normal j)
  ↔ searchString `sublist_of` take j imgKey
    ∧ ∀ n, searchString `sublist_of` take n imgKey → j ≤ n.
Proof.
  pose proof (inner_loops_match_end imgKey searchString) as Hm.
  destruct (inner_loops _ _) as [r|]; simplify_eq/=. split.
  - intros [= ->]. simpl in *.
    eauto using match_end_sublist, match_end_least.
  - intros [Hsub Hleast].
    assert (is_Some (match_end searchString imgKey)) as [j' Hj'].
    { apply match_end_is_subseq, is_subseq_sublist.
      etrans; [done|apply sublist_take]. }
    destruct r as [j''|]; rewrite Hj' in Hm; simplify_eq/=.
    do 2 f_equal. apply Nat.le_antisymm.
    + by eapply match_end_least.
    + by eapply Hleast, match_end_sublist.
Qed.

(** C8: the bounds of the reads: the inner loops read the key at the
    consecutive indices [0], [1], ... and at no index beyond its length;
    when they complete normally every read is inside the key, and the
    number of reads is the final cursor; when they leave by
    [continue outer] the key was read to its end. *)
Theorem inner_reads_bound imgKey searchString :
  ∃ n, inner_reads imgKey searchString = seq 0 n
     ∧ n ≤ S (length imgKey)
     ∧ match inner_loops imgKey searchString with
       | Some (Normal j) => n = j ∧ j ≤ length imgKey
       | _ => length imgKey ≤ n
       end.
Proof.
  destruct (inner_loops_is_Some imgKey searchString) as [r Hr].
  destruct (for_reads_seq _ _ _ _ _ r (Nat.le_0_l _) Hr) as (n & Hn & Hb).
  exists n. rewrite Hr. split; [done|]. destruct r; simpl in *; lia.
Qed.

(** C12: the work of the whole filter is linear in the size of the keys: every
    code unit of every key is read at most once, and one read more per
    key may fall on its end. *)
Theorem outer_reads_linear keys searchString :
  length (outer_reads keys searchString)
  ≤ sum_list (length <$> keys) + length keys.
Proof.
  unfold outer_reads. induction keys as [|imgKey keys IH]; [done|].
  rewrite bind_cons, length_app, length_fmap. csimpl.
  destruct (inner_reads_seq imgKey searchString) as (n & -> & ?).
  rewrite length_seq. lia.
Qed.

(** No position of a key is read twice. *)
Theorem outer_reads_NoDup keys searchString :
  NoDup keys → NoDup (outer_reads keys searchString).
Proof.
  intros Hkeys. unfold outer_reads. apply NoDup_bind; [| |done].
  - intros k1 k2 [k i] _ _ (? & [= <- <-] & _)%list_elem_of_fmap
      (? & [= <- <-] & _)%list_elem_of_fmap. done.
  - intros k _. apply NoDup_fmap_2; [by intros ?? [=]|].
    destruct (inner_reads_seq k searchString) as (n & -> & _).
    apply NoDup_seq.
Qed.

(** C32: the test of line 38 is evaluated before the bound of line 40 is
    checked, so the key can be read at the index [imgKey.length], one
    past its end.  It happens exactly when a proper prefix of the search
    string has used up the key: the prefix is a subsequence of the key
    and of no shorter prefix of it, and the search string goes on; so it
    is for the empty key and any search string that is not empty. *)
Theorem inner_reads_past_end imgKey searchString :
  length imgKey ∈ inner_reads imgKey searchString
  ↔ ∃ p u q, searchString = p ++ u :: q
      ∧ p `sublist_of` imgKey
      ∧ ∀ n, p `sublist_of` take n imgKey → length imgKey ≤ n.
Proof.
  destruct (inner_loops_is_Some imgKey searchString) as [r Hr].
  unfold inner_reads.
  rewrite (for_reads_past_end _ _ _ _ _ r (Nat.le_0_l _) Hr).
  do 3 (apply exist_proper; intros ?). apply and_iff_compat_l.
  rewrite <-(firstn_all imgKey) at 3. rewrite <-match_end_Some.
  simpl. by destruct (match_end _ _).
Qed.

(** C2: refinement of the contract: the outer loop of lines 33-49 computes
    [filter(candidates, query)] of the specification on the enumerated
    keys. *)
Theorem outer_loop_refines_spec keys searchString :
  outer_loop keys searchString = subsequence_filter keys searchString.
Proof. unfold subsequence_filter. apply outer_loop_filter. Qed.

(** The result holds exactly the keys of the enumeration of which the
    search string is a subsequence: nothing is inserted, nothing that
    qualifies is dropped. *)
Theorem outer_loop_elem_of keys searchString imgKey :
  imgKey ∈ outer_loop keys searchString
  ↔ imgKey ∈ keys ∧ searchString `sublist_of` imgKey.
Proof. rewrite outer_loop_filter, list_elem_of_filter. tauto. Qed.

(** The result is a sublist of the keys: the surviving keys keep their
    relative order and multiplicity. *)
Theorem outer_loop_sublist keys searchString :
  outer_loop keys searchString `sublist_of` keys.
Proof. rewrite outer_loop_filter. apply sublist_filter. Qed.

(** Keys that are pairwise distinct stay so in the result (the grid
    uses them as React keys). *)
Theorem outer_loop_NoDup keys searchString :
  NoDup keys → NoDup (outer_loop keys searchString).
Proof. rewrite outer_loop_filter. apply NoDup_filter. Qed.

Lemma outer_loop_NoDup_witness :
  NoDup (outer_loop [js "sonarr"; js "radarr"] (js "rr")).
Proof.
  apply outer_loop_NoDup. apply NoDup_cons. split.
  - by intros [Heq|[]%elem_of_nil]%elem_of_cons.
  - apply NoDup_singleton.
Defined.

(** C10: monotonicity: a search string with more characters selects fewer
    keys; in particular appending one character never adds a key. *)
Theorem outer_loop_antitone keys q searchString :
  q `sublist_of` searchString →
  outer_loop keys searchString `sublist_of` outer_loop keys q.
Proof.
  intros Hq. rewrite !outer_loop_filter. apply filter_antitone.
  intros k ?. by etrans.
Qed.

Lemma outer_loop_antitone_witness :
  outer_loop [js "adguard-home"; js "adobe"; js "plex"] (js "ad" ++ js "g")
  `sublist_of` outer_loop [js "adguard-home"; js "adobe"; js "plex"] (js "ad").
Proof. apply outer_loop_antitone. by apply sublist_inserts_r. Defined.

(** With the empty search string the loop keeps every key; together
    with the early return of [dataFilter] this is the identity filter. *)
Theorem outer_loop_nil keys : outer_loop keys [] = keys.
Proof.
  rewrite outer_loop_filter. apply filter_all, Forall_forall.
  intros k _. apply sublist_nil_l.
Qed.

(** Filtering is idempotent: searching the result again with the same
    string changes nothing. *)
Theorem outer_loop_idemp keys searchString :
  outer_loop (outer_loop keys searchString) searchString
  = outer_loop keys searchString.
Proof. rewrite !outer_loop_filter. apply filter_idemp. Qed.

(** The loop is incremental in the keys: the result on a
    concatenation is the concatenation of the results. *)
Theorem outer_loop_app keys1 keys2 searchString :
  outer_loop (keys1 ++ keys2) searchString
  = outer_loop keys1 searchString ++ outer_loop keys2 searchString.
Proof. rewrite !outer_loop_filter. apply filter_app. Qed.

End matcher.
