(* ===== verification/JsObject.v ===== *)
(** * The object [data] of [getImageData] and what it reaches

    [hooks/useImageData.ts] builds a plain object [data] whose properties
    are entry objects [{ png?: string; svg?: string }], keyed by icon base
    name; [pages/index.tsx] enumerates it with [Object.keys] and
    [for ... in] and reads [data[imgKey]?.png] and [data[imgKey]?.svg].

    The keys come from a directory listing, so the model follows the
    property semantics of ECMA-262 rather than a finite map:

    - own properties are kept in creation order ([own]) and enumerated in
      the order of OrdinaryOwnPropertyKeys: array indices first, ascending,
      then the other keys in creation order ([own_keys]);
    - [key in data] and [data[key]] walk the prototype chain ([resolve]):
      own properties, then the object installed as prototype if any, then
      [Object.prototype] with its builtin methods, its accessor
      [__proto__] and the property [svg] that the program can create on it;
    - [data["__proto__"] = e] calls that accessor's setter and replaces the
      prototype of [data] ([assign]); [data[key].svg = url] writes to
      whatever object [data[key]] is, and throws a TypeError in strict mode
      when it is a string ([assign_svg]).
    - [data[key]?.png] and [data[key]?.svg] read the property on whatever
      [data[key]] is, an entry, an inherited string or a builtin function,
      through the prototype chain of that value ([optional_get]).

    A [Store] is the part of the heap these operations reach.  The store is
    [clean] when the prototype of [data] is [Object.prototype] and
    nothing was added to it: then [data] behaves as an insertion-ordered
    map. *)

From S2P Require Import Prelude JsString.
From stdpp Require Import sorting.

(** ** Association lists in creation order *)

Section alist_def.
Context {K V : Type} `{EqDecision K}.

Fixpoint alist_get (k : K) (l : list (K * V)) : option V :=
  match l with
  | [] => None
  | (k', v) :: l => if decide (k' = k) then Some v else alist_get k l
  end.

(** A property that exists keeps its place; a new one is created last. *)
Fixpoint alist_set (k : K) (v : V) (l : list (K * V)) : list (K * V) :=
  match l with
  | [] => [(k, v)]
  | (k', v') :: l =>
      if decide (k' = k) then (k, v) :: l else (k', v') :: alist_set k v l
  end.

End alist_def.

(** ** Entry objects *)

Record Entry : Type := mkEntry {
  png : option JsString;
  svg : option JsString;
}.

#[export] Instance Entry_eq_dec : EqDecision Entry.
Proof. solve_decision. Defined.

(** [e.svg = url] on an entry object. *)
Definition set_svg (e : Entry) (url : JsString) : Entry :=
  {| png := png e; svg := Some url |}.

(** The own enumerable keys of an entry object, in creation order: an
    object literal [{png: _}] or [{svg: _}], then [svg] added later. *)
Definition entry_keys (e : Entry) : list JsString :=
  (if png e is Some _ then [js "png"] else [])
  ++ (if svg e is Some _ then [js "svg"] else []).

Definition entry_field (e : Entry) (key : JsString) : option JsString :=
  if decide (key = js "png") then png e
  else if decide (key = js "svg") then svg e
  else None.

(** ** [Object.prototype] *)

Definition proto_name : JsString := js "__proto__".

(** The builtin methods of [Object.prototype]: writable, not enumerable. *)
Definition object_prototype_methods : list JsString :=
  js <$> ["constructor"; "__defineGetter__"; "__defineSetter__";
          "hasOwnProperty"; "__lookupGetter__"; "__lookupSetter__";
          "isPrototypeOf"; "propertyIsEnumerable"; "toString"; "valueOf";
          "toLocaleString"].

(** A key that names a property of the pristine [Object.prototype]. *)
Definition inherited_name (key : JsString) : Prop :=
  key = proto_name ∨ key ∈ object_prototype_methods.

(** ** The order of own property keys *)

Definition is_digit (c : code_unit) : Prop := (48 ≤ c ∧ c ≤ 57)%N.

#[export] Instance is_digit_dec c : Decision (is_digit c).
Proof. unfold is_digit. apply _. Defined.

Definition digits_value (k : JsString) : N :=
  foldl (λ acc c, acc * 10 + (c - 48))%N 0%N k.

(** An array index is the canonical decimal form of an integer below
    [2^32 - 1]: digits only, and no leading zero except for "0". *)
Definition array_index (k : JsString) : option N :=
  if decide (k ≠ [] ∧ Forall is_digit k ∧ (head k = Some 48%N → k = [48%N])
             ∧ (digits_value k < 4294967295)%N)
  then Some (digits_value k) else None.

Definition is_array_index (k : JsString) : Prop := is_Some (array_index k).

Definition index_le (a b : JsString) : Prop :=
  (default 0 (array_index a) ≤ default 0 (array_index b))%N.

#[export] Instance index_le_dec : RelDecision index_le.
Proof. intros a b. unfold index_le. apply _. Defined.

(** OrdinaryOwnPropertyKeys on string keys given in creation order. *)
Definition ordinary_own_property_keys (creation : list JsString)
    : list JsString :=
  merge_sort index_le (filter is_array_index creation)
  ++ filter (λ k, ¬ is_array_index k) creation.

(** ** The store *)

Record Store : Type := mkStore {
  (** own properties of [data], in creation order *)
  own : list (JsString * Entry);
  (** the prototype of [data]: [None] is [Object.prototype], [Some e] the
      object installed by [data["__proto__"] = e] *)
  proto : option Entry;
  (** the property [svg] of [Object.prototype], when one was created *)
  polluted_svg : option JsString;
  (** the property [svg] of the builtin methods of [Object.prototype], by
      method name, for those on which one was created *)
  method_svg : list (JsString * JsString);
}.

(** What a call of [getImageData] finds in the realm: the properties [svg]
    that earlier calls may have left on [Object.prototype] and on its
    methods. *)
Record Realm : Type := mkRealm {
  realm_svg : option JsString;
  realm_method_svg : list (JsString * JsString);
}.

(** The realm of a freshly loaded page. *)
Definition pristine : Realm :=
  {| realm_svg := None; realm_method_svg := [] |}.

(** [const data = {}]. *)
Definition empty_store (realm : Realm) : Store :=
  {| own := []; proto := None; polluted_svg := realm_svg realm;
     method_svg := realm_method_svg realm |}.

Definition clean (d : Store) : Prop :=
  proto d = None ∧ polluted_svg d = None.

#[export] Instance clean_dec d : Decision (clean d).
Proof. unfold clean. apply _. Defined.

(** What [data[key]] finds along the prototype chain. *)
Inductive Resolved : Type :=
  | ROwn (e : Entry)
  | RProtoField (u : JsString)
  | RProtoGetter
  | RMethod
  | RPollutedSvg (u : JsString)
  | RUndefined.

#[export] Instance Resolved_eq_dec : EqDecision Resolved.
Proof. solve_decision. Defined.

Definition resolve (d : Store) (key : JsString) : Resolved :=
  match alist_get key (own d) with
  | Some e => ROwn e
  | None =>
      match proto d ≫= λ e, entry_field e key with
      | Some u => RProtoField u
      | None =>
          if decide (key = proto_name) then RProtoGetter
          else if decide (key ∈ object_prototype_methods) then RMethod
          else match polluted_svg d with
               | Some u =>
                   if decide (key = js "svg") then RPollutedSvg u
                   else RUndefined
               | None => RUndefined
               end
      end
  end.

(** [key in data]. *)
Definition has_property (d : Store) (key : JsString) : bool :=
  bool_decide (resolve d key ≠ RUndefined).

(** [data[key] = e]: the setter of [__proto__] replaces the prototype;
    any other key creates or overwrites an own property. *)
Definition assign (d : Store) (key : JsString) (e : Entry) : Store :=
  if decide (key = proto_name)
  then {| own := own d; proto := Some e; polluted_svg := polluted_svg d;
          method_svg := method_svg d |}
  else {| own := alist_set key e (own d); proto := proto d;
          polluted_svg := polluted_svg d; method_svg := method_svg d |}.

Inductive JsError : Type :=
  | TypeErrorCreateProperty  (** cannot create property on a string *)
  | TypeErrorUndefined.      (** cannot set properties of undefined *)

#[export] Instance JsError_eq_dec : EqDecision JsError.
Proof. solve_decision. Defined.

(** [data[key].svg = url]: the property is created or overwritten on the
    object that [data[key]] is (an entry, the prototype of [data], a
    builtin function); a string throws. *)
Definition assign_svg (d : Store) (key url : JsString) : Store + JsError :=
  match resolve d key with
  | ROwn e =>
      inl {| own := alist_set key (set_svg e url) (own d); proto := proto d;
             polluted_svg := polluted_svg d; method_svg := method_svg d |}
  | RProtoGetter =>
      match proto d with
      | Some e =>
          inl {| own := own d; proto := Some (set_svg e url);
                 polluted_svg := polluted_svg d; method_svg := method_svg d |}
      | None =>
          inl {| own := own d; proto := None; polluted_svg := Some url;
                 method_svg := method_svg d |}
      end
  | RMethod =>
      inl {| own := own d; proto := proto d; polluted_svg := polluted_svg d;
             method_svg := alist_set key url (method_svg d) |}
  | RProtoField _ | RPollutedSvg _ => inr TypeErrorCreateProperty
  | RUndefined => inr TypeErrorUndefined
  end.

(** The two properties of an entry that the page reads
    ([pages/index.tsx], lines 139, 146 and 155). *)
Inductive Field : Type := FPng | FSvg.

#[export] Instance Field_eq_dec : EqDecision Field.
Proof. solve_decision. Defined.

(** [Object.prototype.png] and [Object.prototype.svg]: the program never
    creates the first. *)
Definition object_prototype_get (d : Store) (f : Field) : option JsString :=
  match f with FPng => None | FSvg => polluted_svg d end.

(** [e.png] and [e.svg] on an entry object: the own property, else what
    [Object.prototype] has. *)
Definition entry_get (d : Store) (e : Entry) (f : Field)
    : option JsString :=
  match match f with FPng => png e | FSvg => svg e end with
  | Some u => Some u
  | None => object_prototype_get d f
  end.

(** [data[key]?.png] and [data[key]?.svg]: the property is looked up on
    whatever [data[key]] is.  A string has neither as own property and
    inherits from [Object.prototype] through [String.prototype]; so does a
    builtin function, through [Function.prototype], unless [svg] was
    created on it. *)
Definition optional_get (d : Store) (key : JsString) (f : Field)
    : option JsString :=
  match resolve d key with
  | ROwn e => entry_get d e f
  | RProtoField _ | RPollutedSvg _ => object_prototype_get d f
  | RProtoGetter =>
      match proto d with
      | Some e => entry_get d e f
      | None => object_prototype_get d f
      end
  | RMethod =>
      match f, alist_get key (method_svg d) with
      | FSvg, Some u => Some u
      | _, _ => object_prototype_get d f
      end
  | RUndefined => None
  end.

(** [Object.keys(data)]. *)
Definition own_keys (d : Store) : list JsString :=
  ordinary_own_property_keys (own d).*1.

(** The keys that [for (const imgKey in data)] visits: the own keys, then
    the enumerable keys of each prototype that no earlier object has. *)
Definition for_in_keys (d : Store) : list JsString :=
  let ks := own_keys d in
  let ps := filter (λ k, k ∉ ks) (from_option entry_keys [] (proto d)) in
  let os := filter (λ k, k ∉ ks ++ ps)
              (if polluted_svg d is Some _ then [js "svg"] else []) in
  ks ++ ps ++ os.

(** ** Lemmas on association lists *)

Section alist.
Context {K V : Type} `{EqDecision K}.
Implicit Types (k : K) (v : V) (l : list (K * V)).

Lemma alist_get_set_eq k v l : alist_get k (alist_set k v l) = Some v.
Proof.
  induction l as [|[k' v'] l IH]; simpl; case_guards.
Qed.

Lemma alist_get_set_ne k k' v l :
  k ≠ k' → alist_get k' (alist_set k v l) = alist_get k' l.
Proof.
  intros. induction l as [|[k'' v'] l IH]; simpl; case_guards.
Qed.

Lemma alist_get_set k k' v l :
  alist_get k' (alist_set k v l)
  = if decide (k = k') then Some v else alist_get k' l.
Proof.
  case_decide; subst; [apply alist_get_set_eq|by apply alist_get_set_ne].
Qed.

Lemma alist_get_None k l : alist_get k l = None ↔ k ∉ l.*1.
Proof.
  induction l as [|[k' v'] l IH]; simpl.
  - split; [intros _; apply not_elem_of_nil|done].
  - rewrite not_elem_of_cons. case_decide; subst; [by split; [|intros []]|].
    rewrite IH. by split; [|intros []].
Qed.

Lemma alist_get_is_Some k l : is_Some (alist_get k l) ↔ k ∈ l.*1.
Proof.
  rewrite <-not_eq_None_Some, alist_get_None.
  split; [apply dec_stable|tauto].
Qed.

Lemma alist_get_elem_of k v l : alist_get k l = Some v → (k, v) ∈ l.
Proof.
  induction l as [|[k' v'] l IH]; simpl; [done|].
  case_decide; subst.
  - intros [= ->]. apply list_elem_of_here.
  - intros ?. by apply list_elem_of_further, IH.
Qed.

Lemma alist_set_keys_old k v l : k ∈ l.*1 → (alist_set k v l).*1 = l.*1.
Proof.
  induction l as [|[k' v'] l IH]; csimpl.
  - by intros ?%elem_of_nil.
  - case_decide; subst; csimpl; [done|].
    intros [?|?]%elem_of_cons; [done|]. f_equal. by apply IH.
Qed.

Lemma alist_set_keys_new k v l : k ∉ l.*1 → (alist_set k v l).*1 = l.*1 ++ [k].
Proof.
  induction l as [|[k' v'] l IH]; csimpl; [done|].
  rewrite not_elem_of_cons. intros [? ?].
  rewrite decide_False by done. csimpl. f_equal. by apply IH.
Qed.

Lemma alist_set_keys k v l :
  (alist_set k v l).*1 = if decide (k ∈ l.*1) then l.*1 else l.*1 ++ [k].
Proof.
  case_decide; [by apply alist_set_keys_old|by apply alist_set_keys_new].
Qed.

Lemma alist_set_NoDup k v l : NoDup l.*1 → NoDup (alist_set k v l).*1.
Proof.
  intros Hl. rewrite alist_set_keys. case_decide; [done|].
  apply NoDup_app. split_and!; [done| |apply NoDup_singleton].
  intros x ? ->%list_elem_of_singleton. done.
Qed.

Lemma alist_set_elem_of_keys k k' v l :
  k' ∈ (alist_set k v l).*1 ↔ k' = k ∨ k' ∈ l.*1.
Proof.
  rewrite alist_set_keys. case_decide.
  - split; [tauto|]. by intros [->|?].
  - rewrite elem_of_app, list_elem_of_singleton. tauto.
Qed.

Lemma alist_set_values k v l (P : V → Prop) :
  P v → Forall P l.*2 → Forall P (alist_set k v l).*2.
Proof.
  intros Hv. induction l as [|[k' v'] l IH]; simpl.
  - intros _. by constructor.
  - intros [? ?]%Forall_cons. case_decide; simpl; constructor; auto.
Qed.

End alist.

(** ** Array indices *)

Section array_index.
Implicit Types (k : JsString) (c : code_unit) (n : N).

Lemma digits_value_snoc k c :
  digits_value (k ++ [c]) = (digits_value k * 10 + (c - 48))%N.
Proof. unfold digits_value. by rewrite foldl_app. Qed.

(** A digit string that does not start with ["0"]. *)
Definition leading (k : JsString) : Prop :=
  Forall is_digit k ∧ ∃ c, head k = Some c ∧ c ≠ 48%N.

Lemma leading_snoc k c :
  leading (k ++ [c]) → is_digit c ∧ (k = [] ∨ leading k).
Proof.
  intros [[Hk Hc%Forall_inv]%Forall_app (c' & Hh & ?)].
  split; [exact Hc|]. destruct k as [|c0 k]; [by left|right].
  split; [exact Hk|]. exists c'. by simplify_eq/=.
Qed.

Lemma leading_pos k : leading k → (0 < digits_value k)%N.
Proof.
  induction k as [|c k IH] using rev_ind; [by intros [_ (? & ? & _)]|].
  intros Hl. rewrite digits_value_snoc.
  destruct (leading_snoc _ _ Hl) as [Hc [->|Hk]]; [|specialize (IH Hk); lia].
  destruct Hl as [_ (c' & [= <-] & ?)]. unfold is_digit in Hc.
  change (digits_value []) with 0%N. lia.
Qed.

Lemma leading_inj k1 k2 :
  leading k1 → leading k2 → digits_value k1 = digits_value k2 → k1 = k2.
Proof.
  revert k2. induction k1 as [|c1 k1 IH] using rev_ind;
    [by intros ? [_ (? & ? & _)]|].
  intros k2 H1. destruct k2 as [|c2 k2 _] using rev_ind;
    [by intros [_ (? & ? & _)]|].
  intros H2. rewrite !digits_value_snoc.
  destruct (leading_snoc _ _ H1) as [Hc1 Hk1].
  destruct (leading_snoc _ _ H2) as [Hc2 Hk2]. unfold is_digit in *.
  intros Hv. assert (c1 = c2 ∧ digits_value k1 = digits_value k2) as [-> Hv']
    by lia.
  f_equal. destruct Hk1 as [->|Hk1], Hk2 as [->|Hk2]; [done| | |by apply IH].
  - apply leading_pos in Hk2. change (digits_value []) with 0%N in Hv'. lia.
  - apply leading_pos in Hk1. change (digits_value []) with 0%N in Hv'. lia.
Qed.

Lemma array_index_Some k n :
  array_index k = Some n →
  digits_value k = n ∧ (n < 4294967295)%N ∧ (k = [48%N] ∨ leading k).
Proof.
  unfold array_index. case_decide as H; [|done]. intros [= <-].
  destruct H as (Hne & Hd & Hz & Hlt). split_and!; [done..|].
  destruct k as [|c k]; [done|].
  destruct (decide (c = 48%N)) as [->|]; [left; by apply Hz|right].
  split; [done|]. by exists c.
Qed.

(** The numeric value decides the array index: two keys with the same
    index are the same string. *)
Lemma array_index_inj k1 k2 n :
  array_index k1 = Some n → array_index k2 = Some n → k1 = k2.
Proof.
  intros (<- & _ & H1)%array_index_Some (Hv & _ & H2)%array_index_Some.
  destruct H1 as [->|H1], H2 as [->|H2]; [done| | |by apply leading_inj].
  - apply leading_pos in H2. by rewrite Hv in H2.
  - apply leading_pos in H1. by rewrite <-Hv in H1.
Qed.

End array_index.

(** ** Lemmas on the order of own keys *)

Section own_keys.
Implicit Types (k : JsString) (l : list JsString) (d : Store).

Lemma ordinary_own_property_keys_Permutation l :
  ordinary_own_property_keys l ≡ₚ l.
Proof.
  unfold ordinary_own_property_keys.
  rewrite merge_sort_Permutation. apply filter_app_complement.
Qed.

Lemma ordinary_own_property_keys_elem_of k l :
  k ∈ ordinary_own_property_keys l ↔ k ∈ l.
Proof. by rewrite ordinary_own_property_keys_Permutation. Qed.

Lemma ordinary_own_property_keys_NoDup l :
  NoDup l → NoDup (ordinary_own_property_keys l).
Proof. by rewrite ordinary_own_property_keys_Permutation. Qed.

Lemma ordinary_own_property_keys_id l :
  Forall (λ k, ¬ is_array_index k) l → ordinary_own_property_keys l = l.
Proof.
  intros Hl. unfold ordinary_own_property_keys.
  rewrite (filter_none is_array_index l).
  - by rewrite (filter_all _ l Hl).
  - eapply Forall_impl; [done|]. naive_solver.
Qed.

Lemma ordinary_own_property_keys_rest l :
  filter (λ k, ¬ is_array_index k) (ordinary_own_property_keys l)
  = filter (λ k, ¬ is_array_index k) l.
Proof.
  unfold ordinary_own_property_keys. rewrite filter_app, filter_idemp.
  rewrite (filter_none _ (merge_sort _ _)); [done|].
  apply Forall_forall. intros k.
  rewrite merge_sort_Permutation, list_elem_of_filter. tauto.
Qed.

#[local] Instance index_le_total : Total index_le.
Proof. intros a b. unfold index_le. lia. Qed.

#[local] Instance index_le_trans : Transitive index_le.
Proof. intros a b c. unfold index_le. lia. Qed.

Lemma ordinary_own_property_keys_sorted l :
  StronglySorted index_le
    (filter is_array_index (ordinary_own_property_keys l)).
Proof.
  unfold ordinary_own_property_keys. rewrite filter_app.
  rewrite (filter_none is_array_index (filter _ l)).
  - rewrite app_nil_r, filter_all; [apply (StronglySorted_merge_sort _)|].
    apply Forall_forall. intros k.
    rewrite merge_sort_Permutation, list_elem_of_filter. tauto.
  - apply Forall_forall. intros k. rewrite list_elem_of_filter. tauto.
Qed.

Lemma own_keys_elem_of d k : k ∈ own_keys d ↔ k ∈ (own d).*1.
Proof. apply ordinary_own_property_keys_elem_of. Qed.

Lemma own_keys_NoDup d : NoDup (own d).*1 → NoDup (own_keys d).
Proof. apply ordinary_own_property_keys_NoDup. Qed.

Lemma entry_keys_field e key :
  key ∈ entry_keys e ↔ is_Some (entry_field e key).
Proof.
  unfold entry_keys, entry_field. rewrite elem_of_app, is_Some_alt.
  destruct (png e), (svg e); simpl;
    rewrite ?list_elem_of_singleton, ?elem_of_nil;
    repeat case_decide; subst; try (intuition congruence).
  all: intuition discriminate.
Qed.

(** Every enumerated key is found by [data[key]]: as an own entry, or as
    a string inherited from the installed prototype or from
    [Object.prototype]. *)
Lemma for_in_keys_resolve d key :
  key ∈ for_in_keys d →
  (∃ e, resolve d key = ROwn e) ∨ (∃ u, resolve d key = RProtoField u)
  ∨ (∃ u, resolve d key = RPollutedSvg u).
Proof.
  unfold for_in_keys, resolve. rewrite !elem_of_app, !list_elem_of_filter.
  rewrite own_keys_elem_of, <-alist_get_is_Some.
  intros [[e ->]|[[Hown Hk]|[Hno Hk]]]; [by eauto|..];
    (destruct (alist_get key (own d)) as [e|]; [by eauto|]).
  - destruct (proto d) as [e|]; [|by apply elem_of_nil in Hk].
    apply entry_keys_field in Hk as [u Hu]. simpl. rewrite Hu. eauto.
  - destruct (polluted_svg d) as [u|]; [|by apply elem_of_nil in Hk].
    apply list_elem_of_singleton in Hk as ->.
    destruct (proto d ≫= λ e, entry_field e (js "svg")) as [u'|]; [by eauto|].
    rewrite decide_False by done.
    rewrite decide_False by (by apply (bool_decide_unpack _)). eauto.
Qed.

(** The keys that are enumerated without being own keys are the fields
    of an entry object: no other property of a prototype is enumerable. *)
Lemma for_in_keys_inherited d key :
  key ∈ for_in_keys d →
  key ∈ own_keys d ∨ key = js "png" ∨ key = js "svg".
Proof.
  unfold for_in_keys. rewrite !elem_of_app, !list_elem_of_filter.
  intros [?|[[_ Hk]|[_ Hk]]]; [by left|right..].
  - destruct (proto d) as [e|]; [|by apply elem_of_nil in Hk].
    apply entry_keys_field in Hk as [u Hu]. unfold entry_field in Hu.
    repeat case_decide; by auto.
  - destruct (polluted_svg d); [|by apply elem_of_nil in Hk].
    apply list_elem_of_singleton in Hk. by right.
Qed.

Lemma for_in_keys_own d key : key ∈ own_keys d → key ∈ for_in_keys d.
Proof. intros. unfold for_in_keys. apply elem_of_app. by left. Qed.

Lemma for_in_keys_clean d : clean d → for_in_keys d = own_keys d.
Proof.
  intros [Hp Hs]. unfold for_in_keys. rewrite Hp, Hs. simpl.
  by rewrite !filter_nil, !app_nil_r.
Qed.

Lemma for_in_keys_NoDup d : NoDup (own d).*1 → NoDup (for_in_keys d).
Proof.
  intros Hown. unfold for_in_keys.
  assert (∀ e, NoDup (entry_keys e)) as Hek.
  { intros [[?|] [?|]]; unfold entry_keys; simpl;
      by apply (bool_decide_unpack _). }
  apply NoDup_app. split_and!; [by apply own_keys_NoDup| |].
  - intros k Hk [Hin|Hin]%elem_of_app.
    + by apply list_elem_of_filter in Hin as [? _].
    + apply list_elem_of_filter in Hin as [Hn _].
      apply Hn, elem_of_app. by left.
  - apply NoDup_app. split_and!.
    + apply NoDup_filter. destruct (proto d); simpl; [done|constructor].
    + intros k Hk [Hn _]%list_elem_of_filter. apply Hn, elem_of_app. by right.
    + apply NoDup_filter. destruct (polluted_svg d);
        [apply NoDup_singleton|constructor].
Qed.

End own_keys.

(** ** Lemmas on the prototype chain *)

Section resolve.
Implicit Types (key url : JsString) (d : Store) (e : Entry).

Lemma resolve_own d key e : alist_get key (own d) = Some e →
  resolve d key = ROwn e.
Proof. unfold resolve. by intros ->. Qed.

Lemma resolve_clean d key :
  clean d →
  resolve d key =
    match alist_get key (own d) with
    | Some e => ROwn e
    | None => if decide (key = proto_name) then RProtoGetter
              else if decide (key ∈ object_prototype_methods) then RMethod
              else RUndefined
    end.
Proof. intros [Hp Hs]. unfold resolve. by rewrite Hp, Hs. Qed.

Lemma has_property_clean d key :
  clean d →
  has_property d key = true ↔ key ∈ (own d).*1 ∨ inherited_name key.
Proof.
  intros Hc. unfold has_property, inherited_name.
  rewrite bool_decide_eq_true, resolve_clean by done.
  rewrite <-alist_get_is_Some.
  destruct (alist_get key (own d)) as [e|].
  - split; [intros _; left; eauto|done].
  - repeat case_decide; (split; [intros ?|intros [[? [=]]|[?|?]]]);
      try done; auto.
Qed.

Lemma assign_clean d key e :
  clean d → key ≠ proto_name → clean (assign d key e).
Proof. intros [? ?] ?. unfold assign. by rewrite decide_False. Qed.

Lemma assign_own d key e :
  key ≠ proto_name → own (assign d key e) = alist_set key e (own d).
Proof. intros. unfold assign. by rewrite decide_False. Qed.

Lemma assign_svg_own d key url e :
  alist_get key (own d) = Some e →
  assign_svg d key url
  = inl {| own := alist_set key (set_svg e url) (own d); proto := proto d;
           polluted_svg := polluted_svg d; method_svg := method_svg d |}.
Proof. intros Hg. unfold assign_svg. by rewrite (resolve_own _ _ _ Hg). Qed.

End resolve.

(** ** Theorems *)

Section object_theorems.
Implicit Types (d : Store) (key : JsString) (e : Entry).

Lemma ordinary_own_property_keys_split (l : list JsString) :
  ∃ idx rest, ordinary_own_property_keys l = idx ++ rest
    ∧ Forall is_array_index idx ∧ Forall (λ k, ¬ is_array_index k) rest.
Proof.
  eexists _, _. split; [done|]. split; apply Forall_forall; intros k.
  - rewrite merge_sort_Permutation, list_elem_of_filter. tauto.
  - rewrite list_elem_of_filter. tauto.
Qed.

(** [Object.keys(data)] is a permutation of the own keys in creation
    order: enumeration neither loses nor invents a key. *)
Theorem own_keys_Permutation d : own_keys d ≡ₚ (own d).*1.
Proof. apply ordinary_own_property_keys_Permutation. Qed.

(** When no own key is an array index, [Object.keys(data)] is the
    creation order: the order of the listing, as the specification
    assumes. *)
Theorem own_keys_creation_order d :
  Forall (λ k, ¬ is_array_index k) (own d).*1 → own_keys d = (own d).*1.
Proof. apply ordinary_own_property_keys_id. Qed.

Lemma own_keys_creation_order_witness :
  own_keys (assign (assign (empty_store pristine) (js "plex") (mkEntry None None))
              (js "2fa") (mkEntry None None))
  = (own (assign (assign (empty_store pristine) (js "plex") (mkEntry None None))
              (js "2fa") (mkEntry None None))).*1.
Proof.
  apply own_keys_creation_order. apply (bool_decide_unpack _).
  vm_compute. exact I.
Defined.

(** The array indices among the enumerated keys are in ascending
    numeric order. *)
Theorem own_keys_indices_sorted d :
  StronglySorted index_le (filter is_array_index (own_keys d)).
Proof. apply ordinary_own_property_keys_sorted. Qed.

(** The array indices among the enumerated keys are in strictly
    ascending numeric order: the order of the enumeration is determined
    by the keys, whatever the order of their creation. *)
Theorem own_keys_indices_ascending d :
  NoDup (own d).*1 →
  StronglySorted (λ a b, (default 0 (array_index a)
                          < default 0 (array_index b))%N)
    (filter is_array_index (own_keys d)).
Proof.
  intros Hnd%own_keys_NoDup%(NoDup_filter is_array_index).
  pose proof (own_keys_indices_sorted d) as Hs.
  assert (Forall is_array_index (filter is_array_index (own_keys d))) as Hi.
  { apply Forall_forall. by intros k [? _]%list_elem_of_filter. }
  induction Hs as [|a l _ IH Hal]; [constructor|].
  apply NoDup_cons in Hnd as [Ha Hnd]. apply Forall_cons in Hi as [[n Hn] Hi].
  constructor; [by apply IH|]. rewrite Forall_forall in Hal, Hi |- *.
  intros b Hb. specialize (Hal b Hb). destruct (Hi b Hb) as [m Hm].
  unfold index_le in Hal. rewrite Hn, Hm in *. simpl in *.
  destruct (decide (n = m)) as [->|]; [|lia].
  destruct Ha. by rewrite (array_index_inj _ _ _ Hn Hm).
Qed.

Lemma own_keys_indices_ascending_witness :
  StronglySorted (λ a b, (default 0 (array_index a)
                          < default 0 (array_index b))%N)
    (filter is_array_index
       (own_keys (assign (assign (empty_store pristine) (js "2048")
                            (mkEntry None None)) (js "7") (mkEntry None None)))).
Proof.
  apply own_keys_indices_ascending. apply (bool_decide_unpack _).
  vm_compute. exact I.
Defined.

(** The bounds of an array index: the key is the decimal form, without a
    leading zero, of its value, and its value is below [2^32 - 1]. *)
Theorem array_index_bounds k n :
  array_index k = Some n →
  (n < 2 ^ 32 - 1)%N ∧ digits_value k = n ∧ Forall is_digit k
  ∧ (head k = Some 48%N → n = 0%N).
Proof.
  intros (Hv & Hn & Hk)%array_index_Some. split_and!; [done..| |].
  - destruct Hk as [->|[? _]]; [by repeat constructor|done].
  - destruct Hk as [->|[_ (c & -> & ?)]]; [by subst|by intros [= ->]].
Qed.

Lemma array_index_bounds_witness :
  (2048 < 2 ^ 32 - 1)%N ∧ digits_value (js "2048") = 2048%N
  ∧ Forall is_digit (js "2048") ∧ (head (js "2048") = Some 48%N → 2048%N = 0%N).
Proof. by apply array_index_bounds. Defined.

(** Assignment and lookup: after [data[key] = e] with a key other than
    ["__proto__"], [data[key]] is the entry [e] as an own property and
    every other key resolves as before. *)
Theorem resolve_assign d key e key' :
  key ≠ proto_name →
  resolve (assign d key e) key'
  = if decide (key = key') then ROwn e else resolve d key'.
Proof.
  intros Hk. unfold resolve. rewrite assign_own by done.
  rewrite alist_get_set. case_decide; [done|].
  unfold assign. by rewrite decide_False.
Qed.

Lemma resolve_assign_witness :
  resolve (assign (empty_store pristine) (js "plex") (mkEntry (Some (js "u")) None))
    (js "plex")
  = if decide (js "plex" = js "plex")
    then ROwn (mkEntry (Some (js "u")) None)
    else resolve (empty_store pristine) (js "plex").
Proof. by apply resolve_assign. Defined.

(** [data["__proto__"] = e] creates no own property: it replaces the
    prototype of [data], after which the fields of [e] are found by
    [key in data] and visited by [for ... in] although [Object.keys]
    does not list them. *)
Theorem assign_proto d e :
  own (assign d proto_name e) = own d
  ∧ proto (assign d proto_name e) = Some e
  ∧ ∀ key u, entry_field e key = Some u → key ∉ (own d).*1 →
      resolve (assign d proto_name e) key = RProtoField u
      ∧ key ∈ for_in_keys (assign d proto_name e)
      ∧ key ∉ own_keys (assign d proto_name e).
Proof.
  unfold assign. rewrite decide_True by done. split_and!; [done..|].
  intros key u Hf Hown. split_and!.
  - unfold resolve. simpl. rewrite Hf.
    by rewrite (proj2 (alist_get_None _ _) Hown).
  - unfold for_in_keys. simpl. apply elem_of_app. right.
    apply elem_of_app. left. apply list_elem_of_filter.
    split; [by rewrite own_keys_elem_of|].
    unfold entry_field in Hf. unfold entry_keys.
    repeat case_decide; simplify_eq; rewrite Hf.
    + apply elem_of_app. left. apply list_elem_of_here.
    + apply elem_of_app. right. apply list_elem_of_here.
  - by rewrite own_keys_elem_of.
Qed.

End object_theorems.
