(* ===== verification/ImageData.v ===== *)
(** * Building the icon data ([src/src/hooks/useImageData.ts])

    [getImageData] awaits two requests in sequence.  Each response is
    parsed by [parseSoup] into a list of [{ name, url }]; the first pass
    stores [{ png: url }] under the name without its extension, the second
    adds [svg] to the entry the key resolves to or creates [{ svg: url }].
    A rejected request, or an exception thrown by a pass, is caught and
    its message logged: the function always resolves.

    The network is not modelled.  A [Response] is what [axios.get]
    settles with, a fulfilled one being given by the elements that the
    selector of [parseSoup] finds in the response body ([Listing] computes
    them from the parsed document); an [Anchor] is such an element, reduced
    to its [innerText] and its [href] attribute. *)

From S2P Require Import Prelude JsString JsObject.
From stdpp Require Import gmap.
From Stdlib Require Import PrimFloat.

(** ** Data *)

(** An element matched by ['.listing td.name > a']. *)
Record Anchor : Type := mkAnchor {
  innerText : JsString;
  href : option JsString;       (** [getAttribute('href')], [null] if absent *)
}.

(** [type ParsedImageData = { name: string; url: string }], line 5. *)
Record ParsedImageData : Type := mkParsed {
  name : JsString;
  url : JsString;
}.

(** [type GitHubApiData], lines 6-17: the entries of a directory as the
    contents API of GitHub lists them.  The type is declared and used
    nowhere: the listings are read from the pages of the CDN. *)
Module GitHubApi.

Record Links : Type := mkLinks {
  self : JsString;
  git : JsString;
  html : JsString;
}.

Record Item : Type := mkItem {
  name : JsString;
  path : JsString;
  sha : JsString;
  size : float;
  url : JsString;
  html_url : JsString;
  git_url : JsString;
  download_url : JsString;
  type : JsString;
  _links : Links;
}.

Definition GitHubApiData : Type := list Item.

End GitHubApi.

(** What a request settles with. *)
Inductive Response : Type :=
  | Fulfilled (links : list Anchor)
  | RejectedWith (message : JsString).

(** A line written by [console.log(err.message)]. *)
Inductive LogLine : Type :=
  | LogMessage (message : JsString)
  | LogThrown (e : JsError).

#[export] Instance ParsedImageData_eq_dec : EqDecision ParsedImageData.
Proof. solve_decision. Defined.

#[export] Instance LogLine_eq_dec : EqDecision LogLine.
Proof. solve_decision. Defined.

(** ** [parseSoup], lines 22-37 *)

Definition CDN_ORIGIN : JsString := js "https://cdn.jsdelivr.net".

(** [`${x}`] for a string or [null]. *)
Definition template (x : option JsString) : JsString :=
  default (js "null") x.

(** Lines 28-34, one iteration; [items] is the array [list] of the
    source. *)
Definition parseSoup_body (items : list ParsedImageData) (aTag : Anchor)
    : list ParsedImageData :=
  let name := trim (innerText aTag) in
  let url := CDN_ORIGIN ++ template (href aTag) in
  if decide (name ≠ js "...") then items ++ [mkParsed name url] else items.

Definition parseSoup (links : list Anchor) : list ParsedImageData :=
  foldl parseSoup_body [] links.

(** ** [getImageData], lines 39-78 *)

(** Line 45. *)
Definition pngRgx : JsString → bool := regex_suffix_ci (js ".png").

(** Line 61 (the source names this one [pngRgx] too). *)
Definition svgRgx : JsString → bool := regex_suffix_ci (js ".svg").

(** Lines 48 and 64: [const key = item.name.slice(0, -4)]. *)
Definition key_of (item : ParsedImageData) : JsString :=
  slice (name item) 0 (-4).

(** Lines 46-51, the callback of the first [forEach]. *)
Definition png_item (data : Store) (item : ParsedImageData) : Store :=
  if pngRgx (name item) then
    let key := key_of item in
    assign data key {| png := Some (url item); svg := None |}
  else data.

(** Lines 62-71, the callback of the second [forEach]. *)
Definition svg_item (data : Store) (item : ParsedImageData)
    : Store + JsError :=
  if svgRgx (name item) then
    let key := key_of item in
    if has_property data key then assign_svg data key (url item)
    else inl (assign data key {| png := None; svg := Some (url item) |})
  else inl data.

(** [forEach] with a callback that may throw: the mutations made before
    the exception stay. *)
Fixpoint forEach_throwing {A} (f : Store → A → Store + JsError)
    (data : Store) (l : list A) : Store * option JsError :=
  match l with
  | [] => (data, None)
  | x :: l =>
      match f data x with
      | inl data => forEach_throwing f data l
      | inr e => (data, Some e)
      end
  end.

(** Lines 41-55: the first request with its [then] and [catch]. *)
Definition png_pass (data : Store) (res : Response)
    : Store * list LogLine :=
  match res with
  | Fulfilled links => (foldl png_item data (parseSoup links), [])
  | RejectedWith m => (data, [LogMessage m])
  end.

(** Lines 57-75: the second request with its [then] and [catch]. *)
Definition svg_pass (data : Store) (res : Response)
    : Store * list LogLine :=
  match res with
  | Fulfilled links =>
      match forEach_throwing svg_item data (parseSoup links) with
      | (data, None) => (data, [])
      | (data, Some e) => (data, [LogThrown e])
      end
  | RejectedWith m => (data, [LogMessage m])
  end.

(** Lines 39-78.  [realm] is what the call finds on [Object.prototype]
    ([pristine] in a freshly loaded page). *)
Definition getImageData (realm : Realm)
    (pngRes svgRes : Response) : Store * list LogLine :=
  let data := empty_store realm in
  let '(data, log1) := png_pass data pngRes in
  let '(data, log2) := svg_pass data svgRes in
  (data, log1 ++ log2).

(** ** The invariant of the store *)

Definition nonempty_entry (e : Entry) : Prop :=
  is_Some (png e) ∨ is_Some (svg e).

Record wf_store (d : Store) : Prop := mk_wf_store {
  wf_own_NoDup : NoDup (own d).*1;
  wf_own_nonempty : Forall nonempty_entry (own d).*2;
  wf_own_not_proto : proto_name ∉ (own d).*1;
  wf_proto_png : ∀ e, proto d = Some e → is_Some (png e);
}.

(** ** The abstract mapping

    The mapping from icon base name to its URLs that the listing denotes,
    as a finite map: the contract of the data layer. *)

Definition spec_png (m : gmap JsString Entry) (item : ParsedImageData)
    : gmap JsString Entry :=
  if pngRgx (name item)
  then <[key_of item := {| png := Some (url item); svg := None |}]> m
  else m.

Definition spec_svg (m : gmap JsString Entry) (item : ParsedImageData)
    : gmap JsString Entry :=
  if svgRgx (name item)
  then partial_alter (λ o, Some match o with
                                | Some e => set_svg e (url item)
                                | None => {| png := None;
                                             svg := Some (url item) |}
                                end) (key_of item) m
  else m.

Definition image_map (pngs svgs : list ParsedImageData)
    : gmap JsString Entry :=
  foldl spec_svg (foldl spec_png ∅ pngs) svgs.

(** A listing is hazard-free when no item yields a key that names a
    property of [Object.prototype]. *)
Definition hazard_free (items : list ParsedImageData) : Prop :=
  Forall (λ item, ¬ inherited_name (key_of item)) items.

#[export] Instance inherited_name_dec key : Decision (inherited_name key).
Proof. unfold inherited_name. apply _. Defined.

#[export] Instance hazard_free_dec items : Decision (hazard_free items).
Proof. unfold hazard_free. apply _. Defined.

(** What [parseSoup] pushes for a link. *)
Definition parsed_of (aTag : Anchor) : ParsedImageData :=
  mkParsed (trim (innerText aTag)) (CDN_ORIGIN ++ template (href aTag)).

(** [refines d m]: the store is clean and its own properties are the
    bindings of [m]. *)
Definition refines (d : Store) (m : gmap JsString Entry) : Prop :=
  clean d ∧ ∀ key, alist_get key (own d) = m !! key.

(** Where a field of an entry of the mapping comes from: an item of the
    listing of that kind whose name passes the test and yields the key. *)
Definition listed (rgx : JsString → bool) (items : list ParsedImageData)
    (key u : JsString) : Prop :=
  ∃ item, item ∈ items ∧ rgx (name item) = true ∧ key_of item = key
          ∧ url item = u.

(** An entry whose URLs are truthy. *)
Definition entry_truthy (e : Entry) : Prop :=
  (∀ u, png e = Some u → truthy u = true)
  ∧ (∀ u, svg e = Some u → truthy u = true).

(** Every URL stored in an own entry is truthy. *)
Definition own_truthy (d : Store) : Prop := Forall entry_truthy (own d).*2.

(** The URL that a pass leaves under a key: that of the last item of the
    listing that the pass accepts and that yields the key. *)
Definition last_url (rgx : JsString → bool) (items : list ParsedImageData)
    (key : JsString) : option JsString :=
  url <$> last (filter (λ item, rgx (name item) = true ∧ key_of item = key)
                  items).

(** The entry made of two optional URLs, if there is any. *)
Definition entry_of (p s : option JsString) : option Entry :=
  match p, s with
  | None, None => None
  | _, _ => Some {| png := p; svg := s |}
  end.

(** The keys that a pass assigns, in the order of the listing. *)
Definition assigned_keys (rgx : JsString → bool)
    (items : list ParsedImageData) : list JsString :=
  key_of <$> filter (λ item, rgx (name item) = true) items.

(** What a file named ["__proto__.png"] leaves: [data] inherits [png], a
    string, from the entry that has become its prototype, and has no
    property [png] of its own. *)
Definition inherits_png (d : Store) : Prop :=
  (∃ u, proto d = Some {| png := Some u; svg := None |})
  ∧ polluted_svg d = None ∧ js "png" ∉ (own d).*1.

(** ** Generic lemmas on the two iteration schemes *)

Section iteration.
Context {A : Type} (P : Store → Prop).

Lemma forEach_throwing_preserves (f : Store → A → Store + JsError) l d :
  (∀ d x d', P d → f d x = inl d' → P d') →
  P d → P (forEach_throwing f d l).1.
Proof.
  intros Hf. revert d. induction l as [|x l IH]; simpl; [done|].
  intros d Hd. destruct (f d x) as [d'|e] eqn:Hfx; [|done].
  apply IH. by eapply Hf.
Qed.

Lemma forEach_throwing_preserves_Forall (Q : A → Prop)
    (f : Store → A → Store + JsError) l d :
  Forall Q l → (∀ d x d', Q x → P d → f d x = inl d' → P d') →
  P d → P (forEach_throwing f d l).1.
Proof.
  intros Hl Hf. revert d. induction Hl as [|x l Hx _ IH]; simpl; [done|].
  intros d Hd. destruct (f d x) as [d'|e] eqn:Hfx; [|done].
  apply IH. by eapply Hf.
Qed.

Lemma forEach_throwing_total (f : Store → A → Store + JsError) l d :
  (∀ d x, P d → ∃ d', f d x = inl d' ∧ P d') →
  P d → ∃ d', forEach_throwing f d l = (d', None) ∧ P d'.
Proof.
  intros Hf. revert d. induction l as [|x l IH]; simpl; [by eauto|].
  intros d Hd. destruct (Hf d x Hd) as (d' & -> & Hd'). by apply IH.
Qed.

End iteration.

(** ** [parseSoup] *)

Section parseSoup.
Implicit Types (links : list Anchor) (aTag : Anchor).
Implicit Types (item : ParsedImageData).

Lemma parseSoup_foldl links items :
  foldl parseSoup_body items links
  = items ++ (parsed_of <$> filter (λ a, trim (innerText a) ≠ js "...") links).
Proof.
  revert items. induction links as [|aTag links IH]; intros items; simpl.
  - by rewrite app_nil_r.
  - rewrite IH, filter_cons. unfold parseSoup_body.
    case_decide; [|done]. by rewrite <-app_assoc.
Qed.

Lemma parseSoup_app links1 links2 :
  parseSoup (links1 ++ links2) = parseSoup links1 ++ parseSoup links2.
Proof.
  unfold parseSoup. by rewrite foldl_app, !parseSoup_foldl.
Qed.

End parseSoup.

(** ** Preservation of the invariant *)

Section invariant.
Implicit Types (d : Store) (key : JsString) (e : Entry).
Implicit Types (item : ParsedImageData) (res : Response).

Lemma resolve_ROwn_inv d key e :
  resolve d key = ROwn e → alist_get key (own d) = Some e.
Proof.
  unfold resolve. destruct (alist_get key (own d)); [congruence|].
  by case_guards.
Qed.

Lemma has_property_proto_name d : has_property d proto_name = true.
Proof.
  unfold has_property, resolve. apply bool_decide_eq_true.
  destruct (alist_get _ _); [done|].
  destruct (proto d ≫= _); [done|].
  by destruct (decide (proto_name = proto_name)) as [_|[]].
Qed.

Lemma empty_store_wf realm : wf_store (empty_store realm).
Proof. split; simpl; [constructor..|apply not_elem_of_nil|done]. Qed.

Lemma assign_wf d key e :
  wf_store d → nonempty_entry e → (key = proto_name → is_Some (png e)) →
  wf_store (assign d key e).
Proof.
  intros [Hnd Hne Hnp Hpp] He Hkey. unfold assign.
  case_decide as Hk; split; simpl; auto.
  - by intros ? [= <-]; auto.
  - by apply alist_set_NoDup.
  - by apply alist_set_values.
  - rewrite alist_set_elem_of_keys. by intros [?|?].
Qed.

Lemma assign_svg_wf d key u d' :
  wf_store d → assign_svg d key u = inl d' → wf_store d'.
Proof.
  intros [Hnd Hne Hnp Hpp]. unfold assign_svg.
  destruct (resolve d key) as [e| | | | |] eqn:Hr; try done.
  - intros [= <-]. apply resolve_ROwn_inv in Hr.
    split; simpl; auto.
    + by apply alist_set_NoDup.
    + apply alist_set_values; [right; by eexists|done].
    + rewrite alist_set_elem_of_keys. intros [<-|?]; [|done].
      apply Hnp, alist_get_is_Some. by eexists.
  - destruct (proto d) as [e|] eqn:Hp; intros [= <-]; split; simpl; auto;
      try done.
    intros ? [= <-]. simpl. by apply Hpp.
  - by intros [= <-].
Qed.

Lemma png_item_wf d item : wf_store d → wf_store (png_item d item).
Proof.
  intros Hd. unfold png_item. case_match; [|done].
  apply assign_wf; [done|left|]; simpl; by eauto.
Qed.

Lemma svg_item_wf d item d' :
  wf_store d → svg_item d item = inl d' → wf_store d'.
Proof.
  intros Hd. unfold svg_item. case_match; [|by intros [= <-]].
  destruct (has_property d (key_of item)) eqn:Hin.
  - by apply assign_svg_wf.
  - intros [= <-]. apply assign_wf; [done|right; simpl; by eauto|].
    intros Hk. by rewrite Hk, has_property_proto_name in Hin.
Qed.

Lemma png_pass_wf d res : wf_store d → wf_store (png_pass d res).1.
Proof.
  destruct res; simpl; [|done].
  apply (foldl_preserves wf_store). intros. by apply png_item_wf.
Qed.

Lemma svg_pass_wf d res : wf_store d → wf_store (svg_pass d res).1.
Proof.
  destruct res as [links|m]; simpl; [|done]. intros Hd.
  pose proof (forEach_throwing_preserves wf_store svg_item
                (parseSoup links) d svg_item_wf Hd) as H.
  by destruct (forEach_throwing _ _ _) as [? [?|]].
Qed.

Lemma getImageData_fst realm pngRes svgRes :
  (getImageData realm pngRes svgRes).1
  = (svg_pass (png_pass (empty_store realm) pngRes).1 svgRes).1.
Proof.
  unfold getImageData. destruct (png_pass _ _) as [d1 l1]; simpl.
  by destruct (svg_pass _ _).
Qed.

Lemma getImageData_snd realm pngRes svgRes :
  (getImageData realm pngRes svgRes).2
  = (png_pass (empty_store realm) pngRes).2
    ++ (svg_pass (png_pass (empty_store realm) pngRes).1 svgRes).2.
Proof.
  unfold getImageData. destruct (png_pass _ _) as [d1 l1]; simpl.
  by destruct (svg_pass _ _).
Qed.

End invariant.

#[export] Hint Resolve empty_store_wf png_item_wf png_pass_wf svg_pass_wf
  : js.

Lemma getImageData_wf_store realm pngRes svgRes :
  wf_store (getImageData realm pngRes svgRes).1.
Proof. rewrite getImageData_fst. auto with js. Qed.

(** ** Refinement of the abstract mapping on hazard-free listings *)

Section refinement.
Implicit Types (d : Store) (m : gmap JsString Entry) (key : JsString).
Implicit Types (item : ParsedImageData) (items : list ParsedImageData).

Lemma refines_empty : refines (empty_store pristine) ∅.
Proof. split; [done|]. intros key. by rewrite lookup_empty. Qed.

Lemma not_inherited_proto_name key : ¬ inherited_name key → key ≠ proto_name.
Proof. intros Hn ->. apply Hn. by left. Qed.

Lemma refines_has_property d m key :
  refines d m → ¬ inherited_name key →
  has_property d key = bool_decide (is_Some (m !! key)).
Proof.
  intros [Hc Hm] Hk. rewrite <-Hm.
  destruct (has_property d key) eqn:Hh; symmetry.
  - apply bool_decide_eq_true.
    apply has_property_clean in Hh as [?|?]; [|done..].
    by apply alist_get_is_Some.
  - apply bool_decide_eq_false. intros Hs%alist_get_is_Some.
    assert (has_property d key = true) by (apply has_property_clean; auto).
    congruence.
Qed.

Lemma assign_refines d m key e :
  refines d m → key ≠ proto_name → refines (assign d key e) (<[key:=e]> m).
Proof.
  intros [Hc Hm] Hk. split; [by apply assign_clean|]. intros k.
  by rewrite assign_own, alist_get_set, lookup_insert, Hm.
Qed.

Lemma png_item_refines d m item :
  refines d m → ¬ inherited_name (key_of item) →
  refines (png_item d item) (spec_png m item).
Proof.
  intros Hd Hk. unfold png_item, spec_png. case_match; [|done].
  by apply assign_refines, not_inherited_proto_name.
Qed.

Lemma assign_keys d key e :
  key ≠ proto_name → (own (assign d key e)).*1 = push_new (own d).*1 key.
Proof. intros. by rewrite assign_own, alist_set_keys. Qed.

Lemma png_item_keys d item :
  ¬ inherited_name (key_of item) →
  (own (png_item d item)).*1
  = if pngRgx (name item) then push_new (own d).*1 (key_of item)
    else (own d).*1.
Proof.
  intros Hk%not_inherited_proto_name. unfold png_item.
  case_match; [by apply assign_keys|done].
Qed.

Lemma svg_item_refines d m item :
  refines d m → ¬ inherited_name (key_of item) →
  ∃ d', svg_item d item = inl d' ∧ refines d' (spec_svg m item)
      ∧ (own d').*1 = if svgRgx (name item)
                      then push_new (own d).*1 (key_of item)
                      else (own d).*1.
Proof.
  intros Hd Hk. unfold svg_item, spec_svg. case_match; [|by eauto].
  rewrite (refines_has_property d m) by done.
  destruct Hd as [Hc Hm].
  destruct (m !! key_of item) as [e|] eqn:He.
  - rewrite bool_decide_eq_true_2 by eauto.
    rewrite (assign_svg_own _ _ _ e) by (by rewrite Hm).
    eexists. split; [done|]. split; [|simpl; by rewrite alist_set_keys].
    split; [done|]. intros k. simpl.
    rewrite alist_get_set, lookup_partial_alter, He, Hm. by case_decide.
  - rewrite bool_decide_eq_false_2 by (by intros [? ?]).
    eexists. split; [done|].
    apply not_inherited_proto_name in Hk.
    split; [|by apply assign_keys].
    split; [by apply assign_clean|]. intros k.
    rewrite assign_own, alist_get_set, lookup_partial_alter, He, Hm by done.
    by case_decide.
Qed.

Lemma assigned_keys_cons rgx item items ks :
  foldl push_new ks (assigned_keys rgx (item :: items))
  = foldl push_new (if rgx (name item) then push_new ks (key_of item) else ks)
      (assigned_keys rgx items).
Proof.
  unfold assigned_keys. rewrite filter_cons.
  destruct (rgx (name item)); [by rewrite decide_True|by rewrite decide_False].
Qed.

Lemma png_fold_refines d m items :
  refines d m → hazard_free items →
  refines (foldl png_item d items) (foldl spec_png m items)
  ∧ (own (foldl png_item d items)).*1
    = foldl push_new (own d).*1 (assigned_keys pngRgx items).
Proof.
  intros Hd Hh. revert d m Hd.
  induction Hh as [|item items Hk _ IH]; intros d m Hd; simpl; [done|].
  rewrite assigned_keys_cons, <-png_item_keys by done.
  by apply IH, png_item_refines.
Qed.

Lemma svg_fold_refines d m items :
  refines d m → hazard_free items →
  ∃ d', forEach_throwing svg_item d items = (d', None)
        ∧ refines d' (foldl spec_svg m items)
        ∧ (own d').*1
          = foldl push_new (own d).*1 (assigned_keys svgRgx items).
Proof.
  intros Hd Hh. revert d m Hd.
  induction Hh as [|item items Hk _ IH]; intros d m Hd; simpl; [by eauto|].
  destruct (svg_item_refines d m item Hd Hk) as (d' & -> & Hd' & Hks).
  rewrite assigned_keys_cons, <-Hks. by apply IH.
Qed.

End refinement.

(** ** Exceptions in a pass *)

Section abort.
Context {A : Type} (f : Store → A → Store + JsError).

Lemma forEach_throwing_app l1 l2 d d1 :
  forEach_throwing f d l1 = (d1, None) →
  forEach_throwing f d (l1 ++ l2) = forEach_throwing f d1 l2.
Proof.
  revert d. induction l1 as [|x l1 IH]; intros d; simpl; [by intros [= ->]|].
  destruct (f d x); [apply IH|done].
Qed.

End abort.

(** ** Names with an extension *)

Lemma ext_name_split pat key ext u :
  length pat = 4 → ext =ᵢ pat →
  regex_suffix_ci pat (key ++ ext) = true
  ∧ key_of (mkParsed (key ++ ext) u) = key.
Proof.
  intros Hpat Hext.
  assert (length ext = 4) as Hlen.
  { by rewrite <-(length_fmap canonicalize), Hext, length_fmap. }
  split; [apply regex_suffix_ci_spec; by exists key, ext|].
  unfold key_of. simpl.
  replace (-4)%Z with (- Z.of_nat (length ext))%Z by lia.
  apply slice_app_suffix. by intros ->.
Qed.

(** A name that passes the test is its key followed by four code units
    that match the pattern. *)
Lemma name_key_of pat item :
  length pat = 4 → regex_suffix_ci pat (name item) = true →
  ∃ ext, name item = key_of item ++ ext
       ∧ ext =ᵢ pat.
Proof.
  intros Hpat Hre. exists (drop (length (name item) - length pat) (name item)).
  split.
  - unfold key_of. replace (-4)%Z with (- Z.of_nat (length pat))%Z by lia.
    apply regex_suffix_ci_split; [by destruct pat|done].
  - unfold regex_suffix_ci in Hre. apply bool_decide_eq_true in Hre. tauto.
Qed.

(** ** The [TypeError] of the second pass *)

Section inherits_png.
Implicit Types (d : Store) (item : ParsedImageData).
Implicit Types (items : list ParsedImageData).

Lemma assigned_keys_cons_eq rgx item items :
  assigned_keys rgx (item :: items)
  = if rgx (name item) then key_of item :: assigned_keys rgx items
    else assigned_keys rgx items.
Proof.
  unfold assigned_keys. rewrite filter_cons.
  destruct (rgx (name item)); [by rewrite decide_True|by rewrite decide_False].
Qed.

(** The first pass over a listing that has ["__proto__.png"] and no file
    of base name ["png"]. *)
Lemma png_fold_inherits_png items d :
  polluted_svg d = None → js "png" ∉ (own d).*1 →
  (∀ e, proto d = Some e → ∃ u, e = {| png := Some u; svg := None |}) →
  js "png" ∉ assigned_keys pngRgx items →
  proto_name ∈ assigned_keys pngRgx items ∨ is_Some (proto d) →
  inherits_png (foldl png_item d items).
Proof.
  revert d. induction items as [|item items IH]; intros d Hs Hown Hp Hno Hin.
  - destruct Hin as [[]%elem_of_nil|[e He]]. destruct (Hp e He) as [u ->].
    split; eauto.
  - rewrite assigned_keys_cons_eq in Hno, Hin. cbn [foldl]. unfold png_item.
    destruct (pngRgx (name item)); [|by apply IH].
    apply not_elem_of_cons in Hno as [Hne Hno]. unfold assign.
    case_decide as Hk; (apply IH; [done| | |done|]); simpl.
    + done.
    + intros ? [= <-]. eauto.
    + right. eauto.
    + rewrite alist_set_elem_of_keys. by intros [?|?].
    + done.
    + destruct Hin as [[?|?]%elem_of_cons|?]; [done|by left|by right].
Qed.

(** A file of the second listing whose base name is neither ["png"] nor
    a name of [Object.prototype] is stored as on a clean object. *)
Lemma svg_item_inherits_png d item :
  inherits_png d → ¬ inherited_name (key_of item) →
  key_of item ≠ js "png" →
  ∃ d', svg_item d item = inl d' ∧ inherits_png d'.
Proof.
  intros ([u Hp] & Hs & Hown) Hh Hne. unfold svg_item.
  destruct (svgRgx (name item)); [|by repeat (split || eexists)].
  unfold has_property, assign_svg, resolve. rewrite Hp, Hs. simpl.
  destruct (alist_get (key_of item) (own d)) as [e|] eqn:He.
  - rewrite bool_decide_eq_true_2 by done. eexists. split; [done|].
    split_and!; simpl; [by eauto|done|].
    rewrite alist_set_elem_of_keys. by intros [?|?].
  - unfold entry_field. rewrite decide_False by done. simpl.
    rewrite (decide_False (P := key_of item = proto_name)),
      (decide_False (P := key_of item ∈ object_prototype_methods))
      by (intros ?; apply Hh; by (left + right)).
    assert ((if decide (key_of item = js "svg") then None else None)
            = @None JsString) as -> by (by case_decide).
    rewrite bool_decide_eq_false_2 by (by intros []).
    eexists. split; [done|]. unfold assign.
    rewrite decide_False by (intros ?; apply Hh; by left).
    split_and!; simpl; [by eauto|done|].
    rewrite alist_set_elem_of_keys. by intros [?|?].
Qed.

Lemma svg_fold_inherits_png items d :
  inherits_png d → hazard_free items →
  js "png" ∉ assigned_keys svgRgx items →
  ∃ d', forEach_throwing svg_item d items = (d', None) ∧ inherits_png d'.
Proof.
  intros Hd Hh. revert d Hd.
  induction Hh as [|item items Hk _ IH]; intros d Hd Hno; simpl; [by eauto|].
  rewrite assigned_keys_cons_eq in Hno.
  destruct (svgRgx (name item)) eqn:Hre.
  - apply not_elem_of_cons in Hno as [Hne Hno].
    destruct (svg_item_inherits_png d item) as (d' & -> & Hd'); by auto.
  - unfold svg_item. rewrite Hre. by apply IH.
Qed.

(** A file named ["png.svg"] then assigns to a property of a string. *)
Lemma svg_item_png_throws d ext u :
  inherits_png d → ext =ᵢ js ".svg" →
  svg_item d (mkParsed (js "png" ++ ext) u) = inr TypeErrorCreateProperty.
Proof.
  intros ([p Hp] & _ & Hown) Hext.
  destruct (ext_name_split (js ".svg") (js "png") ext u eq_refl Hext)
    as [Hre Hk].
  unfold svg_item, svgRgx. cbn [name url]. rewrite Hre, Hk.
  assert (resolve d (js "png") = RProtoField p) as Hr.
  { unfold resolve. by rewrite (proj2 (alist_get_None _ _) Hown), Hp. }
  unfold has_property, assign_svg. rewrite Hr.
  by rewrite bool_decide_eq_true_2.
Qed.

(** The key ["png"] is then visited by [for ... in] and not listed by
    [Object.keys]. *)
Lemma inherits_png_for_in d :
  inherits_png d → js "png" ∈ for_in_keys d ∧ js "png" ∉ own_keys d.
Proof.
  intros ([u Hp] & Hs & Hown). split; [|by rewrite own_keys_elem_of].
  unfold for_in_keys. rewrite Hp. simpl.
  apply elem_of_app. right. apply elem_of_app. left.
  apply list_elem_of_filter. split; [by rewrite own_keys_elem_of|].
  apply list_elem_of_here.
Qed.

Lemma getImageData_inherits_png pngLinks svgLinks :
  proto_name ∈ assigned_keys pngRgx (parseSoup pngLinks) →
  js "png" ∉ assigned_keys pngRgx (parseSoup pngLinks) →
  hazard_free (parseSoup svgLinks) →
  js "png" ∉ assigned_keys svgRgx (parseSoup svgLinks) →
  inherits_png
    (getImageData pristine (Fulfilled pngLinks) (Fulfilled svgLinks)).1.
Proof.
  intros Hin Hno Hh Hno1. unfold getImageData. cbn [png_pass svg_pass].
  destruct (svg_fold_inherits_png (parseSoup svgLinks)
              (foldl png_item (empty_store pristine) (parseSoup pngLinks)))
    as (d1 & -> & Hd1); [|done..].
  apply png_fold_inherits_png;
    [done|apply not_elem_of_nil|done|done|by left].
Qed.

End inherits_png.

Lemma getImageData_refines_keys pngLinks svgLinks :
  hazard_free (parseSoup pngLinks) → hazard_free (parseSoup svgLinks) →
  ∃ d, getImageData pristine (Fulfilled pngLinks) (Fulfilled svgLinks) = (d, [])
     ∧ refines d (image_map (parseSoup pngLinks) (parseSoup svgLinks))
     ∧ (own d).*1 = nub (assigned_keys pngRgx (parseSoup pngLinks)
                         ++ assigned_keys svgRgx (parseSoup svgLinks)).
Proof.
  intros Hp Hs. unfold getImageData, image_map. simpl.
  destruct (png_fold_refines _ _ _ refines_empty Hp) as [H1 K1].
  destruct (svg_fold_refines _ _ _ H1 Hs) as (d & -> & Hd & K2).
  exists d. split_and!; [done..|].
  rewrite K2, K1, <-foldl_app. apply foldl_push_new_nil.
Qed.

Lemma getImageData_refines_clean pngLinks svgLinks :
  hazard_free (parseSoup pngLinks) → hazard_free (parseSoup svgLinks) →
  ∃ d, getImageData pristine (Fulfilled pngLinks) (Fulfilled svgLinks) = (d, [])
     ∧ clean d
     ∧ ∀ key, alist_get key (own d)
              = image_map (parseSoup pngLinks) (parseSoup svgLinks) !! key.
Proof.
  intros Hp Hs.
  destruct (getImageData_refines_keys _ _ Hp Hs) as (d & ? & [? ?] & _).
  eauto.
Qed.

(** ** Stored URLs are truthy

    Every URL starts with the CDN origin, so the tests [!data[k]?.png] and
    [png || svg] of the page see a stored URL as true. *)

Lemma parseSoup_url_truthy links :
  Forall (λ item, truthy (url item) = true) (parseSoup links).
Proof.
  unfold parseSoup. rewrite parseSoup_foldl, app_nil_l, Forall_fmap.
  apply Forall_forall. intros a _. by apply truthy_app_l.
Qed.

Lemma spec_png_truthy m item :
  truthy (url item) = true →
  map_Forall (λ _, entry_truthy) m →
  map_Forall (λ _, entry_truthy) (spec_png m item).
Proof.
  intros Hu Hm. unfold spec_png. case_match; [|done].
  apply map_Forall_insert_2; [|done]. by split; intros ? [= <-].
Qed.

Lemma spec_svg_truthy m item :
  truthy (url item) = true →
  map_Forall (λ _, entry_truthy) m →
  map_Forall (λ _, entry_truthy) (spec_svg m item).
Proof.
  intros Hu Hm. unfold spec_svg. case_match; [|done].
  intros k e. rewrite lookup_partial_alter. case_decide; [subst|apply Hm].
  intros [= <-]. destruct (m !! key_of item) as [e|] eqn:He.
  - destruct (Hm _ _ He) as [Hp _]. by split; [|intros ? [= <-]].
  - by split; intros ? [= <-].
Qed.

Lemma image_map_truthy pngLinks svgLinks :
  map_Forall (λ _, entry_truthy)
    (image_map (parseSoup pngLinks) (parseSoup svgLinks)).
Proof.
  unfold image_map.
  pose proof (parseSoup_url_truthy svgLinks) as Hs.
  pose proof (parseSoup_url_truthy pngLinks) as Hp.
  assert (map_Forall (λ _, entry_truthy) (foldl spec_png ∅ (parseSoup pngLinks)))
    as Hm.
  { generalize (map_Forall_empty (M:=gmap JsString) (λ _, entry_truthy)).
    generalize (∅ : gmap JsString Entry).
    induction Hp; simpl; auto using spec_png_truthy. }
  revert Hm. generalize (foldl spec_png ∅ (parseSoup pngLinks)).
  induction Hs; simpl; auto using spec_svg_truthy.
Qed.

(** The same on the store, for every listing. *)

Section own_truthy.
Implicit Types (d : Store) (key u : JsString) (e : Entry).
Implicit Types (item : ParsedImageData) (res : Response).

Lemma assign_truthy d key e :
  own_truthy d → entry_truthy e → own_truthy (assign d key e).
Proof.
  intros Hd He. unfold assign, own_truthy.
  case_decide; simpl; [done|by apply alist_set_values].
Qed.

Lemma assign_svg_truthy d key u d' :
  own_truthy d → truthy u = true → assign_svg d key u = inl d' →
  own_truthy d'.
Proof.
  intros Hd Hu. unfold assign_svg.
  destruct (resolve d key) as [e| | | | |] eqn:Hr; try done;
    [|destruct (proto d)|]; intros [= <-]; try done.
  apply alist_set_values; [|done].
  apply resolve_ROwn_inv, alist_get_elem_of in Hr.
  unfold own_truthy in Hd. rewrite Forall_forall in Hd.
  destruct (Hd e) as [Hp _].
  { apply list_elem_of_fmap. by exists (key, e). }
  split; [done|]. by intros ? [= <-].
Qed.

Lemma png_item_truthy d item :
  truthy (url item) = true → own_truthy d → own_truthy (png_item d item).
Proof.
  intros Hu Hd. unfold png_item. case_match; [|done].
  apply assign_truthy; [done|]. by split; intros ? [= <-].
Qed.

Lemma svg_item_truthy d item d' :
  truthy (url item) = true → own_truthy d → svg_item d item = inl d' →
  own_truthy d'.
Proof.
  intros Hu Hd. unfold svg_item. case_match; [|by intros [= <-]].
  case_match; [by apply assign_svg_truthy|]. intros [= <-].
  apply assign_truthy; [done|]. by split; intros ? [= <-].
Qed.

Lemma getImageData_own_truthy realm pngRes svgRes :
  own_truthy (getImageData realm pngRes svgRes).1.
Proof.
  rewrite getImageData_fst.
  assert (own_truthy (png_pass (empty_store realm) pngRes).1) as H1.
  { destruct pngRes as [links|]; simpl; [|by constructor].
    apply (foldl_preserves_Forall own_truthy _ _ _ _
             (parseSoup_url_truthy links)); [|by constructor].
    intros. by apply png_item_truthy. }
  destruct svgRes as [links|]; simpl; [|done].
  pose proof (forEach_throwing_preserves_Forall own_truthy _ svg_item _ _
                (parseSoup_url_truthy links) svg_item_truthy H1).
  by destruct (forEach_throwing _ _ _) as [? [?|]].
Qed.

End own_truthy.

(** ** Where the URLs of the mapping come from *)

Section provenance.
Implicit Types (m : gmap JsString Entry) (item : ParsedImageData).
Implicit Types (items pngs svgs : list ParsedImageData) (key u : JsString).
Implicit Types (e : Entry).

Lemma listed_here rgx item items :
  rgx (name item) = true →
  listed rgx (item :: items) (key_of item) (url item).
Proof. intros. exists item. split; [apply list_elem_of_here|done]. Qed.

Lemma listed_further rgx item items key u :
  listed rgx items key u → listed rgx (item :: items) key u.
Proof.
  intros (i & ? & ?). exists i. split; [by apply list_elem_of_further|done].
Qed.

Lemma spec_png_lookup m item key e :
  spec_png m item !! key = Some e →
  m !! key = Some e
  ∨ (pngRgx (name item) = true ∧ key_of item = key
     ∧ e = {| png := Some (url item); svg := None |}).
Proof.
  unfold spec_png. destruct (pngRgx (name item)) eqn:Hre; [|by left].
  rewrite lookup_insert. case_decide; [|by left]. intros [= <-]. by right.
Qed.

Lemma spec_svg_lookup m item key e :
  spec_svg m item !! key = Some e →
  m !! key = Some e
  ∨ (svgRgx (name item) = true ∧ key_of item = key
     ∧ svg e = Some (url item) ∧ png e = (m !! key) ≫= png).
Proof.
  unfold spec_svg. destruct (svgRgx (name item)) eqn:Hre; [|by left].
  rewrite lookup_partial_alter. case_decide; [subst|by left].
  intros [= <-]. right. by destruct (m !! key_of item).
Qed.

Lemma foldl_spec_png_lookup items m key e :
  foldl spec_png m items !! key = Some e →
  m !! key = Some e
  ∨ (∃ u, listed pngRgx items key u ∧ png e = Some u ∧ svg e = None).
Proof.
  revert m. induction items as [|item items IH]; intros m; [by left|].
  simpl. intros [Hm|(u & Hl & ?)]%IH; [|right; eauto using listed_further].
  apply spec_png_lookup in Hm as [?|(? & <- & ->)]; [by left|].
  right. eauto using listed_here.
Qed.

(** After the second pass, with [m] what the first pass built. *)
Lemma foldl_spec_svg_lookup items m key e :
  foldl spec_svg m items !! key = Some e →
  (∀ u, svg e = Some u →
        listed svgRgx items key u ∨ ∃ e', m !! key = Some e' ∧ svg e' = Some u)
  ∧ (∀ u, png e = Some u → ∃ e', m !! key = Some e' ∧ png e' = Some u).
Proof.
  revert m. induction items as [|item items IH]; intros m; simpl.
  { intros ?. split; eauto. }
  intros [Hs Hp]%IH. split; intros u Hu.
  - destruct (Hs u Hu) as [?|(e' & He' & ?)]; [left; by apply listed_further|].
    apply spec_svg_lookup in He' as [?|(? & <- & Hsvg & _)]; [by eauto|].
    left. assert (u = url item) as -> by congruence. by apply listed_here.
  - destruct (Hp u Hu) as (e' & He' & Hpng).
    apply spec_svg_lookup in He' as [?|(_ & <- & _ & Heq)]; [by eauto|].
    rewrite Heq in Hpng. destruct (m !! key_of item) as [e''|]; [|done].
    by eauto.
Qed.

Lemma image_map_listed pngs svgs key e :
  image_map pngs svgs !! key = Some e →
  (∀ u, png e = Some u → listed pngRgx pngs key u)
  ∧ (∀ u, svg e = Some u → listed svgRgx svgs key u).
Proof.
  intros [Hs Hp]%foldl_spec_svg_lookup. split; intros u Hu.
  - destruct (Hp u Hu) as (e' & [He'|(u' & ? & ? & _)]%foldl_spec_png_lookup & ?);
      [done|]. by assert (u = u') as -> by congruence.
  - destruct (Hs u Hu) as [?|(e' & He' & Hsvg)]; [done|].
    apply foldl_spec_png_lookup in He' as [?|(? & _ & _ & ?)]; [done|].
    congruence.
Qed.

Lemma spec_png_keeps_png m item key :
  is_Some (m !! key ≫= png) → is_Some (spec_png m item !! key ≫= png).
Proof.
  unfold spec_png. case_match; [|done].
  rewrite lookup_insert. case_decide; [by eauto|done].
Qed.

Lemma spec_svg_keeps_png m item key :
  is_Some (m !! key ≫= png) → is_Some (spec_svg m item !! key ≫= png).
Proof.
  unfold spec_svg. case_match; [|done].
  rewrite lookup_partial_alter. case_decide; [subst|done].
  by destruct (m !! key_of item).
Qed.

Lemma spec_svg_keeps_svg m item key :
  is_Some (m !! key ≫= svg) → is_Some (spec_svg m item !! key ≫= svg).
Proof.
  unfold spec_svg. case_match; [|done].
  rewrite lookup_partial_alter. case_decide; [subst|done].
  destruct (m !! key_of item); by eauto.
Qed.

Lemma foldl_reaches (f : gmap JsString Entry → ParsedImageData → _)
    (rgx : JsString → bool) (fld : Entry → option JsString) items m item :
  (∀ m item key, is_Some (m !! key ≫= fld) →
                 is_Some (f m item !! key ≫= fld)) →
  (∀ m item, rgx (name item) = true →
             is_Some (f m item !! key_of item ≫= fld)) →
  item ∈ items → rgx (name item) = true →
  is_Some (foldl f m items !! key_of item ≫= fld).
Proof.
  intros Hkeep Hset Hin Hre. revert m.
  induction Hin as [item items|item i items _ IH]; intros m; simpl;
    [|by apply IH].
  apply (foldl_preserves (λ m, is_Some (m !! key_of item ≫= fld))); auto.
Qed.

Lemma spec_png_sets m item :
  pngRgx (name item) = true → is_Some (spec_png m item !! key_of item ≫= png).
Proof. intros Hre. unfold spec_png. rewrite Hre, lookup_insert_eq. by eauto. Qed.

Lemma spec_svg_sets m item :
  svgRgx (name item) = true → is_Some (spec_svg m item !! key_of item ≫= svg).
Proof.
  intros Hre. unfold spec_svg. rewrite Hre, lookup_partial_alter_eq.
  destruct (m !! key_of item); by eauto.
Qed.

Lemma image_map_complete pngs svgs key u :
  (listed pngRgx pngs key u → is_Some (image_map pngs svgs !! key ≫= png))
  ∧ (listed svgRgx svgs key u → is_Some (image_map pngs svgs !! key ≫= svg)).
Proof.
  unfold image_map. split; intros (item & Hin & Hre & <- & _).
  - apply (foldl_preserves (λ m, is_Some (m !! key_of item ≫= png)));
      [intros; by apply spec_svg_keeps_png|].
    by apply (foldl_reaches spec_png pngRgx png);
      auto using spec_png_keeps_png, spec_png_sets.
  - by apply (foldl_reaches spec_svg svgRgx svg);
      auto using spec_svg_keeps_svg, spec_svg_sets.
Qed.

End provenance.

(** ** The last item wins *)

Section last_wins.
Implicit Types (m : gmap JsString Entry) (item : ParsedImageData).
Implicit Types (items pngs svgs : list ParsedImageData) (key u : JsString).

Lemma last_url_cons rgx item items key :
  last_url rgx (item :: items) key
  = match last_url rgx items key with
    | Some u => Some u
    | None => if decide (rgx (name item) = true ∧ key_of item = key)
              then Some (url item) else None
    end.
Proof.
  unfold last_url. rewrite filter_cons. case_decide; [|by destruct (last _)].
  rewrite last_cons. by destruct (last _).
Qed.

Lemma spec_png_lookup_eq m item key :
  spec_png m item !! key
  = if decide (pngRgx (name item) = true ∧ key_of item = key)
    then Some {| png := Some (url item); svg := None |} else m !! key.
Proof.
  unfold spec_png. destruct (pngRgx (name item)).
  - rewrite lookup_insert. destruct (decide (key_of item = key));
      [by rewrite decide_True|by rewrite decide_False by (by intros [_ ?])].
  - by rewrite decide_False by (by intros [? ?]).
Qed.

Lemma spec_svg_lookup_eq m item key :
  spec_svg m item !! key
  = if decide (svgRgx (name item) = true ∧ key_of item = key)
    then Some {| png := m !! key ≫= png; svg := Some (url item) |}
    else m !! key.
Proof.
  unfold spec_svg. destruct (svgRgx (name item)).
  - rewrite lookup_partial_alter. destruct (decide (key_of item = key)) as [<-|];
      [rewrite decide_True by done|by rewrite decide_False by (by intros [_ ?])].
    by destruct (m !! key_of item).
  - by rewrite decide_False by (by intros [? ?]).
Qed.

Lemma foldl_spec_png_last items m key :
  foldl spec_png m items !! key
  = match last_url pngRgx items key with
    | Some u => Some {| png := Some u; svg := None |}
    | None => m !! key
    end.
Proof.
  revert m. induction items as [|item items IH]; intros m; simpl; [done|].
  rewrite IH, last_url_cons, spec_png_lookup_eq.
  destruct (last_url pngRgx items key); [done|]. by case_decide.
Qed.

Lemma foldl_spec_svg_last items m key :
  foldl spec_svg m items !! key
  = match last_url svgRgx items key with
    | Some u => Some {| png := m !! key ≫= png; svg := Some u |}
    | None => m !! key
    end.
Proof.
  revert m. induction items as [|item items IH]; intros m; simpl; [done|].
  rewrite IH, last_url_cons, spec_svg_lookup_eq.
  destruct (last_url svgRgx items key); [|by case_decide].
  by case_decide.
Qed.

Lemma image_map_lookup pngs svgs key :
  image_map pngs svgs !! key
  = entry_of (last_url pngRgx pngs key) (last_url svgRgx svgs key).
Proof.
  unfold image_map. rewrite foldl_spec_svg_last, foldl_spec_png_last.
  rewrite lookup_empty.
  by destruct (last_url pngRgx pngs key), (last_url svgRgx svgs key).
Qed.

End last_wins.

(** ** Theorems *)

Section theorems.
Implicit Types (d : Store) (key u : JsString) (links : list Anchor).
Implicit Types (item : ParsedImageData) (res : Response).

(** [parseSoup] returns, in the order of the links, one item per link
    whose trimmed text is not ["..."]: its name is the trimmed text and
    its URL the CDN origin followed by the [href] attribute (["null"]
    when the attribute is absent). *)
Theorem parseSoup_spec links :
  parseSoup links
  = parsed_of <$> filter (λ a, trim (innerText a) ≠ js "...") links.
Proof. apply parseSoup_foldl. Qed.

(** C13: the store that [getImageData] resolves with is well formed,
    whatever the two responses are and whatever the listings contain:
    own keys are pairwise distinct, every own entry has a [png] or an
    [svg], ["__proto__"] is never an own key, and an object installed as
    prototype has a [png]. *)
Theorem getImageData_wf realm pngRes svgRes :
  wf_store (getImageData realm pngRes svgRes).1.
Proof. apply getImageData_wf_store. Qed.

(** C4: refinement of the name-to-URLs mapping: when both requests are
    fulfilled and no listed name yields a key that names a property of
    [Object.prototype], [getImageData] logs nothing, leaves the prototype
    chain untouched, and the own properties of [data] are exactly the
    bindings of [image_map]. *)
Theorem getImageData_refines pngLinks svgLinks :
  hazard_free (parseSoup pngLinks) → hazard_free (parseSoup svgLinks) →
  ∃ d, getImageData pristine (Fulfilled pngLinks) (Fulfilled svgLinks) = (d, [])
     ∧ refines d (image_map (parseSoup pngLinks) (parseSoup svgLinks)).
Proof.
  intros Hp Hs.
  destruct (getImageData_refines_clean _ _ Hp Hs) as (d & ? & ? & ?).
  exists d. split; [done|]. by split.
Qed.

Lemma getImageData_refines_witness :
  ∃ d, getImageData pristine
         (Fulfilled [mkAnchor (js " plex.png ") (Some (js "/png/plex.png"));
                     mkAnchor (js "...") None])
         (Fulfilled [mkAnchor (js "plex.svg") (Some (js "/svg/plex.svg"));
                     mkAnchor (js "zed.SVG") None]) = (d, [])
     ∧ refines d (image_map
         (parseSoup [mkAnchor (js " plex.png ") (Some (js "/png/plex.png"));
                     mkAnchor (js "...") None])
         (parseSoup [mkAnchor (js "plex.svg") (Some (js "/svg/plex.svg"));
                     mkAnchor (js "zed.SVG") None])).
Proof.
  apply getImageData_refines; apply (bool_decide_unpack _); vm_compute;
    exact I.
Defined.

(** The keys of the data and their order: on hazard-free listings the
    own keys of [data], in creation order, are the base names of the
    files that the first pass accepts followed by those that the second
    pass accepts, in the order of the listings, each at its first
    occurrence. *)
Theorem getImageData_keys pngLinks svgLinks :
  hazard_free (parseSoup pngLinks) → hazard_free (parseSoup svgLinks) →
  (own (getImageData pristine (Fulfilled pngLinks)
          (Fulfilled svgLinks)).1).*1
  = nub (assigned_keys pngRgx (parseSoup pngLinks)
         ++ assigned_keys svgRgx (parseSoup svgLinks)).
Proof.
  intros Hp Hs.
  by destruct (getImageData_refines_keys _ _ Hp Hs) as (d & -> & _ & <-).
Qed.

Lemma getImageData_keys_witness :
  (own (getImageData pristine
          (Fulfilled [mkAnchor (js "b.png") None; mkAnchor (js "a.png") None;
                      mkAnchor (js "b.PNG") None])
          (Fulfilled [mkAnchor (js "a.svg") None;
                      mkAnchor (js "c.svg") None])).1).*1
  = nub (assigned_keys pngRgx
           (parseSoup [mkAnchor (js "b.png") None; mkAnchor (js "a.png") None;
                       mkAnchor (js "b.PNG") None])
         ++ assigned_keys svgRgx
              (parseSoup [mkAnchor (js "a.svg") None;
                          mkAnchor (js "c.svg") None])).
Proof.
  apply getImageData_keys; apply (bool_decide_unpack _); vm_compute; exact I.
Defined.

(** C17: the entries of the data: on hazard-free listings the entry under
    a key holds, as [png], the URL of the last item of the first listing
    that the first pass accepts and that yields the key and, as [svg],
    that of the last such item of the second listing; there is no entry
    when there is neither. *)
Theorem getImageData_lookup pngLinks svgLinks key :
  hazard_free (parseSoup pngLinks) → hazard_free (parseSoup svgLinks) →
  alist_get key (own (getImageData pristine (Fulfilled pngLinks)
                        (Fulfilled svgLinks)).1)
  = entry_of (last_url pngRgx (parseSoup pngLinks) key)
             (last_url svgRgx (parseSoup svgLinks) key).
Proof.
  intros Hp Hs.
  destruct (getImageData_refines_clean _ _ Hp Hs) as (d & -> & _ & ->).
  apply image_map_lookup.
Qed.

Lemma getImageData_lookup_witness :
  alist_get (js "plex")
    (own (getImageData pristine
            (Fulfilled [mkAnchor (js "plex.png") (Some (js "/1"));
                        mkAnchor (js "plex.PNG") (Some (js "/2"))])
            (Fulfilled [])).1)
  = entry_of
      (last_url pngRgx
         (parseSoup [mkAnchor (js "plex.png") (Some (js "/1"));
                     mkAnchor (js "plex.PNG") (Some (js "/2"))]) (js "plex"))
      (last_url svgRgx (parseSoup []) (js "plex")).
Proof.
  apply getImageData_lookup; apply (bool_decide_unpack _); vm_compute;
    exact I.
Defined.

(** Soundness of the data with respect to the listings: on
    hazard-free listings every URL stored under a key is the URL of an
    item of the listing of that kind whose name passes the test of that
    pass and, cut by [slice(0, -4)], is the key. *)
Theorem getImageData_sound pngLinks svgLinks key e :
  hazard_free (parseSoup pngLinks) → hazard_free (parseSoup svgLinks) →
  alist_get key (own (getImageData pristine (Fulfilled pngLinks)
                        (Fulfilled svgLinks)).1) = Some e →
  (∀ u, png e = Some u → listed pngRgx (parseSoup pngLinks) key u)
  ∧ (∀ u, svg e = Some u → listed svgRgx (parseSoup svgLinks) key u).
Proof.
  intros Hp Hs.
  destruct (getImageData_refines_clean _ _ Hp Hs) as (d & -> & _ & Hm).
  simpl. rewrite Hm. apply image_map_listed.
Qed.

Lemma getImageData_sound_witness :
  (∀ u, Some (js "https://cdn.jsdelivr.net/p/plex.png") = Some u →
        listed pngRgx (parseSoup [mkAnchor (js "plex.png")
                                    (Some (js "/p/plex.png"))])
          (js "plex") u)
  ∧ (∀ u, None = Some u → listed svgRgx (parseSoup []) (js "plex") u).
Proof.
  apply (getImageData_sound
           [mkAnchor (js "plex.png") (Some (js "/p/plex.png"))] []
           (js "plex") (mkEntry (Some _) None));
    [apply (bool_decide_unpack _); vm_compute; exact I..|].
  vm_compute. reflexivity.
Defined.

(** Completeness of the data with respect to the listings: on
    hazard-free listings a key has a [png] exactly when the first listing
    has an item for it, and an [svg] exactly when the second has. *)
Theorem getImageData_complete pngLinks svgLinks key :
  hazard_free (parseSoup pngLinks) → hazard_free (parseSoup svgLinks) →
  let d := (getImageData pristine (Fulfilled pngLinks)
              (Fulfilled svgLinks)).1 in
  (is_Some (alist_get key (own d) ≫= png)
   ↔ ∃ u, listed pngRgx (parseSoup pngLinks) key u)
  ∧ (is_Some (alist_get key (own d) ≫= svg)
     ↔ ∃ u, listed svgRgx (parseSoup svgLinks) key u).
Proof.
  intros Hp Hs.
  destruct (getImageData_refines_clean _ _ Hp Hs) as (d & -> & _ & Hm).
  simpl. rewrite Hm.
  split; (split; [|intros [u Hu]; by eapply image_map_complete]).
  all: destruct (image_map _ _ !! key) as [e|] eqn:He; [|by intros [? ?]].
  all: apply image_map_listed in He as [Hpng Hsvg]; intros [u Hu]; eauto.
Qed.

Lemma getImageData_complete_witness :
  let d := (getImageData pristine
              (Fulfilled [mkAnchor (js "plex.png") None])
              (Fulfilled [mkAnchor (js "zed.svg") None])).1 in
  (is_Some (alist_get (js "plex") (own d) ≫= png)
   ↔ ∃ u, listed pngRgx (parseSoup [mkAnchor (js "plex.png") None])
            (js "plex") u)
  ∧ (is_Some (alist_get (js "plex") (own d) ≫= svg)
     ↔ ∃ u, listed svgRgx (parseSoup [mkAnchor (js "zed.svg") None])
              (js "plex") u).
Proof.
  apply (getImageData_complete [mkAnchor (js "plex.png") None]
           [mkAnchor (js "zed.svg") None] (js "plex"));
    apply (bool_decide_unpack _); vm_compute; exact I.
Defined.

(** A rejected first request is not fatal: its message is the first
    line of the log and the data is what the second pass alone builds
    from the empty object. *)
Theorem getImageData_png_rejected realm m svgRes :
  getImageData realm (RejectedWith m) svgRes
  = ((svg_pass (empty_store realm) svgRes).1,
     LogMessage m :: (svg_pass (empty_store realm) svgRes).2).
Proof. unfold getImageData. simpl. by destruct (svg_pass _ _). Qed.

(** A rejected second request is not fatal: the data is what the
    first pass built, and the message is the last line of the log. *)
Theorem getImageData_svg_rejected realm pngRes m :
  getImageData realm pngRes (RejectedWith m)
  = ((png_pass (empty_store realm) pngRes).1,
     (png_pass (empty_store realm) pngRes).2 ++ [LogMessage m]).
Proof. unfold getImageData. by destruct (png_pass _ _). Qed.

(** C33: the second pass can throw, and what follows the throwing file is
    lost.  When the first listing has a file named ["__proto__.png"],
    the prototype of [data] is an entry and [data.png] a string that
    [data] inherits; for a file named ["png.svg"] of the second listing
    the test [key in data] of line 65 holds and line 66 assigns to a
    property of that string, a [TypeError] in a module.  The [forEach]
    ends there and the [catch] of line 73 logs the error: the data is
    what the second listing cut before that file gives, whatever is
    listed after it. *)
Theorem getImageData_svg_abort pngLinks links1 bad links2 ext u :
  proto_name ∈ assigned_keys pngRgx (parseSoup pngLinks) →
  js "png" ∉ assigned_keys pngRgx (parseSoup pngLinks) →
  hazard_free (parseSoup links1) →
  js "png" ∉ assigned_keys svgRgx (parseSoup links1) →
  parseSoup [bad] = [mkParsed (js "png" ++ ext) u] → ext =ᵢ js ".svg" →
  getImageData pristine (Fulfilled pngLinks)
    (Fulfilled (links1 ++ bad :: links2))
  = ((getImageData pristine (Fulfilled pngLinks) (Fulfilled links1)).1,
     [LogThrown TypeErrorCreateProperty]).
Proof.
  intros Hin Hno Hh Hno1 Hbad Hext. unfold getImageData. cbn [png_pass].
  destruct (png_fold_inherits_png (parseSoup pngLinks) (empty_store pristine))
    as (Hp & Hs & Hown); [done|apply not_elem_of_nil|done|done|by left|].
  destruct (svg_fold_inherits_png (parseSoup links1) _
              (conj Hp (conj Hs Hown)) Hh Hno1) as (d1 & H1 & Hd1).
  unfold svg_pass. change (bad :: links2) with ([bad] ++ links2).
  rewrite (parseSoup_app links1), (parseSoup_app [bad] links2), Hbad.
  rewrite (forEach_throwing_app _ _ _ _ _ H1), H1. cbn [forEach_throwing app].
  by rewrite (svg_item_png_throws _ _ _ Hd1 Hext).
Qed.

Lemma getImageData_svg_abort_witness :
  getImageData pristine
    (Fulfilled [mkAnchor (js "__proto__.png") (Some (js "/p"))])
    (Fulfilled ([mkAnchor (js "plex.svg") (Some (js "/a"))]
                ++ mkAnchor (js "png" ++ js ".SVG") (Some (js "/b"))
                   :: [mkAnchor (js "sonarr.svg") (Some (js "/c"))]))
  = ((getImageData pristine
        (Fulfilled [mkAnchor (js "__proto__.png") (Some (js "/p"))])
        (Fulfilled [mkAnchor (js "plex.svg") (Some (js "/a"))])).1,
     [LogThrown TypeErrorCreateProperty]).
Proof.
  apply (getImageData_svg_abort _ _ _ _ (js ".SVG") (CDN_ORIGIN ++ js "/b"));
    try (apply (bool_decide_unpack _); vm_compute; exact I); done.
Defined.

(** C34: an SVG whose base name is a builtin method of [Object.prototype]
    (["constructor.svg"], ["toString.svg"], ...) is silently dropped when
    no PNG of that name was stored: [key in data] holds by inheritance and
    the assignment lands on the inherited function, so [data] gets no
    entry and the builtin gets a property [svg]. *)
Theorem svg_item_method_dropped d key ext u :
  clean d → key ∈ object_prototype_methods → key ∉ (own d).*1 →
  ext =ᵢ js ".svg" →
  svg_item d (mkParsed (key ++ ext) u)
  = inl {| own := own d; proto := proto d; polluted_svg := polluted_svg d;
           method_svg := alist_set key u (method_svg d) |}.
Proof.
  intros Hc Hkey Hown Hext.
  destruct (ext_name_split (js ".svg") key ext u eq_refl Hext) as [Hre Hk].
  unfold svg_item, svgRgx. cbn [name url]. rewrite Hre, Hk.
  assert (resolve d key = RMethod) as Hr.
  { rewrite resolve_clean by done.
    rewrite (proj2 (alist_get_None _ _) Hown).
    rewrite decide_False, decide_True; [done..|].
    intros ->. revert Hkey. by apply (bool_decide_unpack _). }
  unfold has_property, assign_svg. rewrite Hr.
  by rewrite bool_decide_eq_true_2.
Qed.

Lemma svg_item_method_dropped_witness :
  svg_item (empty_store pristine)
    (mkParsed (js "constructor" ++ js ".svg") (js "u"))
  = inl {| own := []; proto := None; polluted_svg := None;
           method_svg := [(js "constructor", js "u")] |}.
Proof.
  apply (svg_item_method_dropped (empty_store pristine)); [done| |apply not_elem_of_nil|done].
  by apply (bool_decide_unpack _).
Defined.

(** C35: an SVG named ["__proto__.svg"] writes to [Object.prototype]: on a
    clean store the assignment [data[key].svg = url] creates the property
    [svg] on the prototype shared by every object of the realm. *)
Theorem svg_item_proto_pollutes d ext u :
  clean d → wf_store d →
  ext =ᵢ js ".svg" →
  svg_item d (mkParsed (proto_name ++ ext) u)
  = inl {| own := own d; proto := None; polluted_svg := Some u;
           method_svg := method_svg d |}.
Proof.
  intros Hc Hwf Hext.
  destruct (ext_name_split (js ".svg") proto_name ext u eq_refl Hext)
    as [Hre Hk].
  unfold svg_item, svgRgx. cbn [name url]. rewrite Hre, Hk.
  rewrite has_property_proto_name. unfold assign_svg.
  rewrite resolve_clean by done.
  rewrite (proj2 (alist_get_None _ _) (wf_own_not_proto _ Hwf)).
  rewrite decide_True by done. by destruct Hc as [-> _].
Qed.

Lemma svg_item_proto_pollutes_witness :
  svg_item (empty_store pristine) (mkParsed (proto_name ++ js ".SVG") (js "u"))
  = inl {| own := []; proto := None; polluted_svg := Some (js "u");
           method_svg := [] |}.
Proof.
  apply (svg_item_proto_pollutes (empty_store pristine));
    [done|apply empty_store_wf|done].
Defined.

(** C36: a PNG named ["__proto__.png"], in any letter case of the
    extension, becomes the prototype of [data]: line 49 runs the setter
    of [__proto__], so that [data] gets no own property and
    [Object.keys] (line 30 of the page) does not change, while
    [for ... in] (line 35) from then on visits the key ["png"], which
    [data] inherits. *)
Theorem png_item_proto_replaces d ext u :
  js "png" ∉ (own d).*1 →
  ext =ᵢ js ".png" →
  let d' := png_item d (mkParsed (proto_name ++ ext) u) in
  d' = {| own := own d; proto := Some {| png := Some u; svg := None |};
          polluted_svg := polluted_svg d; method_svg := method_svg d |}
  ∧ own_keys d' = own_keys d
  ∧ resolve d' (js "png") = RProtoField u
  ∧ js "png" ∈ for_in_keys d' ∧ js "png" ∉ own_keys d'.
Proof.
  intros Hown Hext d'.
  destruct (ext_name_split (js ".png") proto_name ext u eq_refl Hext)
    as [Hre Hk].
  assert (d' = assign d proto_name {| png := Some u; svg := None |}) as ->.
  { unfold d', png_item, pngRgx. cbn [name url]. by rewrite Hre, Hk. }
  destruct (assign_proto d {| png := Some u; svg := None |})
    as (Ho & Hp & Hf).
  split; [by unfold assign; rewrite decide_True|].
  split; [by unfold own_keys; rewrite Ho|]. by apply Hf.
Qed.

Lemma png_item_proto_replaces_witness :
  let d' := png_item (empty_store pristine)
              (mkParsed (proto_name ++ js ".PNG") (js "u")) in
  d' = {| own := []; proto := Some {| png := Some (js "u"); svg := None |};
          polluted_svg := None; method_svg := [] |}
  ∧ own_keys d' = own_keys (empty_store pristine)
  ∧ resolve d' (js "png") = RProtoField (js "u")
  ∧ js "png" ∈ for_in_keys d' ∧ js "png" ∉ own_keys d'.
Proof.
  apply (png_item_proto_replaces (empty_store pristine));
    [apply not_elem_of_nil|done].
Defined.

(** The tests of both passes do not see the letter case of a name: names
    that are equal up to case are accepted together. *)
Theorem rgx_ci_equiv name1 name2 :
  name1 ≡ᵢ name2 →
  pngRgx name1 = pngRgx name2 ∧ svgRgx name1 = svgRgx name2.
Proof. intros H. unfold pngRgx, svgRgx. by setoid_rewrite H. Qed.

Lemma rgx_ci_equiv_witness :
  pngRgx (toLowerCase (js "Plex.PNG")) = pngRgx (js "Plex.PNG")
  ∧ svgRgx (toLowerCase (js "Plex.PNG")) = svgRgx (js "Plex.PNG").
Proof. apply rgx_ci_equiv, toLowerCase_ci_equiv. Defined.

(** Lower-casing a name lower-cases its key. *)
Theorem key_of_toLowerCase item :
  key_of (mkParsed (toLowerCase (name item)) (url item))
  = toLowerCase (key_of item).
Proof.
  unfold key_of, slice, toLowerCase. simpl.
  by rewrite fmap_take, fmap_drop, length_fmap.
Qed.

(** Round trip between keys and file names: a name made of a key and
    an extension that matches [/\.png$/i] passes the test of line 47 and
    [slice(0, -4)] gives the key back, whatever the letter case of the
    extension. *)
Theorem key_of_roundtrip key ext u :
  ext =ᵢ js ".png" →
  pngRgx (key ++ ext) = true ∧ key_of (mkParsed (key ++ ext) u) = key.
Proof.
  intros Hext. by apply (ext_name_split (js ".png")).
Qed.

Lemma key_of_roundtrip_witness :
  pngRgx (js "plex" ++ js ".PnG") = true
  ∧ key_of (mkParsed (js "plex" ++ js ".PnG") (js "u")) = js "plex".
Proof. apply key_of_roundtrip. vm_compute. reflexivity. Defined.

End theorems.
