(* ===== verification/Listing.v ===== *)
(** * The document of a listing and the links of [parseSoup]
    ([src/src/hooks/useImageData.ts] 22-37)

    [parseSoup] parses the body of a response into a document and takes,
    in document order, the elements that the selector
    ['.listing td.name > a'] matches; of each it reads [innerText] and the
    attribute [href].  This file models the parsed document as a tree
    ([HtmlNode], [Document]), the selector as syntax ([Selector],
    [listing_selector]) with a declarative meaning ([selects]) and an
    executable matcher ([matches]), [querySelectorAll] as the traversal
    in document order, and the two reads ([anchor_of]).  [links_of] is
    what [ImageData] calls the links of a fulfilled response, and
    [parseSoup_doc] is [parseSoup] from the parsed document on.

    The semantics of selectors and of the two reads are those of the
    Selectors and DOM standards for the fragment that the selector uses:
    type and class selectors, the descendant and the child combinator.
    Class names are compared ASCII case-insensitively when the document is
    in quirks mode (a body without doctype) and exactly otherwise; the
    document that [DOMParser] returns is not rendered, so that [innerText]
    is [textContent].  The tokenizer and tree builder of HTML, from the
    string to the tree, are not modelled. *)

From S2P Require Import Prelude JsString JsObject ImageData.

(** ** Documents *)

Definition Attr : Type := JsString * JsString.

(** An element seen from below: its local name and its attributes. *)
Definition Element : Type := JsString * list Attr.

#[local] Unset Elimination Schemes.

Inductive HtmlNode : Type :=
  | HText (data : JsString)
  | HComment (data : JsString)
  | HElem (localName : JsString) (attributes : list Attr)
      (childNodes : list HtmlNode).

#[local] Set Elimination Schemes.

(** Induction on documents: the children of an element satisfy the
    predicate. *)
Section HtmlNode_ind.
Context (P : HtmlNode → Prop).
Context (Htext : ∀ s, P (HText s)) (Hcomment : ∀ s, P (HComment s)).
Context (Helem : ∀ t attrs cs, Forall P cs → P (HElem t attrs cs)).

Fixpoint HtmlNode_ind (n : HtmlNode) : P n :=
  match n with
  | HText s => Htext s
  | HComment s => Hcomment s
  | HElem t attrs cs =>
      Helem t attrs cs
        ((fix go cs : Forall P cs :=
            match cs with
            | [] => Forall_nil_2 P
            | c :: cs => Forall_cons_2 P c cs (HtmlNode_ind c) (go cs)
            end) cs)
  end.

End HtmlNode_ind.

(** What [parseFromString(soup, 'text/html')] returns: the mode that the
    doctype of the body decides, and the children of the document. *)
Record Document : Type := mkDocument {
  quirks : bool;
  roots : list HtmlNode;
}.

(** ** Reading an element *)

(** [getAttribute]: the first attribute of that name, [null] if absent. *)
Definition getAttribute (attrs : list Attr) (qualifiedName : JsString)
    : option JsString :=
  alist_get qualifiedName attrs.

(** [textContent]: the data of the text nodes below, in tree order. *)
Fixpoint textContent (n : HtmlNode) : JsString :=
  match n with
  | HText s => s
  | HComment _ => []
  | HElem _ _ cs => cs ≫= textContent
  end.

(** ASCII whitespace: tab, line feed, form feed, carriage return, space. *)
Definition is_ascii_whitespace (c : code_unit) : bool :=
  bool_decide (c ∈ [9; 10; 12; 13; 32]%N).

(** Splitting on ASCII whitespace; [cur] is the token being read. *)
Fixpoint split_on_whitespace (cur s : JsString) : list JsString :=
  match s with
  | [] => match cur with [] => [] | _ => [cur] end
  | c :: s =>
      if is_ascii_whitespace c
      then match cur with [] => [] | _ => [cur] end
           ++ split_on_whitespace [] s
      else split_on_whitespace (cur ++ [c]) s
  end.

(** [classList]: the tokens of the attribute [class]. *)
Definition classList (attrs : list Attr) : list JsString :=
  split_on_whitespace [] (default [] (getAttribute attrs (js "class"))).

(** ** Selectors *)

(** A compound selector: at most one type selector and some class
    selectors, as in [td.name]. *)
Record Compound : Type := mkCompound {
  type_selector : option JsString;
  class_selectors : list JsString;
}.

(** A complex selector, read from the right: the compound that the
    element has to match and, through a combinator, the selector for an
    ancestor. *)
Inductive Selector : Type :=
  | Simple (c : Compound)
  | Descendant (s : Selector) (c : Compound)     (** [s c] *)
  | Child (s : Selector) (c : Compound).         (** [s > c] *)

(** Line 26: ['.listing td.name > a']. *)
Definition listing_selector : Selector :=
  Child (Descendant (Simple (mkCompound None [js "listing"]))
           (mkCompound (Some (js "td")) [js "name"]))
    (mkCompound (Some (js "a")) []).

(** *** The meaning of a selector *)

(** A class selector against a class of the element. *)
Definition class_eq (quirks : bool) (cl c : JsString) : Prop :=
  if quirks then cl =ᵢ c else cl = c.

#[export] Instance class_eq_dec q cl c : Decision (class_eq q cl c).
Proof. unfold class_eq. destruct q; apply _. Defined.

Definition has_class (quirks : bool) (el : Element) (cl : JsString) : Prop :=
  Exists (class_eq quirks cl) (classList el.2).

(** The type selector of an HTML document is compared in lower case with
    the local name. *)
Definition compound_holds (quirks : bool) (c : Compound) (el : Element)
    : Prop :=
  from_option (λ t, toLowerCase t = el.1) True (type_selector c)
  ∧ Forall (has_class quirks el) (class_selectors c).

#[export] Instance compound_holds_dec q c el :
  Decision (compound_holds q c el).
Proof.
  unfold compound_holds, has_class.
  destruct (type_selector c); simpl; apply _.
Defined.

(** [selects q s el ancestors]: the element with these ancestors, the
    parent first, is one that the selector represents. *)
Inductive selects (quirks : bool)
    : Selector → Element → list Element → Prop :=
  | selects_simple c el ancestors :
      compound_holds quirks c el →
      selects quirks (Simple c) el ancestors
  | selects_descendant s c el above p ancestors :
      compound_holds quirks c el → selects quirks s p ancestors →
      selects quirks (Descendant s c) el (above ++ p :: ancestors)
  | selects_child s c el p ancestors :
      compound_holds quirks c el → selects quirks s p ancestors →
      selects quirks (Child s c) el (p :: ancestors).

(** *** The matcher *)

(** Some ancestor, with the ancestors above it, satisfies [f]. *)
Fixpoint some_ancestor (f : Element → list Element → bool)
    (ancestors : list Element) : bool :=
  match ancestors with
  | [] => false
  | p :: ancestors => f p ancestors || some_ancestor f ancestors
  end.

(** [Element.matches], from the right of the selector to its left. *)
Fixpoint matches (quirks : bool) (s : Selector) (el : Element)
    (ancestors : list Element) : bool :=
  match s with
  | Simple c => bool_decide (compound_holds quirks c el)
  | Descendant s c =>
      bool_decide (compound_holds quirks c el)
      && some_ancestor (matches quirks s) ancestors
  | Child s c =>
      bool_decide (compound_holds quirks c el)
      && match ancestors with
         | [] => false
         | p :: ancestors => matches quirks s p ancestors
         end
  end.

(** ** [querySelectorAll] *)

(** The matching elements of a subtree, in tree order. *)
Fixpoint select (quirks : bool) (s : Selector) (ancestors : list Element)
    (n : HtmlNode) : list HtmlNode :=
  match n with
  | HElem t attrs cs =>
      (if matches quirks s (t, attrs) ancestors then [n] else [])
      ++ (cs ≫= select quirks s ((t, attrs) :: ancestors))
  | _ => []
  end.

Definition querySelectorAll (doc : Document) (s : Selector)
    : list HtmlNode :=
  roots doc ≫= select (quirks doc) s [].

(** ** [parseSoup] from the document on *)

(** Lines 29-30: what the loop reads of [aTag]. *)
Definition anchor_of (aTag : HtmlNode) : Anchor :=
  {| innerText := textContent aTag;
     href := match aTag with
             | HElem _ attrs _ => getAttribute attrs (js "href")
             | _ => None
             end |}.

(** Line 26. *)
Definition links_of (doc : Document) : list Anchor :=
  anchor_of <$> querySelectorAll doc listing_selector.

(** Lines 22-37, with the parsed document for the body. *)
Definition parseSoup_doc (doc : Document) : list ParsedImageData :=
  parseSoup (links_of doc).

(** The response of a request that is fulfilled with a body that parses
    to [doc]. *)
Definition fulfilled_with (doc : Document) : Response :=
  Fulfilled (links_of doc).

(** ** Positions in a document *)

(** The element nodes of a subtree, in tree order. *)
Fixpoint element_nodes (n : HtmlNode) : list HtmlNode :=
  match n with
  | HElem _ _ cs => n :: (cs ≫= element_nodes)
  | _ => []
  end.

(** [occurs ancestors root ancestors' n]: the node [n] is [root], whose
    ancestors are [ancestors], or lies below it, and [ancestors'] are the
    ancestors of [n], its parent first. *)
Inductive occurs
    : list Element → HtmlNode → list Element → HtmlNode → Prop :=
  | occurs_here ancestors n : occurs ancestors n ancestors n
  | occurs_below ancestors t attrs cs c ancestors' n :
      c ∈ cs → occurs ((t, attrs) :: ancestors) c ancestors' n →
      occurs ancestors (HElem t attrs cs) ancestors' n.

(** ** A listing page *)

(** A row of the table of a listing: the cell of the name with its link,
    and the cell of the size. *)
Definition anchor_node (a : Anchor) : HtmlNode :=
  HElem (js "a")
    (match href a with
     | Some h => [(js "rel", js "nofollow"); (js "href", h)]
     | None => [(js "rel", js "nofollow")]
     end)
    [HText (innerText a)].

Definition row_of (size : JsString) (a : Anchor) : HtmlNode :=
  HElem (js "tr") []
    [HElem (js "td") [(js "class", js "name")] [anchor_node a];
     HElem (js "td") [(js "class", js "size")] [HText size]].

(** A page of the shape that the selector is written for: a heading with
    links of its own, and the table of the files inside an element of
    class [listing]. *)
Definition listing_page (heading : list HtmlNode) (size : JsString)
    (links : list Anchor) : Document :=
  {| quirks := false;
     roots :=
       [HElem (js "html") []
          [HElem (js "head") [] [HElem (js "title") [] [HText (js "CDN")]];
           HElem (js "body") []
             [HElem (js "div") [(js "class", js "header")] heading;
              HElem (js "div") [(js "class", js "listing")]
                [HElem (js "table") []
                   [HElem (js "tbody") [] (row_of size <$> links)]]]]] |}.

(** ** The matcher decides the meaning of a selector *)

Section matcher.
Context (quirks : bool).
Implicit Types (s : Selector) (c : Compound) (el p : Element).
Implicit Types (ancestors above : list Element).

Lemma some_ancestor_true f ancestors :
  some_ancestor f ancestors = true
  ↔ ∃ above p rest, ancestors = above ++ p :: rest ∧ f p rest = true.
Proof.
  induction ancestors as [|p ancestors IH]; simpl.
  - split; [done|]. by intros ([|??] & ? & ? & ? & _).
  - rewrite orb_true_iff, IH. split.
    + intros [Hf|(above & p' & rest & -> & Hf)];
        [by exists [], p, ancestors|by exists (p :: above), p', rest].
    + intros ([|p0 above] & p' & rest & [= -> ->] & Hf); [by left|].
      right. by exists above, p', rest.
Qed.

Lemma matches_selects s el ancestors :
  matches quirks s el ancestors = true ↔ selects quirks s el ancestors.
Proof.
  revert el ancestors.
  induction s as [c|s IH c|s IH c]; intros el ancestors; simpl.
  - rewrite bool_decide_eq_true. split; [by constructor|by inversion 1].
  - rewrite andb_true_iff, bool_decide_eq_true, some_ancestor_true. split.
    + intros (? & above & p & rest & -> & ?%IH). by constructor.
    + inversion 1; subst. split; [done|]. eexists _, _, _. by rewrite IH.
  - rewrite andb_true_iff, bool_decide_eq_true. split.
    + intros [? Hm]. destruct ancestors as [|p rest]; [done|].
      apply IH in Hm. by constructor.
    + inversion 1; subst. by rewrite IH.
Qed.

(** The compound on the left of a selector. *)
Fixpoint leftmost s : Compound :=
  match s with
  | Simple c => c
  | Descendant s _ | Child s _ => leftmost s
  end.

(** What a selector represents is at or below an element that its
    leftmost compound holds of. *)
Lemma selects_leftmost s el ancestors :
  selects quirks s el ancestors →
  Exists (compound_holds quirks (leftmost s)) (el :: ancestors).
Proof.
  induction 1 as [| |]; simpl; [by left|right..].
  - rewrite Exists_app. by right.
  - done.
Qed.

End matcher.

(** ** Positions and the traversal *)

Section traversal.
Context (quirks : bool).
Implicit Types (s : Selector) (n root : HtmlNode) (el : Element).
Implicit Types (ancestors : list Element).

(** The view of an element node. *)
Definition element_of n : option Element :=
  match n with HElem t attrs _ => Some (t, attrs) | _ => None end.

Lemma occurs_trans ancestors root ancestors' n ancestors'' m :
  occurs ancestors root ancestors' n → occurs ancestors' n ancestors'' m →
  occurs ancestors root ancestors'' m.
Proof. induction 1; [done|]. intros. econstructor; eauto. Qed.

Lemma elem_of_select s ancestors root n :
  n ∈ select quirks s ancestors root
  ↔ ∃ el ancestors', element_of n = Some el
      ∧ occurs ancestors root ancestors' n
      ∧ selects quirks s el ancestors'.
Proof.
  revert ancestors.
  induction root as [| |t attrs cs IH] using HtmlNode_ind; intros ancestors;
    simpl;
    [by split; [intros ?%elem_of_nil
               |intros (? & ? & ? & H & _); inversion H; subst]..|].
  rewrite elem_of_app, list_elem_of_bind. split.
  - intros [Hn|(c & Hn & Hc)].
    + destruct (matches _ _ _ _) eqn:Hm; [|by apply elem_of_nil in Hn].
      apply list_elem_of_singleton in Hn as ->.
      eexists _, _. split_and!; [done|constructor|by apply matches_selects].
    + rewrite Forall_forall in IH.
      apply (IH _ Hc) in Hn as (el & anc' & ? & ? & ?).
      exists el, anc'. split_and!; [done|by econstructor|done].
  - intros (el & anc' & Hel & Ho & Hs). inversion Ho; subst.
    + left. injection Hel as <-. apply matches_selects in Hs as ->.
      apply list_elem_of_here.
    + right. rewrite Forall_forall in IH. eexists. split; [|done].
      apply IH; [done|]. by exists el, anc'.
Qed.

End traversal.

(** ** Document order *)

Section order.
Context (quirks : bool).
Implicit Types (s : Selector) (n root : HtmlNode) (el : Element).
Implicit Types (ancestors : list Element).

Lemma select_sublist s ancestors n :
  select quirks s ancestors n `sublist_of` element_nodes n.
Proof.
  revert ancestors.
  induction n as [| |t attrs cs IH] using HtmlNode_ind; intros ancestors;
    simpl; [done..|].
  apply (sublist_app _ [_]); [destruct (matches _ _ _ _); auto with js|].
  apply sublist_bind. eapply Forall_impl; [done|]. naive_solver.
Qed.

Lemma elem_of_elements_self n el :
  element_of n = Some el → n ∈ element_nodes n.
Proof. destruct n; [done..|]. intros _. apply list_elem_of_here. Qed.

Lemma elements_below t attrs cs c n :
  c ∈ cs → n ∈ element_nodes c → n ∈ element_nodes (HElem t attrs cs).
Proof.
  intros. simpl. apply list_elem_of_further, list_elem_of_bind. eauto.
Qed.

(** A node that occurs in a subtree is one of its elements, and its
    ancestors are elements of the subtree followed by the ancestors of the
    subtree. *)
Lemma occurs_elements ancestors root ancestors' n el :
  occurs ancestors root ancestors' n → element_of n = Some el →
  n ∈ element_nodes root
  ∧ ∃ above, ancestors' = above ++ ancestors
      ∧ Forall (λ p, p ∈ omap element_of (element_nodes root)) above.
Proof.
  induction 1 as [anc n|anc t attrs cs c anc' n Hc _ IH]; intros Hel.
  - split; [by eapply elem_of_elements_self|]. by exists [].
  - destruct (IH Hel) as (Hn & above & -> & Habove).
    split; [by eapply elements_below|].
    exists (above ++ [(t, attrs)]). split; [by rewrite <-app_assoc|].
    apply Forall_app. split.
    + eapply Forall_impl; [done|]. intros p (m & ? & ?)%list_elem_of_omap.
      apply list_elem_of_omap. exists m. split; [|done].
      by eapply elements_below.
    + apply Forall_singleton, list_elem_of_omap.
      exists (HElem t attrs cs). split; [apply list_elem_of_here|done].
Qed.

(** Nothing is selected where no element, in the subtree or above it,
    satisfies the leftmost compound of the selector. *)
Lemma select_nil s ancestors n :
  Forall (λ p, ¬ compound_holds quirks (leftmost s) p)
    (omap element_of (element_nodes n) ++ ancestors) →
  select quirks s ancestors n = [].
Proof.
  intros Hno. apply elem_of_nil_inv. intros m.
  intros (el & anc' & Hel & Ho & Hs%selects_leftmost)%elem_of_select.
  destruct (occurs_elements _ _ _ _ _ Ho Hel) as (Hm & above & -> & Habove).
  rewrite Forall_forall in Hno, Habove.
  apply Exists_exists in Hs as (p & Hp & Hc). apply (Hno p); [|done].
  rewrite elem_of_app.
  apply elem_of_cons in Hp as [->|[?|?]%elem_of_app]; auto.
  left. apply list_elem_of_omap. eauto.
Qed.

End order.

(** No element of the heading has the class [listing]. *)
Definition no_listing (heading : list HtmlNode) : Prop :=
  Forall (λ p, ¬ has_class false p (js "listing"))
    (omap element_of (heading ≫= element_nodes)).

#[export] Instance no_listing_dec heading : Decision (no_listing heading).
Proof. unfold no_listing. apply _. Defined.

(** ** The links of a listing page *)

Section listing_page.
Implicit Types (n : HtmlNode) (a : Anchor) (links : list Anchor).
Implicit Types (ancestors : list Element) (p : Element).

Lemma select_no_match quirks s ancestors t attrs cs :
  matches quirks s (t, attrs) ancestors = false →
  select quirks s ancestors (HElem t attrs cs)
  = cs ≫= select quirks s ((t, attrs) :: ancestors).
Proof. simpl. by intros ->. Qed.

(** The selector of line 26 matches nothing but [a] elements. *)
Lemma listing_selector_tag quirks t attrs ancestors :
  t ≠ js "a" → matches quirks listing_selector (t, attrs) ancestors = false.
Proof.
  intros Ht. simpl. apply andb_false_intro1, bool_decide_eq_false.
  by intros [? _].
Qed.

Lemma leftmost_listing_selector quirks p :
  compound_holds quirks (leftmost listing_selector) p
  ↔ has_class quirks p (js "listing").
Proof.
  unfold compound_holds. simpl. rewrite Forall_singleton.
  split; [by intros [_ ?]|by split].
Qed.

Lemma anchor_of_anchor_node a : anchor_of (anchor_node a) = a.
Proof.
  destruct a as [t [h|]]; unfold anchor_of; simpl; by rewrite app_nil_r.
Qed.

Lemma select_row size a ancestors :
  Exists (λ p, has_class false p (js "listing")) ancestors →
  select false listing_selector ancestors (row_of size a) = [anchor_node a].
Proof.
  intros Hl. unfold row_of, anchor_node.
  cbn [select mbind list_bind app].
  rewrite !listing_selector_tag by (by vm_compute).
  replace (matches _ _ _ _) with true; [by rewrite !app_nil_r|].
  symmetry. apply matches_selects.
  apply Exists_exists in Hl as (p & (l1 & l2 & ->)%list_elem_of_split & Hl).
  apply selects_child; [by apply (bool_decide_unpack _)|].
  apply (selects_descendant false _ _ _ ((js "tr", []) :: l1) p l2);
    [by apply (bool_decide_unpack _)|].
  by apply selects_simple, leftmost_listing_selector.
Qed.

(** Above the rows of the table. *)
Definition table_ancestors : list Element :=
  [(js "tbody", []); (js "table", []);
   (js "div", [(js "class", js "listing")]);
   (js "body", []); (js "html", [])].

Lemma select_rows size links :
  (row_of size <$> links) ≫= select false listing_selector table_ancestors
  = anchor_node <$> links.
Proof.
  induction links as [|a links IH]; [done|].
  rewrite !fmap_cons, bind_cons, IH, select_row; [done|].
  apply (bool_decide_unpack _). by vm_compute.
Qed.

Lemma select_heading heading :
  no_listing heading →
  heading ≫= select false listing_selector
               [(js "div", [(js "class", js "header")]);
                (js "body", []); (js "html", [])] = [].
Proof.
  unfold no_listing. intros Hno. apply bind_nil, Forall_forall. intros n Hn.
  apply select_nil, Forall_app. split.
  - rewrite Forall_forall in Hno |- *. intros p Hp.
    rewrite leftmost_listing_selector. apply Hno.
    apply list_elem_of_omap in Hp as (m & Hm & ?).
    apply list_elem_of_omap. exists m. split; [|done].
    apply list_elem_of_bind. eauto.
  - apply (Forall_impl (λ p, ¬ has_class false p (js "listing")));
      [|intros p; by rewrite leftmost_listing_selector].
    apply (bool_decide_unpack _). by vm_compute.
Qed.

Lemma querySelectorAll_listing_page heading size links :
  no_listing heading →
  querySelectorAll (listing_page heading size links) listing_selector
  = anchor_node <$> links.
Proof.
  intros Hno. unfold querySelectorAll, listing_page. cbn [roots quirks].
  repeat (rewrite ?bind_cons, ?select_no_match
            by (apply listing_selector_tag; by vm_compute);
          change (@nil HtmlNode ≫= ?f) with (@nil HtmlNode)).
  rewrite select_heading by done. fold table_ancestors.
  rewrite select_rows. simpl. by rewrite !app_nil_r.
Qed.

Lemma fmap_anchor_of_anchor_node links :
  anchor_of <$> (anchor_node <$> links) = links.
Proof.
  induction links as [|a links IH]; [done|].
  by rewrite !fmap_cons, anchor_of_anchor_node, IH.
Qed.

Lemma links_of_page heading size links :
  no_listing heading → links_of (listing_page heading size links) = links.
Proof.
  intros. unfold links_of.
  by rewrite querySelectorAll_listing_page, fmap_anchor_of_anchor_node.
Qed.

End listing_page.

(** ** Theorems *)

Section listing_theorems.
Implicit Types (doc : Document) (n root : HtmlNode) (s : Selector).
Implicit Types (el p l : Element) (links : list Anchor).

(** The matcher decides the declarative meaning of selectors: an element
    with its ancestors matches a selector exactly when the selector
    represents it. *)
Theorem matches_sound_complete quirks s el ancestors :
  matches quirks s el ancestors = true ↔ selects quirks s el ancestors.
Proof. apply matches_selects. Qed.

(** [querySelectorAll] returns exactly the elements of the document that
    the selector represents at their position. *)
Theorem elem_of_querySelectorAll doc s n :
  n ∈ querySelectorAll doc s
  ↔ ∃ root el ancestors,
      root ∈ roots doc ∧ element_of n = Some el
      ∧ occurs [] root ancestors n ∧ selects (quirks doc) s el ancestors.
Proof.
  unfold querySelectorAll. rewrite list_elem_of_bind. split.
  - intros (root & (el & anc & ? & ? & ?)%elem_of_select & ?).
    by exists root, el, anc.
  - intros (root & el & anc & ? & ? & ? & ?). exists root.
    split; [|done]. apply elem_of_select. by exists el, anc.
Qed.

(** [querySelectorAll] returns its elements in tree order. *)
Theorem querySelectorAll_tree_order doc s :
  querySelectorAll doc s `sublist_of` roots doc ≫= element_nodes.
Proof.
  apply sublist_bind, Forall_forall. intros n _. apply select_sublist.
Qed.

(** C23: the links of line 26: the elements that [parseSoup] iterates
    over are exactly the [a] elements of the document whose parent is a
    [td] element with the class [name] that has, somewhere above it, an
    element with the class [listing]. *)
Theorem links_of_listing_selector doc n :
  n ∈ querySelectorAll doc listing_selector
  ↔ ∃ root attrs cs td above l ancestors,
      root ∈ roots doc ∧ n = HElem (js "a") attrs cs
      ∧ occurs [] root ((js "td", td) :: above ++ l :: ancestors) n
      ∧ has_class (quirks doc) (js "td", td) (js "name")
      ∧ has_class (quirks doc) l (js "listing").
Proof.
  rewrite elem_of_querySelectorAll. split.
  - intros (root & el & anc & Hr & Hel & Ho & Hs).
    inversion Hs as [| |?? ? [t td] ? Ha Hs']; subst.
    inversion Hs' as [|?? ? above l anc' Htd Hs''|]; subst.
    inversion Hs'' as [??? Hl| |]; subst. simpl in *.
    destruct Ha as [Ha _], Htd as [Htd [Hn _]%Forall_cons],
      Hl as [_ [Hl _]%Forall_cons].
    destruct n as [| |t' attrs cs]; [done..|]. injection Hel as <-.
    simpl in *. subst. by exists root, attrs, cs, td, above, l, anc'.
  - intros (root & attrs & cs & td & above & l & anc & ? & -> & ? & ? & ?).
    exists root, (js "a", attrs), ((js "td", td) :: above ++ l :: anc).
    split_and!; [done..|].
    apply selects_child; [by split|].
    apply selects_descendant; [split; [done|by repeat constructor]|].
    apply selects_simple. split; [done|by repeat constructor].
Qed.

(** C24: a listing page read back: from a page with the table of a
    listing, whose heading holds no element of the class [listing], the
    selector of line 26 finds one element per row, in the order of the
    rows, and what the loop reads of it is the text and the [href] of the
    link of the row; [parseSoup] of the page is [parseSoup] of these
    links. *)
Theorem links_of_listing_page heading size links :
  no_listing heading →
  links_of (listing_page heading size links) = links
  ∧ parseSoup_doc (listing_page heading size links) = parseSoup links.
Proof.
  intros Hno. unfold parseSoup_doc. by rewrite links_of_page.
Qed.

End listing_theorems.

(** A heading with a link in a cell of the class [name], outside any
    listing. *)
Definition demo_heading : list HtmlNode :=
  [HElem (js "table") []
     [HElem (js "td") [(js "class", js "name")]
        [HElem (js "a") [(js "href", js "/")] [HText (js "home")]]]].

Definition demo_links : list Anchor :=
  [mkAnchor (js " plex.png ") (Some (js "/png/plex.png"));
   mkAnchor (js "...") None;
   mkAnchor (js "zed.PNG") (Some (js "/png/zed.PNG"))].

Lemma links_of_listing_page_witness :
  links_of (listing_page demo_heading (js "4 KB") demo_links) = demo_links
  ∧ parseSoup_doc (listing_page demo_heading (js "4 KB") demo_links)
    = parseSoup demo_links.
Proof.
  apply (links_of_listing_page demo_heading (js "4 KB") demo_links).
  apply (bool_decide_unpack _). by vm_compute.
Defined.

(** The page of the witness, evaluated: the link of the heading is not
    found, the names are trimmed and the row of the parent directory is
    dropped. *)
Example parseSoup_doc_demo :
  parseSoup_doc (listing_page demo_heading (js "4 KB") demo_links)
  = [mkParsed (js "plex.png") (js "https://cdn.jsdelivr.net/png/plex.png");
     mkParsed (js "zed.PNG") (js "https://cdn.jsdelivr.net/png/zed.PNG")].
Proof. by vm_compute. Qed.

(** The mode of the document decides whether the case of a class name
    matters: a listing marked up with [class="Listing"] is found in
    quirks mode only. *)
Example quirks_class_case :
  let page q :=
    mkDocument q
      [HElem (js "div") [(js "class", js "Listing")]
         [HElem (js "td") [(js "class", js "size name")]
            [HElem (js "a") [] [HText (js "a.png")]]]] in
  links_of (page true) = [mkAnchor (js "a.png") None]
  ∧ links_of (page false) = [].
Proof. by vm_compute. Qed.
