(* ===== verification/CodeUnits.v ===== *)
(** * Code units stay within 16 bits

    The strings of the model are lists of [N]; a JavaScript string is a
    list of code units below 2^16.  This file shows that the program
    never leaves that range: from a document whose strings are 16-bit
    strings, [links_of] reads 16-bit strings; from such links [parseSoup]
    builds 16-bit names and URLs; from such responses, in such a realm,
    every key and every URL that [getImageData]
    ([src/src/hooks/useImageData.ts] 39-78) stores is a 16-bit string, and
    so is every key that [for ... in] and [Object.keys] enumerate.  The
    case mappings of [toLowerCase] and [toUpperCase] add and subtract 32
    inside the letters only, so they neither overflow nor underflow. *)

From S2P Require Import Prelude JsString JsObject ImageData Listing.

(** ** What it means for the data *)

Definition wf_option (x : option JsString) : Prop :=
  from_option wf_string True x.

Definition wf_pair (kv : JsString * JsString) : Prop :=
  wf_string kv.1 ∧ wf_string kv.2.

Definition wf_anchor (a : Anchor) : Prop :=
  wf_string (innerText a) ∧ wf_option (href a).

Definition wf_parsed (item : ParsedImageData) : Prop :=
  wf_string (name item) ∧ wf_string (url item).

Definition wf_entry (e : Entry) : Prop :=
  wf_option (png e) ∧ wf_option (svg e).

Definition wf_property (kv : JsString * Entry) : Prop :=
  wf_string kv.1 ∧ wf_entry kv.2.

Record wf_strings (d : Store) : Prop := mk_wf_strings {
  ws_own : Forall wf_property (own d);
  ws_proto : from_option wf_entry True (proto d);
  ws_polluted : wf_option (polluted_svg d);
  ws_method : Forall wf_pair (method_svg d);
}.

Definition wf_realm (realm : Realm) : Prop :=
  wf_option (realm_svg realm) ∧ Forall wf_pair (realm_method_svg realm).

Definition wf_response (res : Response) : Prop :=
  match res with
  | Fulfilled links => Forall wf_anchor links
  | RejectedWith _ => True
  end.

(** The strings of a node: its text, and the names and values of the
    attributes of the elements. *)
Fixpoint strings_of (n : HtmlNode) : list JsString :=
  match n with
  | HText s | HComment s => [s]
  | HElem t attrs cs =>
      t :: (attrs ≫= λ a, [a.1; a.2]) ++ (cs ≫= strings_of)
  end.

Definition wf_document (doc : Document) : Prop :=
  Forall wf_string (roots doc ≫= strings_of).

(** ** Strings *)

Section strings.
Implicit Types (s t : JsString) (c : code_unit).

Lemma wf_string_suffix s t : s `suffix_of` t → wf_string t → wf_string s.
Proof. intros [k ->]. rewrite wf_string_app. tauto. Qed.

Lemma wf_string_prefix s t : s `prefix_of` t → wf_string t → wf_string s.
Proof. intros [k ->]. rewrite wf_string_app. tauto. Qed.

Lemma trim_wf s : wf_string s → wf_string (trim s).
Proof.
  intros. eapply wf_string_prefix; [apply trimEnd_prefix|].
  by eapply wf_string_suffix; [apply trimStart_suffix|].
Qed.

Lemma upper_unit_wf c : wf_unit c → wf_unit (upper_unit c).
Proof. unfold wf_unit, upper_unit. case_decide; lia. Qed.

Lemma toUpperCase_wf s : wf_string s → wf_string (toUpperCase s).
Proof.
  unfold wf_string, toUpperCase. rewrite Forall_fmap. intros H.
  eapply Forall_impl; [done|apply upper_unit_wf].
Qed.

(** The case mappings stay inside the letters: no code unit wraps
    around. *)
Lemma case_mapping_bounds c :
  (lower_unit c ≤ c + 32 ∧ upper_unit c ≤ c ∧ c ≤ lower_unit c
   ∧ (upper_unit c ≠ c → 65 ≤ upper_unit c ≤ 90)
   ∧ (lower_unit c ≠ c → 97 ≤ lower_unit c ≤ 122))%N.
Proof. unfold lower_unit, upper_unit. repeat case_decide; lia. Qed.

Lemma template_wf x : wf_option x → wf_string (template x).
Proof. destruct x; [done|]. intros _. apply js_wf. Qed.

End strings.

#[export] Hint Resolve trim_wf toUpperCase_wf template_wf : js.

(** ** Association lists *)

Section alist.
Context {V : Type} (P : JsString * V → Prop).
Implicit Types (k : JsString) (v : V) (l : list (JsString * V)).

Lemma alist_set_Forall k v l :
  P (k, v) → Forall P l → Forall P (alist_set k v l).
Proof.
  intros Hk. induction 1 as [|[k' v'] l Hx Hl IH]; simpl;
    [by repeat constructor|].
  case_decide; constructor; auto.
Qed.

Lemma alist_get_Forall k v l :
  Forall P l → alist_get k l = Some v → P (k, v).
Proof.
  rewrite Forall_forall. intros Hl Hk%alist_get_elem_of. by apply Hl.
Qed.

End alist.

(** ** The document *)

Section document.
Implicit Types (n : HtmlNode) (doc : Document).

Lemma strings_of_below t attrs cs c :
  c ∈ cs → strings_of c ⊆ strings_of (HElem t attrs cs).
Proof.
  intros Hc s Hs. simpl. apply list_elem_of_further, elem_of_app. right.
  apply list_elem_of_bind. eauto.
Qed.

Lemma textContent_wf n :
  Forall wf_string (strings_of n) → wf_string (textContent n).
Proof.
  induction n as [s|s|t attrs cs IH] using HtmlNode_ind; simpl;
    [by intros ?%Forall_inv|by constructor|].
  intros [_ [_ Hcs]%Forall_app]%Forall_cons. unfold wf_string.
  apply Forall_bind. rewrite Forall_forall in IH |- *. intros c Hc.
  apply IH; [done|]. rewrite Forall_forall in Hcs |- *. intros s Hs.
  apply Hcs, list_elem_of_bind. eauto.
Qed.

Lemma getAttribute_wf attrs q :
  Forall wf_string (attrs ≫= λ a, [a.1; a.2]) →
  wf_option (getAttribute attrs q).
Proof.
  intros Hattrs. unfold getAttribute.
  destruct (alist_get q attrs) as [v|] eqn:Hv; [|done]. simpl.
  apply alist_get_elem_of in Hv. rewrite Forall_forall in Hattrs.
  apply Hattrs, list_elem_of_bind. exists (q, v). split; [|done].
  apply list_elem_of_further, list_elem_of_here.
Qed.

Lemma anchor_of_wf n :
  Forall wf_string (strings_of n) → wf_anchor (anchor_of n).
Proof.
  intros Hn. split; [by apply textContent_wf|].
  destruct n as [| |t attrs cs]; [done..|]. simpl in *.
  apply getAttribute_wf.
  by apply Forall_cons in Hn as [_ [? _]%Forall_app].
Qed.

Lemma element_nodes_strings n m :
  m ∈ element_nodes n → strings_of m ⊆ strings_of n.
Proof.
  induction n as [s|s|t attrs cs IH] using HtmlNode_ind; simpl;
    [by intros ?%elem_of_nil..|].
  intros [->|(c & Hm & Hc)%list_elem_of_bind]%elem_of_cons; [done|].
  rewrite Forall_forall in IH. etrans; [by apply IH|].
  by apply strings_of_below.
Qed.

End document.

(** ** The links and the items *)

Section items.
Implicit Types (doc : Document) (links : list Anchor).
Implicit Types (item : ParsedImageData).

Lemma links_of_wf doc : wf_document doc → Forall wf_anchor (links_of doc).
Proof.
  unfold wf_document, links_of. intros Hdoc.
  apply Forall_fmap, Forall_forall. intros n Hn. apply anchor_of_wf.
  pose proof (querySelectorAll_tree_order doc listing_selector) as Hsub.
  apply (elem_of_sublist _ _ _ Hn), list_elem_of_bind in Hsub
    as (root & Hn' & Hroot).
  rewrite Forall_forall in Hdoc |- *. intros s Hs.
  apply Hdoc, list_elem_of_bind. exists root. split; [|done].
  by eapply element_nodes_strings.
Qed.

Lemma parsed_of_wf a : wf_anchor a → wf_parsed (parsed_of a).
Proof.
  intros [? ?]. split; cbn [name url parsed_of]; [auto with js|].
  apply wf_string_app. split; [apply js_wf|auto with js].
Qed.

Lemma parseSoup_wf links :
  Forall wf_anchor links → Forall wf_parsed (parseSoup links).
Proof.
  intros Hl. unfold parseSoup. rewrite parseSoup_foldl, app_nil_l.
  apply Forall_fmap, Forall_forall.
  intros a [_ Ha]%list_elem_of_filter. apply parsed_of_wf.
  rewrite Forall_forall in Hl. auto.
Qed.

Lemma key_of_wf item : wf_parsed item → wf_string (key_of item).
Proof. intros [? _]. unfold key_of. auto with js. Qed.

End items.

(** ** The store *)

Section store.
Implicit Types (d : Store) (key u : JsString) (e : Entry).
Implicit Types (item : ParsedImageData).

Lemma empty_store_wf_strings realm :
  wf_realm realm → wf_strings (empty_store realm).
Proof. intros [? ?]. by split. Qed.

Lemma assign_wf_strings d key e :
  wf_strings d → wf_string key → wf_entry e → wf_strings (assign d key e).
Proof.
  intros [? ? ? ?] ? ?. unfold assign.
  case_decide; split; simpl; auto using alist_set_Forall.
  by apply alist_set_Forall.
Qed.

Lemma entry_keys_wf e : Forall wf_string (entry_keys e).
Proof.
  unfold entry_keys. destruct (png e), (svg e); repeat constructor;
    apply js_wf.
Qed.

Lemma set_svg_wf e u : wf_entry e → wf_string u → wf_entry (set_svg e u).
Proof. by intros [? _] ?. Qed.

Lemma resolve_ROwn_wf d key e :
  wf_strings d → resolve d key = ROwn e → wf_entry e.
Proof.
  intros [Hown _ _ _]. unfold resolve.
  destruct (alist_get key (own d)) as [e'|] eqn:He;
    [|by repeat (case_match || case_decide)].
  intros [= <-].
  by destruct (alist_get_Forall wf_property _ _ _ Hown He).
Qed.

Lemma assign_svg_wf_strings d key u d' :
  wf_strings d → wf_string key → wf_string u →
  assign_svg d key u = inl d' → wf_strings d'.
Proof.
  intros Hd Hkey Hu. pose proof Hd as [? Hp ? ?]. unfold assign_svg.
  destruct (resolve d key) as [e| | | | |] eqn:Hr; [| |..]; try done.
  - intros [= <-]. apply resolve_ROwn_wf in Hr; [|done].
    split; simpl; [|done..].
    apply alist_set_Forall; [|done]. split; [done|by apply set_svg_wf].
  - destruct (proto d) as [e|]; intros [= <-]; split; simpl; try done.
    by apply set_svg_wf.
  - intros [= <-]. split; simpl; [done..|]. by apply alist_set_Forall.
Qed.

Lemma png_item_wf_strings d item :
  wf_parsed item → wf_strings d → wf_strings (png_item d item).
Proof.
  intros Hitem Hd. pose proof Hitem as [_ ?]. unfold png_item.
  case_match; [|done]. apply assign_wf_strings; [done|by apply key_of_wf|].
  by split.
Qed.

Lemma svg_item_wf_strings d item d' :
  wf_parsed item → wf_strings d → svg_item d item = inl d' → wf_strings d'.
Proof.
  intros Hitem Hd. pose proof Hitem as [_ ?].
  pose proof (key_of_wf _ Hitem). unfold svg_item.
  repeat case_match; [by apply assign_svg_wf_strings| |by intros [= <-]].
  intros [= <-]. apply assign_wf_strings; [done..|]. by split.
Qed.

End store.

(** ** Theorems *)

Section code_unit_theorems.
Implicit Types (d : Store) (realm : Realm) (pngRes svgRes : Response).
Implicit Types (doc : Document).

Lemma png_pass_wf_strings d res :
  wf_response res → wf_strings d → wf_strings (png_pass d res).1.
Proof.
  destruct res as [links|m]; simpl; [|done]. intros Hl%parseSoup_wf.
  apply (foldl_preserves_Forall wf_strings wf_parsed); [done|].
  intros. by apply png_item_wf_strings.
Qed.

Lemma svg_pass_wf_strings d res :
  wf_response res → wf_strings d → wf_strings (svg_pass d res).1.
Proof.
  destruct res as [links|m]; simpl; [|done]. intros Hl%parseSoup_wf Hd.
  pose proof (forEach_throwing_preserves_Forall wf_strings wf_parsed
                svg_item _ d Hl) as H.
  destruct (forEach_throwing _ _ _) as [d' [e|]]; apply H; try done;
    intros; by eapply svg_item_wf_strings.
Qed.

(** What a listing page gives to the loop of [parseSoup] is made of
    16-bit strings when the document is, and so are the names and URLs
    that [parseSoup] returns. *)
Theorem parseSoup_doc_code_units doc :
  wf_document doc → Forall wf_parsed (parseSoup_doc doc).
Proof. intros. by apply parseSoup_wf, links_of_wf. Qed.

(** Every key and every URL of the object that [getImageData] resolves
    with, and everything that it leaves on [Object.prototype], is a
    string of 16-bit code units, whatever the listings contain. *)
Theorem getImageData_code_units realm pngRes svgRes :
  wf_realm realm → wf_response pngRes → wf_response svgRes →
  wf_strings (getImageData realm pngRes svgRes).1.
Proof.
  intros Hr Hp Hs. unfold getImageData.
  pose proof (png_pass_wf_strings (empty_store realm) pngRes Hp
                (empty_store_wf_strings _ Hr)) as H1.
  destruct (png_pass _ _) as [d1 log1]. simpl in H1.
  pose proof (svg_pass_wf_strings d1 svgRes Hs H1) as H2.
  by destruct (svg_pass _ _) as [d2 log2].
Qed.

(** The keys that [Object.keys] and [for ... in] enumerate on such an
    object are 16-bit strings. *)
Theorem for_in_keys_code_units d :
  wf_strings d → Forall wf_string (for_in_keys d).
Proof.
  intros [Hown _ _ _]. unfold for_in_keys. rewrite !Forall_app.
  split_and!.
  - rewrite own_keys_Permutation, Forall_fmap.
    eapply Forall_impl; [done|]. by intros [k e] [? _].
  - apply Forall_filter. destruct (proto d) as [e|]; [|constructor].
    apply entry_keys_wf.
  - apply Forall_filter. destruct (polluted_svg d); [|constructor].
    apply Forall_singleton, js_wf.
Qed.

End code_unit_theorems.

Lemma getImageData_code_units_witness :
  wf_strings
    (getImageData pristine
       (Fulfilled (links_of (listing_page demo_heading (js "4 KB")
                               demo_links)))
       (RejectedWith (js "Network Error"))).1.
Proof.
  apply (getImageData_code_units pristine); [by split| |done].
  apply links_of_wf, (bool_decide_unpack _). by vm_compute.
Defined.
