(* ===== verification/Page.v ===== *)
(** * The page component ([src/src/pages/index.tsx])

    [HomePage] keeps two pieces of state, [inputValue] and [searchString],
    and the result of the query [useImageData].  Typing sets [inputValue];
    [useDebounce] copies its lower-cased value into [searchString] once the
    input has been quiet for 750 ms; [dataFilter] computes the keys to
    render from the query result and [searchString].

    The component is modelled as a state machine: a record for the state,
    one event per thing that can happen to the page (a keystroke, a
    millisecond passing, the query settling), a handler for each, and the
    states reachable from the mounted page.  [useDebounce] belongs to the
    library react-use: the timer is modelled from its documentation, the
    callback, the delay and the dependency list from lines 16-22.

    [toLowerCase] enters through the interface [LowerCase]: the theorems
    on the state machine hold for any implementation with its laws. *)

From S2P Require Import Prelude JsString Matcher JsObject ImageData.

(** ** The query result *)

(** The status of the query and, when it succeeded, its data. *)
Inductive QueryStatus : Type :=
  | Pending
  | Errored (message : JsString)
  | Succeeded (data : Store).

Definition isSuccess (q : QueryStatus) : bool :=
  match q with Succeeded _ => true | _ => false end.

(** ** [dataFilter], lines 24-50 *)

Definition dataFilter (q : QueryStatus) (searchString : JsString)
    : list JsString :=
  match q with
  | Succeeded data =>
      if decide (length searchString = 0) then own_keys data
      else outer_loop (for_in_keys data) searchString
  | Pending | Errored _ => []
  end.

(** ** The state of the component, lines 12-14 *)

Record HomePage : Type := mkHomePage {
  inputValue : JsString;
  searchString : JsString;
  (** the pending timer of [useDebounce]: milliseconds left *)
  timeout : option nat;
  query : QueryStatus;
}.

(** Line 20. *)
Definition DEBOUNCE_MS : nat := 750.

Inductive Event : Type :=
  | Change (value : JsString)      (** [onChange] of the input *)
  | Tick                           (** one millisecond passes *)
  | Settle (q : QueryStatus).      (** the query result changes *)

Section machine.
Context (lower : JsString → JsString).

(** The page after mounting: the effect of [useDebounce] has armed the
    timer. *)
Definition mounted : HomePage :=
  {| inputValue := []; searchString := []; timeout := Some DEBOUNCE_MS;
     query := Pending |}.

(** Lines 110-112 and the effect with dependencies [[inputValue]]: a new
    value re-arms the timer; an equal one is not a state change. *)
Definition onChange (st : HomePage) (value : JsString) : HomePage :=
  if decide (value = inputValue st) then st
  else {| inputValue := value; searchString := searchString st;
          timeout := Some DEBOUNCE_MS; query := query st |}.

(** Lines 17-19, the callback of [useDebounce]. *)
Definition debounced (st : HomePage) : HomePage :=
  {| inputValue := inputValue st; searchString := lower (inputValue st);
     timeout := None; query := query st |}.

Definition tick (st : HomePage) : HomePage :=
  match timeout st with
  | None => st
  | Some (S (S n)) =>
      {| inputValue := inputValue st; searchString := searchString st;
         timeout := Some (S n); query := query st |}
  | Some _ => debounced st
  end.

Definition settle (st : HomePage) (q : QueryStatus) : HomePage :=
  {| inputValue := inputValue st; searchString := searchString st;
     timeout := timeout st; query := q |}.

Definition handle (st : HomePage) (ev : Event) : HomePage :=
  match ev with
  | Change value => onChange st value
  | Tick => tick st
  | Settle q => settle st q
  end.

Definition run (st : HomePage) (evs : list Event) : HomePage :=
  foldl handle st evs.

Inductive reachable : HomePage → Prop :=
  | reachable_mounted : reachable mounted
  | reachable_step st ev : reachable st → reachable (handle st ev).

(** What the grid shows: [dataFilter()] of line 135. *)
Definition shown (st : HomePage) : list JsString :=
  dataFilter (query st) (searchString st).

(** The invariant of the component. *)
Record page_inv (st : HomePage) : Prop := mk_page_inv {
  inv_timeout_bound : ∀ n, timeout st = Some n → 0 < n ≤ DEBOUNCE_MS;
  inv_quiet : timeout st = None → searchString st = lower (inputValue st);
  inv_lowered : ∃ v, searchString st = lower v;
}.

End machine.

(** ** [dataFilter] *)

Section dataFilter.
Implicit Types (q : QueryStatus) (data : Store) (searchString : JsString).

Lemma dataFilter_clean_filter data searchString :
  clean data →
  dataFilter (Succeeded data) searchString
  = filter (λ k, searchString `sublist_of` k) (own_keys data).
Proof.
  intros Hc. unfold dataFilter. case_decide as Hlen.
  - apply nil_length_inv in Hlen as ->. symmetry.
    apply filter_all, Forall_forall. auto with js.
  - by rewrite for_in_keys_clean, outer_loop_filter.
Qed.

Lemma dataFilter_sublist_for_in data searchString :
  searchString ≠ [] →
  dataFilter (Succeeded data) searchString `sublist_of` for_in_keys data.
Proof.
  intros Hne. unfold dataFilter. rewrite decide_False by (by destruct searchString).
  rewrite outer_loop_filter. apply sublist_filter.
Qed.

Lemma dataFilter_elem_sublist q searchString key :
  key ∈ dataFilter q searchString → searchString `sublist_of` key.
Proof.
  destruct q as [| |data]; simpl; [by intros ?%elem_of_nil..|].
  case_decide as Hlen.
  - apply nil_length_inv in Hlen as ->. auto with js.
  - rewrite outer_loop_filter, list_elem_of_filter. tauto.
Qed.

End dataFilter.

(** ** The state machine *)

Section machine_lemmas.
Context (lower : JsString → JsString) `{!LowerCase lower}.
Implicit Types (st : HomePage) (ev : Event) (evs : list Event).

Lemma mounted_inv : page_inv lower mounted.
Proof.
  split; simpl.
  - intros n [= <-]. unfold DEBOUNCE_MS. lia.
  - done.
  - exists []. by rewrite lower_nil.
Qed.

Lemma debounced_inv st : page_inv lower (debounced lower st).
Proof. split; simpl; [done|done|by eexists]. Qed.

Lemma handle_inv st ev : page_inv lower st → page_inv lower (handle lower st ev).
Proof.
  intros Hinv. pose proof Hinv as [Hb Hq Hl]. destruct ev as [v| |q]; simpl.
  - unfold onChange. case_decide; [done|]. split; simpl; [|done..].
    intros n [= <-]. unfold DEBOUNCE_MS. lia.
  - unfold tick. destruct (timeout st) as [[|[|n]]|] eqn:Ht;
      [apply debounced_inv..| |done].
    split; simpl; [|done..]. intros ? [= <-]. specialize (Hb _ eq_refl). lia.
  - by split.
Qed.

Lemma reachable_inv st : reachable lower st → page_inv lower st.
Proof.
  induction 1 as [|st ev _ IH]; [apply mounted_inv|by apply handle_inv].
Qed.

Lemma run_reachable st evs :
  reachable lower st → reachable lower (run lower st evs).
Proof. apply foldl_preserves. intros. by constructor. Qed.

Lemma run_cons st ev evs :
  run lower st (ev :: evs) = run lower (handle lower st ev) evs.
Proof. done. Qed.

Lemma run_app st evs1 evs2 :
  run lower st (evs1 ++ evs2) = run lower (run lower st evs1) evs2.
Proof. apply foldl_app. Qed.

(** The result of the query is a field apart: what the user and the
    timer do neither reads nor writes it. *)
Lemma settle_settle st q q' : settle (settle st q) q' = settle st q'.
Proof. done. Qed.

Lemma onChange_settle st v q :
  onChange (settle st q) v = settle (onChange st v) q.
Proof. unfold onChange. cbn [inputValue settle]. by case_decide. Qed.

Lemma tick_settle st q : tick lower (settle st q) = settle (tick lower st) q.
Proof. unfold tick. cbn [timeout settle]. by destruct (timeout st) as [[|[|n]]|]. Qed.

(** [n] milliseconds of silence with more than [n] left on the timer. *)
Lemma run_ticks_pending st n m :
  timeout st = Some (S (n + m)) →
  run lower st (replicate n Tick)
  = {| inputValue := inputValue st; searchString := searchString st;
       timeout := Some (S m); query := query st |}.
Proof.
  revert st. induction n as [|n IH]; intros st Ht; simpl in *.
  - destruct st; simplify_eq/=; done.
  - rewrite IH; unfold tick; rewrite Ht; done.
Qed.

Lemma run_ticks_fire st n :
  timeout st = Some (S n) →
  run lower st (replicate (S n) Tick) = debounced lower st.
Proof.
  intros Ht. replace (S n) with (n + 1) at 1 by lia.
  rewrite replicate_add, run_app.
  rewrite (run_ticks_pending st n 0) by (by rewrite Nat.add_0_r).
  by destruct st.
Qed.

Lemma run_ticks_idle st n :
  timeout st = None → run lower st (replicate n Tick) = st.
Proof.
  intros Ht. induction n as [|n IH]; simpl; [done|].
  unfold tick at 1. by rewrite Ht.
Qed.

(** Enough silence fires the timer once and then nothing happens. *)
Lemma run_ticks_enough st n m :
  timeout st = Some n → 0 < n ≤ m →
  run lower st (replicate m Tick) = debounced lower st.
Proof.
  intros Ht Hn. destruct n as [|n]; [lia|].
  replace m with (S n + (m - S n)) by lia.
  rewrite replicate_add, run_app, (run_ticks_fire st n Ht).
  by apply run_ticks_idle.
Qed.

(** A keystroke and then 750 ms of silence. *)
Lemma run_change_quiet st v :
  page_inv lower st →
  run lower st (Change v :: replicate DEBOUNCE_MS Tick)
  = {| inputValue := v; searchString := lower v; timeout := None;
       query := query st |}.
Proof.
  intros [Hb Hq _]. rewrite run_cons. cbn [handle]. unfold onChange.
  case_decide as Hv; [subst|].
  - destruct (timeout st) as [n|] eqn:Ht.
    + by rewrite (run_ticks_enough st n) by auto.
    + rewrite run_ticks_idle, <-Hq, <-Ht by done. by destruct st.
  - by rewrite (run_ticks_enough _ DEBOUNCE_MS)
      by (done || unfold DEBOUNCE_MS; lia).
Qed.

End machine_lemmas.

(** ** Theorems *)

Section page_theorems.
Implicit Types (q : QueryStatus) (data : Store) (s : JsString).

(** C3: on a clean store [dataFilter] refines the contract of the
    specification on [Object.keys(data)], for every search string: the
    early return for the empty string and the loop over [for ... in]
    agree with [filter(candidates, query)]. *)
Theorem dataFilter_refines_spec data s :
  clean data →
  dataFilter (Succeeded data) s = subsequence_filter (own_keys data) s.
Proof. apply dataFilter_clean_filter. Qed.

Lemma dataFilter_refines_spec_witness :
  dataFilter (Succeeded (assign (empty_store pristine) (js "plex")
                           {| png := Some (js "u"); svg := None |})) (js "px")
  = subsequence_filter
      (own_keys (assign (empty_store pristine) (js "plex")
                   {| png := Some (js "u"); svg := None |})) (js "px").
Proof. by apply dataFilter_refines_spec. Defined.

(** While the query has not succeeded (pending or failed),
    [dataFilter] returns the empty array, whatever the search string. *)
Theorem dataFilter_not_success q s :
  isSuccess q = false → dataFilter q s = [].
Proof. by destruct q. Qed.

Lemma dataFilter_not_success_witness :
  dataFilter (Errored (js "Network Error")) (js "plex") = [].
Proof. by apply dataFilter_not_success. Defined.

(** The empty key, which a file named [.png] or [.svg] gives
    ([hooks/useImageData.ts] line 48): every search hides it, and the
    empty search string shows it. *)
Theorem dataFilter_empty_key q s :
  s ≠ [] → [] ∉ dataFilter q s.
Proof.
  intros Hs Hkey%dataFilter_elem_sublist. by apply sublist_nil_r in Hkey.
Qed.

Lemma dataFilter_empty_key_witness :
  ([] ∉ dataFilter
          (Succeeded (png_item (empty_store pristine)
                        (mkParsed (js ".png") (js "u")))) (js "p"))
  ∧ dataFilter
      (Succeeded (png_item (empty_store pristine)
                    (mkParsed (js ".png") (js "u")))) []
    = [[]].
Proof. split; [by apply dataFilter_empty_key|done]. Defined.

(** The keys that [dataFilter] returns are pairwise distinct for
    every well-formed store, polluted or not, so that they can serve as
    React keys of the grid. *)
Theorem dataFilter_NoDup data s :
  wf_store data → NoDup (dataFilter (Succeeded data) s).
Proof.
  intros Hwf. unfold dataFilter. case_decide.
  - apply own_keys_NoDup, Hwf.
  - rewrite outer_loop_filter. apply NoDup_filter, for_in_keys_NoDup, Hwf.
Qed.

Lemma dataFilter_NoDup_witness :
  NoDup (dataFilter (Succeeded (empty_store pristine)) (js "a")).
Proof. apply dataFilter_NoDup, empty_store_wf. Defined.

(** End to end on hazard-free listings: the grid shows a key exactly
    when the listings bind it in the abstract mapping and the search
    string is a subsequence of it. *)
Theorem shown_keys_spec pngLinks svgLinks s key :
  hazard_free (parseSoup pngLinks) → hazard_free (parseSoup svgLinks) →
  key ∈ dataFilter (Succeeded (getImageData pristine (Fulfilled pngLinks)
                                 (Fulfilled svgLinks)).1) s
  ↔ is_Some (image_map (parseSoup pngLinks) (parseSoup svgLinks) !! key)
    ∧ s `sublist_of` key.
Proof.
  intros Hp Hs.
  destruct (getImageData_refines_clean _ _ Hp Hs) as (d & -> & Hc & Hm).
  cbn [fst]. rewrite dataFilter_clean_filter, list_elem_of_filter by done.
  rewrite own_keys_elem_of, <-alist_get_is_Some, Hm. tauto.
Qed.

Lemma shown_keys_spec_witness :
  js "plex" ∈ dataFilter (Succeeded (getImageData pristine
      (Fulfilled [mkAnchor (js "plex.png") (Some (js "/p"))])
      (Fulfilled [])).1) (js "px")
  ↔ is_Some (image_map (parseSoup [mkAnchor (js "plex.png") (Some (js "/p"))])
               (parseSoup []) !! js "plex")
    ∧ js "px" `sublist_of` js "plex".
Proof.
  apply shown_keys_spec; apply (bool_decide_unpack _); vm_compute; exact I.
Defined.

(** C11: the order of the grid: on hazard-free listings in which no base
    name is an array index, [dataFilter] returns the base names of the
    listed files, PNG listing first, in the order of the listings and
    each at its first occurrence, filtered by the search string: the
    candidate order is the insertion order of the listing, as the
    specification assumes. *)
Theorem dataFilter_listing_order pngLinks svgLinks s :
  hazard_free (parseSoup pngLinks) → hazard_free (parseSoup svgLinks) →
  let ks := nub (assigned_keys pngRgx (parseSoup pngLinks)
                 ++ assigned_keys svgRgx (parseSoup svgLinks)) in
  Forall (λ k, ¬ is_array_index k) ks →
  dataFilter (Succeeded (getImageData pristine (Fulfilled pngLinks)
                           (Fulfilled svgLinks)).1) s
  = subsequence_filter ks s.
Proof.
  intros Hp Hs ks Hks. subst ks.
  destruct (getImageData_refines_keys _ _ Hp Hs) as (d & -> & [Hc _] & Hd).
  rewrite <-Hd in *. rewrite dataFilter_clean_filter by done.
  unfold own_keys. by rewrite ordinary_own_property_keys_id.
Qed.

Lemma dataFilter_listing_order_witness :
  dataFilter (Succeeded (getImageData pristine
                (Fulfilled [mkAnchor (js "zed.png") None;
                            mkAnchor (js "plex.png") None])
                (Fulfilled [mkAnchor (js "plex.svg") None])).1) (js "e")
  = subsequence_filter
      (nub (assigned_keys pngRgx
              (parseSoup [mkAnchor (js "zed.png") None;
                          mkAnchor (js "plex.png") None])
            ++ assigned_keys svgRgx
                 (parseSoup [mkAnchor (js "plex.svg") None]))) (js "e").
Proof.
  apply dataFilter_listing_order;
    apply (bool_decide_unpack _); vm_compute; exact I.
Defined.

(** C37: when is the filter monotone?  The specification wants every
    search to show a part of what the empty search shows.  The empty
    search returns [Object.keys(data)] (line 30) and every other search
    goes through [for ... in] (line 35): the page is monotone exactly
    when [data] inherits no enumerable key, that is when every key that
    [for ... in] visits is one that [Object.keys] lists. *)
Theorem dataFilter_monotone_iff data :
  (∀ s, dataFilter (Succeeded data) s ⊆ dataFilter (Succeeded data) [])
  ↔ for_in_keys data ⊆ own_keys data.
Proof.
  split.
  - intros Hmono key Hkey.
    destruct (for_in_keys_inherited _ _ Hkey) as [?|Hne]; [done|].
    apply (Hmono key). unfold dataFilter.
    rewrite decide_False by (by destruct Hne as [-> | ->]).
    by apply outer_loop_elem_of.
  - intros Hsub s key. unfold dataFilter at 1. case_decide as Hs.
    + by apply nil_length_inv in Hs as ->.
    + intros [Hkey _]%outer_loop_elem_of. by apply Hsub.
Qed.

(** From the listings: a file named ["__proto__.png"] in the first
    listing makes the page show a card ["png"] for every search that
    the letters of ["png"] answer, which the page without a search does
    not show. *)
Theorem dataFilter_proto_png_shown pngLinks svgLinks s :
  proto_name ∈ assigned_keys pngRgx (parseSoup pngLinks) →
  js "png" ∉ assigned_keys pngRgx (parseSoup pngLinks) →
  hazard_free (parseSoup svgLinks) →
  js "png" ∉ assigned_keys svgRgx (parseSoup svgLinks) →
  s ≠ [] → s `sublist_of` js "png" →
  let q := Succeeded (getImageData pristine (Fulfilled pngLinks)
                        (Fulfilled svgLinks)).1 in
  js "png" ∈ dataFilter q s ∧ js "png" ∉ dataFilter q [].
Proof.
  intros Hin Hno Hh Hno1 Hs Hsub q.
  destruct (inherits_png_for_in _
              (getImageData_inherits_png _ _ Hin Hno Hh Hno1)) as [Hf Ho].
  split; [|done]. unfold q, dataFilter.
  rewrite decide_False by (by destruct s). by apply outer_loop_elem_of.
Qed.

Lemma dataFilter_proto_png_shown_witness :
  let q := Succeeded (getImageData pristine
             (Fulfilled [mkAnchor (js "plex.png") None;
                         mkAnchor (js "__proto__.png") None])
             (Fulfilled [mkAnchor (js "plex.svg") None])).1 in
  js "png" ∈ dataFilter q (js "pg") ∧ js "png" ∉ dataFilter q [].
Proof.
  apply dataFilter_proto_png_shown;
    apply (bool_decide_unpack _); vm_compute; exact I.
Defined.

(** C38: the grid does not keep the order of the listings when a base
    name is a number.  On hazard-free listings, of two files that a
    search shows, the one whose base name is an array index (["2048.png"])
    comes before the one whose base name is not (["plex.png"]), wherever
    the listings have them: [data] is an ordinary object, and its keys
    are enumerated integers first. *)
Theorem dataFilter_indices_first pngLinks svgLinks s a b :
  hazard_free (parseSoup pngLinks) → hazard_free (parseSoup svgLinks) →
  let ks := assigned_keys pngRgx (parseSoup pngLinks)
            ++ assigned_keys svgRgx (parseSoup svgLinks) in
  let shown := dataFilter (Succeeded (getImageData pristine
                 (Fulfilled pngLinks) (Fulfilled svgLinks)).1) s in
  a ∈ ks → b ∈ ks → is_array_index a → ¬ is_array_index b →
  s `sublist_of` a → s `sublist_of` b →
  ∃ i j, shown !! i = Some a ∧ shown !! j = Some b ∧ i < j.
Proof.
  intros Hp Hs ks shown Ha Hb Hia Hnb Hsa Hsb. subst ks shown.
  destruct (getImageData_refines_keys _ _ Hp Hs) as (d & -> & [Hc _] & Hd).
  cbn [fst]. rewrite dataFilter_clean_filter by done.
  apply elem_of_nub in Ha, Hb. rewrite <-Hd in Ha, Hb. unfold own_keys.
  destruct (ordinary_own_property_keys_split (own d).*1)
    as (idx & rest & Hsplit & Hidx & Hrest).
  apply ordinary_own_property_keys_elem_of in Ha, Hb.
  rewrite Hsplit in *. rewrite filter_app.
  rewrite Forall_forall in Hidx, Hrest.
  apply elem_of_app_lookup_lt; apply list_elem_of_filter; (split; [done|]).
  - apply elem_of_app in Ha as [?|?%Hrest]; done.
  - apply elem_of_app in Hb as [?%Hidx|?]; done.
Qed.

Lemma dataFilter_indices_first_witness :
  let shown := dataFilter (Succeeded (getImageData pristine
                 (Fulfilled [mkAnchor (js "plex.png") None;
                             mkAnchor (js "2048.png") None])
                 (Fulfilled [])).1) [] in
  ∃ i j, shown !! i = Some (js "2048") ∧ shown !! j = Some (js "plex")
         ∧ i < j.
Proof.
  apply (dataFilter_indices_first
           [mkAnchor (js "plex.png") None; mkAnchor (js "2048.png") None] []);
    try (apply (bool_decide_unpack _); vm_compute; exact I);
    apply sublist_nil_l.
Defined.

End page_theorems.

Section machine_theorems.
Context (lower : JsString → JsString) `{!LowerCase lower}.
Implicit Types (st : HomePage) (v : JsString).

(** C27: every state reachable from the mounted page satisfies the
    invariant: a pending timer has between 1 and 750 ms left; when no
    timer is pending [searchString] is the lower-cased [inputValue]; and
    [searchString] is always a lower-cased string. *)
Theorem reachable_page_inv st : reachable lower st → page_inv lower st.
Proof. apply reachable_inv. done. Qed.

(** The debounce delivers: from any reachable state, after the input
    is set to [v] and stays quiet for 750 ms, [searchString] is the
    lower-cased [v] and no timer is pending. *)
Theorem debounce_delivers st v :
  reachable lower st →
  run lower st (Change v :: replicate DEBOUNCE_MS Tick)
  = {| inputValue := v; searchString := lower v; timeout := None;
       query := query st |}.
Proof.
  intros Hst%reachable_inv; [|done]. by apply run_change_quiet.
Qed.

(** The debounce holds back: after a keystroke that changes the
    input, fewer than 750 ms of silence leave [searchString] as it
    was. *)
Theorem debounce_holds st v n :
  v ≠ inputValue st → n < DEBOUNCE_MS →
  searchString (run lower (onChange st v) (replicate n Tick))
  = searchString st.
Proof.
  intros Hv Hn. unfold onChange. rewrite decide_False by done.
  rewrite (run_ticks_pending _ _ n (DEBOUNCE_MS - S n)); [done|].
  unfold DEBOUNCE_MS in *. cbn [timeout]. f_equal. lia.
Qed.

(** C28: the search string is lower-cased but the keys are not: whenever a
    key is shown, the search string is a subsequence of the characters of
    the key that are not upper-case letters, so that an upper-case letter
    of a key never matches anything the user types. *)
Theorem shown_ignores_upper st key :
  reachable lower st → key ∈ shown st →
  searchString st `sublist_of` filter (λ c, ¬ is_upper c) key.
Proof.
  intros [_ _ [v Hv]]%reachable_inv Hkey; [|done].
  apply sublist_filter_r; [rewrite Hv; apply lower_no_upper|].
  by eapply dataFilter_elem_sublist.
Qed.

End machine_theorems.

Lemma reachable_page_inv_witness :
  page_inv toLowerCase (run toLowerCase mounted [Change (js "Plex"); Tick]).
Proof.
  apply (reachable_page_inv toLowerCase). apply run_reachable. constructor.
Defined.

Lemma debounce_delivers_witness :
  run toLowerCase mounted (Change (js "Plex") :: replicate DEBOUNCE_MS Tick)
  = {| inputValue := js "Plex"; searchString := toLowerCase (js "Plex");
       timeout := None; query := query mounted |}.
Proof. apply (debounce_delivers toLowerCase). constructor. Defined.

Lemma debounce_holds_witness :
  searchString (run toLowerCase (onChange mounted (js "p")) (replicate 749 Tick))
  = searchString mounted.
Proof.
  apply (debounce_holds toLowerCase); [done|unfold DEBOUNCE_MS; lia].
Defined.

Lemma shown_ignores_upper_witness :
  searchString (run toLowerCase mounted
    (Settle (Succeeded (assign (empty_store pristine) (js "Plex")
                          (mkEntry (Some (js "u")) None)))
     :: Change (js "LE") :: replicate DEBOUNCE_MS Tick))
  `sublist_of` filter (λ c, ¬ is_upper c) (js "Plex").
Proof.
  apply (shown_ignores_upper toLowerCase).
  - apply run_reachable. constructor.
  - vm_compute. apply list_elem_of_here.
Defined.
