(* ===== verification/Copy.v ===== *)
(** * The copy buttons ([copyHandler], [src/src/pages/index.tsx] 52-65)

    [[
    const copyHandler = (name: string, ext: string) => (e) => {
      navigator.clipboard
        .writeText(`${name}.${ext}`)
        .then(() => {
          e.target.innerText = 'Copied!';
          setTimeout(() => { e.target.innerText = ext.toUpperCase(); }, 1000);
        })
        .catch((err) => { alert('Failed to copy.'); console.error(err); });
    };
    ]]

    One button is a small state machine: its text, the timers that its
    clicks have started and never clear, and what the handler did to the
    browser (the clipboard, the alerts, the error console).  A click is
    one step, with the outcome of [writeText] as its input; time passes in
    steps of one millisecond, as in [Page].  In the browser the reactions
    of [then] and [catch] run when the promise is settled, after the
    handler has returned: [Async] has the click and the settlement as two
    events and proves that this handler is what the button does at the
    settlement.

    The clipboard itself and the permission prompt are the browser's: the
    outcome of [writeText] is an input of the model, and so is whether
    the page has a clipboard at all. *)

From S2P Require Import Prelude JsString.

(** ** Definitions *)

(** Line 54: the template [`${name}.${ext}`]. *)
Definition clipboard_text (name ext : JsString) : JsString :=
  name ++ js "." ++ ext.

(** Line 59. *)
Definition COPIED_MS : nat := 1000.

(** What the call of line 53 does: its promise is fulfilled, or rejected
    with [err]; or, in a page that is not a secure context, where
    [navigator.clipboard] is [undefined], the call throws before there is
    a promise. *)
Inductive WriteResult : Type :=
  | Written
  | Denied (err : JsString)
  | Unavailable.

Record CopyState : Type := mkCopyState {
  innerText : JsString;           (** [e.target.innerText] *)
  timeouts : list nat;            (** pending [setTimeout]s: ms left *)
  clipboard : option JsString;    (** the last text written, if any *)
  alerts : list JsString;         (** the [alert] boxes shown *)
  console : list JsString;        (** what [console.error] received *)
}.

Inductive CopyEvent : Type :=
  | Click (res : WriteResult)     (** [onClick], [writeText] settling so *)
  | Ms.                           (** one millisecond passes *)

#[export] Instance WriteResult_eq_dec : EqDecision WriteResult.
Proof. solve_decision. Defined.

#[export] Instance CopyEvent_eq_dec : EqDecision CopyEvent.
Proof. solve_decision. Defined.

Section button.
Context (name ext : JsString).

(** The button as React renders it, with [label] the text of lines 143
    and 150. *)
Definition rendered (label : JsString) : CopyState :=
  {| innerText := label; timeouts := []; clipboard := None; alerts := [];
     console := [] |}.

(** Lines 52-65. *)
Definition copyHandler (st : CopyState) (res : WriteResult) : CopyState :=
  match res with
  | Written =>
      {| innerText := js "Copied!"; timeouts := timeouts st ++ [COPIED_MS];
         clipboard := Some (clipboard_text name ext); alerts := alerts st;
         console := console st |}
  | Denied err =>
      {| innerText := innerText st; timeouts := timeouts st;
         clipboard := clipboard st;
         alerts := alerts st ++ [js "Failed to copy."];
         console := console st ++ [err] |}
  | Unavailable => st
  end.

(** The state [n] milliseconds later: the timers that are due have run
    their callback (lines 57-59), the others have [n] ms less. *)
Definition elapsed (n : nat) (st : CopyState) : CopyState :=
  {| innerText := if decide (Exists (λ t, t ≤ n) (timeouts st))
                  then toUpperCase ext else innerText st;
     timeouts := (λ t, t - n) <$> filter (λ t, n < t) (timeouts st);
     clipboard := clipboard st; alerts := alerts st;
     console := console st |}.

Definition copy_handle (st : CopyState) (ev : CopyEvent) : CopyState :=
  match ev with
  | Click res => copyHandler st res
  | Ms => elapsed 1 st
  end.

Definition copy_run (st : CopyState) (evs : list CopyEvent) : CopyState :=
  foldl copy_handle st evs.

Inductive copy_reachable (label : JsString) : CopyState → Prop :=
  | copy_reachable_rendered : copy_reachable label (rendered label)
  | copy_reachable_step st ev :
      copy_reachable label st → copy_reachable label (copy_handle st ev).

(** The invariant of a button. *)
Record copy_inv (label : JsString) (st : CopyState) : Prop := mk_copy_inv {
  inv_text : innerText st ∈ [label; js "Copied!"; toUpperCase ext];
  inv_timeouts : Forall (λ t, 0 < t ≤ COPIED_MS) (timeouts st);
  inv_copied : innerText st = js "Copied!" → timeouts st ≠ [];
  inv_clipboard : ∀ text, clipboard st = Some text →
                          text = clipboard_text name ext;
}.

End button.

(** ** Timers *)

Section timers.
Implicit Types (ts : list nat) (n m t : nat).

Lemma timers_elapsed_add n m ts :
  (λ t, t - m) <$> filter (λ t, m < t)
    ((λ t, t - n) <$> filter (λ t, n < t) ts)
  = (λ t, t - (n + m)) <$> filter (λ t, n + m < t) ts.
Proof.
  induction ts as [|t ts IH]; [done|].
  rewrite !filter_cons. repeat (case_decide; csimpl);
    rewrite ?filter_cons; repeat case_decide; csimpl; try lia;
    rewrite ?IH; try done.
  f_equal. lia.
Qed.

Lemma timers_due_add n m ts :
  Exists (λ t, t ≤ n + m) ts
  ↔ Exists (λ t, t ≤ n) ts
    ∨ Exists (λ t, t ≤ m) ((λ t, t - n) <$> filter (λ t, n < t) ts).
Proof.
  rewrite !Exists_exists. setoid_rewrite list_elem_of_fmap.
  setoid_rewrite list_elem_of_filter. split.
  - intros (t & Ht & Hle). destruct (decide (t ≤ n)); [left; eauto|].
    right. exists (t - n). split; [exists t; split_and!; [done|lia|done]|lia].
  - intros [(t & Ht & Hle)|(? & (t & -> & Hlt & Ht) & Hle)];
      exists t; split; (done || lia).
Qed.

Lemma timers_elapsed_0 ts :
  Forall (λ t, 0 < t) ts →
  ¬ Exists (λ t, t ≤ 0) ts
  ∧ (λ t, t - 0) <$> filter (λ t, 0 < t) ts = ts.
Proof.
  intros Hts. split.
  - rewrite Exists_exists. intros (t & Ht & Hle).
    rewrite Forall_forall in Hts. specialize (Hts t Ht). lia.
  - induction Hts as [|t ts Ht _ IH]; [done|].
    rewrite filter_cons, decide_True by done. csimpl.
    by rewrite IH, Nat.sub_0_r.
Qed.

Lemma timers_elapsed_pos n ts :
  Forall (λ t, 0 < t) ((λ t, t - n) <$> filter (λ t, n < t) ts).
Proof.
  rewrite Forall_forall. intros ? (t & -> & Ht)%list_elem_of_fmap.
  apply list_elem_of_filter in Ht as [? _]. lia.
Qed.

Lemma timers_not_due n ts :
  ¬ Exists (λ t, t ≤ n) ts → filter (λ t, n < t) ts = ts.
Proof.
  rewrite <-Forall_Exists_neg. intros Hts. apply filter_all.
  eapply Forall_impl; [done|]. simpl. lia.
Qed.

Lemma timers_all_due n ts :
  Forall (λ t, t ≤ n) ts → filter (λ t, n < t) ts = [].
Proof.
  intros Hts. apply filter_none. eapply Forall_impl; [done|]. simpl. lia.
Qed.

Lemma timers_elapsed_bound n b ts :
  Forall (λ t, 0 < t ≤ b) ts →
  Forall (λ t, 0 < t ≤ b) ((λ t, t - n) <$> filter (λ t, n < t) ts).
Proof.
  rewrite !Forall_forall. intros Hts ? (t & -> & Ht)%list_elem_of_fmap.
  apply list_elem_of_filter in Ht as [? Ht]. specialize (Hts t Ht). lia.
Qed.

End timers.

(** ** The machine *)

Section button_lemmas.
Context (name ext : JsString).
Implicit Types (st : CopyState) (ev : CopyEvent) (label : JsString).

Lemma elapsed_add n m st :
  elapsed ext m (elapsed ext n st) = elapsed ext (n + m) st.
Proof.
  unfold elapsed. cbn [innerText timeouts clipboard alerts console].
  f_equal; [|apply timers_elapsed_add].
  pose proof (timers_due_add n m (timeouts st)).
  repeat case_decide; tauto.
Qed.

Lemma elapsed_0 st : Forall (λ t, 0 < t) (timeouts st) → elapsed ext 0 st = st.
Proof.
  intros [Hex Hts]%timers_elapsed_0. unfold elapsed.
  rewrite decide_False, Hts by done. by destruct st.
Qed.

Lemma copy_run_cons st ev evs :
  copy_run name ext st (ev :: evs)
  = copy_run name ext (copy_handle name ext st ev) evs.
Proof. done. Qed.

Lemma copy_run_app st evs1 evs2 :
  copy_run name ext st (evs1 ++ evs2)
  = copy_run name ext (copy_run name ext st evs1) evs2.
Proof. apply foldl_app. Qed.

(** [n] milliseconds without a click. *)
Lemma copy_run_ms st n :
  Forall (λ t, 0 < t) (timeouts st) →
  copy_run name ext st (replicate n Ms) = elapsed ext n st.
Proof.
  revert st. induction n as [|n IH]; intros st Hts.
  - by rewrite elapsed_0.
  - cbn [replicate]. rewrite copy_run_cons. cbn [copy_handle].
    rewrite IH, elapsed_add; [done|apply timers_elapsed_pos].
Qed.

Lemma toUpperCase_ne_Copied : toUpperCase ext ≠ js "Copied!".
Proof.
  intros Heq. apply (f_equal (λ s, s !! 1)) in Heq. revert Heq.
  unfold toUpperCase. rewrite list_lookup_fmap.
  destruct (ext !! 1) as [c|]; [|done]. simpl. unfold upper_unit.
  case_decide; intros [= ?]; lia.
Qed.

Lemma rendered_inv label :
  label ≠ js "Copied!" → copy_inv name ext label (rendered label).
Proof. intros. split; simpl; [apply list_elem_of_here|done..]. Qed.

Lemma copyHandler_inv label st res :
  copy_inv name ext label st →
  copy_inv name ext label (copyHandler name ext st res).
Proof.
  intros [Ht Hts Hc Hcl]. destruct res as [|err|]; split; simpl; try done.
  - apply list_elem_of_further, list_elem_of_here.
  - apply Forall_app. split; [done|]. apply Forall_singleton.
    unfold COPIED_MS. lia.
  - intros _ [? [=]]%app_eq_nil.
  - by intros ? [= <-].
Qed.

Lemma elapsed_inv label st n :
  copy_inv name ext label st → copy_inv name ext label (elapsed ext n st).
Proof.
  intros [Ht Hts Hc Hcl]. split; simpl; [| |intros Heq|done].
  - case_decide; [|done]. do 2 apply list_elem_of_further.
    apply list_elem_of_here.
  - by apply timers_elapsed_bound.
  - case_decide as Hdue; [by destruct toUpperCase_ne_Copied|].
    rewrite (timers_not_due _ _ Hdue). specialize (Hc Heq).
    by destruct (timeouts st).
Qed.

Lemma copy_handle_inv label st ev :
  copy_inv name ext label st →
  copy_inv name ext label (copy_handle name ext st ev).
Proof.
  destruct ev; [apply copyHandler_inv|apply elapsed_inv].
Qed.

Lemma copy_reachable_copy_inv label st :
  label ≠ js "Copied!" →
  copy_reachable name ext label st → copy_inv name ext label st.
Proof.
  intros Hl. induction 1; [by apply rendered_inv|by apply copy_handle_inv].
Qed.

Lemma copy_run_reachable label st evs :
  copy_reachable name ext label st →
  copy_reachable name ext label (copy_run name ext st evs).
Proof. apply foldl_preserves. intros. by constructor. Qed.

Lemma copy_inv_pos label st :
  copy_inv name ext label st → Forall (λ t, 0 < t) (timeouts st).
Proof.
  intros [_ Hts _ _]. eapply Forall_impl; [done|]. simpl. lia.
Qed.

Lemma copy_inv_le label st :
  copy_inv name ext label st → Forall (λ t, t ≤ COPIED_MS) (timeouts st).
Proof.
  intros [_ Hts _ _]. eapply Forall_impl; [done|]. simpl. lia.
Qed.

End button_lemmas.

(** ** Theorems *)

Section copy_theorems.
Context (name ext : JsString).
Implicit Types (st : CopyState) (label : JsString).

(** Every state that a button reaches satisfies the invariant: its
    text is the rendered label, ['Copied!'] or the upper-cased extension;
    every pending timer has between 1 and 1000 ms left; while the text is
    ['Copied!'] a timer is pending, so the feedback always goes away; and
    the clipboard holds nothing but the file name of this button. *)
Theorem copy_reachable_inv label st :
  label ≠ js "Copied!" →
  copy_reachable name ext label st → copy_inv name ext label st.
Proof. apply copy_reachable_copy_inv. Qed.

(** A successful click followed by one second without clicks: the
    clipboard holds [`${name}.${ext}`], the text of the button is the
    upper-cased extension again and no timer is left. *)
Theorem copy_restores label st :
  label ≠ js "Copied!" → copy_reachable name ext label st →
  copy_run name ext st (Click Written :: replicate COPIED_MS Ms)
  = {| innerText := toUpperCase ext; timeouts := [];
       clipboard := Some (clipboard_text name ext); alerts := alerts st;
       console := console st |}.
Proof.
  intros Hl Hst%copy_reachable_copy_inv; [|done].
  apply (copyHandler_inv _ _ _ _ Written) in Hst as Hst'.
  rewrite copy_run_cons, copy_run_ms by (by eapply copy_inv_pos).
  unfold elapsed. rewrite timers_all_due by (by eapply copy_inv_le).
  rewrite decide_True; [done|]. simpl.
  apply Exists_app. right. by constructor.
Qed.

(** C39: the timers of earlier clicks are never cleared: when the button is
    clicked again [n] ms after a first click, the text goes back to the
    extension one second after the first click, that is after the second
    ['Copied!'] was shown for [1000 - n] ms only, and a timer is still
    pending. *)
Theorem copy_feedback_cut_short label n :
  0 < n < COPIED_MS →
  copy_run name ext (rendered label)
    (Click Written :: replicate n Ms
     ++ Click Written :: replicate (COPIED_MS - n) Ms)
  = {| innerText := toUpperCase ext; timeouts := [n];
       clipboard := Some (clipboard_text name ext); alerts := [];
       console := [] |}.
Proof.
  intros Hn. rewrite copy_run_cons, copy_run_app, copy_run_cons.
  assert (Forall (λ t, 0 < t) [COPIED_MS]) as Hpos
    by (apply Forall_singleton; lia).
  cbn [copy_handle].
  rewrite (copy_run_ms _ _ (copyHandler _ _ (rendered label) Written) n)
    by done.
  rewrite copy_run_ms
    by (apply Forall_app; split; [apply timers_elapsed_pos|done]).
  unfold elapsed, copyHandler, rendered.
  cbn [innerText timeouts clipboard alerts console app].
  rewrite (timers_not_due n [COPIED_MS])
    by (rewrite Exists_cons, Exists_nil; lia).
  revert Hn. generalize COPIED_MS. intros N Hn. csimpl.
  rewrite decide_True by (constructor; lia).
  rewrite filter_cons, decide_False, filter_cons, decide_True by lia.
  csimpl. do 2 f_equal. lia.
Qed.

(** The clipboard changes only on a successful click: after any
    sequence of events it holds the file name of the button if one of the
    clicks succeeded, and what it held before otherwise. *)
Theorem copy_run_clipboard st evs :
  clipboard (copy_run name ext st evs)
  = if decide (Click Written ∈ evs) then Some (clipboard_text name ext)
    else clipboard st.
Proof.
  revert st. induction evs as [|ev evs IH]; intros st; [done|].
  rewrite copy_run_cons, IH.
  destruct (decide (Click Written ∈ evs)).
  - by rewrite decide_True by by apply list_elem_of_further.
  - destruct (decide (ev = Click Written)) as [->|Hne].
    + by rewrite decide_True by apply list_elem_of_here.
    + rewrite decide_False by (by intros [?|?]%elem_of_cons).
      by destruct ev as [[|err|]|].
Qed.

(** The copied file name leads back to the key: for an extension of
    three characters, [slice(0, -4)] of [`${name}.${ext}`] is [name]. *)
Theorem clipboard_text_key :
  length ext = 3 → slice (clipboard_text name ext) 0 (-4) = name.
Proof.
  intros Hext. unfold clipboard_text.
  replace (-4)%Z with (- Z.of_nat (length (js "." ++ ext)))%Z
    by (rewrite length_app, Hext; done).
  by apply slice_app_suffix.
Qed.

End copy_theorems.

Lemma copy_reachable_inv_witness :
  copy_inv (js "plex") (js "png") (js "PNG")
    (copy_run (js "plex") (js "png") (rendered (js "PNG"))
       [Click Written; Ms; Click (Denied (js "NotAllowedError"))]).
Proof.
  apply copy_reachable_inv; [done|].
  apply copy_run_reachable. constructor.
Defined.

Lemma copy_restores_witness :
  copy_run (js "plex") (js "png") (rendered (js "PNG"))
    (Click Written :: replicate COPIED_MS Ms)
  = {| innerText := js "PNG"; timeouts := [];
       clipboard := Some (js "plex.png"); alerts := []; console := [] |}.
Proof.
  exact (copy_restores (js "plex") (js "png") (js "PNG") _
           ltac:(done) (copy_reachable_rendered _ _ _)).
Defined.

Lemma copy_feedback_cut_short_witness :
  copy_run (js "plex") (js "png") (rendered (js "PNG"))
    (Click Written :: replicate 900 Ms
     ++ Click Written :: replicate (COPIED_MS - 900) Ms)
  = {| innerText := js "PNG"; timeouts := [900];
       clipboard := Some (js "plex.png"); alerts := []; console := [] |}.
Proof.
  exact (copy_feedback_cut_short (js "plex") (js "png") (js "PNG") 900
           ltac:(unfold COPIED_MS; lia)).
Defined.

Lemma clipboard_text_key_witness :
  slice (clipboard_text (js "plex") (js "svg")) 0 (-4) = js "plex".
Proof. by apply clipboard_text_key. Defined.
