(* ===== verification/Async.v ===== *)
(** * The promise chains of the sources, as written

    [getImageData] ([src/src/hooks/useImageData.ts] 39-78) is an [async]
    function that awaits two chains
    [axios.get(url).then(reaction).catch(err => console.log(err.message))]
    and returns the object that the reactions have filled; [copyHandler]
    ([src/src/pages/index.tsx] 52-65) chains [then] and [catch] on
    [navigator.clipboard.writeText].  This file writes both as promises
    ([Promise]) the way the sources compose them, and proves that they are
    the functions [getImageData] of [ImageData] and [copyHandler] of
    [Copy], which the rest of the development reasons about.

    [getImageData] is awaited by the query library, so that nothing of
    the page sees it before it has settled.  [copyHandler] is not: it
    returns when the chain is built, and the reactions run when the
    browser settles the promise of [writeText], with clicks and
    milliseconds in between.  [Button] is the button with the promises
    that its clicks have started; its events are the click, the
    settlement of a promise and the millisecond, and the handler of
    [Copy], which takes click and settlement in one step, is what it
    does on the settlements.

    The world of [getImageData] is the object [data] and the trace of
    what the function does that is seen from outside, in order: the
    requests that [axios.get] sends and the lines that [console.log]
    receives.  A chain is rejected with the error of [axios] or with what
    a reaction threw.  The world of [copyHandler] is the button with the
    clipboard, the alerts and the error console; whether the page has a
    clipboard at all ([secure]) and how each promise of [writeText] is
    settled ([Settlement]) are inputs.

    Properties of the object are carried through the chains by the Hoare
    logic of [Promise] ([on_data]), properties of the console likewise
    ([lines]).

    The requests are inputs.  A [Network] gives, by URL, what [axios.get]
    settles with; [axios_settle] derives it from the answer of the server
    (an [HttpOutcome]): [axios] rejects an answer whose status is outside
    200-299, and a request without answer. *)

From S2P Require Import Prelude Promise JsString JsObject ImageData Listing.
From S2P Require Import Copy.
From stdpp Require Import pretty.

(** ** The requests *)

(** Lines 19-20. *)
Definition PNG_URL : JsString :=
  js "https://cdn.jsdelivr.net/gh/walkxcode/dashboard-icons@main/png/".

Definition SVG_URL : JsString :=
  js "https://cdn.jsdelivr.net/gh/walkxcode/dashboard-icons@main/svg/".

(** What [axios.get] settles with, by URL. *)
Definition Network : Type := JsString → Response.

(** The network that serves the two listings and nothing else. *)
Definition net_of (pngs svgs : list Anchor) : Network := λ url,
  if decide (url = PNG_URL) then Fulfilled pngs
  else if decide (url = SVG_URL) then Fulfilled svgs
  else RejectedWith (js "Network Error").

(** The answer of the server to a request: a status and a body, given
    by the document it parses to; or none. *)
Inductive HttpOutcome : Type :=
  | Responds (status : nat) (body : Document)
  | NoResponse.

(** The default [validateStatus] of [axios]. *)
Definition validateStatus (status : nat) : bool :=
  bool_decide (200 ≤ status < 300).

(** How [axios.get] settles on an answer. *)
Definition axios_settle (o : HttpOutcome) : Response :=
  match o with
  | Responds status body =>
      if validateStatus status then Fulfilled (links_of body)
      else RejectedWith
             (js "Request failed with status code " ++ js (pretty status))
  | NoResponse => RejectedWith (js "Network Error")
  end.

Definition network_of (http : JsString → HttpOutcome) : Network :=
  λ url, axios_settle (http url).

(** The first listing is not found and the second request has no
    answer. *)
Definition demo_http : JsString → HttpOutcome := λ url,
  if decide (url = PNG_URL) then Responds 404 (mkDocument true [])
  else NoResponse.

(** ** [getImageData] *)

(** What a chain is rejected with: the error of [axios], or what a
    reaction threw. *)
Inductive Reason : Type :=
  | AxiosError (message : JsString)
  | Thrown (e : JsError).

(** What is seen of [getImageData] from outside: a request sent (lines
    41-42, 57-58), a line on the console (lines 54, 74). *)
Inductive IOEvent : Type :=
  | Get (url : JsString)
  | ConsoleLog (line : LogLine).

#[export] Instance IOEvent_eq_dec : EqDecision IOEvent.
Proof. solve_decision. Defined.

#[export] Instance Reason_eq_dec : EqDecision Reason.
Proof. solve_decision. Defined.

(** What [console.log] received. *)
Definition console_of (trace : list IOEvent) : list LogLine :=
  omap (λ ev, match ev with ConsoleLog line => Some line | Get _ => None end)
       trace.

(** The requests sent. *)
Definition requests_of (trace : list IOEvent) : list JsString :=
  omap (λ ev, match ev with Get url => Some url | ConsoleLog _ => None end)
       trace.

(** The object [data] and the trace. *)
Abbreviation Fetch := (Promise (Store * list IOEvent) Reason).

(** [axios.get<string>(url)], lines 41-42 and 57-58: the request is
    sent when the call is made; the value is the response, given by the
    links that [parseSoup] finds in [res.data]. *)
Definition axios_get (net : Network) (url : JsString)
    : Fetch (list Anchor) :=
  effect (λ w, (w.1, w.2 ++ [Get url])) ;;
  match net url with
  | Fulfilled links => mret links
  | RejectedWith m => reject (AxiosError m)
  end.

(** Lines 46-51, the callback of the first [forEach], on [data]. *)
Definition png_callback (item : ParsedImageData) : Fetch unit :=
  effect (λ w, (png_item w.1 item, w.2)).

(** Lines 62-71, the callback of the second [forEach], on [data]: the
    assignment of line 66 may throw. *)
Definition svg_callback (item : ParsedImageData) : Fetch unit := λ w,
  match svg_item w.1 item with
  | inl data => (inl tt, (data, w.2))
  | inr e => (inr (Thrown e), w)
  end.

(** Lines 43-52, the reaction of the first [then]. *)
Definition png_then (res : list Anchor) : Fetch unit :=
  let list := parseSoup res in
  forEach list png_callback.

(** Lines 59-72, the reaction of the second [then]. *)
Definition svg_then (res : list Anchor) : Fetch unit :=
  let list := parseSoup res in
  forEach list svg_callback.

(** [err.message], as a line of the console. *)
Definition message_line (err : Reason) : LogLine :=
  match err with
  | AxiosError m => LogMessage m
  | Thrown e => LogThrown e
  end.

(** Lines 53-55 and 73-75, the reaction of both [catch]. *)
Definition log_catch (err : Reason) : Fetch unit :=
  effect (λ w, (w.1, w.2 ++ [ConsoleLog (message_line err)])).

(** Lines 39-78; line 40 is the world in which the promise starts. *)
Definition getImageData_async (net : Network) : Fetch Store :=
  catch (then_ (axios_get net PNG_URL) png_then) log_catch ;;
  catch (then_ (axios_get net SVG_URL) svg_then) log_catch ;;
  inspect fst.

(** Line 40: [const data: ImageData = {}], with an empty trace. *)
Definition started (realm : Realm) : Store * list IOEvent :=
  (empty_store realm, []).

(** The trace of a call: the first request, what the first chain logs,
    the second request, what the second chain logs. *)
Definition trace_of (log1 log2 : list LogLine) : list IOEvent :=
  Get PNG_URL :: (ConsoleLog <$> log1) ++ Get SVG_URL :: (ConsoleLog <$> log2).

(** A property of the object [data], as a property of the world. *)
Definition on_data (P : Store → Prop) (w : Store * list IOEvent) : Prop :=
  P w.1.

(** The console holds between [a] and [b] lines. *)
Definition lines (a b : nat) (w : Store * list IOEvent) : Prop :=
  a ≤ length (console_of w.2) ≤ b.

(** ** [copyHandler] *)

(** The button; a chain is rejected with the error of [writeText]. *)
Abbreviation Clip := (Promise CopyState JsString).

(** What is thrown when a property of [undefined] is read. *)
Definition TYPE_ERROR : JsString := js "TypeError".

(** How the browser settles the promise of [writeText]. *)
Inductive Settlement : Type :=
  | Fulfils
  | Rejects (err : JsString).

#[export] Instance Settlement_eq_dec : EqDecision Settlement.
Proof. solve_decision. Defined.

(** Lines 53-54: the promise of [writeText(text)], once it is settled. *)
Definition writeText (s : Settlement) (text : JsString) : Clip unit :=
  match s with
  | Fulfils =>
      effect (λ st, {| Copy.innerText := Copy.innerText st;
                       timeouts := timeouts st; clipboard := Some text;
                       alerts := alerts st; console := console st |})
  | Rejects err => reject err
  end.

(** Lines 55-60, the reaction of [then]: the text of the button, and the
    timer of line 57. *)
Definition copied (_ : unit) : Clip unit :=
  effect (λ st, {| Copy.innerText := js "Copied!";
                   timeouts := timeouts st ++ [COPIED_MS];
                   clipboard := clipboard st; alerts := alerts st;
                   console := console st |}).

(** Lines 61-64, the reaction of [catch]. *)
Definition failed (err : JsString) : Clip unit :=
  effect (λ st, {| Copy.innerText := Copy.innerText st;
                   timeouts := timeouts st; clipboard := clipboard st;
                   alerts := alerts st ++ [js "Failed to copy."];
                   console := console st ++ [err] |}).

(** Lines 53-64: the chain of [then] and [catch] on the promise that
    [writeText] returns. *)
Definition copyHandler_async (name ext : JsString) (s : Settlement)
    : Clip unit :=
  catch (then_ (writeText s (clipboard_text name ext)) copied) failed.

(** What a settlement is to the handler of [Copy]. *)
Definition result_of (s : Settlement) : WriteResult :=
  match s with Fulfils => Written | Rejects err => Denied err end.

(** *** The click and, later, the reaction

    The handler returns as soon as the chain is built; the browser
    settles the promise later, and the reactions run then, on the button
    as it is then.  A button with the promises that its clicks have
    started and that are not settled yet, and the exceptions that have
    left its handler. *)
Record Button : Type := mkButton {
  target : CopyState;
  unsettled : nat;
  uncaught : list JsString;
}.

Inductive ButtonEvent : Type :=
  | Press                       (** [onClick] *)
  | Settles (s : Settlement)    (** a promise of [writeText] is settled *)
  | Passes.                     (** one millisecond passes *)

#[export] Instance ButtonEvent_eq_dec : EqDecision ButtonEvent.
Proof. solve_decision. Defined.

Section button.
Context (name ext : JsString).
(** [navigator.clipboard] is an object: the page is a secure context. *)
Context (secure : bool).

(** Lines 52-54, the handler itself: [navigator.clipboard.writeText] is
    called, which starts a promise; where [navigator.clipboard] is
    [undefined], reading [writeText] throws, and nothing catches it. *)
Definition press (b : Button) : Button :=
  if secure
  then {| target := target b; unsettled := S (unsettled b);
          uncaught := uncaught b |}
  else {| target := target b; unsettled := unsettled b;
          uncaught := uncaught b ++ [TYPE_ERROR] |}.

(** Lines 55-64, when one of the promises is settled; a settlement
    that no click has asked for does not happen.  What a fulfilled
    promise has written is on the clipboard from then on (the browser
    writes it before it fulfils the promise, which the page cannot
    tell). *)
Definition settles (b : Button) (s : Settlement) : Button :=
  match unsettled b with
  | 0 => b
  | S n => {| target := (copyHandler_async name ext s (target b)).2;
              unsettled := n; uncaught := uncaught b |}
  end.

Definition button_handle (b : Button) (ev : ButtonEvent) : Button :=
  match ev with
  | Press => press b
  | Settles s => settles b s
  | Passes => {| target := elapsed ext 1 (target b);
                 unsettled := unsettled b; uncaught := uncaught b |}
  end.

Definition button_run (b : Button) (evs : list ButtonEvent) : Button :=
  foldl button_handle b evs.

(** The events of the handler of [Copy] in a run: each settlement of a
    started promise is a click at the time of the settlement, with that
    outcome; a click without a clipboard is a click there and then. *)
Fixpoint clicks_of (n : nat) (evs : list ButtonEvent) : list CopyEvent :=
  match evs with
  | [] => []
  | Press :: evs =>
      if secure then clicks_of (S n) evs
      else Click Unavailable :: clicks_of n evs
  | Settles s :: evs =>
      match n with
      | 0 => clicks_of 0 evs
      | S n => Click (result_of s) :: clicks_of n evs
      end
  | Passes :: evs => Ms :: clicks_of n evs
  end.

(** The run in which every promise is settled at once, before anything
    else happens. *)
Definition at_once (ev : CopyEvent) : list ButtonEvent :=
  match ev with
  | Click Written => [Press; Settles Fulfils]
  | Click (Denied err) => [Press; Settles (Rejects err)]
  | Click Unavailable => [Press]
  | Ms => [Passes]
  end.

End button.

(** A button on which nothing is going on. *)
Definition idle (st : CopyState) : Button :=
  {| target := st; unsettled := 0; uncaught := [] |}.

(** ** The requests *)

Lemma net_of_PNG pngs svgs : net_of pngs svgs PNG_URL = Fulfilled pngs.
Proof. done. Qed.

Lemma net_of_SVG pngs svgs : net_of pngs svgs SVG_URL = Fulfilled svgs.
Proof. done. Qed.

(** ** The trace *)

Section trace.
Implicit Types (trace : list IOEvent) (log : list LogLine).

Lemma console_of_app trace1 trace2 :
  console_of (trace1 ++ trace2) = console_of trace1 ++ console_of trace2.
Proof. apply omap_app. Qed.

Lemma requests_of_app trace1 trace2 :
  requests_of (trace1 ++ trace2) = requests_of trace1 ++ requests_of trace2.
Proof. apply omap_app. Qed.

Lemma console_of_logs log : console_of (ConsoleLog <$> log) = log.
Proof. induction log; [done|]. cbn. by f_equal. Qed.

Lemma requests_of_logs log : requests_of (ConsoleLog <$> log) = [].
Proof. by induction log. Qed.

Lemma console_of_trace_of log1 log2 :
  console_of (trace_of log1 log2) = log1 ++ log2.
Proof.
  unfold trace_of. cbn. rewrite console_of_app. cbn.
  by rewrite !console_of_logs.
Qed.

Lemma requests_of_trace_of log1 log2 :
  requests_of (trace_of log1 log2) = [PNG_URL; SVG_URL].
Proof.
  unfold trace_of. cbn. rewrite requests_of_app. cbn.
  by rewrite !requests_of_logs.
Qed.

End trace.

(** ** The loops *)

Section loops.
Implicit Types (items : list ParsedImageData) (d : Store).
Implicit Types (log : list IOEvent).

Lemma forEach_png_callback items d log :
  forEach items png_callback (d, log)
  = (inl tt, (foldl png_item d items, log)).
Proof.
  revert d. induction items as [|item items IH]; intros d; [done|].
  simpl. unfold mbind, promise_bind. simpl. apply IH.
Qed.

Lemma forEach_svg_callback items d log :
  forEach items svg_callback (d, log)
  = match forEach_throwing svg_item d items with
    | (d', None) => (inl tt, (d', log))
    | (d', Some e) => (inr (Thrown e), (d', log))
    end.
Proof.
  revert d. induction items as [|item items IH]; intros d; [done|].
  simpl. unfold mbind, promise_bind, svg_callback at 1. simpl.
  destruct (svg_item d item) as [d'|e]; [apply IH|done].
Qed.

End loops.

(** ** The chains *)

Section chains.
Implicit Types (net : Network) (d : Store) (trace : list IOEvent).
Implicit Types (res : Response).

(** The first chain is the request and the first pass. *)
Lemma png_chain net d trace :
  catch (then_ (axios_get net PNG_URL) png_then) log_catch (d, trace)
  = (inl tt, ((png_pass d (net PNG_URL)).1,
              trace ++ Get PNG_URL
                :: (ConsoleLog <$> (png_pass d (net PNG_URL)).2))).
Proof.
  unfold catch, then_, axios_get, mbind, promise_bind, png_then.
  destruct (net PNG_URL) as [links|m]; simpl;
    [|unfold log_catch; simpl; by rewrite <- app_assoc].
  by rewrite forEach_png_callback.
Qed.

(** The second chain is the request and the second pass. *)
Lemma svg_chain net d trace :
  catch (then_ (axios_get net SVG_URL) svg_then) log_catch (d, trace)
  = (inl tt, ((svg_pass d (net SVG_URL)).1,
              trace ++ Get SVG_URL
                :: (ConsoleLog <$> (svg_pass d (net SVG_URL)).2))).
Proof.
  unfold catch, then_, axios_get, mbind, promise_bind, svg_then.
  destruct (net SVG_URL) as [links|m]; simpl;
    [|unfold log_catch; simpl; by rewrite <- app_assoc].
  rewrite forEach_svg_callback.
  destruct (forEach_throwing _ _ _) as [d' [e|]]; simpl; [|done].
  unfold log_catch. simpl. by rewrite <- app_assoc.
Qed.

(** The function in any world: the second chain starts from what the
    first has left. *)
Lemma getImageData_async_from net d trace :
  let png := png_pass d (net PNG_URL) in
  let svg := svg_pass png.1 (net SVG_URL) in
  getImageData_async net (d, trace)
  = (inl svg.1, (svg.1, trace ++ trace_of png.2 svg.2)).
Proof.
  unfold getImageData_async, trace_of, mbind, promise_bind.
  rewrite png_chain. destruct (png_pass _ _) as [d1 log1]. simpl.
  rewrite svg_chain. destruct (svg_pass _ _) as [d2 log2]. simpl.
  by rewrite <- app_assoc.
Qed.

Lemma getImageData_async_started realm net :
  let data := getImageData realm (net PNG_URL) (net SVG_URL) in
  ∃ trace,
    getImageData_async net (started realm) = (inl data.1, (data.1, trace))
    ∧ console_of trace = data.2 ∧ requests_of trace = [PNG_URL; SVG_URL].
Proof.
  unfold started, getImageData. rewrite getImageData_async_from.
  destruct (png_pass _ _) as [d1 log1], (svg_pass _ _) as [d2 log2].
  eexists. split; [done|].
  by rewrite app_nil_l, console_of_trace_of, requests_of_trace_of.
Qed.

Lemma log_catch_fulfils err : never_rejects (log_catch err).
Proof. apply never_rejects_effect. Qed.

Lemma getImageData_async_fulfils net :
  never_rejects (getImageData_async net).
Proof.
  unfold getImageData_async.
  repeat (apply never_rejects_bind; [|intros _]);
    auto using log_catch_fulfils with js.
Qed.

End chains.

(** ** The button *)

Section button_lemmas.
Context (name ext : JsString) (secure : bool).
Implicit Types (b : Button) (s : Settlement) (st : CopyState).

(** The chain is fulfilled however [writeText] is settled, and has done
    to the button what the handler of [Copy] does. *)
Lemma copyHandler_async_copyHandler s st :
  copyHandler_async name ext s st
  = (inl tt, copyHandler name ext st (result_of s)).
Proof. by destruct s. Qed.

Lemma button_run_cons b ev evs :
  button_run name ext secure b (ev :: evs)
  = button_run name ext secure (button_handle name ext secure b ev) evs.
Proof. done. Qed.

Lemma button_run_app b evs1 evs2 :
  button_run name ext secure b (evs1 ++ evs2)
  = button_run name ext secure (button_run name ext secure b evs1) evs2.
Proof. apply foldl_app. Qed.

(** One event of the button, seen from the handler of [Copy]. *)
Lemma button_handle_target b ev evs :
  copy_run name ext (target b) (clicks_of secure (unsettled b) (ev :: evs))
  = copy_run name ext (target (button_handle name ext secure b ev))
      (clicks_of secure
         (unsettled (button_handle name ext secure b ev)) evs).
Proof.
  destruct ev as [|s|]; cbn [button_handle clicks_of].
  - unfold press. by destruct secure.
  - unfold settles. destruct (unsettled b) eqn:Hn; [by rewrite Hn|].
    by rewrite copyHandler_async_copyHandler.
  - by rewrite copy_run_cons.
Qed.

Lemma button_run_target b evs :
  target (button_run name ext secure b evs)
  = copy_run name ext (target b) (clicks_of secure (unsettled b) evs).
Proof.
  revert b. induction evs as [|ev evs IH]; intros b; [done|].
  by rewrite button_run_cons, IH, button_handle_target.
Qed.

(** The exceptions that leave the handler: one for each click without a
    clipboard. *)
Lemma button_run_uncaught b evs :
  uncaught (button_run name ext secure b evs)
  = uncaught b
    ++ replicate (if secure then 0 else length (filter (.= Press) evs))
         TYPE_ERROR.
Proof.
  revert b. induction evs as [|ev evs IH]; intros b.
  - simpl. destruct secure; by rewrite app_nil_r.
  - rewrite button_run_cons, IH, filter_cons.
    destruct ev as [|s|]; cbn [button_handle];
      [|rewrite decide_False by done..]; [|unfold settles|done].
    + rewrite decide_True by done. unfold press.
      destruct secure; simpl; [done|]. by rewrite <-app_assoc.
    + by destruct (unsettled b).
Qed.

(** Settled at once, a click is the click of [Copy]. *)
Lemma button_run_at_once b ev :
  unsettled b = 0 → (ev = Click Unavailable ↔ secure = false) ∨ ev = Ms →
  button_run name ext secure b (at_once ev)
  = {| target := copy_handle name ext (target b) ev; unsettled := 0;
       uncaught := uncaught b
                   ++ if decide (ev = Click Unavailable) then [TYPE_ERROR]
                      else [] |}.
Proof.
  destruct b as [st n errs]. simpl.
  intros -> [[H1 H2]| ->]; [|by rewrite app_nil_r].
  destruct ev as [[|err|]|], secure; simpl; rewrite ?app_nil_r; try done;
    first [discriminate (H1 eq_refl)|discriminate (H2 eq_refl)].
Qed.

End button_lemmas.

(** ** What the chains do to the console *)

Section console.
Implicit Types (net : Network) (a b : nat) (url : JsString).

Lemma hoare_axios_get net url a b :
  hoare (lines a b) (axios_get net url) (λ _, lines a b).
Proof.
  intros [d trace] Hw. unfold lines, axios_get, mbind, promise_bind in *.
  destruct (net url); simpl in *;
    by rewrite console_of_app, length_app, Nat.add_0_r.
Qed.

Lemma hoare_png_callback item a b :
  hoare (lines a b) (png_callback item) (λ _, lines a b).
Proof. by intros w Hw. Qed.

Lemma hoare_svg_callback item a b :
  hoare (lines a b) (svg_callback item) (λ _, lines a b).
Proof. intros w Hw. unfold svg_callback. by destruct (svg_item _ _). Qed.

Lemma hoare_log_catch err a b :
  hoare (lines a b) (log_catch err) (λ _, lines a (S b)).
Proof.
  intros [d trace] Hw. unfold lines in *. simpl in *.
  rewrite console_of_app, length_app. simpl. lia.
Qed.

(** A chain logs at most one line, whatever its reaction does to the
    object. *)
Lemma hoare_chain net url (reaction : list Anchor → Fetch unit) a b :
  (∀ res, hoare (lines a b) (reaction res) (λ _, lines a b)) →
  hoare (lines a b) (catch (then_ (axios_get net url) reaction) log_catch)
    (λ _, lines a (S b)).
Proof.
  intros Hr. eapply hoare_catch with (Q := λ _, lines a b).
  - eapply hoare_bind; [apply hoare_axios_get|apply Hr|done].
  - intros err. apply hoare_log_catch.
  - unfold lines. intros _ w. lia.
Qed.

Lemma hoare_getImageData_async net a b :
  hoare (lines a b) (getImageData_async net) (λ _, lines a (S (S b))).
Proof.
  unfold getImageData_async.
  eapply hoare_bind with (Q := λ _, lines a (S b));
    [| |unfold lines; intros; lia].
  { apply hoare_chain. intros res. apply hoare_forEach.
    intros. apply hoare_png_callback. }
  intros _. eapply hoare_bind with (Q := λ _, lines a (S (S b))); [| |done].
  { apply hoare_chain. intros res. apply hoare_forEach.
    intros. apply hoare_svg_callback. }
  by intros _ w.
Qed.

End console.

(** ** What the chains do to the object *)

Section data.
Context (P : Store → Prop).
Context (P_png : ∀ d item, P d → P (png_item d item)).
Context (P_svg : ∀ d item d', P d → svg_item d item = inl d' → P d').
Implicit Types (net : Network) (url : JsString).

Lemma hoare_axios_get_data net url :
  hoare (on_data P) (axios_get net url) (λ _, on_data P).
Proof.
  intros [d trace] Hw. unfold axios_get, mbind, promise_bind.
  by destruct (net url).
Qed.

Lemma hoare_png_callback_data item :
  hoare (on_data P) (png_callback item) (λ _, on_data P).
Proof. intros [d trace] Hw. by apply P_png. Qed.

(** A callback that throws has not written. *)
Lemma hoare_svg_callback_data item :
  hoare (on_data P) (svg_callback item) (λ _, on_data P).
Proof.
  intros [d trace] Hw. unfold svg_callback, on_data in *. simpl in *.
  destruct (svg_item d item) as [d'|e] eqn:Hd; [by eapply P_svg|done].
Qed.

Lemma hoare_png_then_data res :
  hoare (on_data P) (png_then res) (λ _, on_data P).
Proof. apply hoare_forEach. intros. apply hoare_png_callback_data. Qed.

Lemma hoare_svg_then_data res :
  hoare (on_data P) (svg_then res) (λ _, on_data P).
Proof. apply hoare_forEach. intros. apply hoare_svg_callback_data. Qed.

(** A chain keeps what its reaction keeps, and is fulfilled. *)
Lemma hoare_chain_data net url (reaction : list Anchor → Fetch unit) :
  (∀ res, hoare (on_data P) (reaction res) (λ _, on_data P)) →
  hoare (on_data P) (catch (then_ (axios_get net url) reaction) log_catch)
    (λ o w, is_fulfilled o ∧ on_data P w).
Proof.
  intros Hr. apply hoare_never_rejects;
    [apply never_rejects_catch, log_catch_fulfils|].
  eapply hoare_catch with (Q := λ _, on_data P); [| |done].
  - eapply hoare_bind; [apply hoare_axios_get_data|apply Hr|done].
  - by intros err [d trace] Hw.
Qed.

(** The rule of invariants for [getImageData]: what both callbacks keep
    holds of the object at every step of the two chains, whether a
    request fails or a callback throws, and of the object that the
    promise is fulfilled with. *)
Lemma hoare_getImageData_async_data net :
  hoare (on_data P) (getImageData_async net)
    (λ o w, on_data P w ∧ o = inl w.1).
Proof.
  unfold getImageData_async.
  eapply hoare_bind with (Q := λ o w, is_fulfilled o ∧ on_data P w);
    [apply hoare_chain_data, hoare_png_then_data| |by intros r w [[] _]].
  intros v. eapply hoare_bind with (Q := λ o w, is_fulfilled o ∧ on_data P w);
    [|by intros v' w [_ Hw]|by intros r w [[] _]].
  apply hoare_consequence
    with (P := on_data P) (Q := λ o w, is_fulfilled o ∧ on_data P w);
    [by intros w [_ Hw]|done|].
  apply hoare_chain_data, hoare_svg_then_data.
Qed.

End data.

(** ** Theorems *)

Section async_theorems.
Implicit Types (net : Network) (realm : Realm) (st : CopyState).
Implicit Types (res : WriteResult) (http : JsString → HttpOutcome).

(** C14: the promise chains of [getImageData] are the two passes: started
    on a new object in any realm, with any answers to the two requests,
    the [async] function is fulfilled with the object that [getImageData]
    of [ImageData] builds, and the console has received its log. *)
Theorem getImageData_async_run realm net :
  let data := getImageData realm (net PNG_URL) (net SVG_URL) in
  let run := getImageData_async net (started realm) in
  run.1 = inl data.1 ∧ run.2.1 = data.1 ∧ console_of run.2.2 = data.2.
Proof.
  by destruct (getImageData_async_started realm net) as (? & -> & ? & _).
Qed.

(** C15: the order of what [getImageData] does, in any world and with any
    answers: the first request, then what the first chain logs, then the
    second request, then what the second chain logs.  The second request
    is sent when the first chain has settled, on the object that the
    first pass has left, and is sent whether the first request failed or
    not. *)
Theorem getImageData_async_trace net d trace :
  let png := png_pass d (net PNG_URL) in
  let svg := svg_pass png.1 (net SVG_URL) in
  (getImageData_async net (d, trace)).2.2
  = trace ++ Get PNG_URL :: (ConsoleLog <$> png.2)
      ++ Get SVG_URL :: (ConsoleLog <$> svg.2).
Proof. intros png svg. by rewrite getImageData_async_from. Qed.

(** A call sends two requests, the listing of the PNG files first. *)
Theorem getImageData_async_requests net w :
  requests_of (getImageData_async net w).2.2
  = requests_of w.2 ++ [PNG_URL; SVG_URL].
Proof.
  destruct w as [d trace]. rewrite getImageData_async_from. simpl.
  by rewrite requests_of_app, requests_of_trace_of.
Qed.

(** The promise of [getImageData] is never rejected, in any world:
    each chain ends in a [catch] whose reaction only logs. *)
Theorem getImageData_async_never_rejects net :
  never_rejects (getImageData_async net).
Proof. apply getImageData_async_fulfils. Qed.

(** The object stays well formed through the chains, from any world in
    which it is, and the promise is fulfilled with it. *)
Theorem getImageData_async_wf net w :
  wf_store w.1 →
  let run := getImageData_async net w in
  wf_store run.2.1 ∧ run.1 = inl run.2.1.
Proof.
  apply (hoare_getImageData_async_data wf_store png_item_wf svg_item_wf).
Qed.

(** A call of [getImageData] writes at most two lines to the console. *)
Theorem getImageData_async_lines net w :
  length (console_of w.2)
  ≤ length (console_of (getImageData_async net w).2.2)
  ≤ length (console_of w.2) + 2.
Proof.
  pose proof (hoare_getImageData_async net (length (console_of w.2))
                (length (console_of w.2)) w).
  unfold lines in *. lia.
Qed.

(** C40: the click and its reaction are apart in time: the handler
    returns when the chain is built, and lines 55-64 run when the browser
    settles the promise, on the button as it is then.  Whatever happens
    between the clicks and the settlements, the button, the clipboard,
    the alerts and the error console are what the handler of [Copy],
    which takes both in one step, gives for the settlements, each taken
    as a click at the time it happens; a click without a clipboard
    throws there and then, once per click, and starts nothing. *)
Theorem button_run_refines name ext secure b evs :
  target (button_run name ext secure b evs)
  = copy_run name ext (target b) (clicks_of secure (unsettled b) evs)
  ∧ uncaught (button_run name ext secure b evs)
    = uncaught b
      ++ replicate (if secure then 0 else length (filter (.= Press) evs))
           TYPE_ERROR.
Proof. split; [apply button_run_target|apply button_run_uncaught]. Qed.

(** When every promise is settled before anything else happens, the
    button does what the handler of [Copy] does on the clicks
    themselves. *)
Theorem button_run_at_once_run name ext secure st evs :
  Forall (λ ev, (ev = Click Unavailable ↔ secure = false) ∨ ev = Ms) evs →
  target (button_run name ext secure (idle st) (evs ≫= at_once))
  = copy_run name ext st evs.
Proof.
  intros Hevs. change st with (target (idle st)) at 2.
  assert (unsettled (idle st) = 0) as Hb by done. revert Hb.
  generalize (idle st). induction Hevs as [|ev evs Hev _ IH]; intros b Hb;
    [done|].
  rewrite bind_cons, button_run_app, (button_run_at_once _ _ _ _ _ Hb Hev).
  by rewrite IH.
Qed.

(** The invariant of [Copy] holds for the button whenever its promises
    are settled. *)
Theorem button_run_inv name ext secure label evs :
  label ≠ js "Copied!" →
  copy_inv name ext label
    (target (button_run name ext secure (idle (rendered label)) evs)).
Proof.
  intros Hl. rewrite button_run_target.
  apply copy_reachable_copy_inv; [done|]. apply copy_run_reachable.
  constructor.
Qed.

(** An answer with a status outside 200-299 to the first request: [axios]
    rejects it, its message is the first line of the log, whatever the
    body holds, and the data is what the second pass alone builds. *)
Theorem http_status_rejected realm http status body :
  http PNG_URL = Responds status body → ¬ (200 ≤ status < 300) →
  let svg := svg_pass (empty_store realm) (network_of http SVG_URL) in
  getImageData_async (network_of http) (started realm)
  = (inl svg.1,
     (svg.1,
      Get PNG_URL
      :: ConsoleLog (LogMessage (js "Request failed with status code "
                                 ++ js (pretty status)))
      :: Get SVG_URL :: (ConsoleLog <$> svg.2))).
Proof.
  intros Hpng Hstatus svg.
  assert (network_of http PNG_URL
          = RejectedWith (js "Request failed with status code "
                          ++ js (pretty status))) as Hrej.
  { unfold network_of, axios_settle, validateStatus.
    by rewrite Hpng, bool_decide_eq_false_2. }
  unfold started. rewrite getImageData_async_from.
  by rewrite Hrej.
Qed.

End async_theorems.

Lemma button_run_at_once_run_witness :
  target (button_run (js "plex") (js "png") true (idle (rendered (js "PNG")))
            ([Click Written; Ms; Click (Denied (js "NotAllowedError"))]
             ≫= at_once))
  = copy_run (js "plex") (js "png") (rendered (js "PNG"))
      [Click Written; Ms; Click (Denied (js "NotAllowedError"))].
Proof.
  apply button_run_at_once_run.
  repeat apply Forall_cons_2; [by left|by right|by left|done].
Defined.

Lemma button_run_inv_witness :
  copy_inv (js "plex") (js "png") (js "PNG")
    (target (button_run (js "plex") (js "png") true
               (idle (rendered (js "PNG")))
               [Press; Press; Passes; Settles Fulfils; Passes;
                Settles (Rejects (js "NotAllowedError"))])).
Proof. by apply button_run_inv. Defined.

Lemma http_status_rejected_witness :
  getImageData_async (network_of demo_http) (started pristine)
  = (inl (empty_store pristine),
     (empty_store pristine,
      [Get PNG_URL;
       ConsoleLog (LogMessage (js "Request failed with status code 404"));
       Get SVG_URL; ConsoleLog (LogMessage (js "Network Error"))])).
Proof.
  exact (http_status_rejected pristine demo_http 404 (mkDocument true [])
           eq_refl ltac:(lia)).
Defined.
