(* ===== verification/View.v ===== *)
(** * What the page renders ([src/src/pages/index.tsx] 123-167)

    [[
    {isLoading ? <Loading/> : isError ? <Error>{error.message}</Error> : (
      isSuccess && (
        <div>{dataFilter().map((imgKey) => (
          <div key={imgKey}>
            <button disabled={!data[imgKey]?.png}
                    onClick={copyHandler(imgKey, 'png')}>PNG</button>
            <button disabled={!data[imgKey]?.svg}
                    onClick={copyHandler(imgKey, 'svg')}>SVG</button>
            <img src={data[imgKey]?.png || data[imgKey]?.svg} alt={imgKey}/>
            <p>{imgKey}</p>
          </div>))}
        </div>))}
    ]]

    The view is a function of the state of the page: which of the three
    branches is taken and, for the grid, one [Card] per key that
    [dataFilter] returns, holding what depends on the data.  Markup, class
    names and the static header are presentation and are left out.

    The flags [isLoading], [isError] and [isSuccess] come from the query
    library; they are modelled from its documentation: [isLoading] holds
    while the query has no result and its function is running, which it is
    not while the browser is offline.  [page_reachable] are the states of
    [Page] in which the query result is what [getImageData] resolved
    with. *)

From S2P Require Import Prelude JsString Matcher JsObject ImageData Page Copy.
From stdpp Require Import gmap.

(** ** Definitions *)

(** A card of the grid, lines 136-162. *)
Record Card : Type := mkCard {
  card_key : JsString;           (** [key], [alt] and the caption *)
  png_disabled : bool;           (** line 139 *)
  svg_disabled : bool;           (** line 146 *)
  card_src : option JsString;    (** line 155; [None] is [undefined] *)
}.

#[export] Instance Card_eq_dec : EqDecision Card.
Proof. solve_decision. Defined.

Inductive View : Type :=
  | Loading
  | ErrorBox (message : JsString)
  | Grid (cards : list Card)
  | Blank.                       (** [isSuccess && ...] with [false] *)

(** ToBoolean of a string or [undefined]. *)
Definition to_boolean (v : option JsString) : bool :=
  from_option truthy false v.

(** [a || b]. *)
Definition logical_or (a b : option JsString) : option JsString :=
  if to_boolean a then a else b.

(** Lines 136-162 for one key. *)
Definition card (data : Store) (imgKey : JsString) : Card :=
  {| card_key := imgKey;
     png_disabled := negb (to_boolean (optional_get data imgKey FPng));
     svg_disabled := negb (to_boolean (optional_get data imgKey FSvg));
     card_src := logical_or (optional_get data imgKey FPng)
                            (optional_get data imgKey FSvg) |}.

Definition isLoading (q : QueryStatus) (isFetching : bool) : bool :=
  match q with Pending => isFetching | _ => false end.

Definition isError (q : QueryStatus) : bool :=
  match q with Errored _ => true | _ => false end.

(** Lines 124-166. *)
Definition render (st : HomePage) (isFetching : bool) : View :=
  if isLoading (query st) isFetching then Loading
  else match query st with
       | Errored message => ErrorBox message
       | Succeeded data => Grid (card data <$> shown st)
       | Pending => Blank
       end.

(** The second argument of [copyHandler] and the text of the button. *)
Definition ext_of (f : Field) : JsString :=
  match f with FPng => js "png" | FSvg => js "svg" end.

Definition label_of (f : Field) : JsString :=
  match f with FPng => js "PNG" | FSvg => js "SVG" end.

Definition disabled (c : Card) (f : Field) : bool :=
  match f with FPng => png_disabled c | FSvg => svg_disabled c end.

(** A click on a button of a card (lines 138-151): a disabled button does
    not dispatch [onClick]. *)
Definition click (c : Card) (f : Field) (st : CopyState) (res : WriteResult)
    : CopyState :=
  if disabled c f then st else copyHandler (card_key c) (ext_of f) st res.

(** The states that the page reaches when the query result changes only
    by [getImageData] resolving, in any realm and with any responses:
    the function catches every failure, so the query never fails. *)
Inductive page_reachable (lower : JsString → JsString) : HomePage → Prop :=
  | page_mounted : page_reachable lower mounted
  | page_change st v :
      page_reachable lower st → page_reachable lower (onChange st v)
  | page_tick st :
      page_reachable lower st → page_reachable lower (tick lower st)
  | page_resolved st realm pngRes svgRes :
      page_reachable lower st →
      page_reachable lower
        (settle st (Succeeded (getImageData realm pngRes svgRes).1)).

(** What holds of the query result in these states. *)
Definition query_inv (q : QueryStatus) : Prop :=
  match q with
  | Pending => True
  | Errored _ => False
  | Succeeded data => wf_store data ∧ own_truthy data
  end.

(** The test that [getImageData] applies to the names of a kind of
    file. *)
Definition rgx_of (f : Field) : JsString → bool :=
  match f with FPng => pngRgx | FSvg => svgRgx end.

(** The card that the abstract mapping prescribes for an entry. *)
Definition spec_card (key : JsString) (e : Entry) : Card :=
  {| card_key := key;
     png_disabled := negb (bool_decide (is_Some (png e)));
     svg_disabled := negb (bool_decide (is_Some (svg e)));
     card_src := if png e is Some u then Some u else svg e |}.

(** Two small listings used to instantiate the theorems: [plex] has both
    files, the PNG with an upper-case extension; [zed] has an SVG only. *)
Definition demo_png : list Anchor :=
  [mkAnchor (js " plex.PNG ") (Some (js "/png/plex.PNG"));
   mkAnchor (js "...") None].

Definition demo_svg : list Anchor :=
  [mkAnchor (js "plex.svg") (Some (js "/svg/plex.svg"));
   mkAnchor (js "zed.svg") (Some (js "/svg/zed.svg"))].

Definition demo_plex : Entry :=
  {| png := Some (js "https://cdn.jsdelivr.net/png/plex.PNG");
     svg := Some (js "https://cdn.jsdelivr.net/svg/plex.svg") |}.

(** ** Reading the store *)

Section reading.
Implicit Types (d : Store) (key u : JsString) (e : Entry) (f : Field).

Lemma optional_get_own_clean d key e f :
  clean d → alist_get key (own d) = Some e →
  optional_get d key f = match f with FPng => png e | FSvg => svg e end.
Proof.
  intros [_ Hs] Hg. unfold optional_get, entry_get, object_prototype_get.
  rewrite (resolve_own _ _ _ Hg), Hs. by destruct f, (png e), (svg e).
Qed.

Lemma to_boolean_truthy (v : option JsString) :
  (∀ u, v = Some u → truthy u = true) →
  to_boolean v = bool_decide (is_Some v).
Proof.
  intros Hv. destruct v as [u|]; simpl; [by rewrite Hv|done].
Qed.

Lemma card_own_clean d key e :
  clean d → alist_get key (own d) = Some e → entry_truthy e →
  card d key = spec_card key e.
Proof.
  intros Hc Hg [Hp Hs]. unfold card, spec_card, logical_or.
  rewrite !(optional_get_own_clean _ _ e) by done.
  rewrite !to_boolean_truthy by done. by destruct (png e).
Qed.

(** The card of an own key whose entry has a truthy URL. *)
Lemma card_own d key e :
  alist_get key (own d) = Some e → nonempty_entry e → entry_truthy e →
  is_Some (card_src (card d key))
  ∧ (png_disabled (card d key) = false ∨ svg_disabled (card d key) = false).
Proof.
  intros Hg Hne [Hp Hs]. unfold card, logical_or, optional_get, entry_get.
  rewrite (resolve_own _ _ _ Hg). simpl.
  destruct (png e) as [u|] eqn:Hpng; simpl.
  - rewrite (Hp u) by done. split; [by eexists|by left].
  - destruct Hne as [[? ?]|[u Hu]]; [congruence|]. rewrite Hu. simpl.
    rewrite (Hs u) by done. split; [by eexists|by right].
Qed.

Lemma card_keys d (keys : list JsString) :
  card_key <$> (card d <$> keys) = keys.
Proof. induction keys; csimpl; by f_equal. Qed.

End reading.

(** ** The grid over the data of [getImageData] *)

Section grid.
Implicit Types (pngLinks svgLinks : list Anchor) (key : JsString).
Implicit Types (e : Entry) (f : Field) (st : HomePage).

Lemma card_getImageData pngLinks svgLinks key e :
  hazard_free (parseSoup pngLinks) → hazard_free (parseSoup svgLinks) →
  image_map (parseSoup pngLinks) (parseSoup svgLinks) !! key = Some e →
  card (getImageData pristine (Fulfilled pngLinks) (Fulfilled svgLinks)).1 key
  = spec_card key e.
Proof.
  intros Hp Hs He.
  destruct (getImageData_refines_clean _ _ Hp Hs) as (d & -> & Hc & Hm).
  apply card_own_clean; [done|by rewrite Hm|]. eapply image_map_truthy, He.
Qed.

(** The cards of the keys that [dataFilter] returns, on the data of
    hazard-free listings. *)
Lemma shown_cards_spec pngLinks svgLinks q :
  hazard_free (parseSoup pngLinks) → hazard_free (parseSoup svgLinks) →
  let data :=
    (getImageData pristine (Fulfilled pngLinks) (Fulfilled svgLinks)).1 in
  let m := image_map (parseSoup pngLinks) (parseSoup svgLinks) in
  let cards := card data <$> dataFilter (Succeeded data) q in
  card_key <$> cards = subsequence_filter (own_keys data) q
  ∧ Forall (λ c, ∃ e, m !! card_key c = Some e
                      ∧ c = spec_card (card_key c) e) cards.
Proof.
  intros Hp Hs. cbv zeta.
  pose proof (λ key e, card_getImageData _ _ key e Hp Hs) as Hcard.
  destruct (getImageData_refines_clean _ _ Hp Hs) as (d & Hd & Hc & Hm).
  rewrite Hd in Hcard |- *. cbn [fst] in *.
  rewrite dataFilter_clean_filter by done.
  split; [by rewrite card_keys|].
  apply Forall_fmap, Forall_forall.
  intros key [_ Hkey%own_keys_elem_of]%list_elem_of_filter. simpl.
  apply alist_get_is_Some in Hkey as [e He]. exists e. rewrite <-Hm.
  split; [done|]. apply Hcard. by rewrite <-Hm.
Qed.

Lemma spec_card_enabled key e f :
  disabled (spec_card key e) f = false →
  is_Some match f with FPng => png e | FSvg => svg e end.
Proof.
  destruct f; simpl; rewrite negb_false_iff, bool_decide_eq_true; done.
Qed.

(** An enabled button of the card of a bound key stands for a listed
    file. *)
Lemma spec_card_enabled_listed pngLinks svgLinks key e f :
  image_map (parseSoup pngLinks) (parseSoup svgLinks) !! key = Some e →
  disabled (spec_card key e) f = false →
  ∃ item ext,
    item ∈ parseSoup (match f with FPng => pngLinks | FSvg => svgLinks end)
    ∧ name item = key ++ ext
    ∧ ext =ᵢ (js "." ++ ext_of f).
Proof.
  intros He [u Hu]%spec_card_enabled.
  destruct (image_map_listed _ _ _ _ He) as [Hpng Hsvg].
  destruct f;
    [destruct (Hpng u Hu) as (item & ? & Hre & <- & _);
     destruct (name_key_of (js ".png") item eq_refl Hre) as (ext & ? & ?)
    |destruct (Hsvg u Hu) as (item & ? & Hre & <- & _);
     destruct (name_key_of (js ".svg") item eq_refl Hre) as (ext & ? & ?)];
    by exists item, ext.
Qed.

End grid.

(** ** The page over time *)

Section page_over_time.
Context (lower : JsString → JsString).
Implicit Types (st : HomePage).

Lemma tick_query st : query (tick lower st) = query st.
Proof. unfold tick. by destruct (timeout st) as [[|[|?]]|]. Qed.

Lemma onChange_query st v : query (onChange st v) = query st.
Proof. unfold onChange. by case_decide. Qed.

Lemma page_reachable_query_inv st :
  page_reachable lower st → query_inv (query st).
Proof.
  induction 1; rewrite ?tick_query, ?onChange_query; simpl;
    auto using getImageData_wf_store, getImageData_own_truthy.
Qed.

Lemma page_reachable_reachable st :
  page_reachable lower st → reachable lower st.
Proof.
  induction 1 as [|st v _ IH|st _ IH|st realm pngRes svgRes _ IH];
    [constructor|apply (reachable_step _ _ (Change v) IH)
    |apply (reachable_step _ _ Tick IH)
    |apply (reachable_step _ _ (Settle _) IH)].
Qed.

(** The keys of the grid are pairwise distinct. *)
Lemma page_reachable_shown_NoDup st :
  page_reachable lower st → NoDup (shown st).
Proof.
  intros Hq%page_reachable_query_inv. unfold shown.
  destruct (query st) as [| |data]; [apply NoDup_nil_2..|].
  apply dataFilter_NoDup, Hq.
Qed.

End page_over_time.

(** ** Theorems *)

Section view_theorems.
Implicit Types (pngLinks svgLinks : list Anchor) (key : JsString).
Implicit Types (e : Entry) (f : Field) (st : HomePage).

(** C5: the grid, end to end: when the query has succeeded with the data
    that [getImageData] builds from hazard-free listings, the page
    renders the grid, the keys of its cards are the keys of the data of
    which the search string is a subsequence, in the order of
    [Object.keys], and each card is the one that the abstract mapping
    prescribes for its key. *)
Theorem render_grid_spec pngLinks svgLinks st isFetching :
  hazard_free (parseSoup pngLinks) → hazard_free (parseSoup svgLinks) →
  let data :=
    (getImageData pristine (Fulfilled pngLinks) (Fulfilled svgLinks)).1 in
  let m := image_map (parseSoup pngLinks) (parseSoup svgLinks) in
  query st = Succeeded data →
  ∃ cards, render st isFetching = Grid cards
    ∧ card_key <$> cards = subsequence_filter (own_keys data) (searchString st)
    ∧ Forall (λ c, ∃ e, m !! card_key c = Some e
                        ∧ c = spec_card (card_key c) e) cards.
Proof.
  intros Hp Hs data m Hq. unfold render, shown. rewrite Hq.
  cbn [isLoading]. eexists. split; [done|]. by apply shown_cards_spec.
Qed.

(** The card of a key, end to end on hazard-free listings: a button is
    enabled exactly when the mapping has a URL of that kind for the key,
    and the image is the PNG when there is one and the SVG otherwise. *)
Theorem card_spec pngLinks svgLinks key e :
  hazard_free (parseSoup pngLinks) → hazard_free (parseSoup svgLinks) →
  image_map (parseSoup pngLinks) (parseSoup svgLinks) !! key = Some e →
  card (getImageData pristine (Fulfilled pngLinks) (Fulfilled svgLinks)).1 key
  = {| card_key := key;
       png_disabled := negb (bool_decide (is_Some (png e)));
       svg_disabled := negb (bool_decide (is_Some (svg e)));
       card_src := if png e is Some u then Some u else svg e |}.
Proof. apply card_getImageData. Qed.

(** The page is blank, with neither the loading box nor an error nor
    the grid, exactly when the query has no result and is not fetching
    (the browser is offline when the page loads). *)
Theorem render_blank_iff st isFetching :
  render st isFetching = Blank ↔ query st = Pending ∧ isFetching = false.
Proof.
  unfold render. destruct (query st), isFetching; simpl; split;
    (done || by intros [? ?]).
Qed.

(** A click on an enabled button of a card copies a listed file name,
    up to the letter case of the extension: the listing of that kind has
    an item whose name is the key followed by an extension that matches
    ["." ++ ext] case-insensitively, and the clipboard receives
    [`${key}.${ext}`]. *)
Theorem click_copies_listed_name pngLinks svgLinks key e f cst :
  hazard_free (parseSoup pngLinks) → hazard_free (parseSoup svgLinks) →
  image_map (parseSoup pngLinks) (parseSoup svgLinks) !! key = Some e →
  let c := card (getImageData pristine (Fulfilled pngLinks)
                   (Fulfilled svgLinks)).1 key in
  disabled c f = false →
  clipboard (click c f cst Written) = Some (clipboard_text key (ext_of f))
  ∧ ∃ item ext,
      item ∈ parseSoup (match f with FPng => pngLinks | FSvg => svgLinks end)
      ∧ name item = key ++ ext
      ∧ ext =ᵢ (js "." ++ ext_of f).
Proof.
  intros Hp Hs He c. subst c. rewrite (card_getImageData _ _ _ e) by done.
  intros Hen. split; [unfold click; by rewrite Hen|].
  by eapply spec_card_enabled_listed.
Qed.

(** In every state that the page reaches, whatever the listings
    contain, the card of an own key of the data has an image and at least
    one enabled button. *)
Theorem card_own_has_image lower st data key :
  page_reachable lower st → query st = Succeeded data →
  key ∈ own_keys data →
  is_Some (card_src (card data key))
  ∧ (png_disabled (card data key) = false
     ∨ svg_disabled (card data key) = false).
Proof.
  intros Hq%page_reachable_query_inv Hst Hkey. rewrite Hst in Hq.
  destruct Hq as [[_ Hne _ _] Htr].
  apply own_keys_elem_of, alist_get_is_Some in Hkey as [e He].
  pose proof (alist_get_elem_of _ _ _ He) as Hin.
  apply (list_elem_of_fmap_2 snd) in Hin.
  rewrite Forall_forall in Hne. unfold own_truthy in Htr.
  rewrite Forall_forall in Htr. apply (card_own _ _ e); auto.
Qed.

(** The error box is never rendered: [getImageData] catches the
    failure of either request and every exception of its passes, so in
    the states that the page reaches the query has not failed. *)
Theorem render_never_error lower st isFetching message :
  page_reachable lower st → render st isFetching ≠ ErrorBox message.
Proof.
  intros Hq%page_reachable_query_inv. unfold render.
  by destruct (query st), isFetching.
Qed.

(** The React keys of the grid are pairwise distinct in every state
    that the page reaches, whatever the listings contain. *)
Theorem render_keys_NoDup lower st isFetching cards :
  page_reachable lower st → render st isFetching = Grid cards →
  NoDup (card_key <$> cards).
Proof.
  intros Hk%page_reachable_shown_NoDup. unfold render.
  destruct (isLoading _ _); [done|]. revert Hk. unfold shown.
  destruct (query st); try done. intros Hk [= <-]. by rewrite card_keys.
Qed.

(** The card of an inherited key, in general: a key that [for ... in]
    visits and that is not an own key of the data gets a card whose PNG
    button is disabled and whose image and SVG button follow the property
    [svg] of [Object.prototype]. *)
Theorem card_inherited d key :
  key ∈ for_in_keys d → key ∉ own_keys d →
  card d key = {| card_key := key; png_disabled := true;
                  svg_disabled := negb (to_boolean (polluted_svg d));
                  card_src := polluted_svg d |}.
Proof.
  intros Hin Hown. rewrite own_keys_elem_of, <-alist_get_is_Some in Hown.
  unfold card, logical_or, optional_get.
  destruct (for_in_keys_resolve _ _ Hin) as [[e He]|[[u ->]|[u ->]]];
    [|done..].
  destruct Hown. apply resolve_ROwn_inv in He. by eexists.
Qed.

Lemma card_inherited_witness :
  card {| own := []; proto := None; polluted_svg := Some (js "u");
          method_svg := [] |} (js "svg")
  = {| card_key := js "svg"; png_disabled := true;
       svg_disabled := negb (to_boolean (Some (js "u")));
       card_src := Some (js "u") |}.
Proof.
  apply (card_inherited {| own := []; proto := None;
                           polluted_svg := Some (js "u");
                           method_svg := [] |} (js "svg"));
    [vm_compute; apply list_elem_of_here|apply not_elem_of_nil].
Defined.

(** When [Object.prototype] has been polluted through the listing, a
    search for ["s"] shows a card for the inherited key ["svg"], which is
    no icon: its image is the polluting URL and its SVG button copies
    ["svg.svg"]. *)
Theorem render_polluted_card :
  let data := (getImageData pristine (Fulfilled [])
                 (Fulfilled [mkAnchor (js "__proto__.svg") (Some (js "/x"))])).1
  in render {| inputValue := js "s"; searchString := js "s"; timeout := None;
               query := Succeeded data |} false
     = Grid [{| card_key := js "svg"; png_disabled := true;
                svg_disabled := false;
                card_src := Some (js "https://cdn.jsdelivr.net/x") |}].
Proof. vm_compute. reflexivity. Qed.

End view_theorems.

Lemma demo_hazard_free :
  hazard_free (parseSoup demo_png) ∧ hazard_free (parseSoup demo_svg).
Proof. split; apply (bool_decide_unpack _); vm_compute; exact I. Defined.

Lemma demo_plex_bound :
  image_map (parseSoup demo_png) (parseSoup demo_svg) !! js "plex"
  = Some demo_plex.
Proof. vm_compute. reflexivity. Defined.

Lemma render_grid_spec_witness :
  ∃ cards,
    render {| inputValue := js "PX"; searchString := js "px"; timeout := None;
              query := Succeeded (getImageData pristine (Fulfilled demo_png)
                                    (Fulfilled demo_svg)).1 |} false
    = Grid cards
    ∧ card_key <$> cards
      = subsequence_filter
          (own_keys (getImageData pristine (Fulfilled demo_png)
                       (Fulfilled demo_svg)).1) (js "px")
    ∧ Forall (λ c, ∃ e,
        image_map (parseSoup demo_png) (parseSoup demo_svg) !! card_key c
        = Some e ∧ c = spec_card (card_key c) e) cards.
Proof.
  exact (render_grid_spec demo_png demo_svg
    {| inputValue := js "PX"; searchString := js "px"; timeout := None;
       query := Succeeded _ |} false
    (proj1 demo_hazard_free) (proj2 demo_hazard_free) eq_refl).
Defined.

Lemma card_spec_witness :
  card (getImageData pristine (Fulfilled demo_png) (Fulfilled demo_svg)).1
    (js "plex")
  = {| card_key := js "plex";
       png_disabled := negb (bool_decide (is_Some (png demo_plex)));
       svg_disabled := negb (bool_decide (is_Some (svg demo_plex)));
       card_src := if png demo_plex is Some u then Some u
                   else svg demo_plex |}.
Proof.
  exact (card_spec demo_png demo_svg (js "plex") demo_plex
    (proj1 demo_hazard_free) (proj2 demo_hazard_free) demo_plex_bound).
Defined.

Lemma demo_plex_enabled :
  disabled (card (getImageData pristine (Fulfilled demo_png)
                    (Fulfilled demo_svg)).1 (js "plex")) FPng = false.
Proof. vm_compute. reflexivity. Defined.

Lemma click_copies_listed_name_witness :
  clipboard (click (card (getImageData pristine (Fulfilled demo_png)
                            (Fulfilled demo_svg)).1 (js "plex"))
               FPng (rendered (js "PNG")) Written)
  = Some (clipboard_text (js "plex") (ext_of FPng))
  ∧ ∃ item ext,
      item ∈ parseSoup demo_png ∧ name item = js "plex" ++ ext
      ∧ ext =ᵢ (js "." ++ ext_of FPng).
Proof.
  exact (click_copies_listed_name demo_png demo_svg (js "plex") demo_plex
    FPng (rendered (js "PNG"))
    (proj1 demo_hazard_free) (proj2 demo_hazard_free) demo_plex_bound
    demo_plex_enabled).
Defined.

Lemma demo_page_reachable :
  page_reachable toLowerCase
    (onChange
       (settle mounted (Succeeded (getImageData pristine (Fulfilled demo_png)
                                     (RejectedWith (js "Network Error"))).1))
       (js "p")).
Proof. repeat constructor. Defined.

Lemma render_never_error_witness :
  render (onChange
            (settle mounted
               (Succeeded (getImageData pristine (Fulfilled demo_png)
                             (RejectedWith (js "Network Error"))).1))
            (js "p")) false
  ≠ ErrorBox (js "Network Error").
Proof. exact (render_never_error _ _ _ _ demo_page_reachable). Defined.

Lemma render_keys_NoDup_witness :
  NoDup (card_key <$> [spec_card (js "plex")
    {| png := Some (js "https://cdn.jsdelivr.net/png/plex.PNG");
       svg := None |}]).
Proof.
  apply (render_keys_NoDup toLowerCase _ false _ demo_page_reachable).
  vm_compute. reflexivity.
Defined.

Lemma card_own_has_image_witness :
  is_Some (card_src (card (getImageData pristine (Fulfilled demo_png)
                             (RejectedWith (js "Network Error"))).1
                       (js "plex")))
  ∧ (png_disabled (card (getImageData pristine (Fulfilled demo_png)
                           (RejectedWith (js "Network Error"))).1
                     (js "plex")) = false
     ∨ svg_disabled (card (getImageData pristine (Fulfilled demo_png)
                             (RejectedWith (js "Network Error"))).1
                       (js "plex")) = false).
Proof.
  apply (card_own_has_image toLowerCase _ _ _ demo_page_reachable).
  - vm_compute. reflexivity.
  - vm_compute. apply list_elem_of_here.
Defined.
