(* ===== verification/Dom.v ===== *)
(** * The element tree of the page ([src/src/pages/index.tsx] 67-170)

    The value that [HomePage] returns: the tree of React elements written
    in JSX, element by element, with the props of the source in the order
    of the source.  A prop is a name and a value; the two event handlers
    of the page are values of their own, [VOnChange] for the arrow
    function of lines 110-112 and [VOnClick name ext] for
    [copyHandler(name, ext)].  The child [false] that [isSuccess && ...]
    leaves when the query has no result is [RFalse].  The text of an
    element is split as JSX splits it: lines are trimmed and joined by one
    space, [{' '}] is a text of its own.

    [inter.className] (line 9) is generated by [next/font]; it is a
    variable of the section.

    On this tree [check] is the type discipline that React and HTML put on
    an element tree (content models, void elements, interactive content,
    the types of the props, the keys of siblings); [view_of] reads back
    the abstract view of [View]; [fire_click] and [fire_change] dispatch
    an event on an element to the handler in its props. *)

From S2P Require Import Prelude JsString Matcher JsObject ImageData Page Copy.
From S2P Require Import View.
From stdpp Require Import strings.

(** ** The tree *)

(** The element types of lines 68-168: the fragment, the components
    [Head], [IconPhotoSearch] and [IconHelpTriangle], and the HTML
    elements. *)
Inductive Tag : Type :=
  | Fragment | Head | IconPhotoSearch | IconHelpTriangle
  | tag_title | tag_main | tag_div | tag_h3 | tag_a | tag_p | tag_em
  | tag_input | tag_span | tag_button | tag_img.

#[export] Instance Tag_eq_dec : EqDecision Tag.
Proof. solve_decision. Defined.

(** The values of the props. *)
Inductive Value : Type :=
  | VStr (s : JsString)
  | VUndefined
  | VBool (b : bool)
  | VOnChange                          (** lines 110-112 *)
  | VOnClick (name ext : JsString).    (** [copyHandler(name, ext)] *)

#[export] Instance Value_eq_dec : EqDecision Value.
Proof. solve_decision. Defined.

#[local] Unset Elimination Schemes.

Inductive Node : Type :=
  | Text (s : JsString)
  | RFalse
  | Elem (tag : Tag) (props : list (string * Value)) (children : list Node).

#[local] Set Elimination Schemes.

(** Induction on trees: the children of an element satisfy the
    predicate. *)
Section Node_ind.
Context (P : Node → Prop).
Context (HText : ∀ s, P (Text s)) (HRFalse : P RFalse).
Context (HElem : ∀ t ps cs, Forall P cs → P (Elem t ps cs)).

Fixpoint Node_ind (n : Node) : P n :=
  match n with
  | Text s => HText s
  | RFalse => HRFalse
  | Elem t ps cs =>
      HElem t ps cs
        ((fix go cs : Forall P cs :=
            match cs with
            | [] => Forall_nil_2 P
            | c :: cs => Forall_cons_2 P c cs (Node_ind c) (go cs)
            end) cs)
  end.

End Node_ind.

Definition prop (name : string) (v : Value) : string * Value := (name, v).

(** A prop given as a string literal. *)
Definition str (name s : string) : string * Value := (name, VStr (js s)).

(** A string or [undefined] as a value. *)
Definition of_option (v : option JsString) : Value :=
  match v with Some s => VStr s | None => VUndefined end.

(** ** The tree of [HomePage] *)

(** Lines 69-71. *)
Definition head_node : Node :=
  Elem Head [] [Elem tag_title [] [Text (js "Dashboard Icon Browser")]].

(** Lines 75-97. *)
Definition header_node : Node :=
  Elem tag_div [str "className" "self-start"]
    [Elem tag_div []
       [Elem tag_h3
          [str "className"
             "inline-block text-base font-semibold text-gray-900"]
          [Text (js "Dashboard Icon Browser")];
        Elem tag_a
          [str "href" "https://github.com/let-lc/dashboard-icons-browser";
           str "rel" "noreferrer noopener";
           str "className" "ml-2 inline-block rounded bg-gray-200 px-1 font-mono text-sm hover:underline"]
          [Text (js "[GitHub]")]];
     Elem tag_p [str "className" "max-w-2xl text-sm text-gray-500"]
       [Text (js "Simple site for searching icon filename from the");
        Text (js " ");
        Elem tag_a
          [str "href" "https://github.com/walkxcode/dashboard-icons";
           str "rel" "noreferrer noopener";
           str "className"
             "font-mono text-black underline hover:text-blue-500"]
          [Text (js "dashboard-icons")];
        Text (js " ");
        Text (js "project by ");
        Elem tag_em [] [Text (js "Bjorn Lammers")];
        Text (js ".")]].

(** Lines 104-113: the input is controlled by [inputValue]. *)
Definition input_node (inputValue : JsString) : Node :=
  Elem tag_input
    [prop "autoFocus" (VBool true);
     str "type" "text";
     str "className" "block w-full rounded-md border-0 py-1.5 pl-10 text-gray-900 ring-1 ring-inset ring-gray-300 placeholder:text-gray-400 focus:ring-2 focus:ring-inset focus:ring-blue-600 sm:text-sm sm:leading-6";
     str "placeholder" "Search dashboard icons...";
     prop "value" (VStr inputValue);
     prop "onChange" VOnChange]
    [].

(** Lines 99-122. *)
Definition search_node (inputValue : JsString) : Node :=
  Elem tag_div [str "className" "mt-2 flex w-full gap-2"]
    [Elem tag_div [str "className" "relative w-full rounded-md shadow-sm"]
       [Elem tag_div
          [str "className" "pointer-events-none absolute inset-y-0 left-0 flex items-center pl-3"]
          [Elem IconPhotoSearch
             [str "className" "h-5 w-5 text-gray-400";
              str "aria-hidden" "true"] []];
        input_node inputValue];
     Elem tag_div
       [str "className" "flex items-center whitespace-nowrap rounded border bg-gray-50 p-2 text-xs gap-1"]
       [Elem IconHelpTriangle [str "className" "w-4 h-4 text-blue-500"] [];
        Elem tag_div []
          [Text (js "Click ");
           Elem tag_span
             [str "className" "mx-1 rounded border bg-white px-1"]
             [Text (js "button")];
           Text (js " above the image to copy the file name.")]]].

(** Lines 125-127. *)
Definition loading_node : Node :=
  Elem tag_div
    [str "className" "animate-pulse select-none rounded-md bg-gray-200 px-12 py-2"]
    [Elem tag_p [str "className" "text-sm font-medium text-gray-800"]
       [Text (js "Loading...")]].

(** Lines 129-131, with [message] for [error.message]. *)
Definition error_node (message : JsString) : Node :=
  Elem tag_div
    [str "className" "animate-pulse select-none rounded-md bg-red-200 px-12 py-2"]
    [Elem tag_p [str "className" "text-sm font-medium text-red-800"]
       [Text message]].

(** Lines 136-162: the element that the callback of [map] returns. *)
Definition card_node (data : Store) (imgKey : JsString) : Node :=
  Elem tag_div
    [prop "key" (VStr imgKey);
     str "className" "w-30 rounded border bg-white p-2 hover:bg-gray-50/50"]
    [Elem tag_div [str "className" "mb-2 grid grid-cols-1 gap-1 text-xs"]
       [Elem tag_button
          [prop "disabled"
             (VBool (negb (to_boolean (optional_get data imgKey FPng))));
           prop "onClick" (VOnClick imgKey (js "png"));
           str "className" "rounded border bg-white transition-colors hover:bg-gray-100 disabled:cursor-not-allowed disabled:bg-gray-200 disabled:opacity-50"]
          [Text (js "PNG")];
        Elem tag_button
          [prop "disabled"
             (VBool (negb (to_boolean (optional_get data imgKey FSvg))));
           prop "onClick" (VOnClick imgKey (js "svg"));
           str "className" "rounded border bg-white transition-colors hover:bg-gray-100 disabled:cursor-not-allowed disabled:bg-gray-200 disabled:opacity-50"]
          [Text (js "SVG")]];
     Elem tag_div
       [str "className" "mx-auto w-fit rounded bg-gray-200/75 p-2 transition-colors hover:bg-gray-300"]
       [Elem tag_img
          [prop "src" (of_option (logical_or (optional_get data imgKey FPng)
                                             (optional_get data imgKey FSvg)));
           prop "alt" (VStr imgKey);
           str "className" "h-16 w-16 object-contain";
           str "loading" "lazy"]
          []];
     Elem tag_p [str "className" "w-20 break-words text-center text-xs"]
       [Text imgKey]].

(** Lines 134-164. *)
Definition grid_node (data : Store) (keys : list JsString) : Node :=
  Elem tag_div [str "className" "flex flex-wrap justify-center gap-2"]
    (card_node data <$> keys).

(** Lines 124-166. *)
Definition conditional_node (st : HomePage) (isFetching : bool) : Node :=
  if isLoading (query st) isFetching then loading_node
  else match query st with
       | Errored message => error_node message
       | Succeeded data => grid_node data (shown st)
       | Pending => RFalse
       end.

(** Lines 123-167. *)
Definition results_node (st : HomePage) (isFetching : bool) : Node :=
  Elem tag_div [] [conditional_node st isFetching].

Section HomePage_tree.
Context (inter_className : JsString).

(** Lines 67-170. *)
Definition HomePage_tree (st : HomePage) (isFetching : bool) : Node :=
  Elem Fragment []
    [head_node;
     Elem tag_main
       [prop "className"
          (VStr (js "mx-4 flex min-h-screen max-w-screen-xl flex-col items-center gap-2 py-12 xl:mx-auto "
                 ++ inter_className))]
       [header_node; search_node (inputValue st);
        results_node st isFetching]].

End HomePage_tree.

(** ** Reading the tree *)

Definition tag_of (n : Node) : option Tag :=
  match n with Elem t _ _ => Some t | _ => None end.

Definition props_of (n : Node) : list (string * Value) :=
  match n with Elem _ ps _ => ps | _ => [] end.

Definition children_of (n : Node) : list Node :=
  match n with Elem _ _ cs => cs | _ => [] end.

Definition get_prop (name : string) (n : Node) : option Value :=
  alist_get name (props_of n).

(** The node and the nodes below it, in document order. *)
Fixpoint descendants (n : Node) : list Node :=
  n :: match n with
       | Elem _ _ cs => cs ≫= descendants
       | _ => []
       end.

(** [getElementsByTagName]. *)
Definition by_tag (t : Tag) (n : Node) : list Node :=
  filter (λ m, tag_of m = Some t) (descendants n).

(** [textContent]. *)
Fixpoint text_content (n : Node) : JsString :=
  match n with
  | Text s => s
  | RFalse => []
  | Elem _ _ cs => cs ≫= text_content
  end.

Definition bool_of (v : option Value) : bool :=
  match v with Some (VBool b) => b | _ => false end.

Definition string_of (v : option Value) : option JsString :=
  match v with Some (VStr s) => Some s | _ => None end.

(** The React key of a node. *)
Definition node_key (n : Node) : option JsString :=
  string_of (get_prop "key" n).

(** The event handlers in the tree, in document order. *)
Definition is_handler (v : Value) : bool :=
  match v with VOnChange | VOnClick _ _ => true | _ => false end.

Definition handlers (n : Node) : list Value :=
  n' ← descendants n; filter is_handler (props_of n').*2.

(** ** Events on an element *)

(** A click on an element: a disabled element dispatches none; otherwise
    the handler in [onClick] runs (lines 138-140 and 145-147). *)
Definition fire_click (n : Node) (cst : CopyState) (res : WriteResult)
    : CopyState :=
  if bool_of (get_prop "disabled" n) then cst
  else match get_prop "onClick" n with
       | Some (VOnClick name ext) => copyHandler name ext cst res
       | _ => cst
       end.

(** A change of the value of an element to [value]: the handler in
    [onChange] runs (lines 110-112). *)
Definition fire_change (n : Node) (st : HomePage) (value : JsString)
    : HomePage :=
  match get_prop "onChange" n with
  | Some VOnChange => onChange st value
  | _ => st
  end.

(** ** The abstract view of a tree *)

(** The card of an element of the grid: its key, the [disabled] of its two
    buttons and the [src] of its image. *)
Definition card_of_node (n : Node) : option Card :=
  match node_key n, by_tag tag_button n, by_tag tag_img n with
  | Some k, [b1; b2], [i] =>
      Some {| card_key := k;
              png_disabled := bool_of (get_prop "disabled" b1);
              svg_disabled := bool_of (get_prop "disabled" b2);
              card_src := string_of (get_prop "src" i) |}
  | _, _, _ => None
  end.

(** The box of lines 125-131, from the children of its outer element: one
    paragraph, red for the error and grey for loading. *)
Definition box_of (cs : list Node) : option View :=
  match cs with
  | [Elem tag_p ps [Text s]] =>
      if decide (alist_get "className"%string ps
                 = Some (VStr (js "text-sm font-medium text-red-800")))
      then Some (ErrorBox s) else Some Loading
  | _ => None
  end.

(** The view of the container of lines 123-167: nothing, a box, or the
    grid. *)
Definition view_of (n : Node) : option View :=
  match children_of n with
  | [RFalse] => Some Blank
  | [Elem tag_div _ cs] =>
      match box_of cs with
      | Some v => Some v
      | None => Grid <$> mapM card_of_node cs
      end
  | _ => None
  end.

(** ** Well-formed trees *)

(** What an element may contain. *)
Inductive Model : Type := Flow | Phrasing | TextOnly | Metadata | Nothing.

#[export] Instance Model_eq_dec : EqDecision Model.
Proof. solve_decision. Defined.

(** The content model of an element in a context: the fragment and [a]
    are transparent. *)
Definition content_model (parent : Model) (t : Tag) : Model :=
  match t with
  | Fragment | tag_a => parent
  | Head => Metadata
  | tag_title => TextOnly
  | tag_main | tag_div => Flow
  | tag_h3 | tag_p | tag_em | tag_span | tag_button => Phrasing
  | tag_input | tag_img | IconPhotoSearch | IconHelpTriangle => Nothing
  end.

(** Whether an element may occur where [m] is expected. *)
Definition allowed (m : Model) (t : Tag) : bool :=
  match m, t with
  | (Flow | Phrasing | Metadata), Fragment => true
  | Flow, tag_title => false
  | Flow, _ => true
  | Phrasing, (tag_a | tag_em | tag_input | tag_span | tag_button | tag_img
               | IconPhotoSearch | IconHelpTriangle) => true
  | Metadata, tag_title => true
  | _, _ => false
  end.

Definition interactive (t : Tag) : bool :=
  bool_decide (t ∈ [tag_a; tag_button; tag_input]).

(** The type of a prop, by its name. *)
Definition prop_typed (p : string * Value) : bool :=
  let '(name, v) := p in
  if decide (name ∈ ["className"; "href"; "rel"; "type"; "placeholder";
                     "alt"; "loading"; "aria-hidden"; "key"; "value"]%string)
  then match v with VStr _ => true | _ => false end
  else if decide (name = "src"%string)
  then match v with VStr _ | VUndefined => true | _ => false end
  else if decide (name ∈ ["disabled"; "autoFocus"]%string)
  then match v with VBool _ => true | _ => false end
  else if decide (name = "onChange"%string)
  then match v with VOnChange => true | _ => false end
  else if decide (name = "onClick"%string)
  then match v with VOnClick _ _ => true | _ => false end
  else false.

(** The props that an element must have: an image its [alt], a link its
    [href], an input with a [value] its [onChange]. *)
Definition required_props (t : Tag) (ps : list (string * Value)) : bool :=
  match t with
  | tag_img => bool_decide (is_Some (alist_get "alt"%string ps))
  | tag_a => bool_decide (is_Some (alist_get "href"%string ps))
  | tag_input =>
      bool_decide (is_Some (alist_get "value"%string ps)
                   → is_Some (alist_get "onChange"%string ps))
  | _ => true
  end.

(** The checks of an element itself, its children aside. *)
Definition node_ok (m : Model) (inside : bool) (t : Tag)
    (ps : list (string * Value)) : bool :=
  allowed m t && negb (inside && interactive t)
  && forallb prop_typed ps && bool_decide (NoDup ps.*1)
  && required_props t ps.

(** [check m inside n]: the node [n] may stand where [m] is expected,
    [inside] telling whether it is below a link or a button. *)
Fixpoint check (m : Model) (inside : bool) (n : Node) : bool :=
  match n with
  | Text _ => bool_decide (m ∈ [Flow; Phrasing; TextOnly])
  | RFalse => bool_decide (m ≠ Nothing)
  | Elem t ps cs =>
      node_ok m inside t ps
      && bool_decide (NoDup (omap node_key cs))
      && match content_model m t with
         | Nothing => bool_decide (cs = [])
         | m' => forallb (check m' (inside || interactive t)) cs
         end
  end.

Definition wf_node (n : Node) : Prop := check Flow false n = true.

(** The handlers of a card, lines 140 and 147. *)
Definition card_handlers (imgKey : JsString) : list Value :=
  [VOnClick imgKey (js "png"); VOnClick imgKey (js "svg")].

(** The button of a card, lines 138-144 and 145-151. *)
Definition button_node (data : Store) (imgKey : JsString) (f : Field)
    : Node :=
  Elem tag_button
    [prop "disabled" (VBool (negb (to_boolean (optional_get data imgKey f))));
     prop "onClick" (VOnClick imgKey (ext_of f));
     str "className" "rounded border bg-white transition-colors hover:bg-gray-100 disabled:cursor-not-allowed disabled:bg-gray-200 disabled:opacity-50"]
    [Text (label_of f)].

(** ** Reading the tree *)

Section reading.
Implicit Types (t : Tag) (ps : list (string * Value)) (cs : list Node).
Implicit Types (n : Node) (data : Store) (k : JsString).
Implicit Types (keys : list JsString) (st : HomePage).

Lemma bind_nil_const {A B} (l : list A) : l ≫= (λ _, @nil B) = [].
Proof. by induction l. Qed.

Lemma by_tag_Elem t t' ps cs :
  by_tag t (Elem t' ps cs)
  = (if decide (t' = t) then [Elem t' ps cs] else []) ++ (cs ≫= by_tag t).
Proof.
  unfold by_tag. cbn [descendants]. rewrite filter_cons. cbn [tag_of].
  assert (filter (λ m, tag_of m = Some t) (cs ≫= descendants)
          = cs ≫= by_tag t) as ->.
  { induction cs as [|c cs IH]; [done|]. csimpl. by rewrite filter_app, IH. }
  repeat case_decide; simplify_eq; done.
Qed.

Lemma handlers_Elem t ps cs :
  handlers (Elem t ps cs) = filter is_handler ps.*2 ++ cs ≫= handlers.
Proof.
  unfold handlers. cbn [descendants]. rewrite bind_cons. f_equal.
  induction cs as [|c cs IH]; [done|]. by rewrite !bind_cons, bind_app, IH.
Qed.

Lemma descendants_self n : n ∈ descendants n.
Proof. destruct n; apply list_elem_of_here. Qed.

Lemma descendants_child t ps cs c n :
  c ∈ cs → n ∈ descendants c → n ∈ descendants (Elem t ps cs).
Proof.
  intros Hc Hn. cbn [descendants]. apply list_elem_of_further.
  apply list_elem_of_bind. eauto.
Qed.

(** *** The card *)

Lemma card_node_buttons data k :
  by_tag tag_button (card_node data k)
  = [button_node data k FPng; button_node data k FSvg].
Proof.
  unfold card_node, button_node.
  by destruct (logical_or _ _); repeat (rewrite by_tag_Elem; csimpl).
Qed.

Lemma button_node_click data k f cst res :
  fire_click (button_node data k f) cst res = click (card data k) f cst res.
Proof. unfold fire_click, click, button_node. by destruct f. Qed.

Lemma button_node_disabled data k f :
  bool_of (get_prop "disabled" (button_node data k f))
  = disabled (card data k) f.
Proof. by destruct f. Qed.

Lemma button_node_text data k f :
  text_content (button_node data k f) = label_of f.
Proof. apply app_nil_r. Qed.

(** The buttons of the tree are the two buttons of the cards of the shown
    keys. *)
Lemma elem_of_shown_buttons data (keys : list JsString) n :
  n ∈ keys ≫= (λ k, button_node data k <$> [FPng; FSvg])
  ↔ ∃ k f, k ∈ keys ∧ n = button_node data k f.
Proof.
  rewrite list_elem_of_bind. split.
  - intros (k & (f & -> & _)%list_elem_of_fmap & Hk). eauto.
  - intros (k & f & Hk & ->). exists k. split; [|done].
    apply list_elem_of_fmap_2.
    destruct f; [apply list_elem_of_here|apply list_elem_of_further, list_elem_of_here].
Qed.

Lemma card_of_card_node data k :
  card_of_node (card_node data k) = Some (card data k).
Proof.
  unfold card_of_node, card_node, card.
  generalize (logical_or (optional_get data k FPng) (optional_get data k FSvg)).
  generalize (negb (to_boolean (optional_get data k FPng))).
  generalize (negb (to_boolean (optional_get data k FSvg))).
  intros b2 b1 [src|]; vm_compute; reflexivity.
Qed.

Lemma handlers_card_node data k :
  handlers (card_node data k) = card_handlers k.
Proof. unfold card_node. destruct (logical_or _ _); vm_compute; reflexivity. Qed.

Lemma card_node_no_input data k : by_tag tag_input (card_node data k) = [].
Proof. unfold card_node. destruct (logical_or _ _); vm_compute; reflexivity. Qed.

Lemma card_node_check data k : check Flow false (card_node data k) = true.
Proof. unfold card_node. destruct (logical_or _ _); vm_compute; reflexivity. Qed.

Lemma omap_node_key_cards data keys :
  omap node_key (card_node data <$> keys) = keys.
Proof.
  induction keys as [|k keys IH]; [done|].
  rewrite fmap_cons. cbn [omap list_omap]. by rewrite IH.
Qed.

(** *** The grid and its container *)

Lemma grid_node_by_tag t data keys :
  t ≠ tag_div →
  by_tag t (grid_node data keys) = keys ≫= λ k, by_tag t (card_node data k).
Proof.
  intros Ht. unfold grid_node. rewrite by_tag_Elem, list_fmap_bind.
  by rewrite decide_False by done.
Qed.

Lemma handlers_grid_node data keys :
  handlers (grid_node data keys) = keys ≫= card_handlers.
Proof.
  unfold grid_node. rewrite handlers_Elem, list_fmap_bind. simpl.
  apply list_bind_ext; [|done]. intros k. apply handlers_card_node.
Qed.

Lemma mapM_cards data keys :
  mapM card_of_node (card_node data <$> keys) = Some (card data <$> keys).
Proof.
  apply mapM_Some, Forall2_fmap, Forall_Forall2_diag, Forall_forall.
  intros k _. apply card_of_card_node.
Qed.

Lemma box_of_cards data keys : box_of (card_node data <$> keys) = None.
Proof. by destruct keys as [|k [|k' keys]]. Qed.

(** Each branch of the conditional of lines 124-166 through a function
    [g] on trees that yields nothing on the boxes and on [false]. *)
Lemma conditional_node_cases {A} (g : Node → list A)
    (G : Store → list JsString → list A) st isFetching :
  g loading_node = [] → (∀ m, g (error_node m) = []) → g RFalse = [] →
  (∀ data keys, g (grid_node data keys) = G data keys) →
  g (conditional_node st isFetching)
  = if query st is Succeeded data then G data (shown st) else [].
Proof.
  intros Hl He Hf Hg. unfold conditional_node.
  destruct (query st), isFetching; simpl; auto.
Qed.

Lemma results_node_cases {A} (g : Node → list A)
    (G : Store → list JsString → list A) st isFetching :
  (∀ cs, g (Elem tag_div [] cs) = cs ≫= g) →
  g loading_node = [] → (∀ m, g (error_node m) = []) → g RFalse = [] →
  (∀ data keys, g (grid_node data keys) = G data keys) →
  g (results_node st isFetching)
  = if query st is Succeeded data then G data (shown st) else [].
Proof.
  intros Hdiv ????. unfold results_node. rewrite Hdiv, bind_singleton.
  by apply conditional_node_cases.
Qed.

Lemma shown_bind {A} (h : JsString → list A) st :
  (if query st is Succeeded _ then shown st ≫= h else []) = shown st ≫= h.
Proof. unfold shown. by destruct (query st). Qed.

Lemma handlers_results st isFetching :
  handlers (results_node st isFetching) = shown st ≫= card_handlers.
Proof.
  rewrite <-shown_bind.
  apply (results_node_cases handlers (λ _ keys, keys ≫= card_handlers));
    auto using handlers_grid_node.
  intros cs. by rewrite handlers_Elem.
Qed.

Lemma results_node_by_tag t st isFetching :
  t ≠ tag_div → t ≠ tag_p →
  by_tag t (results_node st isFetching)
  = if query st is Succeeded data
    then shown st ≫= λ k, by_tag t (card_node data k) else [].
Proof.
  intros Hd Hp.
  apply (results_node_cases (by_tag t)
           (λ data keys, keys ≫= λ k, by_tag t (card_node data k)));
    [|unfold loading_node|unfold error_node|done|];
    intros; rewrite ?by_tag_Elem, ?bind_singleton, ?by_tag_Elem;
    rewrite ?decide_False by done; try done.
  by apply grid_node_by_tag.
Qed.

Lemma results_node_no_input st isFetching :
  by_tag tag_input (results_node st isFetching) = [].
Proof.
  rewrite results_node_by_tag by done. destruct (query st); [done..|].
  rewrite <-(bind_nil_const (shown st)).
  apply list_bind_ext; [|done]. intros k. apply card_node_no_input.
Qed.

(** *** The whole tree *)

Lemma HomePage_tree_by_tag cls t st isFetching :
  t ≠ Fragment → t ≠ tag_main →
  by_tag t (HomePage_tree cls st isFetching)
  = by_tag t head_node ++ by_tag t header_node
    ++ by_tag t (search_node (inputValue st))
    ++ by_tag t (results_node st isFetching).
Proof.
  intros ??. unfold HomePage_tree.
  rewrite by_tag_Elem, !bind_cons, by_tag_Elem, !bind_cons.
  rewrite !decide_False by done. by rewrite !app_nil_r.
Qed.

Lemma HomePage_tree_input cls st isFetching :
  by_tag tag_input (HomePage_tree cls st isFetching)
  = [input_node (inputValue st)].
Proof.
  by rewrite HomePage_tree_by_tag, results_node_no_input by done.
Qed.

Lemma HomePage_tree_buttons cls st isFetching :
  by_tag tag_button (HomePage_tree cls st isFetching)
  = if query st is Succeeded data
    then shown st ≫= λ k, button_node data k <$> [FPng; FSvg] else [].
Proof.
  rewrite HomePage_tree_by_tag, results_node_by_tag by done.
  change (by_tag tag_button (search_node (inputValue st))) with (@nil Node).
  destruct (query st); [done..|]. simpl.
  apply list_bind_ext; [|done]. intros k. apply card_node_buttons.
Qed.

Lemma view_of_results st isFetching :
  view_of (results_node st isFetching) = Some (render st isFetching).
Proof.
  unfold results_node, conditional_node, render, view_of. cbn [children_of].
  destruct (isLoading _ _); [vm_compute; reflexivity|].
  destruct (query st) as [|m|data]; [done|..].
  - unfold error_node, box_of, str.
    by rewrite decide_True by (vm_compute; reflexivity).
  - unfold grid_node. by rewrite box_of_cards, mapM_cards.
Qed.

End reading.

(** ** Checking the tree *)

Section checking.
Implicit Types (m : Model) (t : Tag) (ps : list (string * Value)).
Implicit Types (cs : list Node) (n : Node) (st : HomePage).

Lemma forallb_Forall {A} (f : A → bool) (l : list A) :
  Forall (λ x, f x = true) l → forallb f l = true.
Proof. induction 1 as [|x l Hx _ IH]; [done|]. simpl. by rewrite Hx, IH. Qed.

Lemma check_Elem_intro m inside t ps cs :
  node_ok m inside t ps = true →
  NoDup (omap node_key cs) →
  content_model m t ≠ Nothing →
  Forall (λ c, check (content_model m t) (inside || interactive t) c = true)
    cs →
  check m inside (Elem t ps cs) = true.
Proof.
  intros Hok Hkeys Hm Hcs%forallb_Forall. cbn [check].
  rewrite Hok, bool_decide_eq_true_2 by done. by destruct (content_model m t).
Qed.

(** What a checked element says of itself and of its children. *)
Lemma check_Elem_inv m inside t ps cs :
  check m inside (Elem t ps cs) = true →
  node_ok m inside t ps = true
  ∧ ∀ c, c ∈ cs → ∃ m', check m' (inside || interactive t) c = true.
Proof.
  cbn [check]. rewrite !andb_true_iff. intros [[Hok _] Hcs].
  split; [done|]. intros c Hc. destruct (content_model m t);
    [exists Flow|exists Phrasing|exists TextOnly|exists Metadata
    |apply bool_decide_eq_true in Hcs as ->; by apply elem_of_nil in Hc];
    rewrite forallb_forall in Hcs; apply Hcs, list_elem_of_In, Hc.
Qed.

Lemma node_ok_inside m t ps :
  node_ok m true t ps = true → interactive t = false.
Proof.
  unfold node_ok. rewrite !andb_true_iff. by intros [[[[_ ?%negb_true_iff] _] _] _].
Qed.

Lemma grid_node_check data (keys : list JsString) :
  NoDup keys → check Flow false (grid_node data keys) = true.
Proof.
  intros Hk.
  apply check_Elem_intro; [done|by rewrite omap_node_key_cards|done|].
  apply Forall_fmap, Forall_forall. intros k _. apply card_node_check.
Qed.

Lemma results_node_check st isFetching :
  NoDup (shown st) → check Flow false (results_node st isFetching) = true.
Proof.
  intros Hk. apply check_Elem_intro; [done| |done|apply Forall_singleton].
  - unfold conditional_node.
    destruct (isLoading _ _), (query st); vm_compute; constructor.
  - unfold conditional_node. destruct (isLoading _ _); [vm_compute; reflexivity|].
    destruct (query st) eqn:Hq; [done..|]. by apply grid_node_check.
Qed.

(** Below a link or a button a checked tree has no interactive
    element. *)
Lemma check_inside m n :
  check m true n = true →
  ∀ b t, b ∈ descendants n → tag_of b = Some t → interactive t = false.
Proof.
  revert m. induction n as [s| |t ps cs IH] using Node_ind; intros m Hn b tb;
    [by intros ->%list_elem_of_singleton..|].
  apply check_Elem_inv in Hn as [Ht%node_ok_inside Hcs]. cbn [descendants].
  intros [->|(c & Hb & Hc)%list_elem_of_bind]%elem_of_cons;
    [by intros [= <-]|].
  destruct (Hcs c Hc) as [m' Hm']. rewrite Forall_forall in IH.
  eapply (IH c Hc); eauto.
Qed.

End checking.

(** ** Theorems *)

Section tree_theorems.
Context (inter_className : JsString).
Implicit Types (st : HomePage) (data : Store) (k : JsString) (f : Field).
Implicit Types (n a b : Node) (m : Model).

(** What [check] means for interactive content, on any tree: in a checked
    tree no link, button or input lies below a link or a button. *)
Theorem check_no_nested_interactive m inside n a b ta tb :
  check m inside n = true →
  a ∈ descendants n → tag_of a = Some ta → interactive ta = true →
  b ∈ children_of a ≫= descendants → tag_of b = Some tb →
  interactive tb = false.
Proof.
  revert m inside.
  induction n as [s| |t ps cs IH] using Node_ind; intros m inside Hn;
    [by intros ->%list_elem_of_singleton..|].
  apply check_Elem_inv in Hn as [_ Hcs]. rewrite Forall_forall in IH.
  cbn [descendants].
  intros [->|(c & Ha & Hc)%list_elem_of_bind]%elem_of_cons.
  - intros [= <-] Hta (c & Hb & Hc)%list_elem_of_bind.
    destruct (Hcs c Hc) as [m' Hm']. rewrite Hta, orb_true_r in Hm'.
    by eapply check_inside.
  - destruct (Hcs c Hc) as [m' Hm']. by eapply IH.
Qed.

(** C16: the tree of the page is well formed in every state that the page
    reaches, whatever the listings contain: every element stands where
    the content model of its parent admits it, the void elements have no
    children, no link, button or input lies below a link or a button,
    every prop has a value of its type and a name of its own, the image
    of each card has its [alt], the links their [href], the input its
    [onChange], and the keys of sibling elements are pairwise
    distinct. *)
Theorem HomePage_tree_wf lower st isFetching :
  page_reachable lower st →
  wf_node (HomePage_tree inter_className st isFetching).
Proof.
  intros Hk%page_reachable_shown_NoDup.
  apply check_Elem_intro; [done|vm_compute; constructor|done|].
  repeat apply Forall_cons_2; [vm_compute; reflexivity| |done].
  apply check_Elem_intro; [vm_compute; reflexivity|vm_compute; constructor
                          |done|].
  repeat apply Forall_cons_2; [vm_compute; reflexivity..| |done].
  by apply results_node_check.
Qed.

(** The input is controlled by [inputValue]: in every state the tree
    has exactly one input, its value is [inputValue] (what was typed, not
    the lower-cased and debounced [searchString]) and a change of its
    value is the transition [onChange] of the page. *)
Theorem input_controlled st isFetching :
  ∃ n, by_tag tag_input (HomePage_tree inter_className st isFetching) = [n]
     ∧ get_prop "value" n = Some (VStr (inputValue st))
     ∧ ∀ value, fire_change n st value = onChange st value.
Proof.
  exists (input_node (inputValue st)). by rewrite HomePage_tree_input.
Qed.

(** The buttons of a card are the PNG button and the SVG button, in
    this order; each shows its label, and a click on it is the transition
    [click] of the card: nothing when the button is disabled, and
    [copyHandler(imgKey, ext)] otherwise. *)
Theorem card_node_clicks data k :
  by_tag tag_button (card_node data k) = button_node data k <$> [FPng; FSvg]
  ∧ ∀ f cst res,
      text_content (button_node data k f) = label_of f
      ∧ fire_click (button_node data k f) cst res
        = click (card data k) f cst res.
Proof.
  split; [apply card_node_buttons|]. intros f cst res.
  split; [apply button_node_text|apply button_node_click].
Qed.

(** The handlers of the page: in every state the event handlers in
    the tree are, in document order, the [onChange] of the input and, for
    each shown key, [copyHandler(imgKey, 'png')] and
    [copyHandler(imgKey, 'svg')]; nothing else on the page reacts to the
    user. *)
Theorem HomePage_tree_handlers st isFetching :
  handlers (HomePage_tree inter_className st isFetching)
  = VOnChange :: (shown st ≫= card_handlers).
Proof.
  unfold HomePage_tree.
  rewrite handlers_Elem, !bind_cons, handlers_Elem, !bind_cons.
  rewrite handlers_results.
  change (handlers (search_node (inputValue st))) with [VOnChange].
  by rewrite !app_nil_r.
Qed.

End tree_theorems.

Lemma HomePage_tree_wf_witness :
  wf_node (HomePage_tree (js "inter")
    (onChange
       (settle mounted (Succeeded (getImageData pristine (Fulfilled demo_png)
                                     (RejectedWith (js "Network Error"))).1))
       (js "p")) false).
Proof.
  exact (HomePage_tree_wf (js "inter") toLowerCase _ false
           demo_page_reachable).
Defined.

Lemma check_no_nested_interactive_witness :
  interactive tag_span = false.
Proof.
  apply (check_no_nested_interactive Flow false
           (Elem tag_button [] [Elem tag_span [] []])
           (Elem tag_button [] [Elem tag_span [] []])
           (Elem tag_span [] []) tag_button tag_span);
    [vm_compute; reflexivity|apply list_elem_of_here|done..
    |apply list_elem_of_here|done].
Defined.
