(* ===== verification/Observe.v ===== *)
(** * What the page can tell of the data

    The page reads the object [data] in three ways only
    ([src/src/pages/index.tsx]): [Object.keys(data)] (line 30),
    [for (const imgKey in data)] (line 35), and [data[imgKey]?.png],
    [data[imgKey]?.svg] for the keys that it shows (lines 139, 146, 155).
    Two stores that agree on these are the same to the page, whatever
    else they hold: they have the same [view].

    [getImageData] ([src/src/hooks/useImageData.ts] 39-78) can write where
    the page never looks: [data[key].svg = url] on a builtin method of
    [Object.prototype] (line 66, for a file named [toString.svg]).  Stores
    that differ there only are equal [up_to_methods]; every operation of
    the data builder respects this relation, and it is finer than having
    the same view.

    The file gives both relations with their [Proper] instances, lifts
    the second to the result of the query and to the state of the page,
    and proves that the page, its tree and its state machine respect
    it. *)

From S2P Require Import Prelude JsString Matcher JsObject ImageData.
From S2P Require Import Page Copy View Dom.

(** ** Definitions *)

(** Stores that differ at most in what was written on the builtin
    methods. *)
Definition up_to_methods (d1 d2 : Store) : Prop :=
  own d1 = own d2 ∧ proto d1 = proto d2 ∧ polluted_svg d1 = polluted_svg d2.

#[export] Instance up_to_methods_dec : RelDecision up_to_methods.
Proof. intros d1 d2. unfold up_to_methods. apply _. Defined.

(** Realms likewise. *)
Definition realm_up_to_methods (r1 r2 : Realm) : Prop :=
  realm_svg r1 = realm_svg r2.

#[export] Instance realm_up_to_methods_dec : RelDecision realm_up_to_methods.
Proof. intros r1 r2. unfold realm_up_to_methods. apply _. Defined.

(** What the page reads of a store: lines 30, 35, and 139, 146 and 155
    for the keys that line 35 visits. *)
Record same_view (d1 d2 : Store) : Prop := mk_same_view {
  same_own_keys : own_keys d1 = own_keys d2;
  same_for_in_keys : for_in_keys d1 = for_in_keys d2;
  same_fields key f :
    key ∈ for_in_keys d1 → optional_get d1 key f = optional_get d2 key f;
}.

#[export] Instance store_equiv : Equiv Store := same_view.

(** The result of the query, line 14. *)
#[export] Instance query_equiv : Equiv QueryStatus := λ q1 q2,
  match q1, q2 with
  | Succeeded d1, Succeeded d2 => d1 ≡ d2
  | _, _ => q1 = q2
  end.

(** The state of the page, lines 12-14. *)
#[export] Instance page_equiv : Equiv HomePage := λ st1 st2,
  inputValue st1 = inputValue st2 ∧ searchString st1 = searchString st2
  ∧ timeout st1 = timeout st2 ∧ query st1 ≡ query st2.

(** ** Stores up to the builtin methods *)

Section up_to_methods.
Implicit Types (d : Store) (key url : JsString) (e : Entry).

#[export] Instance up_to_methods_equivalence : Equivalence up_to_methods.
Proof.
  unfold up_to_methods. split; repeat intro; intuition congruence.
Qed.

#[export] Instance realm_up_to_methods_equivalence :
  Equivalence realm_up_to_methods.
Proof.
  unfold realm_up_to_methods. split; repeat intro; congruence.
Qed.

#[export] Instance empty_store_proper :
  Proper (realm_up_to_methods ==> up_to_methods) empty_store.
Proof. by intros r1 r2 Hr. Qed.

#[export] Instance resolve_proper :
  Proper (up_to_methods ==> (=) ==> (=)) resolve.
Proof.
  intros d1 d2 (Ho & Hp & Hs) key ? <-. unfold resolve.
  by rewrite Ho, Hp, Hs.
Qed.

#[export] Instance has_property_proper :
  Proper (up_to_methods ==> (=) ==> (=)) has_property.
Proof.
  intros d1 d2 Hd key ? <-. unfold has_property.
  by rewrite (resolve_proper _ _ Hd key key eq_refl).
Qed.

#[export] Instance own_keys_proper : Proper (up_to_methods ==> (=)) own_keys.
Proof. intros d1 d2 (Ho & _). unfold own_keys. by rewrite Ho. Qed.

#[export] Instance for_in_keys_proper :
  Proper (up_to_methods ==> (=)) for_in_keys.
Proof.
  intros d1 d2 Hd. unfold for_in_keys.
  rewrite (own_keys_proper _ _ Hd). destruct Hd as (_ & Hp & Hs).
  by rewrite Hp, Hs.
Qed.

#[export] Instance assign_proper :
  Proper (up_to_methods ==> (=) ==> (=) ==> up_to_methods) assign.
Proof.
  intros d1 d2 (Ho & Hp & Hs) key ? <- e ? <-.
  unfold assign, up_to_methods. case_decide; simpl; by rewrite ?Ho.
Qed.

#[export] Instance assign_svg_proper :
  Proper (up_to_methods ==> (=) ==> (=) ==> sum_relation up_to_methods (=))
    assign_svg.
Proof.
  intros d1 d2 Hd key ? <- url ? <-. unfold assign_svg.
  rewrite (resolve_proper _ _ Hd key key eq_refl).
  destruct Hd as (Ho & Hp & Hs). rewrite Ho, Hp, Hs.
  destruct (resolve d2 key), (proto d2); constructor; by repeat split.
Qed.

#[export] Instance png_item_proper :
  Proper (up_to_methods ==> (=) ==> up_to_methods) png_item.
Proof.
  intros d1 d2 Hd item ? <-. unfold png_item.
  destruct (pngRgx _); [by apply assign_proper|done].
Qed.

#[export] Instance svg_item_proper :
  Proper (up_to_methods ==> (=) ==> sum_relation up_to_methods (=)) svg_item.
Proof.
  intros d1 d2 Hd item ? <-. unfold svg_item.
  rewrite (has_property_proper _ _ Hd _ _ eq_refl).
  destruct (svgRgx _); [|by constructor].
  destruct (has_property _ _); [by apply assign_svg_proper|].
  constructor. by apply assign_proper.
Qed.

#[export] Instance forEach_throwing_proper {A}
    (f : Store → A → Store + JsError) :
  Proper (up_to_methods ==> (=) ==> sum_relation up_to_methods (=)) f →
  Proper (up_to_methods ==> (=) ==> prod_relation up_to_methods (=))
    (forEach_throwing f).
Proof.
  intros Hf d1 d2 Hd l ? <-. revert d1 d2 Hd.
  induction l as [|x l IH]; intros d1 d2 Hd; simpl; [by split|].
  destruct (Hf d1 d2 Hd x x eq_refl) as [d1' d2' Hd'|e ? <-];
    [by apply IH|by split].
Qed.

#[export] Instance foldl_png_item_proper :
  Proper (up_to_methods ==> (=) ==> up_to_methods) (foldl png_item).
Proof.
  intros d1 d2 Hd l ? <-. revert d1 d2 Hd.
  induction l as [|x l IH]; intros d1 d2 Hd; simpl; [done|].
  by apply IH, png_item_proper.
Qed.

#[export] Instance png_pass_proper :
  Proper (up_to_methods ==> (=) ==> prod_relation up_to_methods (=)) png_pass.
Proof.
  intros d1 d2 Hd res ? <-. destruct res as [links|m]; simpl; [|by split].
  split; [by apply foldl_png_item_proper|done].
Qed.

#[export] Instance svg_pass_proper :
  Proper (up_to_methods ==> (=) ==> prod_relation up_to_methods (=)) svg_pass.
Proof.
  intros d1 d2 Hd res ? <-. destruct res as [links|m]; simpl; [|by split].
  destruct (forEach_throwing_proper svg_item _ d1 d2 Hd
              (parseSoup links) _ eq_refl) as [Hd' He].
  destruct (forEach_throwing _ d1 _) as [d1' o1],
    (forEach_throwing _ d2 _) as [d2' o2]. simpl in *. subst o2.
  by destruct o1.
Qed.

(** What a call leaves on the builtin methods changes nothing in what
    the next one builds. *)
#[export] Instance getImageData_proper :
  Proper (realm_up_to_methods ==> (=) ==> (=)
          ==> prod_relation up_to_methods (=)) getImageData.
Proof.
  intros r1 r2 Hr pngRes ? <- svgRes ? <-. unfold getImageData.
  destruct (png_pass_proper _ _ (empty_store_proper _ _ Hr) pngRes _ eq_refl)
    as [Hd1 Hl1].
  destruct (png_pass (empty_store r1) _) as [d1 log1],
    (png_pass (empty_store r2) _) as [d2 log2]. simpl in *. subst log2.
  destruct (svg_pass_proper _ _ Hd1 svgRes _ eq_refl) as [Hd2 Hl2].
  destruct (svg_pass d1 _) as [d1' log1'], (svg_pass d2 _) as [d2' log2'].
  simpl in *. by subst log2'.
Qed.

End up_to_methods.

(** ** Stores with the same view *)

Section same_view.
Implicit Types (d : Store) (key : JsString) (q : QueryStatus).
Implicit Types (st : HomePage).

#[export] Instance store_equivalence : Equivalence (≡@{Store}).
Proof.
  split.
  - by intros d.
  - intros d1 d2 [Ho Hf Hg]. split; [done..|].
    intros key f Hkey. symmetry. apply Hg. by rewrite Hf.
  - intros d1 d2 d3 [Ho Hf Hg] [Ho' Hf' Hg']. split; [congruence..|].
    intros key f Hkey. rewrite Hg by done. apply Hg'. by rewrite <-Hf.
Qed.

(** A key that [for ... in] visits is not looked up on a builtin
    method. *)
Lemma optional_get_enumerated d1 d2 key f :
  up_to_methods d1 d2 → key ∈ for_in_keys d1 →
  optional_get d1 key f = optional_get d2 key f.
Proof.
  intros Hd Hkey. unfold optional_get.
  rewrite <-(resolve_proper _ _ Hd key key eq_refl).
  destruct Hd as (_ & Hp & Hs). unfold entry_get, object_prototype_get.
  destruct (for_in_keys_resolve d1 key Hkey) as [[e ->]|[[u ->]|[u ->]]];
    by rewrite Hs.
Qed.

#[export] Instance up_to_methods_same_view :
  subrelation up_to_methods (≡@{Store}).
Proof.
  intros d1 d2 Hd. split.
  - by apply own_keys_proper.
  - by apply for_in_keys_proper.
  - intros key f. by apply optional_get_enumerated.
Qed.

Lemma own_keys_for_in_keys d key : key ∈ own_keys d → key ∈ for_in_keys d.
Proof. intros Hkey. unfold for_in_keys. apply elem_of_app. by left. Qed.

Lemma dataFilter_for_in_keys d searchString key :
  key ∈ dataFilter (Succeeded d) searchString → key ∈ for_in_keys d.
Proof.
  destruct searchString as [|c s]; [apply own_keys_for_in_keys|].
  intros Hkey. eapply elem_of_sublist; [done|].
  by apply dataFilter_sublist_for_in.
Qed.

#[export] Instance dataFilter_proper : Proper ((≡) ==> (=) ==> (=)) dataFilter.
Proof.
  intros q1 q2 Hq s ? <-.
  destruct q1 as [|m1|d1], q2 as [|m2|d2]; try done.
  destruct Hq as [Ho Hf _]. unfold dataFilter. by rewrite Ho, Hf.
Qed.

Lemma card_same_view d1 d2 key :
  d1 ≡ d2 → key ∈ for_in_keys d1 → card d1 key = card d2 key.
Proof. intros [_ _ Hg] Hkey. unfold card. by rewrite !Hg. Qed.

Lemma card_node_same_view d1 d2 key :
  d1 ≡ d2 → key ∈ for_in_keys d1 → card_node d1 key = card_node d2 key.
Proof. intros [_ _ Hg] Hkey. unfold card_node. by rewrite !Hg. Qed.

#[export] Instance query_equivalence : Equivalence (≡@{QueryStatus}).
Proof.
  split.
  - by intros [|m|d].
  - intros [|m1|d1] [|m2|d2] H; try done.
    change (d1 ≡ d2) in H. change (d2 ≡ d1). by symmetry.
  - intros [|m1|d1] [|m2|d2] [|m3|d3] H1 H2; try done.
    + injection H1 as ->. by injection H2 as ->.
    + change (d1 ≡ d2) in H1. change (d2 ≡ d3) in H2. change (d1 ≡ d3).
      by transitivity d2.
Qed.

#[export] Instance page_equivalence : Equivalence (≡@{HomePage}).
Proof.
  split.
  - by intros st.
  - intros st1 st2 (? & ? & ? & ?). by split_and!.
  - intros st1 st2 st3 (? & ? & ? & ?) (? & ? & ? & ?).
    split_and!; [congruence..|by etransitivity].
Qed.

#[export] Instance Succeeded_proper : Proper ((≡) ==> (≡)) Succeeded.
Proof. by intros d1 d2 Hd. Qed.

#[export] Instance query_proper : Proper ((≡) ==> (≡)) query.
Proof. by intros st1 st2 (_ & _ & _ & Hq). Qed.

#[export] Instance shown_proper : Proper ((≡) ==> (=)) shown.
Proof.
  intros st1 st2 (_ & Hs & _ & Hq). unfold shown.
  by rewrite Hs, (dataFilter_proper _ _ Hq _ _ eq_refl).
Qed.

End same_view.

(** ** The page respects the view *)

Section page.
Context (lower : JsString → JsString) (inter_className : JsString).
Implicit Types (d : Store) (key : JsString) (q : QueryStatus).
Implicit Types (st : HomePage) (isFetching : bool).

(** The keys shown with what the page reads under each. *)
Lemma shown_cards_same_view {A} (g : Store → JsString → A) st1 st2 d1 d2 :
  (∀ key, key ∈ for_in_keys d1 → g d1 key = g d2 key) →
  st1 ≡ st2 → query st1 = Succeeded d1 → query st2 = Succeeded d2 →
  g d1 <$> shown st1 = g d2 <$> shown st2.
Proof.
  intros Hg Hst Hq1 Hq2. rewrite <-(shown_proper _ _ Hst).
  apply Forall_fmap_ext_1, Forall_forall. intros key Hkey. apply Hg.
  unfold shown in Hkey. rewrite Hq1 in Hkey.
  by eapply dataFilter_for_in_keys.
Qed.

(** Equivalent states hold results of the same kind. *)
Lemma page_equiv_query st1 st2 :
  st1 ≡ st2 →
  query st1 = query st2
  ∨ ∃ d1 d2, query st1 = Succeeded d1 ∧ query st2 = Succeeded d2 ∧ d1 ≡ d2.
Proof.
  intros (_ & _ & _ & Hq).
  destruct (query st1) as [|m1|d1], (query st2) as [|m2|d2]; try done;
    eauto 6.
Qed.

#[export] Instance render_proper : Proper ((≡) ==> (=) ==> (=)) render.
Proof.
  intros st1 st2 Hst isFetching ? <-. unfold render.
  destruct (page_equiv_query _ _ Hst) as [Hq|(d1 & d2 & Hq1 & Hq2 & Hd)].
  - destruct Hst as (_ & Hs & _). unfold shown. by rewrite Hs, Hq.
  - rewrite Hq1, Hq2. simpl. f_equal.
    apply shown_cards_same_view; [|done..]. intros. by apply card_same_view.
Qed.

#[export] Instance conditional_node_proper :
  Proper ((≡) ==> (=) ==> (=)) conditional_node.
Proof.
  intros st1 st2 Hst isFetching ? <-. unfold conditional_node.
  destruct (page_equiv_query _ _ Hst) as [Hq|(d1 & d2 & Hq1 & Hq2 & Hd)].
  - destruct Hst as (_ & Hs & _). unfold shown. by rewrite Hs, Hq.
  - rewrite Hq1, Hq2. simpl. unfold grid_node. f_equal.
    apply shown_cards_same_view; [|done..].
    intros. by apply card_node_same_view.
Qed.

#[export] Instance HomePage_tree_proper :
  Proper ((≡) ==> (=) ==> (=)) (HomePage_tree inter_className).
Proof.
  intros st1 st2 Hst isFetching ? <-. unfold HomePage_tree, results_node.
  rewrite (conditional_node_proper _ _ Hst isFetching _ eq_refl).
  destruct Hst as (Hi & _). by rewrite Hi.
Qed.

(** The events of the page, with results that have the same view. *)
#[export] Instance event_equiv : Equiv Event := λ ev1 ev2,
  match ev1, ev2 with
  | Settle q1, Settle q2 => q1 ≡ q2
  | _, _ => ev1 = ev2
  end.

#[export] Instance event_reflexive : Reflexive (≡@{Event}).
Proof. intros [v| |q]; [done..|]. by change (q ≡ q). Qed.

#[export] Instance settle_proper : Proper ((≡) ==> (≡) ==> (≡)) settle.
Proof. intros st1 st2 (? & ? & ? & _) q1 q2 Hq. by repeat split. Qed.

#[export] Instance onChange_proper : Proper ((≡) ==> (=) ==> (≡)) onChange.
Proof.
  intros st1 st2 (Hi & Hs & Ht & Hq) v ? <-. unfold onChange.
  rewrite Hi. case_decide; by repeat split.
Qed.

#[export] Instance tick_proper : Proper ((≡) ==> (≡)) (tick lower).
Proof.
  intros st1 st2 (Hi & Hs & Ht & Hq). unfold tick, debounced. rewrite Ht, Hi.
  destruct (timeout st2) as [[|[|n]]|] eqn:Ht2; repeat split; simpl;
    done || congruence.
Qed.

#[export] Instance handle_proper :
  Proper ((≡) ==> (≡) ==> (≡)) (handle lower).
Proof.
  intros st1 st2 Hst [v1| |q1] [v2| |q2] Hev; try done; simpl.
  - injection Hev as ->. by apply onChange_proper.
  - by apply tick_proper.
  - by apply settle_proper.
Qed.

#[export] Instance run_proper :
  Proper ((≡) ==> Forall2 (≡) ==> (≡)) (run lower).
Proof.
  intros st1 st2 Hst evs1 evs2 Hevs. revert st1 st2 Hst.
  induction Hevs as [|ev1 ev2 evs1 evs2 Hev _ IH]; intros st1 st2 Hst;
    [done|].
  rewrite !run_cons. by apply IH, handle_proper.
Qed.

End page.

(** ** Theorems *)

Section observe_theorems.
Context (lower : JsString → JsString) (inter_className : JsString).
Implicit Types (d : Store) (key : JsString) (st : HomePage).
Implicit Types (realm : Realm) (item : ParsedImageData).

(** The builtin methods are not named as the fields of an entry are, nor
    as the accessor of the prototype. *)
Lemma object_prototype_methods_names :
  Forall (λ key, key ≠ js "png" ∧ key ≠ js "svg" ∧ key ≠ proto_name)
    object_prototype_methods.
Proof. by apply (bool_decide_unpack _). Qed.

(** [data[key]] for the name of a builtin method that [data] does not
    have as its own: the method, whatever the prototype of [data] is. *)
Lemma resolve_method d key :
  key ∈ object_prototype_methods → key ∉ (own d).*1 →
  resolve d key = RMethod.
Proof.
  intros Hkey Hown. unfold resolve.
  rewrite (proj2 (alist_get_None _ _) Hown).
  destruct (proj1 (Forall_forall _ _) object_prototype_methods_names key Hkey)
    as (Hpng & Hsvg & Hproto).
  assert (proto d ≫= (λ e, entry_field e key) = None) as ->.
  { destruct (proto d) as [e|]; [|done]. unfold entry_field. simpl.
    by rewrite !decide_False. }
  by rewrite decide_False, decide_True.
Qed.

(** A file named after a builtin method, with no entry of that name: the
    URL is written on the method, and the store is the same up to the
    methods. *)
Theorem svg_item_method_unseen d item :
  svgRgx (name item) = true →
  key_of item ∈ object_prototype_methods → key_of item ∉ (own d).*1 →
  ∃ d', svg_item d item = inl d' ∧ up_to_methods d' d
      ∧ alist_get (key_of item) (method_svg d') = Some (url item).
Proof.
  intros Hrgx Hkey Hown. unfold svg_item, has_property, assign_svg.
  rewrite Hrgx, (resolve_method d _ Hkey Hown).
  rewrite bool_decide_eq_true_2 by done.
  eexists. split_and!; [done|done|]. apply alist_get_set_eq.
Qed.

(** The page is blind to what is written on the builtin methods of
    [Object.prototype]: two calls of [getImageData] on the same responses,
    in realms that differ at most in the properties [svg] that earlier
    calls left on these methods, log the same lines and make the page
    render the same tree, in every state of the page. *)
Theorem page_blind_to_methods realm1 realm2 pngRes svgRes st isFetching :
  realm_svg realm1 = realm_svg realm2 →
  let data1 := getImageData realm1 pngRes svgRes in
  let data2 := getImageData realm2 pngRes svgRes in
  data1.2 = data2.2
  ∧ HomePage_tree inter_className (settle st (Succeeded data1.1)) isFetching
    = HomePage_tree inter_className (settle st (Succeeded data2.1)) isFetching.
Proof.
  intros Hrealm data1 data2.
  destruct (getImageData_proper realm1 realm2 Hrealm pngRes _ eq_refl
              svgRes _ eq_refl) as [Hd Hlog].
  split; [done|]. apply HomePage_tree_proper; [|done].
  apply settle_proper; [done|]. by apply Succeeded_proper, up_to_methods_same_view.
Qed.

(** Pages that hold data with the same view go through the same events
    showing the same tree. *)
Theorem run_same_view st1 st2 (evs : list Event) isFetching :
  st1 ≡ st2 →
  HomePage_tree inter_className (run lower st1 evs) isFetching
  = HomePage_tree inter_className (run lower st2 evs) isFetching.
Proof.
  intros Hst. apply HomePage_tree_proper; [|done].
  apply run_proper; [done|]. induction evs; by constructor.
Qed.

End observe_theorems.

(** A realm in which an earlier listing had a file [toString.svg]. *)
Definition demo_method_realm : Realm :=
  {| realm_svg := None;
     realm_method_svg := [(js "toString", js "https://cdn.jsdelivr.net/t")] |}.

Lemma svg_item_method_unseen_witness :
  ∃ d', svg_item (empty_store pristine)
          (mkParsed (js "toString.svg") (js "u")) = inl d'
      ∧ up_to_methods d' (empty_store pristine)
      ∧ alist_get (js "toString") (method_svg d') = Some (js "u").
Proof.
  apply (svg_item_method_unseen (empty_store pristine)
           (mkParsed (js "toString.svg") (js "u"))).
  - reflexivity.
  - by apply (bool_decide_unpack _).
  - apply not_elem_of_nil.
Defined.

Lemma page_blind_to_methods_witness :
  let data1 := getImageData pristine (Fulfilled demo_png) (Fulfilled demo_svg) in
  let data2 := getImageData demo_method_realm (Fulfilled demo_png)
                 (Fulfilled demo_svg) in
  data1.2 = data2.2
  ∧ HomePage_tree [] (settle mounted (Succeeded data1.1)) false
    = HomePage_tree [] (settle mounted (Succeeded data2.1)) false.
Proof.
  exact (page_blind_to_methods [] pristine demo_method_realm
           (Fulfilled demo_png) (Fulfilled demo_svg) mounted false eq_refl).
Defined.
