(* ===== verification/Query.v ===== *)
(** * The query of the image data ([src/src/hooks/useImageData.ts] 19-20
      and 80-87, [src/src/pages/index.tsx] 14, [src/src/pages/_app.tsx])

    [useImageData] hands [getImageData] to [useQuery] under the key
    [['image-data']], together with the options of its caller; [HomePage]
    passes [{ enabled: true, refetchOnWindowFocus: false }] and reads
    [data], [error] and the flags of the result; [App] creates the client
    whose cache holds the query and hydrates it from the props of the
    page.

    The behaviour of the query is the library's (TanStack Query 5); it is
    modelled from its documentation as a state machine, a [Session]: the
    status of the query, whether its function is running, the count of
    failed attempts, and what the function reads and leaves in the browser
    (whether it is online, the realm, the console).  An event is the
    settling of the function that is running, the window getting the
    focus, or the browser going online or offline.  The delays between
    retries are not modelled: a retry is the next settling.

    The requests are inputs: a [Network] ([Async]) gives the response to
    a URL.  The machine is defined for any query function;
    [getImageData_fn] runs the promise [getImageData_async] of [Async] on
    a new object, and reports a rejection as the error of the query: that
    it never does is a theorem of [Async].

    The page and the session share nothing but the status that line 14
    reads: [page_events] and [query_events] split an interleaving, and
    the run of the two together is the run of each on its own events.
    Sessions are compared by what the page can tell of them
    ([session_equiv], after [Observe]). *)

From S2P Require Import Prelude Promise JsString Matcher JsObject ImageData.
From S2P Require Import Page Copy Async View Dom Observe.
From stdpp Require Import gmap.

(** ** The query function *)

(** How a query function settles. *)
Inductive Settled : Type :=
  | Resolves (data : Store) (log : list LogLine)
  | Rejects (message : JsString).

Definition QueryFn : Type := Realm → Network → Settled.

(** The message of the error that the query reports when its function
    is rejected; the text of a [TypeError] is the engine's. *)
Definition error_message (err : Reason) : JsString :=
  match err with
  | AxiosError m => m
  | Thrown _ => js "TypeError"
  end.

(** Line 85: [queryFn: getImageData].  The library calls the function
    and waits for its promise, which starts from a new object (line 40)
    in the realm as it is. *)
Definition getImageData_fn : QueryFn := λ realm net,
  match getImageData_async net (started realm) with
  | (inl data, w) => Resolves data (console_of w.2)
  | (inr err, _) => Rejects (error_message err)
  end.

(** What the session of the page needs of its query function: that it
    never rejects.  The theorems on failures are proved of any function
    of this class; [Async] discharges it for [getImageData]. *)
Class Resolving (fn : QueryFn) : Prop :=
  resolving realm net : ∃ data log, fn realm net = Resolves data log.

(** What a call leaves on [Object.prototype] for the next one. *)
Definition realm_after (data : Store) : Realm :=
  {| realm_svg := polluted_svg data; realm_method_svg := method_svg data |}.

(** ** The options *)

(** Lines 80-83: the options of [useQuery] without [queryKey] and
    [queryFn]; those that bear on when the function runs.  [None] is an
    absent property. *)
Record UserImageDataOptions : Type := mkOptions {
  enabled : option bool;
  refetchOnWindowFocus : option bool;
  refetchOnReconnect : option bool;
  retry : option nat;
}.

(** The argument of [useQuery]. *)
Record UseQueryOptions : Type := mkUseQuery {
  queryKey : list JsString;
  queryFn : QueryFn;
  rest : UserImageDataOptions;
}.

(** The default of the parameter, line 85: [{}]. *)
Definition no_options : UserImageDataOptions :=
  {| enabled := None; refetchOnWindowFocus := None;
     refetchOnReconnect := None; retry := None |}.

(** Lines 85-87: [{ queryKey: ['image-data'], queryFn: getImageData,
    ...options }]; the type of [options] has neither of the first two
    properties, so the spread overwrites none. *)
Definition useImageData (options : UserImageDataOptions) : UseQueryOptions :=
  {| queryKey := [js "image-data"]; queryFn := getImageData_fn;
     rest := options |}.

(** [src/src/pages/index.tsx], line 14. *)
Definition HomePage_options : UserImageDataOptions :=
  {| enabled := Some true; refetchOnWindowFocus := Some false;
     refetchOnReconnect := None; retry := None |}.

(** The defaults of the library for absent options. *)
Definition is_enabled (o : UseQueryOptions) : bool :=
  default true (enabled (rest o)).

Definition on_focus (o : UseQueryOptions) : bool :=
  default true (refetchOnWindowFocus (rest o)).

Definition on_reconnect (o : UseQueryOptions) : bool :=
  default true (refetchOnReconnect (rest o)).

Definition retries (o : UseQueryOptions) : nat :=
  default 3 (retry (rest o)).

(** ** The session *)

Inductive FetchStatus : Type := Fetching | Paused | Idle.

#[export] Instance FetchStatus_eq_dec : EqDecision FetchStatus.
Proof. solve_decision. Defined.

Record Session : Type := mkSession {
  status : QueryStatus;
  fetchStatus : FetchStatus;
  failureCount : nat;
  isOnline : bool;
  realm : Realm;                  (** [Object.prototype], as left so far *)
  logged : list LogLine;          (** what [console.log] received *)
}.

Inductive QueryEvent : Type :=
  | Settles (net : Network)       (** the running function settles *)
  | Focus                         (** the window gets the focus *)
  | Online
  | Offline.

(** The flags that line 14 reads. *)
Definition isFetching (s : Session) : bool :=
  bool_decide (fetchStatus s = Fetching).

Section session.
Context (o : UseQueryOptions).

(** A fetch starts; it waits while the browser is offline. *)
Definition start_fetch (s : Session) : Session :=
  {| status := status s;
     fetchStatus := if isOnline s then Fetching else Paused;
     failureCount := 0; isOnline := isOnline s; realm := realm s;
     logged := logged s |}.

(** The first render of the component that calls [useQuery], in a page
    that has just loaded. *)
Definition mount (online : bool) : Session :=
  let s := {| status := Pending; fetchStatus := Idle; failureCount := 0;
              isOnline := online; realm := pristine; logged := [] |} in
  if is_enabled o then start_fetch s else s.

(** The function that is running settles: with a result, or with a
    failure that is retried until the attempts are used up. *)
Definition settles (s : Session) (net : Network) : Session :=
  if decide (fetchStatus s = Fetching) then
    match queryFn o (realm s) net with
    | Resolves data log =>
        {| status := Succeeded data; fetchStatus := Idle; failureCount := 0;
           isOnline := isOnline s; realm := realm_after data;
           logged := logged s ++ log |}
    | Rejects message =>
        if decide (failureCount s < retries o) then
          {| status := status s;
             fetchStatus := if isOnline s then Fetching else Paused;
             failureCount := S (failureCount s); isOnline := isOnline s;
             realm := realm s; logged := logged s |}
        else
          {| status := Errored message; fetchStatus := Idle;
             failureCount := S (failureCount s); isOnline := isOnline s;
             realm := realm s; logged := logged s |}
    end
  else s.

(** A refetch of the idle query, when the option [opt] asks for it. *)
Definition refetch (opt : bool) (s : Session) : Session :=
  if is_enabled o && opt && bool_decide (fetchStatus s = Idle)
  then start_fetch s else s.

Definition go_online (s : Session) : Session :=
  let s := {| status := status s; fetchStatus := fetchStatus s;
              failureCount := failureCount s; isOnline := true;
              realm := realm s; logged := logged s |} in
  if decide (fetchStatus s = Paused) then
    {| status := status s; fetchStatus := Fetching;
       failureCount := failureCount s; isOnline := true; realm := realm s;
       logged := logged s |}
  else refetch (on_reconnect o) s.

Definition go_offline (s : Session) : Session :=
  {| status := status s; fetchStatus := fetchStatus s;
     failureCount := failureCount s; isOnline := false; realm := realm s;
     logged := logged s |}.

Definition query_handle (s : Session) (ev : QueryEvent) : Session :=
  match ev with
  | Settles net => settles s net
  | Focus => refetch (on_focus o) s
  | Online => go_online s
  | Offline => go_offline s
  end.

Definition query_run (s : Session) (evs : list QueryEvent) : Session :=
  foldl query_handle s evs.

Inductive query_reachable : Session → Prop :=
  | query_reachable_mount online : query_reachable (mount online)
  | query_reachable_step s ev :
      query_reachable s → query_reachable (query_handle s ev).

(** The invariant of the session. *)
Record session_inv (s : Session) : Prop := mk_session_inv {
  inv_paused : fetchStatus s = Paused → isOnline s = false;
  inv_failures : failureCount s ≤ S (retries o);
  inv_attempts : fetchStatus s ≠ Idle → failureCount s ≤ retries o;
  inv_idle_pending : status s = Pending → fetchStatus s = Idle →
                     is_enabled o = false;
}.

End session.

(** ** The page with its query *)

(** What happens to the page: the user types, a millisecond passes, or
    the query has an event. *)
Inductive AppEvent : Type :=
  | Typed (value : JsString)
  | Millisecond
  | Query (ev : QueryEvent).

Section app.
Context (lower : JsString → JsString).

(** [HomePage] with the session of its query: line 14 reads the status
    of the session at every render. *)
Definition app_mount (online : bool) : HomePage * Session :=
  (mounted, mount (useImageData HomePage_options) online).

Definition app_handle (a : HomePage * Session) (ev : AppEvent)
    : HomePage * Session :=
  let '(st, s) := a in
  match ev with
  | Typed value => (onChange st value, s)
  | Millisecond => (tick lower st, s)
  | Query ev =>
      let s := query_handle (useImageData HomePage_options) s ev in
      (settle st (status s), s)
  end.

Definition app_run (a : HomePage * Session) (evs : list AppEvent)
    : HomePage * Session :=
  foldl app_handle a evs.

Inductive app_reachable : HomePage * Session → Prop :=
  | app_reachable_mount online : app_reachable (app_mount online)
  | app_reachable_step a ev :
      app_reachable a → app_reachable (app_handle a ev).

(** What the page shows. *)
Definition app_render (a : HomePage * Session) : View :=
  render a.1 (isFetching a.2).

End app.

(** The events of an interleaving that are the page's, and those that are
    the query's, each in their order. *)
Definition page_events (evs : list AppEvent) : list Event :=
  omap (λ ev, match ev with
              | Typed value => Some (Change value)
              | Millisecond => Some Tick
              | Query _ => None
              end) evs.

Definition query_events (evs : list AppEvent) : list QueryEvent :=
  omap (λ ev, match ev with Query ev => Some ev | _ => None end) evs.

(** Sessions that the page cannot tell apart: results with the same
    view, in realms that differ at most on the builtin methods. *)
#[export] Instance session_equiv : Equiv Session := λ s1 s2,
  status s1 ≡ status s2 ∧ fetchStatus s1 = fetchStatus s2
  ∧ failureCount s1 = failureCount s2 ∧ isOnline s1 = isOnline s2
  ∧ realm_up_to_methods (realm s1) (realm s2) ∧ logged s1 = logged s2.

(** ** The client of [App] ([src/src/pages/_app.tsx]) *)

(** The cache of a [QueryClient]: the sessions by query key. *)
Abbreviation QueryClient := (gmap (list JsString) Session) (only parsing).

(** [pageProps]: the property that [App] reads. *)
Record PageProps : Type := mkPageProps {
  dehydratedState : option (list (list JsString * Store));
}.

(** A query as [hydrate] puts it into the cache: with its data, idle. *)
Definition hydrated (online : bool) (data : Store) : Session :=
  {| status := Succeeded data; fetchStatus := Idle; failureCount := 0;
     isOnline := online; realm := pristine; logged := [] |}.

(** [HydrationBoundary]: the queries of the state that the cache does not
    have are put into it. *)
Definition hydrate (online : bool) (client : QueryClient)
    (state : option (list (list JsString * Store))) : QueryClient :=
  foldl (λ c kd, if c !! kd.1 is Some _ then c
                 else <[kd.1 := hydrated online kd.2]> c)
        client (default [] state).

(** Lines 7-17.  [queryClient] is the state of [useState]: [None] before
    the first render, whose initializer creates the client; a later
    render keeps it.  The result is the client that the page finds in the
    provider. *)
Definition App (online : bool) (queryClient : option QueryClient)
    (pageProps : PageProps) : QueryClient :=
  let queryClient := default ∅ queryClient in
  hydrate online queryClient (dehydratedState pageProps).

(** [useQuery] in the page, at its first render: the query of the cache
    under the key, refetched on mount as its data is stale at once; a
    new query when the cache has none. *)
Definition useQuery_mount (o : UseQueryOptions) (online : bool)
    (client : QueryClient) : Session :=
  match client !! queryKey o with
  | Some s => refetch o true s
  | None => mount o online
  end.

(** ** The session *)

Section session_lemmas.
Context (o : UseQueryOptions).
Implicit Types (s : Session) (ev : QueryEvent) (evs : list QueryEvent).
Implicit Types (net : Network) (opt : bool).

Lemma start_fetch_inv s : session_inv o (start_fetch s).
Proof.
  unfold start_fetch. split; simpl; [|lia..|]; by destruct (isOnline s).
Qed.

Lemma mount_inv online : session_inv o (mount o online).
Proof.
  unfold mount. destruct (is_enabled o) eqn:He; [apply start_fetch_inv|].
  split; simpl; [done|lia|done|done].
Qed.

Lemma refetch_inv opt s : session_inv o s → session_inv o (refetch o opt s).
Proof.
  unfold refetch. destruct (_ && _); [intros _; apply start_fetch_inv|done].
Qed.

Lemma settles_inv s net : session_inv o s → session_inv o (settles o s net).
Proof.
  intros [Hp Hf Ha Hi]. unfold settles. case_decide as Hs; [|by split].
  assert (failureCount s ≤ retries o) by (apply Ha; congruence).
  destruct (queryFn o _ _); [|case_decide]; split; simpl;
    try done; try lia; by destruct (isOnline s).
Qed.

Lemma go_online_inv s : session_inv o s → session_inv o (go_online o s).
Proof.
  intros [Hp Hf Ha Hi]. unfold go_online. cbn [fetchStatus].
  case_decide as Hs; [|apply refetch_inv; by split].
  split; simpl; [done..|intros _; apply Ha; congruence|done].
Qed.

Lemma query_handle_inv s ev :
  session_inv o s → session_inv o (query_handle o s ev).
Proof.
  destruct ev; simpl;
    auto using settles_inv, refetch_inv, go_online_inv.
  intros [Hp Hf Ha Hi]. by split.
Qed.

Lemma query_reachable_session_inv s : query_reachable o s → session_inv o s.
Proof.
  induction 1; [apply mount_inv|by apply query_handle_inv].
Qed.

Lemma query_run_reachable s evs :
  query_reachable o s → query_reachable o (query_run o s evs).
Proof. apply foldl_preserves. intros. by constructor. Qed.

(** An event changes the status only by the settling of the function. *)
Lemma query_handle_status s ev :
  status (query_handle o s ev) = status s
  ∨ ∃ net, ev = Settles net ∧ fetchStatus s = Fetching
      ∧ match queryFn o (realm s) net with
        | Resolves data _ => status (query_handle o s ev) = Succeeded data
        | Rejects m => status (query_handle o s ev) = Errored m
        end.
Proof.
  destruct ev as [net| | |]; simpl.
  - unfold settles. case_decide; [|by left].
    destruct (queryFn o _ _) eqn:Hq; [|case_decide; [by left|]];
      right; exists net; by rewrite Hq.
  - left. unfold refetch. by destruct (_ && _).
  - left. unfold go_online, refetch. cbn [fetchStatus].
    case_decide; [done|]. by destruct (_ && _).
  - by left.
Qed.

End session_lemmas.

(** ** What [getImageData] leaves in the realm *)

Section pollution.
Implicit Types (d : Store) (item : ParsedImageData) (res : Response).

Lemma assign_polluted d key e : polluted_svg (assign d key e) = polluted_svg d.
Proof. unfold assign. by case_decide. Qed.

Lemma png_item_polluted d item :
  polluted_svg (png_item d item) = polluted_svg d.
Proof. unfold png_item. destruct (pngRgx _); [apply assign_polluted|done]. Qed.

Lemma svg_item_polluted d item d' :
  is_Some (polluted_svg d) → svg_item d item = inl d' →
  is_Some (polluted_svg d').
Proof.
  unfold svg_item, assign_svg. intros Hd.
  destruct (svgRgx _); [|by intros [= <-]].
  destruct (has_property _ _); [|intros [= <-]; by rewrite assign_polluted].
  destruct (resolve _ _); try destruct (proto d); intros [= <-]; done.
Qed.

(** A polluted [Object.prototype] stays polluted through a call. *)
Lemma getImageData_polluted realm pngRes svgRes :
  is_Some (realm_svg realm) →
  is_Some (polluted_svg (getImageData realm pngRes svgRes).1).
Proof.
  intros Hr. rewrite getImageData_fst.
  assert (is_Some (polluted_svg (png_pass (empty_store realm) pngRes).1))
    as Hpng.
  { destruct pngRes as [links|]; simpl; [|done].
    apply (foldl_preserves (λ d, is_Some (polluted_svg d))); [|done].
    intros d item. by rewrite png_item_polluted. }
  destruct svgRes as [links|]; simpl; [|done].
  pose proof (forEach_throwing_preserves (λ d, is_Some (polluted_svg d))
                svg_item (parseSoup links) _ svg_item_polluted Hpng).
  by destruct (forEach_throwing _ _ _) as [? [?|]].
Qed.

End pollution.

(** ** Sessions of a function that never rejects *)

(** The promise of [getImageData] never rejects. *)
#[export] Instance getImageData_fn_Resolving : Resolving getImageData_fn.
Proof.
  intros realm net. unfold getImageData_fn.
  pose proof (getImageData_async_fulfils net (started realm)) as Hf.
  destruct (getImageData_async net (started realm)) as [[data|err] w];
    [by eauto|by destruct Hf].
Qed.

Section resolving.
Context (o : UseQueryOptions) `{!Resolving (queryFn o)}.
Implicit Types (s : Session) (ev : QueryEvent).

(** No attempt has failed, and the query has not. *)
Definition unfailed (s : Session) : Prop :=
  failureCount s = 0 ∧ isError (status s) = false.

Lemma start_fetch_unfailed s : unfailed s → unfailed (start_fetch s).
Proof. by intros [_ ?]. Qed.

Lemma refetch_unfailed opt s : unfailed s → unfailed (refetch o opt s).
Proof. unfold refetch. destruct (_ && _); auto using start_fetch_unfailed. Qed.

Lemma query_handle_unfailed s ev :
  unfailed s → unfailed (query_handle o s ev).
Proof.
  intros Hs. destruct ev as [net| | |]; simpl;
    [|by apply refetch_unfailed| |done].
  - unfold settles. case_decide; [|done].
    by destruct (resolving (realm s) net) as (data & log & ->).
  - unfold go_online. cbn [fetchStatus].
    case_decide; [done|]. by apply refetch_unfailed.
Qed.

Lemma query_reachable_unfailed s : query_reachable o s → unfailed s.
Proof.
  induction 1; [|by apply query_handle_unfailed].
  unfold mount. by destruct (is_enabled o).
Qed.

End resolving.

(** ** Sessions of [useImageData] *)

Section useImageData_lemmas.
Context (options : UserImageDataOptions).
Implicit Types (s : Session) (ev : QueryEvent) (evs : list QueryEvent).

(** What ties the status of a session to its realm. *)
Definition session_data (s : Session) : Prop :=
  failureCount s = 0
  ∧ match status s with
    | Pending => realm s = pristine
    | Errored _ => False
    | Succeeded data =>
        realm s = realm_after data
        ∧ ∃ realm net,
            data = (getImageData realm (net PNG_URL) (net SVG_URL)).1
    end.

Lemma getImageData_fn_Resolves realm net :
  getImageData_fn realm net
  = Resolves (getImageData realm (net PNG_URL) (net SVG_URL)).1
             (getImageData realm (net PNG_URL) (net SVG_URL)).2.
Proof.
  unfold getImageData_fn.
  destruct (getImageData_async_started realm net) as (trace & -> & Hlog & _).
  cbn [snd]. by rewrite Hlog.
Qed.

Lemma start_fetch_session_data s :
  session_data s → session_data (start_fetch s).
Proof. by intros [_ ?]. Qed.

Lemma mount_session_data online :
  session_data (mount (useImageData options) online).
Proof. unfold mount. by destruct (is_enabled _). Qed.

Lemma refetch_session_data opt s :
  session_data s → session_data (refetch (useImageData options) opt s).
Proof.
  unfold refetch. destruct (_ && _); auto using start_fetch_session_data.
Qed.

Lemma query_handle_session_data s ev :
  session_data s → session_data (query_handle (useImageData options) s ev).
Proof.
  intros Hs. destruct ev as [net| | |]; simpl;
    [|by apply refetch_session_data| |done].
  - unfold settles. case_decide; [|done]. cbn [queryFn useImageData].
    rewrite getImageData_fn_Resolves. split; simpl; eauto.
  - unfold go_online. cbn [fetchStatus].
    case_decide; [done|]. by apply refetch_session_data.
Qed.

Lemma query_reachable_session_data s :
  query_reachable (useImageData options) s → session_data s.
Proof.
  induction 1; [apply mount_session_data|by apply query_handle_session_data].
Qed.

Lemma query_handle_polluted s ev :
  is_Some (realm_svg (realm s)) →
  is_Some (realm_svg (realm (query_handle (useImageData options) s ev))).
Proof.
  intros Hs. destruct ev as [net| | |]; simpl; [| | |done].
  - unfold settles. case_decide; [|done]. cbn [queryFn useImageData].
    rewrite getImageData_fn_Resolves. by apply getImageData_polluted.
  - unfold refetch. by destruct (_ && _).
  - unfold go_online, refetch. cbn [fetchStatus].
    case_decide; [done|]. by destruct (_ && _).
Qed.

Lemma query_run_polluted s evs :
  is_Some (realm_svg (realm s)) →
  is_Some (realm_svg (realm (query_run (useImageData options) s evs))).
Proof.
  revert s. induction evs as [|ev evs IH]; intros s Hs; simpl; [done|].
  by apply IH, query_handle_polluted.
Qed.

End useImageData_lemmas.

(** ** The page with its query *)

Section app_lemmas.
Context (lower : JsString → JsString).
Implicit Types (a : HomePage * Session) (ev : AppEvent) (st : HomePage).
Implicit Types (s : Session).

Lemma settle_query st : settle st (query st) = st.
Proof. by destruct st. Qed.

(** What the page and its session have in common. *)
Definition app_inv (a : HomePage * Session) : Prop :=
  page_reachable lower a.1 ∧ query a.1 = status a.2
  ∧ query_reachable (useImageData HomePage_options) a.2.

Lemma app_handle_inv a ev : app_inv a → app_inv (app_handle lower a ev).
Proof.
  destruct a as [st s]. intros (Hst & Hq & Hs).
  unfold app_inv in *. destruct ev as [v| |ev]; cbn [fst snd app_handle] in *.
  - split_and!; [by apply page_change|by rewrite onChange_query|done].
  - split_and!; [by apply page_tick|by rewrite tick_query|done].
  - split_and!; [|done|by constructor].
    destruct (query_handle_status (useImageData HomePage_options) s ev)
      as [->|(net & _ & _ & Hd)]; [by rewrite <-Hq, settle_query|].
    cbn [queryFn useImageData] in Hd.
    rewrite getImageData_fn_Resolves in Hd. rewrite Hd. by apply page_resolved.
Qed.

Lemma app_reachable_inv a : app_reachable lower a → app_inv a.
Proof.
  induction 1 as [online|a ev _ IH]; [|by apply app_handle_inv].
  split_and!; [constructor|done|constructor].
Qed.

Lemma app_run_reachable a evs :
  app_reachable lower a → app_reachable lower (app_run lower a evs).
Proof. apply foldl_preserves. intros. by constructor. Qed.

Lemma app_run_cons a ev evs :
  app_run lower a (ev :: evs) = app_run lower (app_handle lower a ev) evs.
Proof. done. Qed.

Lemma app_run_app a evs1 evs2 :
  app_run lower a (evs1 ++ evs2) = app_run lower (app_run lower a evs1) evs2.
Proof. apply foldl_app. Qed.

(** While the browser has been offline since the mount, nothing happens
    to the session and the page has no result. *)
Lemma app_handle_offline a ev :
  ev ≠ Query Online →
  a.2 = mount (useImageData HomePage_options) false → query a.1 = Pending →
  (app_handle lower a ev).2 = a.2 ∧ query (app_handle lower a ev).1 = Pending.
Proof.
  destruct a as [st s], ev as [v| |[net| | |]]; simpl; intros ? -> Hq;
    by rewrite ?onChange_query, ?tick_query.
Qed.

Lemma app_run_offline a evs :
  Forall (λ ev, ev ≠ Query Online) evs →
  a.2 = mount (useImageData HomePage_options) false → query a.1 = Pending →
  (app_run lower a evs).2 = a.2 ∧ query (app_run lower a evs).1 = Pending.
Proof.
  intros Hevs. revert a.
  induction Hevs as [|ev evs Hev _ IH]; intros a Hs Hq; [done|].
  destruct (app_handle_offline a ev Hev Hs Hq) as [Hs' Hq'].
  cbn [app_run foldl]. rewrite <-Hs'. apply IH; [by rewrite Hs'|done].
Qed.

(** The result of the query, set before or after what the user and the
    timer do. *)
Lemma run_page_events_settle st q evs :
  run lower (settle st q) (page_events evs)
  = settle (run lower st (page_events evs)) q.
Proof.
  revert st. induction evs as [|[v| |ev] evs IH]; intros st; [done|..].
  - change (page_events (Typed v :: evs)) with (Change v :: page_events evs).
    rewrite !run_cons. cbn [handle]. by rewrite onChange_settle.
  - change (page_events (Millisecond :: evs)) with (Tick :: page_events evs).
    rewrite !run_cons. cbn [handle]. by rewrite tick_settle.
  - apply IH.
Qed.

(** The page with its query is the page and the session side by side:
    each runs on its own events, and the page holds the status of the
    session. *)
Lemma app_run_split a evs :
  query a.1 = status a.2 →
  app_run lower a evs
  = (settle (run lower a.1 (page_events evs))
       (status (query_run (useImageData HomePage_options) a.2
                  (query_events evs))),
     query_run (useImageData HomePage_options) a.2 (query_events evs)).
Proof.
  revert a. induction evs as [|ev evs IH]; intros [st s] Hq.
  { simpl in *. by rewrite <-Hq, settle_query. }
  rewrite app_run_cons. destruct ev as [v| |ev]; cbn [app_handle].
  - by rewrite IH by (cbn [fst snd]; by rewrite onChange_query).
  - by rewrite IH by (cbn [fst snd]; by rewrite tick_query).
  - rewrite IH by done. cbn [fst snd].
    change (page_events (Query ev :: evs)) with (page_events evs).
    by rewrite run_page_events_settle, settle_settle.
Qed.

End app_lemmas.

(** ** Sessions that the page cannot tell apart *)

Section session_equiv.
Context (options : UserImageDataOptions).
Implicit Types (s : Session) (ev : QueryEvent).

#[export] Instance session_equivalence : Equivalence (≡@{Session}).
Proof.
  split.
  - intros s. repeat split; reflexivity.
  - intros s1 s2 (? & ? & ? & ? & ? & ?). repeat split; by symmetry.
  - intros s1 s2 s3 (? & ? & ? & ? & ? & ?) (? & ? & ? & ? & ? & ?).
    repeat split; by etransitivity.
Qed.

#[export] Instance start_fetch_proper : Proper ((≡) ==> (≡)) start_fetch.
Proof.
  intros s1 s2 (? & ? & ? & Ho & ? & ?). unfold start_fetch.
  repeat split; simpl; [done|by rewrite Ho|done..].
Qed.

#[export] Instance refetch_proper opt :
  Proper ((≡) ==> (≡)) (refetch (useImageData options) opt).
Proof.
  intros s1 s2 Hs. unfold refetch.
  pose proof Hs as (? & Hf & ?). rewrite Hf.
  destruct (_ && _); [by apply start_fetch_proper|done].
Qed.

(** The settling of the function: [getImageData] respects the realms up
    to the builtin methods. *)
#[export] Instance settles_proper :
  Proper ((≡) ==> (=) ==> (≡)) (settles (useImageData options)).
Proof.
  intros s1 s2 Hs net ? <-. unfold settles.
  pose proof Hs as (? & Hf & ? & ? & Hr & Hl). rewrite Hf.
  case_decide; [|done]. cbn [queryFn useImageData].
  rewrite !getImageData_fn_Resolves.
  destruct (getImageData_proper _ _ Hr (net PNG_URL) _ eq_refl
              (net SVG_URL) _ eq_refl) as [Hd Hlog].
  repeat split; simpl;
    first [done|by apply up_to_methods_same_view
          |by destruct Hd as (? & ? & ?)|by rewrite Hl, Hlog].
Qed.

#[export] Instance query_handle_proper :
  Proper ((≡) ==> (=) ==> (≡)) (query_handle (useImageData options)).
Proof.
  intros s1 s2 Hs ev ? <-. destruct ev as [net| | |]; simpl.
  - by apply settles_proper.
  - by apply refetch_proper.
  - unfold go_online. destruct Hs as (? & Hf & ? & ? & ? & ?).
    cbn [fetchStatus]. rewrite Hf.
    case_decide; [|apply refetch_proper]; repeat split; simpl; done.
  - destruct Hs as (? & ? & ? & ? & ? & ?). by repeat split.
Qed.

End session_equiv.

Section app_equiv.
Context (lower : JsString → JsString).
Implicit Types (s : Session) (a : HomePage * Session).

#[export] Instance isFetching_proper : Proper ((≡) ==> (=)) isFetching.
Proof. intros s1 s2 (_ & Hf & _). unfold isFetching. by rewrite Hf. Qed.

#[export] Instance app_handle_proper :
  Proper ((≡) ==> (=) ==> (≡)) (app_handle lower).
Proof.
  intros [st1 s1] [st2 s2] [Hst Hs] ev ? <-. simpl in Hst, Hs.
  destruct ev as [v| |ev]; cbn [app_handle].
  - split; simpl; [by apply onChange_proper|done].
  - split; simpl; [by apply tick_proper|done].
  - pose proof (query_handle_proper HomePage_options _ _ Hs ev _ eq_refl)
      as Hs'.
    split; [|exact Hs']. apply settle_proper; [done|].
    by destruct Hs' as (? & _).
Qed.

#[export] Instance app_run_proper :
  Proper ((≡) ==> (=) ==> (≡)) (app_run lower).
Proof.
  intros a1 a2 Ha evs ? <-. revert a1 a2 Ha.
  induction evs as [|ev evs IH]; intros a1 a2 Ha; [done|].
  rewrite !app_run_cons. by apply IH, app_handle_proper.
Qed.

End app_equiv.

(** ** The client *)

Section client.
Implicit Types (client : gmap (list JsString) Session).
Implicit Types (key : list JsString) (s : Session).

Lemma hydrate_lookup (online : bool) client state key s :
  client !! key = Some s → hydrate online client state !! key = Some s.
Proof.
  unfold hydrate. revert client.
  induction (default [] state) as [|[k d] l IH]; intros client Hs; [done|].
  apply IH. simpl. destruct (client !! k) eqn:Hk; [done|].
  rewrite lookup_insert_ne; [done|]. by intros ->; simplify_eq.
Qed.

End client.

(** ** Theorems *)

Section query_theorems.
Context (lower : JsString → JsString).
Implicit Types (a : HomePage * Session) (s : Session) (net : Network).
Implicit Types (evs : list AppEvent).

(** C18: the page with its query refines the page: every state that the
    page reaches together with the session of [useImageData] under the
    options of line 14 is a state of [page_reachable], in which the query
    result changes only by [getImageData] resolving; and the result that
    the page holds is the status of the session. *)
Theorem app_refines_page a :
  app_reachable lower a → page_reachable lower a.1 ∧ query a.1 = status a.2.
Proof. intros (? & ? & _)%app_reachable_inv. done. Qed.

(** A query whose function never rejects never fails and never retries,
    under any options. *)
Theorem resolving_never_fails (o : UseQueryOptions) `{!Resolving (queryFn o)}
    s message :
  query_reachable o s → failureCount s = 0 ∧ status s ≠ Errored message.
Proof.
  intros [Hf Hs]%query_reachable_unfailed; [|done]. split; [done|].
  intros Hm. by rewrite Hm in Hs.
Qed.

(** What the class excludes: with a function that rejects, the library
    retries three times and then reports the error. *)
Theorem rejecting_fails message net :
  let o := {| queryKey := [js "image-data"];
              queryFn := λ _ _, Rejects message; rest := no_options |} in
  let s := query_run o (mount o true) (replicate 4 (Settles net)) in
  status s = Errored message ∧ failureCount s = 4.
Proof. done. Qed.

(** C29: the query never fails and never retries: [getImageData] catches
    the failure of either request, so in every state of the page the
    count of failures is zero, the status is not [error], and the red box
    is not rendered. *)
Theorem app_never_fails a message :
  app_reachable lower a →
  failureCount a.2 = 0 ∧ status a.2 ≠ Errored message
  ∧ app_render a ≠ ErrorBox message.
Proof.
  intros (_ & Hq & [Hf Hs]%query_reachable_unfailed)%app_reachable_inv;
    [|apply getImageData_fn_Resolving].
  unfold app_render, render. rewrite Hq.
  by destruct (status a.2), (isFetching a.2).
Qed.

(** C25: the page with its query is the page and the session running side
    by side: after any interleaving of keystrokes, milliseconds and events
    of the query, the session is where its own events alone take it, and
    the page is where the keystrokes and the milliseconds alone take it,
    holding the status of the session as its result. *)
Theorem app_run_interleaving a evs :
  app_reachable lower a →
  let s := query_run (useImageData HomePage_options) a.2 (query_events evs) in
  app_run lower a evs
  = (settle (run lower a.1 (page_events evs)) (status s), s).
Proof.
  intros (_ & Hq & _)%app_reachable_inv. by apply app_run_split.
Qed.

(** No race between the user and the network: two interleavings of the
    same keystrokes and milliseconds with the same events of the query
    end in the same state, so that what is shown once the listings have
    arrived and the user has stopped typing does not depend on which
    came first. *)
Theorem app_race_free a evs1 evs2 :
  app_reachable lower a →
  page_events evs1 = page_events evs2 →
  query_events evs1 = query_events evs2 →
  app_run lower a evs1 = app_run lower a evs2.
Proof.
  intros (_ & Hq & _)%app_reachable_inv Hp Hs.
  by rewrite !app_run_split, Hp, Hs by done.
Qed.

(** C26: the running page is blind to the builtin methods: two pages that
    hold results with the same view, with sessions in realms that differ
    at most in what earlier listings wrote on the builtin methods, render
    the same tree after the same events, refetches included. *)
Theorem app_blind_to_methods inter_className a1 a2 evs :
  a1 ≡ a2 →
  let a1' := app_run lower a1 evs in
  let a2' := app_run lower a2 evs in
  HomePage_tree inter_className a1'.1 (isFetching a1'.2)
  = HomePage_tree inter_className a2'.1 (isFetching a2'.2).
Proof.
  intros Ha a1' a2'.
  destruct (app_run_proper lower _ _ Ha evs _ eq_refl) as [Hst Hs].
  by apply HomePage_tree_proper; [|apply isFetching_proper].
Qed.

(** [refetchOnWindowFocus: false] of line 14: giving the window the
    focus changes nothing in any session of the page; with the options
    left out, as the default [{}] of [useImageData] does, it starts a
    fetch in every idle session. *)
Theorem focus_never_refetches s :
  query_handle (useImageData HomePage_options) s Focus = s
  ∧ (fetchStatus s = Idle →
     fetchStatus (query_handle (useImageData no_options) s Focus)
     = if isOnline s then Fetching else Paused).
Proof.
  split; [done|]. simpl. unfold refetch. intros ->. done.
Qed.

(** The page loads: mounted online it shows the grey box; when the
    function settles, whatever the two requests gave, it shows the grid
    with a card for every key of the data, in the order of
    [Object.keys]. *)
Theorem load_online net :
  let data := (getImageData pristine (net PNG_URL) (net SVG_URL)).1 in
  app_render (app_mount true) = Loading
  ∧ app_render (app_run lower (app_mount true) [Query (Settles net)])
    = Grid (card data <$> own_keys data).
Proof.
  split; [done|]. unfold app_run, app_mount. cbn [foldl app_handle].
  cbn [query_handle mount useImageData is_enabled HomePage_options rest
       enabled default]. unfold start_fetch, settles. cbn [fetchStatus].
  rewrite decide_True by done. cbn [queryFn realm].
  by rewrite getImageData_fn_Resolves.
Qed.

(** Every fetch ends at its first settling: in a state of the page in
    which the function is running, its settling gives the status
    [success] with the data of [getImageData] in the realm as the
    session has it, leaves the session idle, and hands the realm that the
    call leaves to the next one. *)
Theorem settles_succeeds a net :
  app_reachable lower a → fetchStatus a.2 = Fetching →
  let a' := app_handle lower a (Query (Settles net)) in
  let data := (getImageData (realm a.2) (net PNG_URL) (net SVG_URL)).1 in
  query a'.1 = Succeeded data ∧ fetchStatus a'.2 = Idle
  ∧ realm a'.2 = realm_after data.
Proof.
  destruct a as [st s]. intros _ Hf. simpl in *. unfold settles.
  rewrite decide_True by done. cbn [queryFn useImageData].
  by rewrite getImageData_fn_Resolves.
Qed.

(** C30: a page that loads offline is blank: mounted offline, the page
    shows neither the grey box nor the grid nor an error, whatever the
    user types and however long they wait, until the browser is online;
    then it shows the grey box. *)
Theorem load_offline evs :
  Forall (λ ev, ev ≠ Query Online) evs →
  app_render (app_run lower (app_mount false) evs) = Blank
  ∧ app_render (app_run lower (app_mount false) (evs ++ [Query Online]))
    = Loading.
Proof.
  intros Hevs. rewrite app_run_app.
  destruct (app_run_offline lower (app_mount false) evs Hevs) as [Hs Hq];
    [done..|].
  destruct (app_run _ _ _) as [st s]. simpl in *. subst s.
  unfold app_render, render. simpl. by rewrite Hq.
Qed.

(** C31: the pollution of [Object.prototype] outlives the data: once a
    call of [getImageData] has created [Object.prototype.svg], every later
    state of the session holds data under a polluted prototype, whatever
    the later listings contain. *)
Theorem pollution_persists options s (qevs : list QueryEvent) :
  query_reachable (useImageData options) s →
  is_Some (realm_svg (realm s)) →
  ∃ data, status (query_run (useImageData options) s qevs) = Succeeded data
        ∧ is_Some (polluted_svg data).
Proof.
  intros Hs Hp. apply (query_run_reachable _ _ qevs) in Hs.
  apply (query_run_polluted options _ qevs) in Hp.
  apply query_reachable_session_data in Hs as [_ Hd].
  destruct (status _) as [| |data]; [|done|].
  - rewrite Hd in Hp. by destruct Hp.
  - destruct Hd as [Hd _]. rewrite Hd in Hp. by exists data.
Qed.

(** A refetch shows what an earlier listing left: after a listing
    with the name ["__proto__.svg"], a reconnection and a second, clean
    listing with one icon, a search for ["s"] shows a card for ["svg"],
    which is no file of the listing. *)
Theorem refetch_shows_pollution :
  let polluted := net_of [] [mkAnchor (js "__proto__.svg") (Some (js "/x"))] in
  let listing := [mkAnchor (js "plex.png") (Some (js "/png/plex.png"))] in
  hazard_free (parseSoup listing)
  ∧ app_render (app_run toLowerCase (app_mount true)
      ([Query (Settles polluted); Query Offline; Query Online;
        Query (Settles (net_of listing [])); Typed (js "s")]
       ++ replicate DEBOUNCE_MS Millisecond))
    = Grid [{| card_key := js "svg"; png_disabled := true;
               svg_disabled := false;
               card_src := Some (js "https://cdn.jsdelivr.net/x") |}].
Proof.
  split; [apply (bool_decide_unpack _)|]; vm_compute; [exact I|reflexivity].
Qed.

(** [App] keeps its client: a render after the first finds in the
    provider every query that the client held, with its session, whatever
    the props of the page. *)
Theorem App_keeps_client (online : bool)
    (client : gmap (list JsString) Session) pageProps key s :
  client !! key = Some s →
  App online (Some client) pageProps !! key = Some s.
Proof. apply hydrate_lookup. Qed.

(** The first render: the page, whose props have no dehydrated state,
    finds no query in the client of [App] and mounts a new one; had the
    props carried the data under the key [['image-data']], the page would
    start with them and refetch. *)
Theorem App_first_render online data :
  useQuery_mount (useImageData HomePage_options) online
    (App online None {| dehydratedState := None |})
  = mount (useImageData HomePage_options) online
  ∧ useQuery_mount (useImageData HomePage_options) online
      (App online None
         {| dehydratedState := Some [([js "image-data"], data)] |})
    = start_fetch (hydrated online data).
Proof.
  split; [done|]. unfold useQuery_mount, App, hydrate. simpl.
  by rewrite lookup_empty, lookup_insert_eq.
Qed.

End query_theorems.

Lemma demo_app_reachable :
  app_reachable toLowerCase
    (app_run toLowerCase (app_mount true)
       [Query (Settles (net_of demo_png demo_svg)); Typed (js "p")]).
Proof. apply app_run_reachable. constructor. Defined.

Lemma app_refines_page_witness :
  let a := app_run toLowerCase (app_mount true)
             [Query (Settles (net_of demo_png demo_svg)); Typed (js "p")] in
  page_reachable toLowerCase a.1 ∧ query a.1 = status a.2.
Proof. exact (app_refines_page toLowerCase _ demo_app_reachable). Defined.

Lemma app_run_interleaving_witness :
  let net := net_of demo_png demo_svg in
  app_run toLowerCase (app_mount true)
    ([Typed (js "p"); Query (Settles net)] ++ replicate DEBOUNCE_MS Millisecond)
  = (settle (run toLowerCase mounted
               (Change (js "p") :: replicate DEBOUNCE_MS Tick))
       (Succeeded (getImageData pristine (Fulfilled demo_png)
                     (Fulfilled demo_svg)).1),
     query_run (useImageData HomePage_options)
       (mount (useImageData HomePage_options) true) [Settles net]).
Proof.
  intros net.
  rewrite (app_run_interleaving toLowerCase (app_mount true)
             ([Typed (js "p"); Query (Settles net)]
              ++ replicate DEBOUNCE_MS Millisecond)
             (app_reachable_mount _ true)).
  reflexivity.
Defined.

(** A page that holds the empty object, in a realm as given. *)
Definition demo_loaded (realm : Realm) : HomePage * Session :=
  (settle mounted (Succeeded (empty_store realm)),
   {| status := Succeeded (empty_store realm); fetchStatus := Idle;
      failureCount := 0; isOnline := true; realm := realm; logged := [] |}).

Lemma demo_loaded_equiv : demo_loaded demo_method_realm ≡ demo_loaded pristine.
Proof.
  assert (empty_store demo_method_realm ≡ empty_store pristine) as Hd
    by by apply up_to_methods_same_view.
  split; repeat split; first [apply Hd|reflexivity].
Defined.

Lemma app_blind_to_methods_witness :
  let evs := [Typed (js "p"); Query Offline; Query Online;
              Query (Settles (net_of demo_png demo_svg))] in
  let a1 := app_run toLowerCase (demo_loaded demo_method_realm) evs in
  let a2 := app_run toLowerCase (demo_loaded pristine) evs in
  HomePage_tree [] a1.1 (isFetching a1.2)
  = HomePage_tree [] a2.1 (isFetching a2.2).
Proof.
  intros evs. exact (app_blind_to_methods toLowerCase [] _ _ evs
                       demo_loaded_equiv).
Defined.

Lemma app_race_free_witness :
  let net := net_of demo_png demo_svg in
  app_run toLowerCase (app_mount true)
    [Typed (js "p"); Millisecond; Query (Settles net)]
  = app_run toLowerCase (app_mount true)
      [Query (Settles net); Typed (js "p"); Millisecond].
Proof.
  exact (app_race_free toLowerCase (app_mount true) _ _
           (app_reachable_mount _ true) eq_refl eq_refl).
Defined.

Lemma app_never_fails_witness :
  let a := app_run toLowerCase (app_mount true)
             [Query (Settles (net_of demo_png demo_svg)); Typed (js "p")] in
  failureCount a.2 = 0 ∧ status a.2 ≠ Errored (js "Network Error")
  ∧ app_render a ≠ ErrorBox (js "Network Error").
Proof. exact (app_never_fails toLowerCase _ _ demo_app_reachable). Defined.

Lemma settles_succeeds_witness :
  let a := app_mount true in
  let a' := app_handle toLowerCase a
              (Query (Settles (net_of demo_png demo_svg))) in
  let data := (getImageData (realm a.2) (Fulfilled demo_png)
                 (Fulfilled demo_svg)).1 in
  query a'.1 = Succeeded data ∧ fetchStatus a'.2 = Idle
  ∧ realm a'.2 = realm_after data.
Proof.
  exact (settles_succeeds toLowerCase (app_mount true)
           (net_of demo_png demo_svg) (app_reachable_mount _ true) eq_refl).
Defined.

Lemma load_offline_witness :
  app_render (app_run toLowerCase (app_mount false)
                [Typed (js "p"); Millisecond; Query Focus]) = Blank
  ∧ app_render (app_run toLowerCase (app_mount false)
                  ([Typed (js "p"); Millisecond; Query Focus]
                   ++ [Query Online])) = Loading.
Proof.
  apply (load_offline toLowerCase [Typed (js "p"); Millisecond; Query Focus]).
  repeat constructor; discriminate.
Defined.

Lemma demo_polluted_reachable :
  query_reachable (useImageData HomePage_options)
    (query_run (useImageData HomePage_options)
       (mount (useImageData HomePage_options) true)
       [Settles (net_of [] [mkAnchor (js "__proto__.svg") (Some (js "/x"))])]).
Proof. apply query_run_reachable. constructor. Defined.

Lemma pollution_persists_witness :
  ∃ data,
    status (query_run (useImageData HomePage_options)
              (query_run (useImageData HomePage_options)
                 (mount (useImageData HomePage_options) true)
                 [Settles (net_of []
                    [mkAnchor (js "__proto__.svg") (Some (js "/x"))])])
              [Offline; Online; Settles (net_of demo_png [])])
    = Succeeded data
    ∧ is_Some (polluted_svg data).
Proof.
  apply (pollution_persists HomePage_options _ _ demo_polluted_reachable).
  vm_compute. by eexists.
Defined.

Lemma App_keeps_client_witness :
  App true (Some {[ [js "image-data"] := hydrated true (empty_store pristine) ]})
    {| dehydratedState := Some [([js "image-data"], empty_store pristine);
                                ([js "other"], empty_store pristine)] |}
    !! [js "image-data"]
  = Some (hydrated true (empty_store pristine)).
Proof. apply App_keeps_client, lookup_singleton_eq. Defined.
