(* ===== verification/Browser.v ===== *)
(** * The page in the browser: the components together

    What the user can do to the page goes through the tree that it
    renders: typing is a change of the input of the tree
    ([src/src/pages/index.tsx] 104-113), a click is a click on one of the
    buttons that the tree has at that moment (138-151).  This file puts
    the components together: the page with the session of its query
    ([Query]), the tree ([Dom]), and one [CopyState] ([Copy]) for each
    button that is mounted, under the identity that React gives it: the
    key of its card and its extension.

    A step re-renders: the buttons of cards that the new tree does not
    have are unmounted, the others keep their text and their timers, as
    React keeps the DOM node of an element whose key stays.  The
    clipboard of the system is what the last successful click wrote.

    The events of the browser are inputs: what is typed, which button is
    clicked and how [writeText] settles, the passing of a millisecond, and
    the events of the query. *)

From S2P Require Import Prelude JsString Matcher JsObject ImageData Listing.
From S2P Require Import Page Copy Async View Dom Observe Query.
From stdpp Require Import gmap.

(** ** Definitions *)

Record Browser : Type := mkBrowser {
  app : HomePage * Session;
  (** the mounted buttons that were clicked, by key and extension *)
  buttons : gmap (JsString * JsString) CopyState;
  system_clipboard : option JsString;
}.

Inductive BrowserEvent : Type :=
  | Types (value : JsString)
  | Clicks (n : Node) (res : WriteResult)
  | Passes
  | Happens (ev : QueryEvent).

(** The identity of a button: the arguments of its [copyHandler], lines
    140 and 147. *)
Definition button_id (n : Node) : option (JsString * JsString) :=
  match get_prop "onClick" n with
  | Some (VOnClick name ext) => Some (name, ext)
  | _ => None
  end.

Section browser.
Context (lower : JsString → JsString) (inter_className : JsString).

(** What the page renders, lines 67-170. *)
Definition tree_of (a : HomePage * Session) : Node :=
  HomePage_tree inter_className a.1 (isFetching a.2).

Definition button_ids (a : HomePage * Session)
    : list (JsString * JsString) :=
  omap button_id (by_tag tag_button (tree_of a)).

(** The page renders again: the buttons that are gone are unmounted. *)
Definition rerender (b : Browser) (a : HomePage * Session) : Browser :=
  {| app := a;
     buttons := filter (λ kv, kv.1 ∈ button_ids a) (buttons b);
     system_clipboard := system_clipboard b |}.

(** A click on the element [n] of the tree with the outcome [res] of
    [writeText], lines 52-65 and 138-151. *)
Definition clicks (b : Browser) (n : Node) (res : WriteResult) : Browser :=
  match button_id n with
  | Some id =>
      let st := default (rendered (text_content n)) (buttons b !! id) in
      let st' := fire_click n st res in
      {| app := app b; buttons := <[id := st']> (buttons b);
         system_clipboard :=
           if bool_of (get_prop "disabled" n) then system_clipboard b
           else match res with
                | Written => clipboard st'
                | _ => system_clipboard b
                end |}
  | None => b
  end.

(** A millisecond passes for the page and for every mounted button. *)
Definition passes (b : Browser) : Browser :=
  rerender
    {| app := app b;
       buttons := map_imap (λ id st, Some (elapsed id.2 1 st)) (buttons b);
       system_clipboard := system_clipboard b |}
    (app_handle lower (app b) Millisecond).

Definition browser_handle (b : Browser) (ev : BrowserEvent) : Browser :=
  match ev with
  | Types value =>
      match by_tag tag_input (tree_of (app b)) with
      | [n] => rerender b (fire_change n (app b).1 value, (app b).2)
      | _ => b
      end
  | Clicks n res => clicks b n res
  | Passes => passes b
  | Happens ev => rerender b (app_handle lower (app b) (Query ev))
  end.

Definition browser_run (b : Browser) (evs : list BrowserEvent) : Browser :=
  foldl browser_handle b evs.

(** An event can happen when what it acts on is there: a click needs a
    button of the tree as it is. *)
Definition valid (b : Browser) (ev : BrowserEvent) : Prop :=
  match ev with
  | Clicks n _ => n ∈ by_tag tag_button (tree_of (app b))
  | _ => True
  end.

(** The events of the browser as the page and its query see them: a
    click is none of theirs. *)
Definition app_events (evs : list BrowserEvent) : list AppEvent :=
  omap (λ ev, match ev with
              | Types value => Some (Typed value)
              | Passes => Some Millisecond
              | Happens ev => Some (Query ev)
              | Clicks _ _ => None
              end) evs.

(** Browsers that show the same: the same buttons and clipboard, and
    pages and sessions that cannot be told apart. *)
#[export] Instance browser_equiv : Equiv Browser := λ b1 b2,
  app b1 ≡ app b2 ∧ buttons b1 = buttons b2
  ∧ system_clipboard b1 = system_clipboard b2.

Definition loaded (online : bool) : Browser :=
  {| app := app_mount online; buttons := ∅; system_clipboard := None |}.

Inductive browser_reachable : Browser → Prop :=
  | browser_reachable_loaded online : browser_reachable (loaded online)
  | browser_reachable_step b ev :
      browser_reachable b → valid b ev →
      browser_reachable (browser_handle b ev).

(** The invariant of the system. *)
Record browser_inv (b : Browser) : Prop := mk_browser_inv {
  inv_app : app_reachable lower (app b);
  inv_mounted : ∀ id st,
    buttons b !! id = Some st → id ∈ button_ids (app b);
  inv_button : ∀ id st,
    buttons b !! id = Some st →
    ∃ f, id.2 = ext_of f ∧ copy_inv id.1 id.2 (label_of f) st;
  inv_clipboard : ∀ text,
    system_clipboard b = Some text →
    ∃ key f, text = clipboard_text key (ext_of f);
}.

End browser.

(** ** The buttons of the tree *)

Section buttons.
Context (inter_className : JsString).
Implicit Types (a : HomePage * Session) (n : Node) (f : Field).
Implicit Types (key : JsString) (data : Store).

Lemma elem_of_tree_buttons a n :
  n ∈ by_tag tag_button (tree_of inter_className a)
  ↔ ∃ data key f, query a.1 = Succeeded data ∧ key ∈ shown a.1
                  ∧ n = button_node data key f.
Proof.
  unfold tree_of. rewrite HomePage_tree_buttons.
  destruct (query a.1) as [| |data];
    [split; [by intros ?%elem_of_nil|by intros (? & ? & ? & ? & _)]..|].
  rewrite elem_of_shown_buttons. split.
  - intros (k & f & ? & ->). by exists data, k, f.
  - intros (? & k & f & [= <-] & ? & ->). by exists k, f.
Qed.

Lemma elem_of_button_ids a key f data :
  query a.1 = Succeeded data → key ∈ shown a.1 →
  (key, ext_of f) ∈ button_ids inter_className a.
Proof.
  intros Hq Hk. unfold button_ids. apply list_elem_of_omap.
  exists (button_node data key f). split; [|done].
  apply elem_of_tree_buttons. by exists data, key, f.
Qed.

Lemma label_of_ne_Copied f : label_of f ≠ js "Copied!".
Proof. by destruct f. Qed.

End buttons.

(** ** The invariant *)

Section invariant.
Context (lower : JsString → JsString) (inter_className : JsString).
Implicit Types (b : Browser) (a : HomePage * Session) (ev : BrowserEvent).
Implicit Types (n : Node) (res : WriteResult) (st : CopyState).

Abbreviation inv := (browser_inv lower inter_className) (only parsing).

Lemma rerender_inv b a :
  inv b → app_reachable lower a → inv (rerender inter_className b a).
Proof.
  intros [_ _ Hb Hc] Ha. split; simpl; [done| |..|done].
  - by intros id st [_ ?]%map_lookup_filter_Some.
  - intros id st [? _]%map_lookup_filter_Some. eauto.
Qed.

(** A click on a button of the tree. *)
Lemma clicks_button_node b data key f res :
  clicks b (button_node data key f) res
  = let st := default (rendered (label_of f))
                (buttons b !! (key, ext_of f)) in
    {| app := app b;
       buttons := <[(key, ext_of f) := click (card data key) f st res]>
                    (buttons b);
       system_clipboard :=
         if disabled (card data key) f then system_clipboard b
         else match res with
              | Written => Some (clipboard_text key (ext_of f))
              | _ => system_clipboard b
              end |}.
Proof.
  unfold clicks. change (button_id _) with (Some (key, ext_of f)).
  cbv beta iota zeta.
  rewrite button_node_text, button_node_click, button_node_disabled.
  unfold click. by destruct (disabled _ _), res.
Qed.

Lemma clicks_inv b n res :
  inv b → valid inter_className b (Clicks n res) → inv (clicks b n res).
Proof.
  intros [Ha Hm Hb Hc] (data & key & f & Hq & Hk & ->)%elem_of_tree_buttons.
  rewrite clicks_button_node.
  assert (copy_inv key (ext_of f) (label_of f)
            (default (rendered (label_of f))
               (buttons b !! (key, ext_of f)))) as Hst.
  { destruct (buttons b !! _) as [st|] eqn:Hbs; simpl;
      [|apply rendered_inv, label_of_ne_Copied].
    destruct (Hb _ _ Hbs) as (f' & Hf & ?). simpl in Hf.
    by replace f' with f in * by (by destruct f, f'). }
  split; simpl; [done|..].
  - intros id st [[<- _]|[_ ?]]%lookup_insert_Some; [|by eauto].
    by eapply elem_of_button_ids.
  - intros id st [[<- <-]|[_ ?]]%lookup_insert_Some; [|by eauto].
    exists f. split; [done|]. unfold click.
    destruct (disabled _ _); [done|by apply copyHandler_inv].
  - intros text. destruct (disabled _ _); [by apply Hc|].
    destruct res; [|by apply Hc..]. intros [= <-]. eauto.
Qed.

Lemma passes_inv b : inv b → inv (passes lower inter_className b).
Proof.
  intros [Ha Hm Hb Hc]. apply rerender_inv; [|by constructor].
  split; simpl; [done| | |done].
  - intros id st. rewrite map_lookup_imap.
    destruct (buttons b !! id) eqn:Hbs; [|done]. eauto.
  - intros id st. rewrite map_lookup_imap.
    destruct (buttons b !! id) as [st0|] eqn:Hbs; [|done].
    intros [= <-]. destruct (Hb _ _ Hbs) as (f & ? & ?).
    exists f. split; [done|]. by apply elapsed_inv.
Qed.

Lemma browser_handle_inv b ev :
  inv b → valid inter_className b ev →
  inv (browser_handle lower inter_className b ev).
Proof.
  intros Hb Hev. pose proof Hb as [Ha _ _ _].
  destruct ev as [v|n res| |ev]; cbn [browser_handle];
    [|by apply clicks_inv|by apply passes_inv
     |apply rerender_inv; [done|by constructor]].
  unfold tree_of. rewrite HomePage_tree_input.
  apply rerender_inv; [done|]. pose proof (app_reachable_step _ _ (Typed v) Ha).
  by destruct (app b).
Qed.

Lemma browser_reachable_inv b :
  browser_reachable lower inter_className b → inv b.
Proof.
  induction 1 as [online|b ev _ IH Hev]; [|by apply browser_handle_inv].
  split; simpl; [constructor|done..].
Qed.

(** *** Time without a pending debounce *)

Lemma passes_quiet b :
  inv b → timeout (app b).1 = None →
  passes lower inter_className b
  = {| app := app b;
       buttons := map_imap (λ id st, Some (elapsed id.2 1 st)) (buttons b);
       system_clipboard := system_clipboard b |}.
Proof.
  intros [_ Hm _ _] Ht. unfold passes, rerender, app_handle. simpl.
  destruct (app b) as [st s] eqn:Ha. simpl in *.
  unfold tick. rewrite Ht. f_equal. apply map_filter_id.
  intros id cst. rewrite map_lookup_imap.
  destruct (buttons b !! id) eqn:Hbs; [|done]. intros _. simpl. eauto.
Qed.

Lemma passes_n_quiet b m id st :
  inv b → timeout (app b).1 = None → buttons b !! id = Some st →
  let b' := browser_run lower inter_className b (replicate m Passes) in
  app b' = app b ∧ system_clipboard b' = system_clipboard b
  ∧ buttons b' !! id = Some (elapsed id.2 m st).
Proof.
  revert b st. induction m as [|m IH]; intros b st Hb Ht Hbs; simpl.
  - destruct (Hb.(inv_button _ _ _) _ _ Hbs) as (f & _ & Hst).
    by rewrite (elapsed_0 _ _ (copy_inv_pos _ _ _ _ Hst)).
  - pose proof (passes_inv b Hb) as Hb'. rewrite passes_quiet in * by done.
    destruct (IH _ (elapsed id.2 1 st) Hb' Ht) as (-> & -> & ->).
    { simpl. by rewrite map_lookup_imap, Hbs. }
    by rewrite elapsed_add.
Qed.

(** *** Typing and time, seen by the page *)

Lemma browser_run_cons b ev evs :
  browser_run lower inter_className b (ev :: evs)
  = browser_run lower inter_className
      (browser_handle lower inter_className b ev) evs.
Proof. done. Qed.

Lemma types_app b v :
  app (browser_handle lower inter_className b (Types v))
  = (onChange (app b).1 v, (app b).2).
Proof.
  cbn [browser_handle]. unfold tree_of. by rewrite HomePage_tree_input.
Qed.

Lemma clicks_app b n res :
  app (clicks b n res) = app b.
Proof. unfold clicks. by destruct (button_id n). Qed.

(** The page and its query in the browser are the page and its query: the
    buttons and the clipboard are beside them. *)
Lemma browser_run_app b evs :
  app (browser_run lower inter_className b evs)
  = app_run lower (app b) (app_events evs).
Proof.
  revert b. induction evs as [|ev evs IH]; intros b; [done|].
  rewrite browser_run_cons, IH. destruct ev as [v|n res| |ev].
  - by rewrite types_app; destruct (app b).
  - cbn [browser_handle]. by rewrite clicks_app.
  - done.
  - done.
Qed.

Lemma passes_n_app b m :
  app (browser_run lower inter_className b (replicate m Passes))
  = (run lower (app b).1 (replicate m Tick), (app b).2).
Proof.
  revert b. induction m as [|m IH]; intros b; [simpl; by destruct (app b)|].
  cbn [replicate]. rewrite browser_run_cons, IH. cbn [browser_handle].
  unfold passes. cbn [app rerender]. by destruct (app b).
Qed.

Lemma types_passes_app b v m :
  app (browser_run lower inter_className b (Types v :: replicate m Passes))
  = (run lower (app b).1 (Change v :: replicate m Tick), (app b).2).
Proof. by rewrite browser_run_cons, passes_n_app, types_app. Qed.

Lemma browser_inv_page_inv `{!LowerCase lower} b :
  inv b → page_inv lower (app b).1.
Proof.
  intros [(Hst & _)%app_reachable_inv _ _ _].
  by apply reachable_inv, page_reachable_reachable.
Qed.

(** A keystroke and then 750 ms of silence. *)
Lemma types_quiet_app `{!LowerCase lower} b v :
  inv b →
  app (browser_run lower inter_className b
         (Types v :: replicate DEBOUNCE_MS Passes))
  = ({| inputValue := v; searchString := lower v; timeout := None;
        query := query (app b).1 |}, (app b).2).
Proof.
  intros Hb. rewrite types_passes_app.
  by rewrite run_change_quiet by by apply browser_inv_page_inv.
Qed.

(** The page loaded online, after its two requests. *)
Lemma loaded_settles net :
  let b := browser_handle lower inter_className (loaded true)
             (Happens (Settles net)) in
  inv b
  ∧ query (app b).1
    = Succeeded (getImageData pristine (net PNG_URL) (net SVG_URL)).1.
Proof.
  split.
  - apply browser_handle_inv; [|done].
    apply browser_reachable_inv, browser_reachable_loaded.
  - exact (proj1 (settles_succeeds lower (app_mount true) net
                    (app_reachable_mount _ true) eq_refl)).
Qed.

End invariant.

(** ** Browsers that show the same *)

Section browser_equiv.
Context (lower : JsString → JsString) (inter_className : JsString).
Implicit Types (b : Browser) (a : HomePage * Session) (ev : BrowserEvent).

#[export] Instance tree_of_proper :
  Proper ((≡) ==> (=)) (tree_of inter_className).
Proof.
  intros a1 a2 [Hst Hs]. unfold tree_of.
  by apply HomePage_tree_proper; [|apply isFetching_proper].
Qed.

#[export] Instance rerender_proper :
  Proper ((≡) ==> (≡) ==> (≡)) (rerender inter_className).
Proof.
  intros b1 b2 (_ & Hb & Hc) a1 a2 Ha. unfold rerender, button_ids.
  split_and!; simpl; [done| |done].
  by rewrite Hb, (tree_of_proper _ _ Ha).
Qed.

#[export] Instance browser_handle_proper :
  Proper ((≡) ==> (=) ==> (≡)) (browser_handle lower inter_className).
Proof.
  intros b1 b2 Hb ev ? <-. pose proof Hb as (Ha & Hbs & Hc).
  destruct ev as [v|n res| |ev]; cbn [browser_handle].
  - rewrite (tree_of_proper _ _ Ha).
    destruct (by_tag _ _) as [|n [|]]; [done| |done].
    apply rerender_proper; [done|]. destruct Ha as [Hst Hs].
    split; [|done]. unfold fire_change. simpl.
    destruct (get_prop _ _) as [[]|]; try done. by apply onChange_proper.
  - unfold clicks. destruct (button_id n); [|done].
    split_and!; simpl; by rewrite ?Hbs, ?Hc.
  - unfold passes. apply rerender_proper; [|by apply app_handle_proper].
    split_and!; simpl; by rewrite ?Hbs.
  - apply rerender_proper; [done|by apply app_handle_proper].
Qed.

#[export] Instance browser_run_proper :
  Proper ((≡) ==> (=) ==> (≡)) (browser_run lower inter_className).
Proof.
  intros b1 b2 Hb evs ? <-. revert b1 b2 Hb.
  induction evs as [|ev evs IH]; intros b1 b2 Hb; [done|].
  rewrite !browser_run_cons. by apply IH, browser_handle_proper.
Qed.

End browser_equiv.

(** ** Theorems *)

Section browser_theorems.
Context (lower : JsString → JsString) (inter_className : JsString).
Implicit Types (b : Browser) (n : Node) (pngLinks svgLinks : list Anchor).

(** C19: the invariant of the page in the browser: in every state reached
    from the loaded page by typing, by clicks on buttons of the tree as it
    is, by time and by the events of the query, the page with its session
    is a state of the page with its query; every button that holds state
    is a button of the tree; its state satisfies the invariant of its
    [copyHandler] (its text is its label, ['Copied!'] or its upper-cased
    extension, its timers have between 1 and 1000 ms left); and the
    clipboard holds nothing or [`${key}.${ext}`] for a key and one of the
    two extensions. *)
Theorem browser_reachable_browser_inv b :
  browser_reachable lower inter_className b →
  browser_inv lower inter_className b.
Proof. apply browser_reachable_inv. Qed.

(** C21: from the listings to the clipboard: when the page holds the data
    that [getImageData] built from hazard-free listings, a click on an
    enabled button of the tree, with [writeText] succeeding, puts on the
    clipboard [`${key}.${ext}`] for a key of which the search string is a
    subsequence and for which the listing of that kind has a file named
    by the key and an extension that is ["." ++ ext] up to letter
    case. *)
Theorem click_copies_listed_file b n pngLinks svgLinks :
  hazard_free (parseSoup pngLinks) → hazard_free (parseSoup svgLinks) →
  query (app b).1 = Succeeded (getImageData pristine (Fulfilled pngLinks)
                                 (Fulfilled svgLinks)).1 →
  valid inter_className b (Clicks n Written) →
  bool_of (get_prop "disabled" n) = false →
  ∃ key f item ext,
    system_clipboard (browser_handle lower inter_className b
                        (Clicks n Written))
    = Some (clipboard_text key (ext_of f))
    ∧ searchString (app b).1 `sublist_of` key
    ∧ item ∈ parseSoup (match f with FPng => pngLinks | FSvg => svgLinks end)
    ∧ name item = key ++ ext
    ∧ ext =ᵢ (js "." ++ ext_of f).
Proof.
  intros Hp Hs Hq (data & key & f & Hq' & Hk & ->)%elem_of_tree_buttons.
  rewrite button_node_disabled. intros Hen. exists key, f.
  cbn [browser_handle]. rewrite clicks_button_node. cbn [system_clipboard].
  rewrite Hen. rewrite Hq in Hq'. injection Hq' as <-.
  unfold shown in Hk. rewrite Hq in Hk.
  pose proof (card_getImageData pngLinks svgLinks key) as Hcard.
  destruct (getImageData_refines_clean _ _ Hp Hs) as (d & Hd & Hc & Hm).
  rewrite Hd in *. cbn [fst] in *.
  rewrite dataFilter_clean_filter in Hk by done.
  apply list_elem_of_filter in Hk as [Hsub Hown].
  apply own_keys_elem_of, alist_get_is_Some in Hown as [e He].
  rewrite Hm in He. rewrite (Hcard e Hp Hs He) in Hen.
  destruct (spec_card_enabled_listed _ _ _ _ _ He Hen) as (item & ext & ?).
  by exists item, ext.
Qed.

(** The feedback of a click, in the browser: after a successful click
    on an enabled button of the tree, when no debounce is pending and
    nothing but time happens for one second, the page is as it was, the
    button shows its upper-cased extension again, none of its timers is
    pending, and the clipboard holds the file name of the button. *)
Theorem click_feedback_restores b n id :
  browser_reachable lower inter_className b →
  valid inter_className b (Clicks n Written) →
  bool_of (get_prop "disabled" n) = false →
  timeout (app b).1 = None → button_id n = Some id →
  let b' := browser_run lower inter_className
              (browser_handle lower inter_className b (Clicks n Written))
              (replicate COPIED_MS Passes) in
  app b' = app b
  ∧ system_clipboard b' = Some (clipboard_text id.1 id.2)
  ∧ ∃ st, buttons b' !! id = Some st
        ∧ Copy.innerText st = toUpperCase id.2 ∧ timeouts st = [].
Proof.
  intros Hb%browser_reachable_inv Hv Hen Ht Hid.
  pose proof (clicks_inv _ _ _ _ Written Hb Hv) as Hb'.
  apply elem_of_tree_buttons in Hv as (data & key & f & _ & _ & ->).
  injection Hid as <-. rewrite button_node_disabled in Hen.
  cbn [browser_handle] in *. rewrite clicks_button_node in *. simpl in Hb'.
  rewrite Hen in *. unfold click in *. rewrite Hen in *.
  destruct (passes_n_quiet _ _ _ COPIED_MS (key, ext_of f) _ Hb' Ht
              (lookup_insert_eq _ _ _)) as (-> & -> & ->).
  split_and!; [done..|]. eexists. split; [done|].
  destruct (Hb'.(inv_button _ _ _) _ _ (lookup_insert_eq _ _ _))
    as (f' & _ & Hst).
  apply copy_inv_le in Hst. simpl in *.
  rewrite (timers_all_due _ _ Hst), decide_True; [done|].
  apply Exists_app. right. by constructor.
Qed.

(** C22: the search, from the keystroke to the grid: in any state of the
    page in the browser that holds clean data, after the input is set to
    [v] and nothing but time happens for 750 ms, the input shows [v], the
    query is as it was, and the tree under the input is the grid of the
    cards of exactly the keys of the data of which the lower-cased [v] is
    a subsequence, in the order of the data. *)
Theorem search_shows_matches `{!LowerCase lower} b v data :
  browser_reachable lower inter_className b →
  query (app b).1 = Succeeded data → clean data →
  let b' := browser_run lower inter_className b
              (Types v :: replicate DEBOUNCE_MS Passes) in
  by_tag tag_input (tree_of inter_className (app b')) = [input_node v]
  ∧ query (app b').1 = Succeeded data
  ∧ view_of (results_node (app b').1 (isFetching (app b').2))
    = Some (Grid (card data
                    <$> filter (λ k, lower v `sublist_of` k) (own_keys data))).
Proof.
  intros Hb%browser_reachable_inv Hq Hc. cbv zeta.
  unfold tree_of. rewrite HomePage_tree_input, view_of_results.
  rewrite types_quiet_app by done. unfold render, shown.
  cbn [fst snd query inputValue searchString].
  by rewrite Hq, dataFilter_clean_filter.
Qed.

(** C20: from the two pages of the CDN to the grid: the page is loaded
    online, the two requests are answered with listing pages whose rows
    are hazard-free, the user types [v] and 750 ms pass.  Then the tree
    shows the grid; the keys of its cards are the keys of the data of
    which the lower-cased [v] is a subsequence, in the order of
    [Object.keys]; and each card is the one that the mapping from names
    to URLs of the two listings prescribes for its key. *)
Theorem listing_to_grid `{!LowerCase lower} h1 s1 h2 s2 pngLinks svgLinks v :
  no_listing h1 → no_listing h2 →
  hazard_free (parseSoup pngLinks) → hazard_free (parseSoup svgLinks) →
  let net := net_of (links_of (listing_page h1 s1 pngLinks))
               (links_of (listing_page h2 s2 svgLinks)) in
  let b := browser_run lower inter_className (loaded true)
             (Happens (Settles net) :: Types v
              :: replicate DEBOUNCE_MS Passes) in
  let data :=
    (getImageData pristine (Fulfilled pngLinks) (Fulfilled svgLinks)).1 in
  let m := image_map (parseSoup pngLinks) (parseSoup svgLinks) in
  ∃ cards,
    view_of (results_node (app b).1 (isFetching (app b).2))
    = Some (Grid cards)
    ∧ card_key <$> cards = subsequence_filter (own_keys data) (lower v)
    ∧ Forall (λ c, ∃ e, m !! card_key c = Some e
                        ∧ c = spec_card (card_key c) e) cards.
Proof.
  intros H1 H2 Hp Hs net b data m. subst net b.
  rewrite !links_of_page by done.
  destruct (loaded_settles lower inter_className
              (net_of pngLinks svgLinks)) as [Hb Hq].
  rewrite net_of_PNG, net_of_SVG in Hq.
  rewrite browser_run_cons, view_of_results.
  rewrite types_quiet_app by done. unfold render, shown.
  cbn [fst snd query inputValue searchString]. rewrite Hq.
  eexists. split; [done|]. by apply shown_cards_spec.
Qed.

(** The browser is blind to the builtin methods: browsers with the same
    buttons and clipboard, whose pages and sessions cannot be told apart,
    go through the same events with the same tree, the same buttons and
    the same clipboard. *)
Theorem browser_blind_to_methods b1 b2 evs :
  b1 ≡ b2 →
  let b1' := browser_run lower inter_className b1 evs in
  let b2' := browser_run lower inter_className b2 evs in
  tree_of inter_className (app b1') = tree_of inter_className (app b2')
  ∧ buttons b1' = buttons b2' ∧ system_clipboard b1' = system_clipboard b2'.
Proof.
  intros Hb b1' b2'.
  destruct (browser_run_proper lower inter_className _ _ Hb evs _ eq_refl)
    as (Ha & ? & ?).
  split; [by apply tree_of_proper|done].
Qed.

(** What the page renders does not depend on the order in which the
    keystrokes and the answers of the network arrive, nor on the clicks:
    two runs with the same keystrokes and milliseconds and the same events
    of the query render the same tree. *)
Theorem browser_order_irrelevant b evs1 evs2 :
  browser_reachable lower inter_className b →
  page_events (app_events evs1) = page_events (app_events evs2) →
  query_events (app_events evs1) = query_events (app_events evs2) →
  tree_of inter_className (app (browser_run lower inter_className b evs1))
  = tree_of inter_className (app (browser_run lower inter_className b evs2)).
Proof.
  intros [Ha _ _ _]%browser_reachable_inv Hp Hq.
  by rewrite !browser_run_app, (app_race_free lower _ _ _ Ha Hp Hq).
Qed.

(** A click in a page without clipboard: the handler throws before its
    chain exists, and nothing that the user can see changes: the page,
    the clipboard of the system, the text and the timers of the button,
    and no alert is shown. *)
Theorem click_without_clipboard b n id :
  valid inter_className b (Clicks n Unavailable) → button_id n = Some id →
  let b' := browser_handle lower inter_className b (Clicks n Unavailable) in
  app b' = app b ∧ system_clipboard b' = system_clipboard b
  ∧ buttons b' !! id
    = Some (default (rendered (text_content n)) (buttons b !! id)).
Proof.
  intros (data & key & f & _ & _ & ->)%elem_of_tree_buttons [= <-].
  cbn [browser_handle]. rewrite clicks_button_node. cbn [app buttons].
  rewrite button_node_text, lookup_insert_eq. unfold click, copyHandler.
  by destruct (disabled _ _).
Qed.

End browser_theorems.

Definition demo_browser : Browser :=
  foldl (browser_handle toLowerCase (js "inter")) (loaded true)
    [Happens (Settles (net_of demo_png demo_svg)); Types (js "P")].

Lemma demo_browser_reachable :
  browser_reachable toLowerCase (js "inter") demo_browser.
Proof. repeat (apply browser_reachable_step; [|done]). constructor. Defined.

Lemma browser_order_irrelevant_witness :
  let net := net_of demo_png demo_svg in
  tree_of (js "inter")
    (app (browser_run toLowerCase (js "inter") demo_browser
            [Types (js "pl"); Passes; Happens Offline; Happens Online;
             Happens (Settles net)]))
  = tree_of (js "inter")
      (app (browser_run toLowerCase (js "inter") demo_browser
              [Happens Offline; Types (js "pl"); Happens Online;
               Happens (Settles net); Passes])).
Proof.
  exact (browser_order_irrelevant toLowerCase (js "inter") demo_browser _ _
           demo_browser_reachable eq_refl eq_refl).
Defined.

Lemma browser_blind_to_methods_witness :
  let b r := {| app := demo_loaded r; buttons := ∅;
                system_clipboard := None |} in
  let evs := [Types (js "p"); Happens Offline; Happens Online;
              Happens (Settles (net_of demo_png demo_svg))] in
  let b1 := browser_run toLowerCase (js "inter") (b demo_method_realm) evs in
  let b2 := browser_run toLowerCase (js "inter") (b pristine) evs in
  tree_of (js "inter") (app b1) = tree_of (js "inter") (app b2)
  ∧ buttons b1 = buttons b2 ∧ system_clipboard b1 = system_clipboard b2.
Proof.
  intros b evs.
  apply (browser_blind_to_methods toLowerCase (js "inter")
           (b demo_method_realm) (b pristine) evs).
  split; [apply demo_loaded_equiv|done].
Defined.

Lemma browser_reachable_browser_inv_witness :
  browser_inv toLowerCase (js "inter") demo_browser.
Proof.
  exact (browser_reachable_browser_inv toLowerCase (js "inter") _
           demo_browser_reachable).
Defined.

Lemma demo_button_valid :
  valid (js "inter") demo_browser
    (Clicks (button_node (getImageData pristine (Fulfilled demo_png)
                            (Fulfilled demo_svg)).1 (js "plex") FPng)
       Written).
Proof.
  apply elem_of_tree_buttons. eexists _, (js "plex"), FPng.
  split_and!; [vm_compute; reflexivity| |done].
  vm_compute. apply list_elem_of_here.
Defined.

Lemma click_copies_listed_file_witness :
  ∃ key f item ext,
    system_clipboard
      (browser_handle toLowerCase (js "inter") demo_browser
         (Clicks (button_node (getImageData pristine (Fulfilled demo_png)
                                 (Fulfilled demo_svg)).1 (js "plex") FPng)
            Written))
    = Some (clipboard_text key (ext_of f))
    ∧ searchString (app demo_browser).1 `sublist_of` key
    ∧ item ∈ parseSoup (match f with FPng => demo_png | FSvg => demo_svg end)
    ∧ name item = key ++ ext
    ∧ ext =ᵢ (js "." ++ ext_of f).
Proof.
  apply (click_copies_listed_file toLowerCase (js "inter") demo_browser _
           demo_png demo_svg (proj1 demo_hazard_free) (proj2 demo_hazard_free));
    [vm_compute; reflexivity|apply demo_button_valid|vm_compute; reflexivity].
Defined.

Lemma demo_browser_quiet :
  browser_reachable toLowerCase (js "inter")
    (browser_run toLowerCase (js "inter") demo_browser
       (replicate DEBOUNCE_MS Passes)).
Proof.
  unfold browser_run. generalize DEBOUNCE_MS. intros m.
  generalize demo_browser_reachable. generalize demo_browser.
  induction m as [|m IH]; intros b Hb; [done|].
  apply IH. by apply browser_reachable_step.
Defined.

Lemma click_feedback_restores_witness :
  let b := browser_run toLowerCase (js "inter") demo_browser
             (replicate DEBOUNCE_MS Passes) in
  let n := button_node (getImageData pristine (Fulfilled demo_png)
                          (Fulfilled demo_svg)).1 (js "plex") FPng in
  let b' := browser_run toLowerCase (js "inter")
              (browser_handle toLowerCase (js "inter") b (Clicks n Written))
              (replicate COPIED_MS Passes) in
  app b' = app b
  ∧ system_clipboard b' = Some (clipboard_text (js "plex") (js "png"))
  ∧ ∃ st, buttons b' !! (js "plex", js "png") = Some st
        ∧ Copy.innerText st = toUpperCase (js "png") ∧ timeouts st = [].
Proof.
  apply (click_feedback_restores toLowerCase (js "inter") _ _
           (js "plex", js "png") demo_browser_quiet);
    [|vm_compute; reflexivity..].
  apply elem_of_tree_buttons. eexists _, (js "plex"), FPng.
  split_and!; [vm_compute; reflexivity| |done].
  vm_compute. apply list_elem_of_here.
Defined.

Lemma search_shows_matches_witness :
  let data := (getImageData pristine (Fulfilled demo_png)
                 (Fulfilled demo_svg)).1 in
  let b' := browser_run toLowerCase (js "inter") demo_browser
              (Types (js "PX") :: replicate DEBOUNCE_MS Passes) in
  by_tag tag_input (tree_of (js "inter") (app b')) = [input_node (js "PX")]
  ∧ query (app b').1 = Succeeded data
  ∧ view_of (results_node (app b').1 (isFetching (app b').2))
    = Some (Grid (card data
                    <$> filter (λ k, toLowerCase (js "PX") `sublist_of` k)
                          (own_keys data))).
Proof.
  apply (search_shows_matches toLowerCase (js "inter") demo_browser (js "PX")
           _ demo_browser_reachable); [vm_compute; reflexivity|].
  destruct (getImageData_refines_clean demo_png demo_svg
              (proj1 demo_hazard_free) (proj2 demo_hazard_free))
    as (d & -> & Hc & _).
  exact Hc.
Defined.

Lemma listing_to_grid_witness :
  let net := net_of (links_of (listing_page demo_heading (js "4 KB") demo_png))
               (links_of (listing_page [] (js "1 KB") demo_svg)) in
  let b := browser_run toLowerCase (js "inter") (loaded true)
             (Happens (Settles net) :: Types (js "PX")
              :: replicate DEBOUNCE_MS Passes) in
  let data :=
    (getImageData pristine (Fulfilled demo_png) (Fulfilled demo_svg)).1 in
  let m := image_map (parseSoup demo_png) (parseSoup demo_svg) in
  ∃ cards,
    view_of (results_node (app b).1 (isFetching (app b).2))
    = Some (Grid cards)
    ∧ card_key <$> cards
      = subsequence_filter (own_keys data) (toLowerCase (js "PX"))
    ∧ Forall (λ c, ∃ e, m !! card_key c = Some e
                        ∧ c = spec_card (card_key c) e) cards.
Proof.
  apply (listing_to_grid toLowerCase (js "inter") demo_heading (js "4 KB")
           [] (js "1 KB") demo_png demo_svg (js "PX"));
    [apply (bool_decide_unpack _); by vm_compute..
    |apply demo_hazard_free|apply demo_hazard_free].
Defined.
